(* ===== verification/_CoqProject ===== *)
-Q . S2P
Prelude.v
Effects.v
GoStrings.v
GoNet.v
Metadata.v
Json.v
World.v
HostLabel.v
Firewall.v
PortRules.v
RouteLocalnet.v
NftRules.v
Identity.v
HostPorts.v
Conntrack.v
HostNat.v
BinExec.v
CniGlue.v
Manager.v
StartHandler.v
Readiness.v
Locks.v
Events.v
LocalNet.v
CniConf.v
ArpSync.v
Syncers.v
Url.v
MetaClient.v
Main.v
Interface.v
Health.v
