(* ===== verification/Prelude.v ===== *)
(** * Network Plugin Manager: verification development

    The program is a daemon that runs on every host of a container platform. From
    the metadata service and Docker it keeps the host's firewall rules for published
    ports and overlay traffic, the network of the containers (CNI), and several
    kernel tables as the platform describes them. This library models the packages
    of the program file by file and proves what makes each of them correct.

    ** How the program is modelled

    A package that calls the outside is a program of [Effects.v]: a tree of calls
    whose executions are traces of calls with replies. [World.v] has one call for
    every operation of the metadata interface, the Docker client, the commands, the
    files, the network namespaces, netlink, the CNI library and the clock. Replies
    are arbitrary, so that a theorem over all executions covers every failure of a
    call; what a theorem needs of a reply is a hypothesis, with a concrete outside in
    its witness. [act] adds a watcher's state and Go's early return; an error is a
    value of [error], with [errors.Is] and wrapping. Go maps have no iteration order:
    every loop over a map asks a [MapRange], numbered by site, for an enumeration, and
    theorems hold for all of them. Integers of the code that can overflow are written
    with their wrap-around (Conntrack.wrap64); other ones are lengths and counters.

    ** Files and the code they model (below src/)

    - Prelude, Effects, World: errors, results, maps and sorting; programs, their
      executions and two predicate calculi ([wp], [hwp]); the calls of the packages.
    - GoStrings, GoNet, Json, Url: the functions of strings, strconv, net, net/netip,
      encoding/json and net/url the code uses.
    - Metadata, MetaClient: internal/metadata/types.go and client.go; one HTTP
      exchange is a call, redirects, limits, decoding, the wait and the stream of
      versions are modelled. Interface: the interface Client as a type class with
      httpClient as its instance, and the watchers linked with it.
    - HostLabel: internal/hostlabel/resolve.go. Identity: identity/identity.go.
      LocalNet: network/local.go.
    - Firewall: internal/firewall/backend.go, the choice of the firewall backend.
    - PortRules, RouteLocalnet, NftRules, HostPorts: hostports/watcher.go,
      route_localnet.go and nft.go: the rule set with its validation and renderings,
      the ownership of the route_localnet switches, and the watcher.
    - HostNat: hostnat/watcher.go, masquerading and the overlay's source NAT.
    - Conntrack: conntracksync/, the repair of tracked connections.
    - BinExec: binexec/watcher.go, the wrappers of the CNI drivers.
    - CniConf: cniconf/watcher.go and files.go, the CNI configuration files.
    - CniGlue: internal/cniglue/, running the plugins. Manager: network/manager.go,
      state.go and netns.go, the attachment of containers with its retries.
    - StartHandler: events/start_handler.go, a container's resolv.conf.
      Events: events/entry.go, event_router.go and network_manager_handler.go.
    - ArpSync: arpsync/watcher.go. Syncers (Modules MacSync, RouteSync, Reaper):
      macsync/, routesync/, reaper/.
    - Readiness: internal/readiness. Locks (Modules KeyLock, TryLock):
      internal/keylock and internal/trylock.
    - Main: main.go and internal/logsafe/value.go. Health: the report callback of
      main.go, which joins the turns of HostPorts and HostNat with Readiness.

    An operation keeps its Go name; a helper that names a part of a function (a loop
    body, an anonymous function, one branch) is declared next to it. Clients use the
    lower files as the code does: HostPorts and HostNat take the backend of Firewall
    and report to Readiness, Events runs the handlers of BinExec, StartHandler and
    Manager, Manager runs CniGlue, ArpSync and Syncers use LocalNet and Identity.

    ** What the theorems show

    - Nothing reaches the host unchecked: rule texts are installed only after a dry
      run of the same text (HostPorts.apply_ordered, HostNat.nat_apply_gated) and are
      read back as exactly the intended rules, so that metadata cannot inject a rule
      (PortRules.restore_payload_parsed, NftRules.nft_batch_parsed,
      HostNat.nat_rules_parsed, BinExec.wrapper_arguments); configuration files and
      wrappers are touched only in the owned form (CniConf.apply_config_safe,
      BinExec.apply_touches_own, Syncers.Reaper.reaper_removes).
    - State is right over histories: route_localnet switches, the readiness marker,
      the locks, the conntrack and neighbour tables after a repair, the retry counters
      (route_localnet_owned, marker_means_reconciled, keylock_exclusion,
      keylock_bounded_live, doSync_deletes, arp_table_repaired).
    - A turn of the manager refines one step of an abstract attach/detach machine
      (Manager.evaluate_refines); retries and waits end (Manager.retries_terminate,
      MetaClient.connection_wait_ends); events are all handled (Events.events_handled).
    - The firewall backend is the one Docker uses (Firewall.Detect_matches_docker and
      its companions); the platform's hook is found exactly when packets reach it
      (Firewall.platformHook_correct).
    - The metadata client stays with its service (MetaClient.request_confined), the
      watchers over it do what they do over the interface, so that their theorems
      hold of the linked program (Interface.metadata_served), and it publishes version
      changes (changes_published); the program starts its parts in order (Main.start_order).
    - Parsers and printers are inverse where the code relies on it (parsePortRule_spec,
      route_localnet_state_roundtrip, conntrack_line_parsed, resolv_conf_edited), and
      results do not depend on map order (desired_rules_order, provider_selected).

    ** Bounds and fuel

    Recursion that is not structural runs on fuel that is proved or seen to be enough:
    Firewall.traverse on the number of chains and jumps (platformHook_correct shows
    that the worklist is used up first), Json.parse_value on twice the text's length,
    GoNet.v6_groups on the eight groups of an address, Itoa on the bit size, and
    MetaClient.Do on five requests, which the redirect policy never exceeds
    (Do_exec). Endless loops (OnChange, the first loop of MacSync.syncNTimes, the
    turns of HostPorts.onChangeNoError and HostNat.onChangeNoError,
    MetaClient.waitForConnection without a deadline) take their number of rounds as
    an argument and theorems hold for all of it.

    ** Concurrency

    Callbacks and repairs that share a mutex are atomic turns in any order. The two
    lock packages themselves are step relations over threads; the manager's retries
    and the event router's workers are step relations whose steps are turns and
    handlers. A handler of the router is one step because each component it enters has
    a lock of its own.

    ** Not modelled

    - Log lines and debug output, and reasons of errors that nothing reads.
    - Vendored packages: their replies are calls. Parameters: how a marshalled result
      is built from an error ([error_data], network/state.go) and whether the CNI
      library accepts a configuration text ([plugin_conf]). The kernel's neighbour
      table in ArpSync replaces an entry of the same link and address, as netlink
      documents.
    - TLS, transport and connection settings of the HTTP client, and how net/http
      resolves a Location header; folding of letters beyond ASCII outside the two
      characters that fold with ASCII letters.
    - A container that Docker reports without a state: a nil pointer the code would
      follow is an error of the model (Manager); duplicate members of an nft listing,
      of which the model reads the last.
    - Tickers and goroutine starts around the modelled turns (Watch functions,
      refreshProviders, watchNativeState, repairBaseRulesNoError), the timeout that
      the event router only logs, command line parsing, tests and packaging. *)
From stdpp Require Export base tactics list gmap strings sorting fin_maps relations.
From Stdlib Require Export ZArith Ascii Lia.

#[export] Set Default Goal Selector "!".
#[export] Set Warnings "-register-all".

(** The errors of a component are values of one tree: a sentinel the code
    compares with [errors.Is], a formatted message, a message that wraps a
    cause ([%w]) and the result of [errors.Join]. *)
Inductive error :=
  | ErrSentinel (name : string)
  | Errorf (msg : string)
  | Wrapf (msg : string) (cause : error)
  | Joined (errs : list error).

(** Go's [errors.Is] against a sentinel. *)
Fixpoint errors_is (name : string) (e : error) : bool :=
  match e with
  | ErrSentinel n => String.eqb n name
  | Errorf _ => false
  | Wrapf _ c => errors_is name c
  | Joined es => existsb (errors_is name) es
  end.

Definition ErrNotExist : error := ErrSentinel "os.ErrNotExist".
Definition ErrNotFound : error := ErrSentinel "errdefs.ErrNotFound".
Definition is_not_exist (e : error) : bool := errors_is "os.ErrNotExist" e.
Definition is_not_found (e : error) : bool := errors_is "errdefs.ErrNotFound" e.

(** Go's [errors.Join]: nil errors are dropped, no error at all is nil. *)
Definition errors_join (es : list (option error)) : option error :=
  match omap id es with
  | [] => None
  | es' => Some (Joined es')
  end.

(** The (value, error) pair of a Go function whose value is only used when
    the error is nil. *)
Inductive result (A : Type) :=
  | Ok (a : A)
  | Err (e : error).
Arguments Ok {A} a.
Arguments Err {A} e.

#[export] Instance result_ret : MRet result := λ A a, Ok a.
#[export] Instance result_bind : MBind result := λ A B f m,
  match m with Ok a => f a | Err e => Err e end.

Definition wrap_err {A} (msg : string) (r : result A) : result A :=
  match r with Ok a => Ok a | Err e => Err (Wrapf msg e) end.

Definition ok {A} (r : result A) : bool := match r with Ok _ => true | Err _ => false end.

Lemma ok_unit (r : result ()) : ok r = true ↔ r = Ok ().
Proof. by destruct r as [[]|]. Qed.

Definition is_Ok {A} (r : result A) : Prop := ∃ a, r = Ok a.

#[export] Instance is_Ok_dec {A} (r : result A) : Decision (is_Ok r).
Proof. destruct r as [a|e]; [left; by exists a | right; by intros [? ?]]. Defined.

Lemma result_bind_Ok {A B} (m : result A) (f : A → result B) b :
  mbind f m = Ok b ↔ ∃ a, m = Ok a ∧ f a = Ok b.
Proof. destruct m; cbn; naive_solver. Qed.

(** A loop over a list whose body can return early with an error. *)
Fixpoint result_iter {A} (f : A → result ()) (l : list A) : result () :=
  match l with
  | [] => Ok ()
  | x :: l' => match f x with Ok _ => result_iter f l' | Err e => Err e end
  end.

Lemma result_iter_Ok {A} (f : A → result ()) l :
  result_iter f l = Ok () ↔ Forall (λ x, f x = Ok ()) l.
Proof.
  induction l as [|x l IH]; cbn; [by split|].
  destruct (f x) as [[]|e] eqn:E; rewrite Forall_cons, E; naive_solver.
Qed.

(** A loop whose body updates an accumulator and can return early. *)
Fixpoint result_fold {A S} (f : S → A → result S) (s : S) (l : list A) : result S :=
  match l with
  | [] => Ok s
  | x :: l' => match f s x with Ok s' => result_fold f s' l' | Err e => Err e end
  end.

Lemma result_fold_app {A S} (f : S → A → result S) s l1 l2 :
  result_fold f s (l1 ++ l2) =
  match result_fold f s l1 with Ok s' => result_fold f s' l2 | Err e => Err e end.
Proof.
  revert s. induction l1 as [|x l1 IH]; intros s; cbn; [done|].
  destruct (f s x); [apply IH|done].
Qed.

(** An invariant of a loop holds at its end. *)
Lemma result_fold_inv {A S} (f : S → A → result S) (P : S → Prop) l s s' :
  P s → (∀ s1 x s2, x ∈ l → P s1 → f s1 x = Ok s2 → P s2) →
  result_fold f s l = Ok s' → P s'.
Proof.
  revert s. induction l as [|x l IH]; intros s Hs Hstep; cbn; [naive_solver|].
  destruct (f s x) as [s1|] eqn:E; [|done].
  apply IH.
  - eapply Hstep; [apply list_elem_of_here|exact Hs|exact E].
  - intros ???? ; eapply Hstep. by apply list_elem_of_further.
Qed.

Lemma length_omap_le {A B} (f : A → option B) (l : list A) : length (omap f l) ≤ length l.
Proof.
  induction l as [|x l IH]; [done|].
  change (omap f (x :: l)) with (match f x with Some y => y :: omap f l | None => omap f l end).
  destruct (f x); cbn [length]; lia.
Qed.

(** ** Sorted keys of a Go map

    [sort.Strings] of a map's keys: the code renders every rule table in this
    order, so that the result does not depend on Go's map iteration order. *)
Definition sort_strings (l : list string) : list string := merge_sort String.le l.

Lemma sort_strings_perm l : sort_strings l ≡ₚ l.
Proof. apply merge_sort_Permutation. Qed.

Lemma sort_strings_sorted l : StronglySorted String.le (sort_strings l).
Proof. apply (StronglySorted_merge_sort _); apply _. Qed.

(** The sorted list is a function of the multiset of its input. *)
Lemma sort_strings_unique l1 l2 : l1 ≡ₚ l2 → sort_strings l1 = sort_strings l2.
Proof.
  intros Hp. apply (StronglySorted_unique String.le).
  - apply sort_strings_sorted.
  - apply sort_strings_sorted.
  - by rewrite !sort_strings_perm.
Qed.

Lemma elem_of_sort_strings x l : x ∈ sort_strings l ↔ x ∈ l.
Proof. by rewrite sort_strings_perm. Qed.

Definition sorted_keys {A} (m : gmap string A) : list string :=
  sort_strings (map_to_list m).*1.

Lemma elem_of_sorted_keys {A} (m : gmap string A) k :
  k ∈ sorted_keys m ↔ is_Some (m !! k).
Proof.
  unfold sorted_keys. rewrite elem_of_sort_strings, list_elem_of_fmap. split.
  - intros ([k' a] & -> & Hin). apply elem_of_map_to_list in Hin. by exists a.
  - intros [a Ha]. exists (k, a). split; [done|]. by apply elem_of_map_to_list.
Qed.

Lemma NoDup_sorted_keys {A} (m : gmap string A) : NoDup (sorted_keys m).
Proof. unfold sorted_keys. rewrite sort_strings_perm. apply NoDup_fst_map_to_list. Qed.

Lemma sorted_keys_empty {A} : sorted_keys (∅ : gmap string A) = [].
Proof. unfold sorted_keys. by rewrite map_to_list_empty. Qed.

Lemma length_sorted_keys {A} (m : gmap string A) : length (sorted_keys m) = size m.
Proof.
  unfold sorted_keys. by rewrite sort_strings_perm, length_fmap, length_map_to_list.
Qed.

(** Reading an absent key of a Go map gives the zero value. *)
Definition zget {A} (zero : A) (m : gmap string A) (k : string) : A :=
  default zero (m !! k).

(** ** Go's [range] over a map

    The language fixes no iteration order. A [MapRange] is what the runtime
    promises: every entry once, in some order that may differ between the
    [range] statements of the program (the first argument numbers them). All
    theorems are proved for every instance. *)
Class MapRange := {
  range_map : ∀ {A}, nat → gmap string A → list (string * A);
  range_map_perm : ∀ {A} n (m : gmap string A), range_map n m ≡ₚ map_to_list m;
}.

(** Two concrete runtimes for the witnesses: key order and its reverse. *)
Definition range_forward : MapRange.
Proof. by refine {| range_map := λ A _ m, map_to_list m |}. Defined.
Definition range_backward : MapRange.
Proof.
  refine {| range_map := λ A _ m, reverse (map_to_list m) |}.
  intros A _ m. by rewrite reverse_Permutation.
Defined.

Section map_range.
Context `{!MapRange} {A : Type}.
Implicit Types (m : gmap string A).

Lemma elem_of_range_map n m k a : (k, a) ∈ range_map n m ↔ m !! k = Some a.
Proof. rewrite range_map_perm. apply elem_of_map_to_list. Qed.

Lemma NoDup_range_map n m : NoDup (range_map n m).*1.
Proof. rewrite range_map_perm. apply NoDup_fst_map_to_list. Qed.

(** A loop that only checks its entries succeeds for every order or for none. *)
Lemma range_iter_Ok n m (f : string * A → result ()) :
  result_iter f (range_map n m) = Ok () ↔ map_Forall (λ k a, f (k, a) = Ok ()) m.
Proof.
  rewrite result_iter_Ok, range_map_perm, map_Forall_to_list.
  apply Forall_proper; [|done]. by intros [k a].
Qed.
End map_range.

(** The order in which a check visits a map never decides whether it passes. *)
Lemma range_iter_order {A} (R1 R2 : MapRange) n1 n2 (m : gmap string A) f :
  result_iter f (@range_map R1 A n1 m) = Ok () ↔
  result_iter f (@range_map R2 A n2 m) = Ok ().
Proof. by rewrite !range_iter_Ok. Qed.

(** ** Hint databases of the development *)
Create HintDb npm.
#[export] Hint Resolve range_map_perm NoDup_range_map NoDup_sorted_keys : npm.
#[export] Hint Resolve sort_strings_perm sort_strings_sorted : npm.

(** Split every conjunction and existential of the context. *)
Ltac split_hyps :=
  repeat match goal with
  | H : _ ∧ _ |- _ => destruct H
  | H : ∃ _, _ |- _ => destruct H
  | H : Ok _ = Ok _ |- _ => injection H as H; try subst
  | H : Err _ = Err _ |- _ => injection H as H; try subst
  | H : Ok _ = Err _ |- _ => discriminate H
  | H : Err _ = Ok _ |- _ => discriminate H
  | H : (_, _) = (_, _) |- _ => injection H as H; try subst
  end.
