(* ===== verification/Effects.v ===== *)
(** * Programs with effects

    The watchers talk to Docker, the metadata service, the firewall tools and
    the file system. A [prog] is a tree of such calls; an execution is its
    trace of (call, reply) events, for every reply the outside may give.
    [act] adds the state of a watcher and early return with an error. *)
From S2P Require Import Prelude.

(** The calls of a program and the type of each call's reply. *)
Record sig := Sig { call : Type; reply : call → Type }.

Inductive prog (Σ : sig) (A : Type) : Type :=
  | Ret (a : A)
  | Vis (c : call Σ) (k : reply Σ c → prog Σ A).
Arguments Ret {Σ A} a.
Arguments Vis {Σ A} c k.

Definition trigger {Σ} (c : call Σ) : prog Σ (reply Σ c) := Vis c (λ r, Ret r).

Fixpoint prog_bind {Σ A B} (f : A → prog Σ B) (p : prog Σ A) : prog Σ B :=
  match p with
  | Ret a => f a
  | Vis c k => Vis c (λ r, prog_bind f (k r))
  end.
#[export] Instance prog_mret Σ : MRet (prog Σ) := λ A a, Ret a.
#[export] Instance prog_mbind Σ : MBind (prog Σ) := λ A B f p, prog_bind f p.

(** One call with its reply. *)
Definition event (Σ : sig) : Type := { c : call Σ & reply Σ c }.
Definition ev {Σ} (c : call Σ) (r : reply Σ c) : event Σ := existT c r.

(** [exec p tr a]: with the replies of the trace [tr], [p] makes exactly the
    calls of [tr] and returns [a]. *)
Fixpoint exec {Σ A} (p : prog Σ A) (tr : list (event Σ)) (a : A) : Prop :=
  match p with
  | Ret x => tr = [] ∧ a = x
  | Vis c k => ∃ r tr', tr = ev c r :: tr' ∧ exec (k r) tr' a
  end.

(** An environment answers a call from the history of the run. *)
Definition env (Σ : sig) : Type := list (event Σ) → ∀ c : call Σ, reply Σ c.

Fixpoint run {Σ A} (w : env Σ) (h : list (event Σ)) (p : prog Σ A)
    : list (event Σ) * A :=
  match p with
  | Ret a => ([], a)
  | Vis c k =>
      let e := ev c (w h c) in
      let r := run w (h ++ [e]) (k (w h c)) in (e :: r.1, r.2)
  end.

Lemma run_exec {Σ A} (w : env Σ) h (p : prog Σ A) :
  exec p (run w h p).1 (run w h p).2.
Proof.
  revert h. induction p as [a|c k IH]; intros h; cbn; [done|].
  eexists _, _. split; [done|]. apply IH.
Qed.

Lemma exec_bind {Σ A B} (f : A → prog Σ B) (p : prog Σ A) tr b :
  exec (mbind f p) tr b ↔
  ∃ tr1 tr2 a, tr = tr1 ++ tr2 ∧ exec p tr1 a ∧ exec (f a) tr2 b.
Proof.
  revert tr. induction p as [a|c k IH]; intros tr; cbn.
  - split; [by exists [], tr, a | by intros (?&?&?&->&[-> ->]&?)].
  - split.
    + intros (r & tr' & -> & (tr1 & tr2 & a & -> & ? & ?)%IH).
      exists (ev c r :: tr1), tr2, a. split; [done|]. split; [|done]. by eexists _, _.
    + intros (? & tr2 & a & -> & (r & tr1 & -> & ?) & ?).
      exists r, (tr1 ++ tr2). split; [done|]. apply IH. by exists tr1, tr2, a.
Qed.

(** The calls a program can ever make satisfy [P], whatever is replied. *)
Fixpoint calls_in {Σ A} (P : call Σ → Prop) (p : prog Σ A) : Prop :=
  match p with
  | Ret _ => True
  | Vis c k => P c ∧ ∀ r, calls_in P (k r)
  end.

Lemma calls_in_bind {Σ A B} P (f : A → prog Σ B) (p : prog Σ A) :
  calls_in P p → (∀ a, calls_in P (f a)) → calls_in P (mbind f p).
Proof. induction p as [a|c k IH]; cbn; [auto|]. intros [? ?] ?. eauto. Qed.

Lemma calls_in_exec {Σ A} P (p : prog Σ A) tr a :
  calls_in P p → exec p tr a → Forall (λ e, P (projT1 e)) tr.
Proof.
  revert tr. induction p as [x|c k IH]; intros tr; cbn; [by intros _ [-> _]|].
  intros [Hc Hk] (r & tr' & -> & He). constructor; [done|]. by eapply IH.
Qed.

Lemma calls_in_weaken {Σ A} (P Q : call Σ → Prop) (p : prog Σ A) :
  (∀ c, P c → Q c) → calls_in P p → calls_in Q p.
Proof. intros HPQ. induction p as [|c k IH]; cbn; naive_solver. Qed.

(** [wp R P Q p]: as long as the replies satisfy [R], the calls of [p] satisfy
    [P], and so does its result [Q]. *)
Fixpoint wp {Σ A} (R : event Σ → Prop) (P : call Σ → Prop) (Q : A → Prop)
    (p : prog Σ A) : Prop :=
  match p with
  | Ret a => Q a
  | Vis c k => P c ∧ ∀ r, R (ev c r) → wp R P Q (k r)
  end.

Lemma wp_ret {Σ A} R P (Q : A → Prop) (a : A) : Q a → wp (Σ := Σ) R P Q (Ret a).
Proof. done. Qed.

Lemma wp_bind {Σ A B} R P Q (f : A → prog Σ B) (p : prog Σ A) :
  wp R P (λ a, wp R P Q (f a)) p → wp R P Q (mbind f p).
Proof. induction p as [a|c k IH]; cbn; [done|]. intros [? ?]. eauto. Qed.

Lemma wp_mono {Σ A} R P (Q Q' : A → Prop) (p : prog Σ A) :
  (∀ a, Q a → Q' a) → wp R P Q p → wp R P Q' p.
Proof. intros HQ. induction p as [a|c k IH]; cbn; [apply HQ|]. intros [? ?]. eauto. Qed.

Lemma wp_exec {Σ A} R P Q (p : prog Σ A) tr a :
  wp R P Q p → exec p tr a → Forall R tr → Forall (λ e, P (projT1 e)) tr ∧ Q a.
Proof.
  revert tr. induction p as [x|c k IH]; intros tr; cbn; [by intros ? [-> ->]|].
  intros [Hc Hk] (r & tr' & -> & He) [Hr Hrs]%Forall_cons.
  destruct (IH r tr' (Hk r Hr) He Hrs). split; [by constructor|done].
Qed.

(** ** Calls that depend on what was seen before

    [hwp P Q h p]: after the events [h], each call of [p] satisfies [P] of the
    history at that point and the result satisfies [Q] of the final history,
    whatever is replied. *)
Fixpoint hwp {Σ A} (P : list (event Σ) → call Σ → Prop) (Q : list (event Σ) → A → Prop)
    (h : list (event Σ)) (p : prog Σ A) : Prop :=
  match p with
  | Ret a => Q h a
  | Vis c k => P h c ∧ ∀ r, hwp P Q (h ++ [ev c r]) (k r)
  end.

Lemma hwp_bind {Σ A B} P Q (f : A → prog Σ B) (p : prog Σ A) h :
  hwp P (λ h a, hwp P Q h (f a)) h p → hwp P Q h (mbind f p).
Proof. revert h. induction p as [a|c k IH]; intros h; cbn; [done|]. intros [? ?]. eauto. Qed.

Lemma hwp_mono {Σ A} P (Q Q' : list (event Σ) → A → Prop) (p : prog Σ A) h :
  (∀ h a, Q h a → Q' h a) → hwp P Q h p → hwp P Q' h p.
Proof.
  intros HQ. revert h. induction p as [a|c k IH]; intros h; cbn; [apply HQ|].
  intros [? ?]. eauto.
Qed.

(** The history of a program extends the one it starts with. *)
Lemma hwp_grows {Σ A} P (Q : list (event Σ) → A → Prop) (p : prog Σ A) h :
  hwp P Q h p → hwp P (λ h' a, (∃ tr, h' = h ++ tr) ∧ Q h' a) h p.
Proof.
  assert (∀ h0, (∃ tr, h0 = h ++ tr) → hwp P Q h0 p →
    hwp P (λ h' a, (∃ tr, h' = h ++ tr) ∧ Q h' a) h0 p) as Hgen.
  { induction p as [a|c k IH]; intros h0; cbn; [done|].
    intros [tr ->] [? Hk]. split; [done|]. intros r. apply IH; [|apply Hk].
    exists (tr ++ [ev c r]). by rewrite app_assoc. }
  apply Hgen. exists []. by rewrite app_nil_r.
Qed.

Lemma hwp_exec {Σ A} P Q (p : prog Σ A) h tr a :
  hwp P Q h p → exec p tr a →
  (∀ tr1 e tr2, tr = tr1 ++ e :: tr2 → P (h ++ tr1) (projT1 e)) ∧ Q (h ++ tr) a.
Proof.
  revert h tr. induction p as [x|c k IH]; intros h tr; cbn.
  { intros HQ [-> ->]. rewrite app_nil_r. split; [|done]. by intros [|] ? ? [=]. }
  intros [Hc Hk] (r & tr' & -> & He). destruct (IH r _ _ (Hk r) He) as [IHp IHq].
  rewrite <-app_assoc in IHq. split; [|done].
  intros [|e1 tr1] e tr2 [= <- ->].
  - by rewrite app_nil_r.
  - specialize (IHp _ _ _ eq_refl). by rewrite <-app_assoc in IHp.
Qed.

(** ** Actions: a watcher's state, its calls and its error result *)
Definition act (Σ : sig) (St A : Type) : Type := St → prog Σ (St * result A).

#[export] Instance act_mret Σ St : MRet (act Σ St) := λ A a s, Ret (s, Ok a).
#[export] Instance act_mbind Σ St : MBind (act Σ St) := λ A B f m s,
  mbind (M := prog Σ) (λ sr : St * result A,
    match sr.2 with
    | Ok a => f a sr.1
    | Err e => Ret (sr.1, Err e)
    end) (m s).

Section act.
Context {Σ : sig} {St : Type}.

Definition get : act Σ St St := λ s, Ret (s, Ok s).
Definition modify (f : St → St) : act Σ St () := λ s, Ret (f s, Ok ()).
Definition fail {A} (e : error) : act Σ St A := λ s, Ret (s, Err e).
(** A call whose reply is a plain value. *)
Definition ask (c : call Σ) : act Σ St (reply Σ c) := λ s, Vis c (λ r, Ret (s, Ok r)).
(** A stateless program, with its error. *)
Definition lift {A} (p : prog Σ (result A)) : act Σ St A := λ s,
  mbind (M := prog Σ) (λ r, Ret (s, r)) p.
(** [if err := m; err != nil]: the error becomes a value. *)
Definition try {A} (m : act Σ St A) : act Σ St (result A) := λ s,
  mbind (M := prog Σ) (λ sr, Ret (sr.1, Ok sr.2)) (m s).
(** [fmt.Errorf("msg: %w", err)] around an action. *)
Definition wrapping {A} (msg : string) (m : act Σ St A) : act Σ St A := λ s,
  mbind (M := prog Σ) (λ sr, Ret (sr.1, wrap_err msg sr.2)) (m s).
(** A pure computation that can fail. *)
Definition of_result {A} (r : result A) : act Σ St A := λ s, Ret (s, r).

(** [for _, x := range l { if err := f(x); err != nil { return err } }] *)
Fixpoint foreach {A} (f : A → act Σ St ()) (l : list A) : act Σ St () :=
  match l with
  | [] => mret ()
  | x :: l' => f x;; foreach f l'
  end.

(** Executions of an action from state [s] to state [s'] with result [r]. *)
Definition execs {A} (m : act Σ St A) (s : St) (tr : list (event Σ)) (s' : St)
    (r : result A) : Prop := exec (m s) tr (s', r).

Lemma execs_ret {A} (a : A) s tr s' r :
  execs (mret a) s tr s' r ↔ tr = [] ∧ s' = s ∧ r = Ok a.
Proof. unfold execs; cbn. naive_solver. Qed.
Lemma execs_get s tr s' r : execs get s tr s' r ↔ tr = [] ∧ s' = s ∧ r = Ok s.
Proof. unfold execs; cbn. naive_solver. Qed.
Lemma execs_modify f s tr s' r :
  execs (modify f) s tr s' r ↔ tr = [] ∧ s' = f s ∧ r = Ok ().
Proof. unfold execs; cbn. naive_solver. Qed.
Lemma execs_fail {A} e s tr s' (r : result A) :
  execs (fail e) s tr s' r ↔ tr = [] ∧ s' = s ∧ r = Err e.
Proof. unfold execs; cbn. naive_solver. Qed.
Lemma execs_of_result {A} (r0 : result A) s tr s' r :
  execs (of_result r0) s tr s' r ↔ tr = [] ∧ s' = s ∧ r = r0.
Proof. unfold execs; cbn. naive_solver. Qed.
Lemma execs_ask c s tr s' r :
  execs (ask c) s tr s' r ↔ ∃ x, tr = [ev c x] ∧ s' = s ∧ r = Ok x.
Proof. unfold execs, ask; cbn. naive_solver. Qed.

Lemma execs_lift {A} (p : prog Σ (result A)) s tr s' r :
  execs (lift p) s tr s' r ↔ exec p tr r ∧ s' = s.
Proof.
  unfold execs, lift. rewrite exec_bind. split.
  - intros (tr1 & tr2 & a & -> & ? & [-> [= -> ->]]). by rewrite app_nil_r.
  - intros [? ->]. exists tr, [], r. by rewrite app_nil_r.
Qed.

Lemma execs_try {A} (m : act Σ St A) s tr s' r :
  execs (try m) s tr s' r ↔ ∃ r', execs m s tr s' r' ∧ r = Ok r'.
Proof.
  unfold execs, try. rewrite exec_bind. split.
  - intros (tr1 & tr2 & [s1 r1] & -> & ? & [-> [= -> ->]]).
    rewrite app_nil_r. by exists r1.
  - intros (r' & ? & ->). exists tr, [], (s', r'). by rewrite app_nil_r.
Qed.

Lemma execs_wrapping {A} msg (m : act Σ St A) s tr s' r :
  execs (wrapping msg m) s tr s' r ↔
  ∃ r', execs m s tr s' r' ∧ r = wrap_err msg r'.
Proof.
  unfold execs, wrapping. rewrite exec_bind. split.
  - intros (tr1 & tr2 & [s1 r1] & -> & ? & [-> [= -> ->]]).
    rewrite app_nil_r. by exists r1.
  - intros (r' & ? & ->). exists tr, [], (s', r'). by rewrite app_nil_r.
Qed.

Lemma execs_bind {A B} (m : act Σ St A) (f : A → act Σ St B) s tr s' r :
  execs (mbind f m) s tr s' r ↔
  (∃ e, r = Err e ∧ execs m s tr s' (Err e)) ∨
  (∃ tr1 tr2 s1 a, tr = tr1 ++ tr2 ∧ execs m s tr1 s1 (Ok a)
     ∧ execs (f a) s1 tr2 s' r).
Proof.
  unfold execs. unfold mbind, act_mbind. rewrite exec_bind. split.
  - intros (tr1 & tr2 & [s1 [a|e]] & -> & Hm & Hf); cbn in Hf.
    + right. by eexists _, _, _, _.
    + destruct Hf as [-> [= -> ->]]. left. exists e. by rewrite app_nil_r.
  - intros [(e & -> & Hm)|(tr1 & tr2 & s1 & a & -> & Hm & Hf)].
    + exists tr, [], (s', Err e). by rewrite app_nil_r.
    + by exists tr1, tr2, (s1, Ok a).
Qed.

(** [calls_in] for actions, whatever state they start from. *)
Definition acts_in {A} (P : call Σ → Prop) (m : act Σ St A) : Prop :=
  ∀ s, calls_in P (m s).

Lemma acts_in_bind {A B} P (m : act Σ St A) (f : A → act Σ St B) :
  acts_in P m → (∀ a, acts_in P (f a)) → acts_in P (mbind f m).
Proof.
  intros Hm Hf s. unfold mbind, act_mbind. apply calls_in_bind; [apply Hm|].
  intros [s1 [a|e]]; cbn; [apply Hf|done].
Qed.
Lemma acts_in_ret {A} P (a : A) : acts_in P (mret a).
Proof. by intros s. Qed.
Lemma acts_in_get P : acts_in P get.
Proof. by intros s. Qed.
Lemma acts_in_modify P f : acts_in P (modify f).
Proof. by intros s. Qed.
Lemma acts_in_fail {A} P e : acts_in (A := A) P (fail e).
Proof. by intros s. Qed.
Lemma acts_in_of_result {A} P (r : result A) : acts_in P (of_result r).
Proof. by intros s. Qed.
Lemma acts_in_ask (P : call Σ → Prop) c : P c → acts_in P (ask c).
Proof. intros Hc s. by split. Qed.
Lemma acts_in_lift {A} P (p : prog Σ (result A)) : calls_in P p → acts_in P (lift p).
Proof. intros Hp s. apply calls_in_bind; [done|]. by intros. Qed.
Lemma acts_in_try {A} P (m : act Σ St A) : acts_in P m → acts_in P (try m).
Proof. intros Hm s. apply calls_in_bind; [apply Hm|]. by intros. Qed.
Lemma acts_in_wrapping {A} P msg (m : act Σ St A) :
  acts_in P m → acts_in P (wrapping msg m).
Proof. intros Hm s. apply calls_in_bind; [apply Hm|]. by intros. Qed.
Lemma acts_in_foreach {A} P (f : A → act Σ St ()) l :
  (∀ x, x ∈ l → acts_in P (f x)) → acts_in P (foreach f l).
Proof.
  induction l as [|x l IH]; intros Hf; cbn; [apply acts_in_ret|].
  apply acts_in_bind; [apply Hf; constructor|]. intros _. apply IH.
  intros y ?. apply Hf. by constructor.
Qed.
Lemma acts_in_execs {A} P (m : act Σ St A) s tr s' r :
  acts_in P m → execs m s tr s' r → Forall (λ e, P (projT1 e)) tr.
Proof. intros Hm. apply calls_in_exec, Hm. Qed.
End act.

#[export] Hint Resolve acts_in_ret acts_in_get acts_in_modify acts_in_fail
  acts_in_of_result acts_in_try acts_in_wrapping acts_in_lift : npm.
Create Rewrite HintDb execs.
#[export] Hint Rewrite @execs_ret @execs_get @execs_modify @execs_fail
  @execs_of_result @execs_ask @execs_lift @execs_try @execs_wrapping : execs.

(** Take an execution apart, call by call. *)
Ltac exec_step H :=
  match type of H with
  | execs (mbind _ _) _ _ _ _ => apply execs_bind in H;
      let e := fresh "e" in let Hr := fresh "Hr" in let H1 := fresh "H" in
      let tr1 := fresh "tr" in let tr2 := fresh "tr" in let s1 := fresh "s" in
      let a := fresh "a" in let Ht := fresh "Ht" in let H2 := fresh "H" in
      destruct H as [(e & Hr & H1)|(tr1 & tr2 & s1 & a & Ht & H1 & H2)]
  | execs (mret _) _ _ _ _ => apply execs_ret in H; destruct H as (? & ? & ?)
  | execs get _ _ _ _ => apply execs_get in H; destruct H as (? & ? & ?)
  | execs (modify _) _ _ _ _ => apply execs_modify in H; destruct H as (? & ? & ?)
  | execs (fail _) _ _ _ _ => apply execs_fail in H; destruct H as (? & ? & ?)
  | execs (of_result _) _ _ _ _ =>
      apply execs_of_result in H; destruct H as (? & ? & ?)
  | execs (ask _) _ _ _ _ => apply execs_ask in H; destruct H as (? & ? & ? & ?)
  | execs (lift _) _ _ _ _ => apply execs_lift in H; destruct H as [? ?]
  | execs (try _) _ _ _ _ => apply execs_try in H; destruct H as (? & ? & ?)
  | execs (wrapping _ _) _ _ _ _ => apply execs_wrapping in H; destruct H as (? & ? & ?)
  end; simplify_eq/=.
Ltac exec_all := repeat match goal with H : execs _ _ _ _ _ |- _ => exec_step H end.

(** From here on an execution is taken apart with the lemmas only. *)
Lemma exec_vis {Σ A} (c : call Σ) (k : reply Σ c → prog Σ A) tr a :
  exec (Vis c k) tr a ↔ ∃ r tr', tr = ev c r :: tr' ∧ exec (k r) tr' a.
Proof. done. Qed.
#[global] Arguments exec : simpl never.
