(* ===== verification/GoStrings.v ===== *)
(** * Go strings

    The functions of Go's [strings], [strconv] and [fmt] packages the program
    uses, on byte strings. White space is Unicode white space in UTF-8, as in
    Go; [ToLower] and [Quote] are Go's on ASCII text and keep other bytes. *)
From S2P Require Import Prelude.

Definition nl : string := "
".
Definition tab : string := String "009" "".
Definition dquote : string := String "034" "".
Definition squote : string := "'".
Definition backslash : string := "\".

(** ** Searching *)

Definition HasPrefix (s p : string) : bool := String.prefix p s.

Fixpoint Contains (s sub : string) : bool :=
  HasPrefix s sub ||
  match s with
  | EmptyString => false
  | String _ s' => Contains s' sub
  end.

Fixpoint drop_bytes (n : nat) (s : string) : string :=
  match n, s with
  | S n', String _ s' => drop_bytes n' s'
  | _, _ => s
  end.

Definition TrimPrefix (s p : string) : string :=
  if HasPrefix s p then drop_bytes (String.length p) s else s.

(** [strings.Index]. *)
Fixpoint Index (s sub : string) : option nat :=
  if HasPrefix s sub then Some 0
  else match s with
       | EmptyString => None
       | String _ s' => S <$> Index s' sub
       end.

Fixpoint take_bytes (n : nat) (s : string) : string :=
  match n, s with
  | S n', String a s' => String a (take_bytes n' s')
  | _, _ => EmptyString
  end.

(** All bytes, or some byte, satisfy a test. *)
Fixpoint all_bytes (p : ascii → bool) (s : string) : bool :=
  match s with
  | EmptyString => true
  | String a s' => p a && all_bytes p s'
  end.

Definition any_byte (p : ascii → bool) (s : string) : bool :=
  negb (all_bytes (λ a, negb (p a)) s).

Definition ContainsAny (s chars : string) : bool :=
  any_byte (λ a, any_byte (Ascii.eqb a) chars) s.

(** ** Splitting and joining at a one-byte separator *)

Fixpoint Split (s : string) (sep : ascii) : list string :=
  match s with
  | EmptyString => [""]
  | String a s' =>
      if Ascii.eqb a sep then "" :: Split s' sep
      else match Split s' sep with
           | [] => [String a ""]
           | w :: ws => String a w :: ws
           end
  end.

(** [strings.Cut]: the text before and after the first separator. *)
Fixpoint Cut (s : string) (sep : ascii) : string * string * bool :=
  match s with
  | EmptyString => ("", "", false)
  | String a s' =>
      if Ascii.eqb a sep then ("", s', true)
      else let '(before, after, found) := Cut s' sep in (String a before, after, found)
  end.

Fixpoint Join (ws : list string) (sep : string) : string :=
  match ws with
  | [] => ""
  | [w] => w
  | w :: ws' => w +:+ sep +:+ Join ws' sep
  end.

(** [strings.ReplaceAll] of a one-byte string. *)
Fixpoint ReplaceAll (s : string) (old : ascii) (new : string) : string :=
  match s with
  | EmptyString => ""
  | String a s' =>
      if Ascii.eqb a old then new +:+ ReplaceAll s' old new
      else String a (ReplaceAll s' old new)
  end.

(** ** White space *)

Definition byte_N (a : ascii) : N := N_of_ascii a.

Definition ascii_space (a : ascii) : bool :=
  let n := byte_N a in ((9 <=? n) && (n <=? 13) || (n =? 32))%N.

(** The number of bytes of the white-space character a string starts with,
    0 when it starts with another one: ASCII space, U+0085, U+00A0, U+1680,
    U+2000 to U+200A, U+2028, U+2029, U+202F, U+205F and U+3000. *)
Definition space_width (s : string) : nat :=
  match s with
  | EmptyString => 0
  | String a s1 =>
    if ascii_space a then 1 else
    match byte_N a, s1 with
    | 0xC2%N, String b _ =>
        if ((byte_N b =? 0x85) || (byte_N b =? 0xA0))%N then 2 else 0
    | 0xE1%N, String b (String c _) =>
        if ((byte_N b =? 0x9A) && (byte_N c =? 0x80))%N then 3 else 0
    | 0xE2%N, String b (String c _) =>
        if ((byte_N b =? 0x80) && ((byte_N c <=? 0x8A) && (0x80 <=? byte_N c)
              || (byte_N c =? 0xA8) || (byte_N c =? 0xA9) || (byte_N c =? 0xAF))
            || (byte_N b =? 0x81) && (byte_N c =? 0x9F))%N
        then 3 else 0
    | 0xE3%N, String b (String c _) =>
        if ((byte_N b =? 0x80) && (byte_N c =? 0x80))%N then 3 else 0
    | _, _ => 0
    end
  end.

Fixpoint trim_left (skip : nat) (s : string) : string :=
  match s with
  | EmptyString => ""
  | String _ s' =>
      match skip with
      | S k => trim_left k s'
      | 0 => match space_width s with 0 => s | S w => trim_left w s' end
      end
  end.

Fixpoint trim_right (s : string) : string :=
  match s with
  | EmptyString => ""
  | String a s' =>
      match trim_left 0 s with
      | EmptyString => ""
      | _ => String a (trim_right s')
      end
  end.

Definition TrimSpace (s : string) : string := trim_right (trim_left 0 s).

Definition flush (cur : string) : list string :=
  match cur with EmptyString => [] | _ => [cur] end.

(** [strings.Fields]: [cur] is the word read so far, [skip] the rest of a
    white-space character. *)
Fixpoint fields_from (skip : nat) (cur : string) (s : string) : list string :=
  match s with
  | EmptyString => flush cur
  | String a s' =>
      match skip with
      | S k => fields_from k cur s'
      | 0 => match space_width s with
             | 0 => fields_from 0 (cur +:+ String a "") s'
             | S w => flush cur ++ fields_from w "" s'
             end
      end
  end.

Definition Fields (s : string) : list string := fields_from 0 "" s.

(** ** Case *)

Definition lower (a : ascii) : ascii :=
  if ((65 <=? byte_N a) && (byte_N a <=? 90))%N then ascii_of_N (byte_N a + 32) else a.

Fixpoint ToLower (s : string) : string :=
  match s with
  | EmptyString => ""
  | String a s' => String (lower a) (ToLower s')
  end.

(** ** Numbers *)

Definition is_digit (a : ascii) : bool := ((48 <=? byte_N a) && (byte_N a <=? 57))%N.
Definition is_alpha (a : ascii) : bool :=
  ((65 <=? byte_N a) && (byte_N a <=? 90) || (97 <=? byte_N a) && (byte_N a <=? 122))%N.
Definition digit_Z (a : ascii) : Z := Z.of_N (byte_N a) - 48.

Fixpoint digits_Z (acc : Z) (s : string) : option Z :=
  match s with
  | EmptyString => Some acc
  | String a s' => if is_digit a then digits_Z (acc * 10 + digit_Z a) s' else None
  end.

Definition in_int64 (n : Z) : bool := (- 2 ^ 63 <=? n)%Z && (n <? 2 ^ 63)%Z.

(** [strconv.Atoi] on a 64-bit platform; [None] is its error. *)
Definition Atoi (s : string) : option Z :=
  let unsigned (t : string) :=
    match t with EmptyString => None | _ => digits_Z 0 t end in
  n ← match s with
      | String "+" t => unsigned t
      | String "-" t => Z.opp <$> unsigned t
      | _ => unsigned s
      end;
  if in_int64 n then Some n else None.

(** [%d] of a natural number. *)
Definition digit_ascii (n : N) : ascii := ascii_of_N (48 + n).

Fixpoint itoa_fuel (fuel : nat) (n : N) (acc : string) : string :=
  match fuel with
  | 0 => acc
  | S f =>
      let acc' := String (digit_ascii (n mod 10)) acc in
      if (n / 10 =? 0)%N then acc' else itoa_fuel f (n / 10) acc'
  end.

(** A number has at most as many decimal digits as binary ones. *)
Definition Itoa (n : N) : string := itoa_fuel (S (N.size_nat n)) n "".

(** ** [%q] *)

Definition hex_digit (n : N) : ascii :=
  if (n <? 10)%N then ascii_of_N (48 + n) else ascii_of_N (87 + n).

Definition quote_byte (a : ascii) : string :=
  let n := byte_N a in
  match n with
  | 7%N => "\a" | 8%N => "\b" | 9%N => "\t" | 10%N => "\n" | 11%N => "\v"
  | 12%N => "\f" | 13%N => "\r" | 34%N => backslash +:+ dquote | 92%N => "\\"
  | _ => if ((n <? 32) || (n =? 127))%N
         then "\x" +:+ String (hex_digit (n / 16)) (String (hex_digit (n mod 16)) "")
         else String a ""
  end.

Fixpoint quote_body (s : string) : string :=
  match s with
  | EmptyString => ""
  | String a s' => quote_byte a +:+ quote_body s'
  end.

Definition Quote (s : string) : string := dquote +:+ quote_body s +:+ dquote.

(** ** Laws *)

Lemma app_nil_l_str s : "" +:+ s = s.
Proof. done. Qed.
Lemma app_cons_str a s t : String a s +:+ t = String a (s +:+ t).
Proof. done. Qed.
Lemma app_nil_r_str s : s +:+ "" = s.
Proof. induction s as [|a s IH]; [done|]. by rewrite app_cons_str, IH. Qed.
Lemma app_assoc_str s t u : (s +:+ t) +:+ u = s +:+ (t +:+ u).
Proof. induction s as [|a s IH]; [done|]. by rewrite !app_cons_str, IH. Qed.
Lemma length_app_str s t : String.length (s +:+ t) = String.length s + String.length t.
Proof. induction s as [|a s IH]; [done|]. rewrite app_cons_str. cbn. by rewrite IH. Qed.

Create Rewrite HintDb gostr.
#[export] Hint Rewrite app_nil_l_str app_cons_str app_nil_r_str app_assoc_str : gostr.

Lemma all_bytes_app p s t : all_bytes p (s +:+ t) = all_bytes p s && all_bytes p t.
Proof.
  induction s as [|a s IH]; [done|].
  rewrite app_cons_str. cbn. by rewrite IH, andb_assoc.
Qed.

Lemma all_bytes_weaken (p q : ascii → bool) s :
  (∀ a, p a = true → q a = true) → all_bytes p s = true → all_bytes q s = true.
Proof.
  intros Hpq. induction s as [|a s IH]; [done|]. cbn.
  rewrite !andb_true_iff. naive_solver.
Qed.

Lemma digits_bytes acc s n : digits_Z acc s = Some n → all_bytes is_digit s = true.
Proof.
  revert acc. induction s as [|a s IH]; intros acc; [done|]. cbn.
  destruct (is_digit a); [|done]. apply IH.
Qed.

(** A text that starts with a digit has no sign for [Atoi] to read. *)
Lemma Atoi_digit c s n :
  is_digit c = true → Atoi (String c s) = Some n →
  digits_Z 0 (String c s) = Some n ∧ in_int64 n = true.
Proof.
  intros Hc.
  assert (Atoi (String c s) =
    (m ← digits_Z 0 (String c s); if in_int64 m then Some m else None)) as ->.
  { by destruct c as [[] [] [] [] [] [] [] []]. }
  destruct (digits_Z 0 (String c s)) as [m|]; [|done]. simpl.
  destruct (in_int64 m) eqn:E; [|done]. by intros [= <-].
Qed.

(** No separator byte in a text. *)
Definition free_of (c : ascii) (s : string) : bool := all_bytes (λ a, negb (Ascii.eqb a c)) s.

Lemma Split_not_nil s c : Split s c ≠ [].
Proof. destruct s as [|a s]; [done|]. cbn. by repeat case_match. Qed.

Lemma Split_free s c : free_of c s = true → Split s c = [s].
Proof.
  unfold free_of. induction s as [|a s IH]; [done|]. cbn. rewrite andb_true_iff.
  intros [Ha%negb_true_iff Hs]. by rewrite Ha, IH.
Qed.

Lemma Split_app_free s t c :
  free_of c s = true → Split (s +:+ String c t) c = s :: Split t c.
Proof.
  unfold free_of. induction s as [|a s IH]; rewrite ?app_nil_l_str, ?app_cons_str; cbn.
  - by rewrite Ascii.eqb_refl.
  - rewrite andb_true_iff. intros [Ha%negb_true_iff Hs]. by rewrite Ha, IH.
Qed.

Lemma Cut_app_free p t c :
  free_of c p = true →
  Cut (p +:+ t) c = let '(before, after, found) := Cut t c in (p +:+ before, after, found).
Proof.
  unfold free_of. induction p as [|a p IH]; rewrite ?app_nil_l_str, ?app_cons_str.
  - by destruct (Cut t c) as [[b d] f].
  - cbn. rewrite andb_true_iff. intros [Ha%negb_true_iff Hp]. rewrite Ha, IH by done.
    by destruct (Cut t c) as [[b d] f].
Qed.

Lemma Split_pieces_free s c : Forall (λ w, free_of c w = true) (Split s c).
Proof.
  unfold free_of. induction s as [|a s IH]; cbn; [by repeat constructor|].
  destruct (Ascii.eqb a c) eqn:E; [by constructor|].
  destruct (Split s c) as [|w ws]; inversion IH; subst; constructor; cbn; rewrite ?E; auto.
Qed.

(** Splitting at a separator undoes joining with it. *)
Lemma Split_Join c (ws : list string) :
  ws ≠ [] → Forall (λ w, free_of c w = true) ws → Split (Join ws (String c "")) c = ws.
Proof.
  induction ws as [|w ws IH]; [done|]. intros _ [Hw Hws]%Forall_cons.
  destruct ws as [|w' ws]; [by apply Split_free|].
  change (Join (w :: w' :: ws) (String c "")) with
    (w +:+ String c "" +:+ Join (w' :: ws) (String c "")).
  rewrite app_cons_str, app_nil_l_str, Split_app_free by done. by rewrite IH.
Qed.

(** Joining the pieces of a split gives the text back. *)
Lemma Join_Split s c : Join (Split s c) (String c "") = s.
Proof.
  induction s as [|a s IH]; [done|]. cbn [Split].
  pose proof (Split_not_nil s c) as Hne.
  destruct (Ascii.eqb_spec a c) as [->|_]; destruct (Split s c) as [|w ws] eqn:E; try done.
  - change (Join ("" :: w :: ws) (String c "")) with
      ("" +:+ String c "" +:+ Join (w :: ws) (String c "")).
    by rewrite IH, app_nil_l_str, app_cons_str, app_nil_l_str.
  - rewrite <-IH. by destruct ws.
Qed.

(** A word that [Fields] keeps: not empty and without white space. *)
Definition is_plain (a : ascii) : bool := ((33 <=? byte_N a) && (byte_N a <=? 126))%N.
Definition plain (s : string) : bool := all_bytes is_plain s && negb (String.eqb s "").

Lemma space_width_plain a s : is_plain a = true → space_width (String a s) = 0.
Proof.
  unfold is_plain, space_width, ascii_space. rewrite andb_true_iff, !N.leb_le.
  intros [Hl Hu]. destruct (_ || _)%N eqn:E.
  { rewrite orb_true_iff, andb_true_iff, !N.leb_le, N.eqb_eq in E. lia. }
  destruct (byte_N a) as [|p]; [done|].
  do 8 (destruct p as [p|p|]; try done; try lia).
Qed.

Lemma fields_from_plain cur w t :
  all_bytes is_plain w = true → fields_from 0 cur (w +:+ t) = fields_from 0 (cur +:+ w) t.
Proof.
  revert cur. induction w as [|a w IH]; intros cur.
  { by rewrite app_nil_r_str, app_nil_l_str. }
  cbn [all_bytes]. rewrite andb_true_iff. intros [Ha Hw].
  rewrite app_cons_str. cbn [fields_from]. rewrite space_width_plain by done.
  rewrite IH by done. by rewrite app_assoc_str, app_cons_str.
Qed.

(** [Fields] reads back the plain words printed with one space between them. *)
Lemma Fields_Join ws : Forall (λ w, plain w = true) ws → Fields (Join ws " ") = ws.
Proof.
  unfold Fields, plain. induction ws as [|w ws IH]; [done|].
  intros [Hw Hws]%Forall_cons. apply andb_true_iff in Hw as [Hw Hne].
  destruct ws as [|w' ws].
  - cbn [Join]. rewrite <-(app_nil_r_str w) at 1.
    rewrite fields_from_plain, app_nil_l_str by done. cbn. by destruct w.
  - change (Join (w :: w' :: ws) " ") with (w +:+ " " +:+ Join (w' :: ws) " ").
    rewrite fields_from_plain, app_nil_l_str by done.
    rewrite app_cons_str, app_nil_l_str. cbn [fields_from space_width].
    change (ascii_space " ") with true. cbn iota. rewrite IH by done. by destruct w.
Qed.

Lemma trim_left_head skip s :
  trim_left skip s = "" ∨ space_width (trim_left skip s) = 0 ∧ trim_left skip s ≠ "".
Proof.
  revert skip. induction s as [|a s IH]; intros [|k]; [by left..| |apply IH].
  cbn [trim_left]. destruct (space_width (String a s)) eqn:E; [by right|apply IH].
Qed.

Lemma Fields_trim_left skip s : trim_left skip s = "" → fields_from skip "" s = [].
Proof.
  revert skip. induction s as [|a s IH]; intros [|k]; [done..| |apply IH].
  cbn [trim_left fields_from]. destruct (space_width (String a s)); [done|].
  intros H. cbn. by apply IH.
Qed.

(** A line with words does not trim to nothing. *)
Lemma TrimSpace_Fields s : TrimSpace s = "" → Fields s = [].
Proof.
  unfold TrimSpace, Fields. intros H.
  destruct (trim_left_head 0 s) as [E|[Hw Hne]]; [by apply Fields_trim_left|].
  exfalso. destruct (trim_left 0 s) as [|a t]; [done|].
  cbn [trim_right] in H. cbn [trim_left] in H. by rewrite Hw in H.
Qed.

Example Fields_ex : Fields (" -A  FORWARD" +:+ tab +:+ "-j X ") = ["-A"; "FORWARD"; "-j"; "X"].
Proof. reflexivity. Qed.
Example TrimSpace_ex : TrimSpace (nl +:+ " a b" +:+ nl) = "a b".
Proof. reflexivity. Qed.
Example Atoi_ex : (Atoi "+80", Atoi "-", Atoi "9223372036854775808", Atoi "007") =
  (Some 80%Z, None, None, Some 7%Z).
Proof. reflexivity. Qed.
Lemma digit_ascii_digit n : (n < 10)%N → is_digit (digit_ascii n) = true.
Proof.
  intros Hn. assert (n = 0 ∨ n = 1 ∨ n = 2 ∨ n = 3 ∨ n = 4 ∨ n = 5 ∨ n = 6 ∨ n = 7 ∨ n = 8 ∨ n = 9)%N as H by lia.
  by decompose [or] H; subst.
Qed.

Lemma Itoa_digits n : all_bytes is_digit (Itoa n) = true.
Proof.
  unfold Itoa. generalize (S (N.size_nat n)) as fuel. assert (all_bytes is_digit "" = true) as Ha by done.
  revert Ha. generalize "" as acc. intros acc Ha fuel. revert n acc Ha.
  induction fuel as [|fuel IH]; intros n acc Ha; [done|]. cbn [itoa_fuel].
  assert (all_bytes is_digit (String (digit_ascii (n mod 10)) acc) = true) as Hacc.
  { cbn [all_bytes]. rewrite Ha, digit_ascii_digit; [done|]. by apply N.mod_lt. }
  destruct (n / 10 =? 0)%N; [done|by apply IH].
Qed.

Example Itoa_ex : Itoa 1024 = "1024".
Proof. reflexivity. Qed.

(** ** Prefixes and substrings *)

Lemma HasPrefix_spec s p : HasPrefix s p = true ↔ ∃ t, s = p +:+ t.
Proof.
  unfold HasPrefix. revert s. induction p as [|a p IH]; intros s.
  { split; [|by destruct s]. intros _. exists s. by rewrite app_nil_l_str. }
  destruct s as [|b s]; cbn [String.prefix].
  { split; [done|]. intros [t Ht]. by rewrite app_cons_str in Ht. }
  destruct (ascii_dec a b) as [->|Hne].
  - rewrite IH. split; intros [t Ht]; exists t; rewrite app_cons_str in *; congruence.
  - split; [done|]. intros [t Ht]. rewrite app_cons_str in Ht. congruence.
Qed.

Lemma Contains_spec s sub : Contains s sub = true ↔ ∃ a b, s = a +:+ sub +:+ b.
Proof.
  induction s as [|c s IH]; cbn [Contains].
  - rewrite orb_false_r, HasPrefix_spec. split.
    + intros [t Ht]. exists "", t. by rewrite app_nil_l_str.
    + intros ([|c a] & b & H); [|by rewrite app_cons_str in H]. rewrite app_nil_l_str in H. by exists b.
  - rewrite orb_true_iff, HasPrefix_spec, IH. split.
    + intros [[t Ht]|(a & b & ->)]; [exists "", t; by rewrite app_nil_l_str|].
      exists (String c a), b. by rewrite app_cons_str.
    + intros ([|c' a] & b & H); [left; exists b; by rewrite app_nil_l_str in H|].
      right. rewrite app_cons_str in H. injection H as -> ->. by exists a, b.
Qed.

Lemma Contains_app_l s t sub : Contains s sub = true → Contains (s +:+ t) sub = true.
Proof. rewrite !Contains_spec. intros (a & b & ->). exists a, (b +:+ t). by rewrite !app_assoc_str. Qed.
Lemma Contains_app_r s t sub : Contains t sub = true → Contains (s +:+ t) sub = true.
Proof. rewrite !Contains_spec. intros (a & b & ->). exists (s +:+ a), b. by rewrite !app_assoc_str. Qed.

(** An occurrence of a text that starts with [c] does not begin before the
    first [c]. *)
Lemma Contains_skip c p s sub :
  free_of c p = true → Contains (p +:+ s) (String c sub) = true → Contains s (String c sub) = true.
Proof.
  intros Hp. induction p as [|a p IH]; [by rewrite app_nil_l_str|].
  unfold free_of in Hp. cbn [all_bytes] in Hp. apply andb_true_iff in Hp as [Ha Hp].
  rewrite app_cons_str. cbn [Contains]. rewrite orb_true_iff. intros [H|H]; [|by apply IH].
  apply HasPrefix_spec in H as [t Ht]. rewrite app_cons_str in Ht. injection Ht as -> _.
  by rewrite Ascii.eqb_refl in Ha.
Qed.

Lemma Contains_Join d ds sep : d ∈ ds → Contains (sep +:+ Join ds sep) (sep +:+ d) = true.
Proof.
  induction ds as [|w ds IH]; [by intros ?%not_elem_of_nil|].
  intros [->|Hd]%elem_of_cons.
  - apply Contains_spec. exists "". destruct ds as [|w' ds]; cbn [Join].
    + exists "". by rewrite app_nil_l_str, app_nil_r_str.
    + exists (sep +:+ Join (w' :: ds) sep). by rewrite app_nil_l_str, app_assoc_str.
  - destruct ds as [|w' ds]; [by apply not_elem_of_nil in Hd|].
    cbn [Join]. rewrite <-app_assoc_str. apply Contains_app_r. apply IH. done.
Qed.

Lemma HasPrefix_app_l s t p : HasPrefix s p = true → HasPrefix (s +:+ t) p = true.
Proof. rewrite !HasPrefix_spec. intros [u ->]. exists (u +:+ t). by rewrite app_assoc_str. Qed.
Lemma HasPrefix_self s t : HasPrefix (s +:+ t) s = true.
Proof. apply HasPrefix_spec. by exists t. Qed.
Lemma TrimPrefix_self s t : TrimPrefix (s +:+ t) s = t.
Proof.
  unfold TrimPrefix. rewrite HasPrefix_self. induction s as [|a s IH]; [by destruct t|]. exact IH.
Qed.
