(* ===== verification/GoNet.v ===== *)
(** * Go IP addresses

    The functions of Go's [net/netip] and [net] packages the program uses:
    textual IPv4 and IPv6 addresses, prefixes, containment. An address is its
    bits as an integer of 32 or 128 bits. *)
From S2P Require Import Prelude GoStrings.

Inductive Addr :=
  | V4 (a : Z)
  | V6 (a : Z) (zone : string).

#[export] Instance Addr_eq_dec : EqDecision Addr.
Proof. solve_decision. Defined.

Definition Is4 (ip : Addr) : bool := match ip with V4 _ => true | V6 _ _ => false end.
Definition BitLen (ip : Addr) : Z := match ip with V4 _ => 32 | V6 _ _ => 128 end.
Definition addr_bits (ip : Addr) : Z := match ip with V4 a | V6 a _ => a end.
Definition Zone (ip : Addr) : string := match ip with V4 _ => "" | V6 _ z => z end.

(** ** Dotted quads *)

(** One octet: no leading zero, at most 255. *)
Fixpoint octet_from (digLen : nat) (val : Z) (s : string) : option Z :=
  match s with
  | EmptyString => if digLen =? 0 then None else Some val
  | String a s' =>
      if is_digit a then
        if (digLen =? 1) && (val =? 0)%Z then None
        else let v := (val * 10 + digit_Z a)%Z in
             if (255 <? v)%Z then None else octet_from (S digLen) v s'
      else None
  end.
Definition parse_octet (s : string) : option Z := octet_from 0 0 s.

Definition parseIPv4Fields (s : string) : option (list Z) :=
  match mapM parse_octet (Split s ".") with
  | Some [a; b; c; d] => Some [a; b; c; d]
  | _ => None
  end.

Definition bytes_Z (bs : list Z) : Z := foldl (λ acc b, acc * 256 + b)%Z 0%Z bs.

Definition parseIPv4 (s : string) : option Addr :=
  bs ← parseIPv4Fields s; Some (V4 (bytes_Z bs)).

(** ** IPv6 *)

Definition hex_value (a : ascii) : option Z :=
  let n := Z.of_N (byte_N a) in
  if is_digit a then Some (n - 48)%Z
  else if ((97 <=? n) && (n <=? 102))%Z then Some (n - 87)%Z
  else if ((65 <=? n) && (n <=? 70))%Z then Some (n - 55)%Z
  else None.

(** A group of at most four hex digits: digits read, value, rest. *)
Fixpoint hex_group (off : nat) (acc : Z) (s : string) : option (nat * Z * string) :=
  match s with
  | EmptyString => Some (off, acc, s)
  | String a s' =>
      match hex_value a with
      | None => Some (off, acc, s)
      | Some v => if 3 <? off then None else hex_group (S off) (acc * 16 + v)%Z s'
      end
  end.

(** The groups of an address. [ip] holds the bytes read, [ellipsis] the number
    of bytes before "::"; every round adds at least two bytes, so the fuel 8
    reaches the loop's exit at 16 bytes. *)
Fixpoint v6_groups (fuel : nat) (ip : list Z) (ellipsis : option nat) (s : string)
    : option (list Z * option nat * string) :=
  match fuel with
  | 0 => Some (ip, ellipsis, s)
  | S f =>
    '(off, acc, rest) ← hex_group 0 0 s;
    if off =? 0 then None else
    match rest with
    | String "." _ =>
        if bool_decide (ellipsis = None) && negb (length ip =? 12) then None
        else if 16 <? length ip + 4 then None
        else bs ← parseIPv4Fields s; Some (ip ++ bs, ellipsis, "")
    | _ =>
        let ip' := ip ++ [acc / 256; acc mod 256]%Z in
        match rest with
        | EmptyString => Some (ip', ellipsis, "")
        | String ":" EmptyString => None
        | String ":" (String ":" t) =>
            match ellipsis with
            | Some _ => None
            | None => match t with
                      | EmptyString => Some (ip', Some (length ip'), "")
                      | _ => v6_groups f ip' (Some (length ip')) t
                      end
            end
        | String ":" t => v6_groups f ip' ellipsis t
        | _ => None
        end
    end
  end.

(** The 16 bytes, with the zeros that "::" stands for. *)
Definition v6_finish (zone : string) (ip : list Z) (ellipsis : option nat) : option Addr :=
  if length ip <? 16 then
    e ← ellipsis;
    Some (V6 (bytes_Z (take e ip ++ replicate (16 - length ip) 0%Z ++ drop e ip)) zone)
  else match ellipsis with Some _ => None | None => Some (V6 (bytes_Z ip) zone) end.

Definition v6_from (zone : string) (ellipsis : option nat) (s : string) : option Addr :=
  '(ip, e, rest) ← v6_groups 8 [] ellipsis s;
  if bool_decide (rest = "") then v6_finish zone ip e else None.

Definition parseIPv6 (s : string) : option Addr :=
  let '(addr, zone, found) := Cut s "%" in
  if found && bool_decide (zone = "") then None else
  match addr with
  | String ":" (String ":" t) =>
      if bool_decide (t = "") then Some (V6 0 zone) else v6_from zone (Some 0) t
  | _ => v6_from zone None addr
  end.

(** [netip.ParseAddr]: the first '.', ':' or '%' decides the form. *)
Fixpoint addr_kind (s : string) : option ascii :=
  match s with
  | EmptyString => None
  | String a s' =>
      if Ascii.eqb a "." || Ascii.eqb a ":" || Ascii.eqb a "%" then Some a else addr_kind s'
  end.

Definition ParseAddr (s : string) : option Addr :=
  match addr_kind s with
  | Some "."%char => parseIPv4 s
  | Some ":"%char => parseIPv6 s
  | _ => None
  end.

(** [Addr.String] of an IPv4 address. *)
Definition octets (a : Z) : list Z :=
  [Z.land (Z.shiftr a 24) 255; Z.land (Z.shiftr a 16) 255;
   Z.land (Z.shiftr a 8) 255; Z.land a 255].
Definition V4_String (a : Z) : string := Join ((λ o, Itoa (Z.to_N o)) <$> octets a) ".".

Definition IsLoopback (ip : Addr) : bool :=
  match ip with V4 a => (Z.shiftr a 24 =? 127)%Z | V6 a _ => (a =? 1)%Z end.

(** [netip.AddrFromSlice] and [Addr.Unmap]. *)
Definition AddrFromSlice (bs : list Z) : option Addr :=
  if length bs =? 4 then Some (V4 (bytes_Z bs))
  else if length bs =? 16 then Some (V6 (bytes_Z bs) "")
  else None.
Definition Is4In6 (ip : Addr) : bool :=
  match ip with V4 _ => false | V6 a _ => (Z.shiftr a 32 =? 0xffff)%Z end.
Definition Unmap (ip : Addr) : Addr :=
  if Is4In6 ip then V4 (Z.land (addr_bits ip) (Z.ones 32)) else ip.

(** ** Prefixes *)

Record Prefix := { pfx_addr : Addr; pfx_bits : Z }.

#[export] Instance Prefix_eq_dec : EqDecision Prefix.
Proof. solve_decision. Defined.

(** The text before and after the last separator. *)
Definition cut_last (s : string) (sep : ascii) : option (string * string) :=
  match reverse (Split s sep) with
  | last :: (_ :: _) as before => Some (Join (reverse before) (String sep ""), last)
  | _ => None
  end.

(** [netip.ParsePrefix]. *)
Definition ParsePrefix (s : string) : option Prefix :=
  '(a, bitsStr) ← cut_last s "/";
  ip ← ParseAddr a;
  if negb (bool_decide (Zone ip = "")) then None else
  match bitsStr with
  | String c (String _ _) =>
      if is_digit c && negb (Ascii.eqb c "0") then Some () else None
  | _ => Some ()
  end;;
  bits ← Atoi bitsStr;
  if (bits <? 0)%Z || (BitLen ip <? bits)%Z then None
  else Some {| pfx_addr := ip; pfx_bits := bits |}.

Definition same_family (x y : Addr) : bool := Bool.eqb (Is4 x) (Is4 y).

(** [Prefix.Contains]. *)
Definition Contains (p : Prefix) (ip : Addr) : bool :=
  bool_decide (Zone ip = "") && same_family (pfx_addr p) ip &&
  (Z.shiftr (Z.lxor (addr_bits ip) (addr_bits (pfx_addr p))) (BitLen ip - pfx_bits p) =? 0)%Z.

(** [Prefix.Masked]. *)
Definition mask_addr (n : Z) (ip : Addr) : Addr :=
  let m a := Z.shiftl (Z.shiftr a (BitLen ip - n)) (BitLen ip - n) in
  match ip with V4 a => V4 (m a) | V6 a z => V6 (m a) z end.
Definition Masked (p : Prefix) : Prefix :=
  {| pfx_addr := mask_addr (pfx_bits p) (pfx_addr p); pfx_bits := pfx_bits p |}.

(** [net.ParseCIDR]: the address and the prefix length. Unlike [ParsePrefix]
    it accepts leading zeros in the length. *)
Definition ParseCIDR (s : string) : option (Addr * Z) :=
  let '(addr, mask, found) := Cut s "/" in
  if negb found then None else
  ip ← ParseAddr addr;
  if negb (bool_decide (Zone ip = "")) || bool_decide (mask = "") then None else
  n ← digits_Z 0 mask;
  if (BitLen ip <? n)%Z then None else Some (ip, n).

(** [ip.To4() != nil]: an IPv4 address, plain or mapped into IPv6. *)
Definition has_To4 (ip : Addr) : bool := Is4 ip || Is4In6 ip.

(** [ip.Equal(subnet.IP)] for the two results of [net.ParseCIDR]: no host bit
    is set. *)
Definition is_network_address (ip : Addr) (n : Z) : bool :=
  (Z.land (addr_bits ip) (Z.ones (BitLen ip - n)) =? 0)%Z.

(** The prefix [net.ParseCIDR] returns as [subnet]. *)
Definition cidr_prefix (r : Addr * Z) : Prefix :=
  Masked {| pfx_addr := r.1; pfx_bits := r.2 |}.

Example ParseAddr_ex :
  ParseAddr "10.42.0.1" = Some (V4 170524673) ∧ ParseAddr "010.0.0.1" = None ∧
  ParseAddr "1.2.3" = None ∧ ParseAddr "::ffff:10.0.0.0" = Some (V6 0xffff0a000000 "") ∧
  ParseAddr "fe80::1%eth0" = Some (V6 0xfe800000000000000000000000000001 "eth0") ∧
  ParseAddr "1:2:3:4:5:6:7:8" = Some (V6 0x00010002000300040005000600070008 "") ∧
  ParseAddr "1:2:3:4:5:6:7::" = Some (V6 0x00010002000300040005000600070000 "") ∧
  ParseAddr "1:2:3:4:5:6:7:8:" = None ∧ ParseAddr "1::2::3" = None ∧
  ParseAddr "12345::" = None.
Proof. vm_compute. repeat split. Qed.
Example ParsePrefix_ex :
  ParsePrefix "10.42.0.0/16" = Some {| pfx_addr := V4 170524672; pfx_bits := 16 |} ∧
  ParsePrefix "10.42.0.0/016" = None ∧ ParsePrefix "10.42.0.0/33" = None ∧
  ParsePrefix "10.42.0.0" = None ∧ ParseCIDR "10.42.0.0/016" = Some (V4 170524672, 16%Z) ∧
  ParsePrefix "10.42.0.0/+8" = None ∧ ParsePrefix "10.42.0.0/" = None.
Proof. vm_compute. repeat split. Qed.
Example V4_String_ex : V4_String 170524673 = "10.42.0.1".
Proof. vm_compute. repeat split. Qed.

(** ** Laws *)

(** Texts of IPv4 addresses and prefixes hold only digits, dots and slashes. *)
Definition ip_byte (a : ascii) : bool := is_digit a || Ascii.eqb a "." || Ascii.eqb a "/".

Lemma octet_from_digits k v s n : octet_from k v s = Some n → all_bytes is_digit s = true.
Proof.
  revert k v. induction s as [|a s IH]; intros k v; [done|]. cbn.
  destruct (is_digit a); [|done]. repeat (case_match; try done). apply IH.
Qed.

Lemma octet_from_range k v s n : (0 ≤ v ≤ 255)%Z → octet_from k v s = Some n → (0 ≤ n ≤ 255)%Z.
Proof.
  revert k v. induction s as [|a s IH]; intros k v Hv; cbn.
  - case_match; naive_solver.
  - destruct (is_digit a) eqn:Hd; [|done]. case_match; [done|].
    case_match eqn:Hle; [done|]. apply IH.
    apply Z.ltb_ge in Hle. split; [|done].
    unfold is_digit in Hd. apply andb_true_iff in Hd as [Hd _]. apply N.leb_le in Hd.
    unfold digit_Z. lia.
Qed.

Lemma Split_all_bytes p s c :
  Forall (λ w, all_bytes p w = true) (Split s c) →
  all_bytes (λ a, p a || Ascii.eqb a c) s = true.
Proof.
  induction s as [|a s IH]; cbn; [done|].
  destruct (Ascii.eqb a c) eqn:E.
  - intros [_ Hs]%Forall_cons. by rewrite orb_true_r, IH.
  - destruct (Split s c) as [|w ws] eqn:Ew; [by destruct (Split_not_nil s c)|].
    intros [Hw Hs]%Forall_cons. cbn in Hw. apply andb_true_iff in Hw as [-> Hw].
    cbn. apply IH. by constructor.
Qed.

Lemma parseIPv4Fields_spec s bs :
  parseIPv4Fields s = Some bs →
  length bs = 4 ∧ Forall (λ b, 0 ≤ b ≤ 255)%Z bs ∧
  all_bytes (λ a, is_digit a || Ascii.eqb a ".") s = true.
Proof.
  unfold parseIPv4Fields. destruct (mapM parse_octet (Split s ".")) as [l|] eqn:E; [|done].
  intros H. assert (l = bs ∧ length bs = 4) as [-> Hlen].
  { do 5 (destruct l as [|? l]; try done). by simplify_eq. }
  apply mapM_Some in E. split; [done|]. split.
  - eapply Forall2_Forall_r; [exact E|]. apply Forall_forall. intros x _ y Hy.
    by eapply octet_from_range in Hy.
  - apply Split_all_bytes. eapply Forall2_Forall_l; [exact E|].
    apply Forall_forall. intros y _ x Hy. by eapply octet_from_digits.
Qed.

Lemma v6_from_not4 z e s ip : v6_from z e s = Some ip → Is4 ip = false.
Proof.
  unfold v6_from, v6_finish.
  destruct (v6_groups 8 [] e s) as [[[bs e'] rest]|]; cbn; [|done].
  case_bool_decide; [|done]. case_match; destruct e'; cbn; intros Hf; by simplify_eq.
Qed.

Lemma parseIPv6_not4 s ip : parseIPv6 s = Some ip → Is4 ip = false.
Proof.
  unfold parseIPv6. destruct (Cut s "%") as [[addr zone] found].
  destruct (found && _); [done|].
  intros Hip. repeat (case_match; try (by eapply v6_from_not4)).
  all: by injection Hip as <-.
Qed.

(** A text accepted as an IPv4 address is a dotted quad. *)
Lemma ParseAddr_V4 s ip :
  ParseAddr s = Some ip → Is4 ip = true →
  all_bytes (λ a, is_digit a || Ascii.eqb a ".") s = true ∧ parseIPv4 s = Some ip.
Proof.
  unfold ParseAddr. intros Hp H4.
  assert (parseIPv4 s = Some ip) as Hp4.
  { destruct (addr_kind s) as [[[] [] [] [] [] [] [] []]|]; try done.
    by rewrite (parseIPv6_not4 s ip Hp) in H4. }
  split; [|done]. unfold parseIPv4 in Hp4.
  destruct (parseIPv4Fields s) as [bs|] eqn:E; [|done].
  by apply parseIPv4Fields_spec in E as (_ & _ & ?).
Qed.

Lemma bytes_Z_4 b0 b1 b2 b3 :
  bytes_Z [b0; b1; b2; b3] = (((b0 * 256 + b1) * 256 + b2) * 256 + b3)%Z.
Proof. unfold bytes_Z. cbn. lia. Qed.

Lemma parseIPv4_range s a : parseIPv4 s = Some (V4 a) → (0 ≤ a < 2 ^ 32)%Z.
Proof.
  unfold parseIPv4. destruct (parseIPv4Fields s) as [bs|] eqn:E; [|done].
  intros [= <-]. apply parseIPv4Fields_spec in E as (Hl & Hb & _).
  do 5 (destruct bs as [|? bs]; try done).
  rewrite bytes_Z_4. rewrite !Forall_cons in Hb. lia.
Qed.

Lemma cut_last_app s c a b :
  cut_last s c = Some (a, b) → s = a +:+ String c b ∧ free_of c b = true.
Proof.
  unfold cut_last. intros H.
  pose proof (Split_pieces_free s c) as Hfree. revert H.
  assert (s = Join (Split s c) (String c "")) as Hs.
  { clear. induction s as [|x s IH]; [done|]. cbn.
    destruct (Ascii.eqb x c) eqn:E.
    - apply Ascii.eqb_eq in E as ->. pose proof (Split_not_nil s c).
      destruct (Split s c); [done|]. by rewrite IH at 1.
    - pose proof (Split_not_nil s c). destruct (Split s c) as [|w ws]; [done|].
      rewrite IH at 1. by destruct ws. }
  revert Hs Hfree. generalize (Split s c) as ws. intros ws -> Hfree.
  destruct (reverse ws) as [|l [|w before]] eqn:E; try done.
  apply (f_equal reverse) in E. rewrite reverse_involutive in E. subst ws.
  intros [= <- <-]. rewrite reverse_cons in *.
  apply Forall_app in Hfree as [_ Hl]. split; [|by inversion Hl].
  assert (reverse (w :: before) ≠ []) as Hne.
  { rewrite reverse_cons. by destruct (reverse before). }
  revert Hne. generalize (reverse (w :: before)) as pre.
  induction pre as [|y pre IH]; [done|]. intros _.
  destruct pre as [|y' pre]; [done|].
  change (Join ((y :: y' :: pre) ++ [l]) (String c "")) with
    (y +:+ String c "" +:+ Join ((y' :: pre) ++ [l]) (String c "")).
  rewrite IH by done.
  change (Join (y :: y' :: pre) (String c "")) with
    (y +:+ String c "" +:+ Join (y' :: pre) (String c "")).
  by autorewrite with gostr.
Qed.

(** A text accepted as an IPv4 prefix holds only digits, dots and one slash. *)
Lemma ParsePrefix_V4 s p :
  ParsePrefix s = Some p → Is4 (pfx_addr p) = true →
  all_bytes ip_byte s = true ∧ (0 ≤ pfx_bits p ≤ 32)%Z ∧
  (0 ≤ addr_bits (pfx_addr p) < 2 ^ 32)%Z.
Proof.
  intros H H4. unfold ParsePrefix in H.
  apply bind_Some in H as ([a b] & Ecut & H).
  apply bind_Some in H as (ip & Ea & H). destruct (negb _); [done|].
  apply bind_Some in H as ([] & Ex & H). apply bind_Some in H as (n & En & H).
  apply cut_last_app in Ecut as [-> _].
  destruct (_ || _)%Z eqn:Er; [done|]. injection H as <-. cbn in *.
  apply orb_false_iff in Er as [?%Z.ltb_ge ?%Z.ltb_ge].
  destruct (ParseAddr_V4 a ip Ea H4) as [Hb Hp4].
  destruct ip as [x|]; [|done]. split; [|split].
  - rewrite all_bytes_app. cbn. apply andb_true_iff. split.
    + eapply all_bytes_weaken; [|exact Hb]. unfold ip_byte. intros c ->. done.
    + assert (all_bytes is_digit b = true) as Hd.
      { destruct b as [|c b]; [done|]. destruct (is_digit c) eqn:Hc.
        - apply Atoi_digit in En as [? _]; [|done]. by eapply digits_bytes.
        - destruct b as [|c' b]; [|done].
          by destruct c as [[] [] [] [] [] [] [] []]. }
      eapply all_bytes_weaken; [|exact Hd]. unfold ip_byte. by intros c ->.
  - cbn in *. lia.
  - by eapply parseIPv4_range.
Qed.

(** Two IPv4 prefixes share an address exactly when one contains the
    other's base address. *)
Lemma Contains_V4 p x a :
  pfx_addr p = V4 a →
  Contains p (V4 x) = true ↔ Z.shiftr x (32 - pfx_bits p) = Z.shiftr a (32 - pfx_bits p).
Proof.
  intros Ha. unfold Contains, same_family. rewrite Ha. cbn [Is4 Zone addr_bits BitLen].
  rewrite bool_decide_eq_true_2 by done. cbn [andb Bool.eqb].
  rewrite Z.eqb_eq, Z.shiftr_lxor. apply Z.lxor_eq_0_iff.
Qed.

Lemma shiftr_coarser x y m n :
  (0 ≤ m ≤ n)%Z → Z.shiftr x m = Z.shiftr y m → Z.shiftr x n = Z.shiftr y n.
Proof.
  intros Hmn Hxy. replace n with (m + (n - m))%Z by lia.
  rewrite <-!Z.shiftr_shiftr by lia. by rewrite Hxy.
Qed.

Lemma prefixes_meet p q a b :
  pfx_addr p = V4 a → pfx_addr q = V4 b →
  (0 ≤ pfx_bits p ≤ 32)%Z → (0 ≤ pfx_bits q ≤ 32)%Z →
  (Contains p (V4 b) || Contains q (V4 a) = true ↔
   ∃ x, Contains p (V4 x) = true ∧ Contains q (V4 x) = true).
Proof.
  intros Hp Hq Hbp Hbq. rewrite orb_true_iff. split.
  - intros [H|H].
    + exists b. split; [done|]. by apply (Contains_V4 _ _ _ Hq).
    + exists a. split; [|done]. by apply (Contains_V4 _ _ _ Hp).
  - intros (x & Hx1 & Hx2).
    rewrite (Contains_V4 _ _ _ Hp) in Hx1. rewrite (Contains_V4 _ _ _ Hq) in Hx2.
    rewrite (Contains_V4 _ _ _ Hp), (Contains_V4 _ _ _ Hq).
    destruct (Z.le_ge_cases (pfx_bits p) (pfx_bits q)).
    + left. rewrite <-Hx1. apply (shiftr_coarser _ _ (32 - pfx_bits q)); [lia|done].
    + right. rewrite <-Hx2. apply (shiftr_coarser _ _ (32 - pfx_bits p)); [lia|done].
Qed.
