(* ===== verification/Metadata.v ===== *)
(** * Metadata types (internal/metadata/types.go)

    The documented JSON objects of the metadata service. A decoded
    [interface{}] is a [Value]; a Go map is a [gmap]. *)
From S2P Require Import Prelude GoStrings.

(** The dynamic values of a decoded JSON text. Integers are exact, any other
    number keeps its text: the program never computes with one. *)
Inductive Value :=
  | VNull
  | VBool (b : bool)
  | VNumber (n : Z)
  | VFloat (text : string)
  | VString (s : string)
  | VArray (l : list Value)
  | VObject (m : gmap string Value).

(** [x, _ := v.(T)]: the zero value when the type does not match. *)
Definition as_map (v : option Value) : gmap string Value :=
  match v with Some (VObject m) => m | _ => ∅ end.
Definition as_string (v : option Value) : string :=
  match v with Some (VString s) => s | _ => "" end.
Definition as_bool (v : option Value) : bool :=
  match v with Some (VBool b) => b | _ => false end.

Record HealthCheck := {
  HealthyThreshold : Z; CheckInterval : Z; CheckPort : Z; RequestLine : string;
  ResponseTimeout : Z; UnhealthyThreshold : Z;
}.

Record LBPortRule := {
  BackendName : string; LBHostname : string; LBPath : string; Priority : Z;
  LBProtocol : string; LBSelector : string; LBService : string;
  LBSourcePort : Z; LBTargetPort : Z;
}.

Record LBStickinessPolicy := {
  Cookie : string; Domain : string; Indirect : bool; StickyMode : string;
  StickyName : string; Nocache : bool; Postonly : bool;
}.

Record LBConfig := {
  Certs : list string; LBText : string; DefaultCert : string;
  PortRules : list LBPortRule; StickinessPolicy : LBStickinessPolicy;
}.

Record NetworkPolicyRuleBetween := { GroupBy : string; BetweenSelector : string }.
Record NetworkPolicyRuleMember := { MemberSelector : string }.
Record NetworkPolicyRule := {
  PolicyAction : string; PolicyBetween : option NetworkPolicyRuleBetween;
  PolicyFrom : option NetworkPolicyRuleMember; PolicyPorts : list string;
  PolicyTo : option NetworkPolicyRuleMember; PolicyWithin : string;
}.

Module Container.
Record t := Make {
  CreateIndex : Z; Dns : list string; DnsSearch : list string;
  EnvironmentUUID : string; ExternalId : string; HealthCheck : HealthCheck;
  HealthCheckHosts : list string; HealthState : string; HostUUID : string;
  Hostname : string; IPs : list string; Labels : gmap string string;
  Links : gmap string string; MemoryReservation : Z; MetadataKind : string;
  MilliCPUReservation : Z; Name : string; NetworkFromContainerUUID : string;
  NetworkUUID : string; Ports : list string; PrimaryIp : string;
  PrimaryMacAddress : string; ServiceIndex : string; ServiceName : string;
  StackName : string; StackUUID : string; StartCount : Z; State : string;
  System : bool; UUID : string;
}.
End Container.

Module Service.
Record t := Make {
  Containers : list Container.t; CreateIndex : Z; EnvironmentUUID : string;
  Expose : list string; ExternalIps : list string; Fqdn : string;
  HealthCheck : HealthCheck; Hostname : string; Kind : string;
  Labels : gmap string string; LBConfig : LBConfig; Links : gmap string string;
  Metadata : gmap string Value; MetadataKind : string; Name : string;
  Ports : list string; PrimaryServiceName : string; Scale : Z;
  Sidekicks : list string; StackName : string; StackUUID : string;
  State : string; System : bool; Token : string; UUID : string; Vip : string;
}.
End Service.

Module Network.
Record t := Make {
  Default : bool; DefaultPolicyAction : string; EnvironmentUUID : string;
  HostPorts : bool; Metadata : gmap string Value; MetadataKind : string;
  Name : string; Policy : list NetworkPolicyRule; UUID : string;
}.
(** The zero value, read from a map under an absent key. *)
Definition zero : t := Make false "" "" false ∅ "" "" [] "".
End Network.

Module Host.
Record t := Make {
  AgentIP : string; AgentState : string; EnvironmentUUID : string; HostId : Z;
  Hostname : string; Labels : gmap string string; LocalStorageMb : Z;
  Memory : Z; MetadataKind : string; MilliCPU : Z; Name : string;
  State : string; UUID : string;
}.
Definition zero : t := Make "" "" "" 0 "" ∅ 0 0 "" 0 "" "" "".
End Host.

Module Stack.
Record t := Make {
  EnvironmentName : string; EnvironmentUUID : string; MetadataKind : string;
  Name : string; Services : list Service.t; System : bool; UUID : string;
}.
End Stack.

(** Objects with only the fields a scenario names; the others are zero. *)
Definition zero_health : HealthCheck := Build_HealthCheck 0 0 0 "" 0 0.
Definition zero_lb : LBConfig :=
  Build_LBConfig [] "" "" [] (Build_LBStickinessPolicy "" "" false "" "" false false).

Definition mk_container (uuid ext host net ip mac state name : string)
    (ports : list string) (labels : gmap string string) : Container.t :=
  Container.Make 0 [] [] "" ext zero_health [] "" host "" [] labels ∅ 0 "" 0 name ""
    net ports ip mac "" "" "" "" 0 state false uuid.

Definition mk_service (kind name primary stack : string) (cs : list Container.t)
    : Service.t :=
  Service.Make cs 0 "" [] [] "" zero_health "" kind ∅ zero_lb ∅ ∅ "" name []
    primary 0 [] "" stack "" false "" "" "".

Definition mk_network (uuid name : string) (hostports : bool)
    (conf : gmap string Value) : Network.t :=
  Network.Make false "" "" hostports {[ "cniConfig" := VObject conf ]} "" name [] uuid.

Definition mk_host (uuid ip state : string) (labels : gmap string string) : Host.t :=
  Host.Make ip "" "" 0 "" labels 0 0 "" 0 "" state uuid.

(** The CNI files of a network: [network.Metadata["cniConfig"]]. *)
Definition cniConfig (n : Network.t) : gmap string Value :=
  as_map (Network.Metadata n !! "cniConfig").

(** ** Comparing values

    [reflect.DeepEqual] on metadata objects. A value is compared through a tree;
    a nil and an empty slice or map, which DeepEqual tells apart, are one value
    here. *)
Fixpoint to_tree (v : Value) : gen_tree (string + Z + bool) :=
  match v with
  | VNull => GenNode 0 []
  | VBool b => GenLeaf (inr b)
  | VNumber n => GenLeaf (inl (inr n))
  | VFloat t => GenNode 1 [GenLeaf (inl (inl t))]
  | VString s => GenLeaf (inl (inl s))
  | VArray l => GenNode 2 (map to_tree l)
  | VObject m => GenNode 3 (map (λ kv, GenNode 4 [GenLeaf (inl (inl kv.1)); kv.2])
                              (map_to_list (to_tree <$> m)))
  end.

Fixpoint of_tree (t : gen_tree (string + Z + bool)) : option Value :=
  match t with
  | GenNode 0 _ => Some VNull
  | GenLeaf (inr b) => Some (VBool b)
  | GenLeaf (inl (inr n)) => Some (VNumber n)
  | GenNode 1 [GenLeaf (inl (inl s))] => Some (VFloat s)
  | GenLeaf (inl (inl s)) => Some (VString s)
  | GenNode 2 ts => VArray <$> mapM id (map of_tree ts)
  | GenNode 3 ts =>
      (λ kvs, VObject (list_to_map kvs)) <$>
        mapM (λ t : option (string * Value), t) (map (λ t, match t with
          | GenNode 4 [GenLeaf (inl (inl k)); x] => v ← of_tree x; Some (k, v)
          | _ => None
          end) ts)
  | _ => None
  end.

Fixpoint tree_size {A} (t : gen_tree A) : nat :=
  match t with GenLeaf _ => 1 | GenNode _ ts => S (sum_list (map tree_size ts)) end.

Lemma tree_size_elem {A} (t : gen_tree A) ts : t ∈ ts → tree_size t ≤ sum_list (map tree_size ts).
Proof.
  induction ts as [|u ts IH]; [by intros ?%not_elem_of_nil|]. cbn. intros [->|?%IH]%elem_of_cons; lia.
Qed.

Lemma of_to_tree v : of_tree (to_tree v) = Some v.
Proof.
  assert (∀ n v, tree_size (to_tree v) ≤ n → of_tree (to_tree v) = Some v) as H; [|by eapply H].
  induction n as [|n IH]; intros w; [destruct w; cbn; lia|].
  destruct w as [|b|z|t|s|l|m]; [done..| |].
  - cbn. intros Hn. assert (mapM id (map of_tree (map to_tree l)) = Some l) as ->; [|done].
    assert (∀ x, x ∈ l → of_tree (to_tree x) = Some x) as Hx.
    { intros x Hx. apply IH. enough (tree_size (to_tree x) ≤ sum_list (map tree_size (map to_tree l))) by lia.
      apply tree_size_elem. apply list_elem_of_fmap. by exists x. }
    clear Hn. induction l as [|x l IHl]; [done|]. cbn [map].
    cbn. rewrite Hx by apply list_elem_of_here. cbn. rewrite IHl; [done|].
    intros y Hy. apply Hx. by apply list_elem_of_further.
  - cbn. intros Hn. rewrite map_to_list_fmap in *.
    assert (∀ k x, (k, x) ∈ map_to_list m → of_tree (to_tree x) = Some x) as Hx.
    { intros k x Hk. apply IH.
      match type of Hn with S (sum_list (map tree_size ?ts)) ≤ _ =>
        assert (tree_size (GenNode 4 [GenLeaf (inl (inl k)); to_tree x]) ≤ sum_list (map tree_size ts)) as Hle end.
      { apply tree_size_elem. apply list_elem_of_fmap. exists (k, to_tree x). split; [done|].
        apply list_elem_of_fmap. by exists (k, x). }
      cbn in Hle. lia. }
    clear Hn. match goal with |- context [mapM _ ?ts] => assert (mapM (λ t, t) ts = Some (map_to_list m)) as Hm end.
    { generalize dependent (map_to_list m). intros l Hx. induction l as [|[k x] l IHl]; [done|].
      cbn. rewrite (Hx k x) by apply list_elem_of_here. cbn. rewrite IHl; [done|].
      intros k' y Hy. apply (Hx k'). by apply list_elem_of_further. }
    rewrite Hm. cbn. by rewrite list_to_map_to_list.
Qed.

#[export] Instance to_tree_inj : Inj (=) (=) to_tree.
Proof. intros v w H. apply (inj Some). by rewrite <-(of_to_tree v), <-(of_to_tree w), H. Qed.

#[export] Instance Value_eq_dec : EqDecision Value.
Proof.
  refine (λ v w, cast_if (decide (to_tree v = to_tree w))); [by apply (inj to_tree)|congruence].
Defined.

#[export] Instance NetworkPolicyRuleBetween_eq_dec : EqDecision NetworkPolicyRuleBetween.
Proof. solve_decision. Defined.
#[export] Instance NetworkPolicyRuleMember_eq_dec : EqDecision NetworkPolicyRuleMember.
Proof. solve_decision. Defined.
#[export] Instance NetworkPolicyRule_eq_dec : EqDecision NetworkPolicyRule.
Proof. solve_decision. Defined.
#[export] Instance Network_eq_dec : EqDecision Network.t.
Proof. solve_decision. Defined.
