(* ===== verification/Json.v ===== *)
(** * JSON texts (Go's encoding/json)

    [parse] is the validating reader of [json.Unmarshal], [Marshal] its
    writer. A [Json] keeps the members of an object in document order and the
    text of a number, so that decoding into a struct can follow Go: the last
    matching member wins, a null leaves the field alone, a wrong type is an
    error. Field names match up to ASCII case. *)
From S2P Require Import Prelude GoStrings Metadata.

Inductive Json :=
  | JNull
  | JBool (b : bool)
  | JNumber (text : string)
  | JString (s : string)
  | JArray (l : list Json)
  | JObject (members : list (string * Json)).

(** ** Reading *)

Definition is_ws (a : ascii) : bool :=
  let n := byte_N a in ((n =? 32) || (n =? 9) || (n =? 10) || (n =? 13))%N.

Fixpoint skip_ws (s : string) : string :=
  match s with
  | String a s' => if is_ws a then skip_ws s' else s
  | EmptyString => s
  end.

Definition hex_value (a : ascii) : option N :=
  let n := byte_N a in
  if ((48 <=? n) && (n <=? 57))%N then Some (n - 48)%N
  else if ((97 <=? n) && (n <=? 102))%N then Some (n - 87)%N
  else if ((65 <=? n) && (n <=? 70))%N then Some (n - 55)%N
  else None.

Definition hex4 (a b c d : ascii) : option N :=
  x ← hex_value a; y ← hex_value b; z ← hex_value c; w ← hex_value d;
  Some (((x * 16 + y) * 16 + z) * 16 + w)%N.

Definition bytes_of (ns : list N) : string :=
  foldr (λ n s, String (ascii_of_N n) s) "" ns.

(** A code point in UTF-8. *)
Definition utf8_encode (r : N) : string :=
  bytes_of (if (r <? 0x80)%N then [r]
    else if (r <? 0x800)%N then [0xC0 + r / 64; 0x80 + r mod 64]%N
    else if (r <? 0x10000)%N
    then [0xE0 + r / 4096; 0x80 + (r / 64) mod 64; 0x80 + r mod 64]%N
    else [0xF0 + r / 262144; 0x80 + (r / 4096) mod 64; 0x80 + (r / 64) mod 64;
          0x80 + r mod 64]%N).

Definition replacement : string := utf8_encode 0xFFFD.

Definition within (lo hi : N) (a : ascii) : bool := ((lo <=? byte_N a) && (byte_N a <=? hi))%N.
Definition cont (a : ascii) : bool := within 0x80 0xBF a.

(** The width of the valid UTF-8 sequence at the head of a string, 0 if none. *)
Definition utf8_width (s : string) : nat :=
  match s with
  | EmptyString => 0
  | String a s1 =>
    let n := byte_N a in
    if (n <? 0x80)%N then 1 else
    match s1 with
    | String b s2 =>
      if within 0xC2 0xDF a then (if cont b then 2 else 0) else
      match s2 with
      | String c s3 =>
        let low := if (n =? 0xE0)%N then 0xA0%N else 0x80%N in
        let high := if (n =? 0xED)%N then 0x9F%N else 0xBF%N in
        if within 0xE0 0xEF a then (if within low high b && cont c then 3 else 0) else
        match s3 with
        | String d _ =>
          let low := if (n =? 0xF0)%N then 0x90%N else 0x80%N in
          let high := if (n =? 0xF4)%N then 0x8F%N else 0xBF%N in
          if within 0xF0 0xF4 a && within low high b && cont c && cont d then 4 else 0
        | EmptyString => 0
        end
      | EmptyString => 0
      end
    | EmptyString => 0
    end
  end.

(** Invalid bytes become U+FFFD; [keep] bytes of a valid sequence follow. *)
Fixpoint valid_utf8 (keep : nat) (s : string) : string :=
  match s with
  | EmptyString => ""
  | String a s' =>
      match keep with
      | S k => String a (valid_utf8 k s')
      | 0 => match utf8_width s with
             | 0 => replacement +:+ valid_utf8 0 s'
             | S w => String a (valid_utf8 w s')
             end
      end
  end.

Definition is_surrogate (r : N) : bool := ((0xD800 <=? r) && (r <=? 0xDFFF))%N.

Definition pair_code (hi lo : N) : option N :=
  if ((0xD800 <=? hi) && (hi <=? 0xDBFF) && (0xDC00 <=? lo) && (lo <=? 0xDFFF))%N
  then Some (0x10000 + (hi - 0xD800) * 1024 + (lo - 0xDC00))%N else None.

Definition cons_text (t : string) (r : option (string * string)) : option (string * string) :=
  '(s, rest) ← r; Some (t +:+ s, rest).

(** The text of a string up to its closing quote, and what follows it. *)
Fixpoint string_body (s : string) : option (string * string) :=
  match s with
  | EmptyString => None
  | String a s1 =>
    let n := byte_N a in
    if (n =? 34)%N then Some ("", s1)
    else if (n <? 32)%N then None
    else if negb (n =? 92)%N then cons_text (String a "") (string_body s1)
    else match s1 with
    | EmptyString => None
    | String e s2 =>
      match byte_N e with
      | 34%N | 92%N | 47%N => cons_text (String e "") (string_body s2)
      | 98%N => cons_text (bytes_of [8%N]) (string_body s2)
      | 102%N => cons_text (bytes_of [12%N]) (string_body s2)
      | 110%N => cons_text (bytes_of [10%N]) (string_body s2)
      | 114%N => cons_text (bytes_of [13%N]) (string_body s2)
      | 116%N => cons_text (bytes_of [9%N]) (string_body s2)
      | 117%N =>
        match s2 with
        | String h1 (String h2 (String h3 (String h4 s3))) =>
          match hex4 h1 h2 h3 h4 with
          | None => None
          | Some r =>
            if negb (is_surrogate r) then cons_text (utf8_encode r) (string_body s3) else
            match s3 with
            | String "\" (String "u" (String g1 (String g2 (String g3 (String g4 s4))))) =>
              match (lo ← hex4 g1 g2 g3 g4; pair_code r lo) with
              | Some code => cons_text (utf8_encode code) (string_body s4)
              | None => cons_text replacement (string_body s3)
              end
            | _ => cons_text replacement (string_body s3)
            end
          end
        | _ => None
        end
      | _ => None
      end
    end
  end.

Definition parse_string (s : string) : option (string * string) :=
  '(t, rest) ← string_body s; Some (valid_utf8 0 t, rest).

(** The longest prefix of digits. *)
Fixpoint span_digits (s : string) : string * string :=
  match s with
  | String a s' => if is_digit a then let '(d, r) := span_digits s' in (String a d, r)
                   else ("", s)
  | EmptyString => ("", "")
  end.

Definition number_int (s : string) : option (string * string) :=
  match s with
  | String "0" r => Some ("0", r)
  | _ => let '(d, r) := span_digits s in
         match d with EmptyString => None | _ => Some (d, r) end
  end.

Definition number_frac (s : string) : option (string * string) :=
  match s with
  | String "." r => let '(d, r') := span_digits r in
         match d with EmptyString => None | _ => Some ("." +:+ d, r') end
  | _ => Some ("", s)
  end.

Definition number_exp (s : string) : option (string * string) :=
  let digits (mark : string) (r : string) :=
    let '(d, r') := span_digits r in
    match d with EmptyString => None | _ => Some (mark +:+ d, r') end in
  match s with
  | String a r =>
      if (byte_N a =? 101)%N || (byte_N a =? 69)%N then
        match r with
        | String "+" r' => digits (String a "+") r'
        | String "-" r' => digits (String a "-") r'
        | _ => digits (String a "") r
        end
      else Some ("", s)
  | EmptyString => Some ("", s)
  end.

Definition parse_number (s : string) : option (string * string) :=
  let '(sign, s) := match s with String "-" r => ("-", r) | _ => ("", s) end in
  '(d, s) ← number_int s;
  '(f, s) ← number_frac s;
  '(e, s) ← number_exp s;
  Some (sign +:+ d +:+ f +:+ e, s).

Definition literal (s : string) : option (Json * string) :=
  if HasPrefix s "true" then Some (JBool true, drop_bytes 4 s)
  else if HasPrefix s "false" then Some (JBool false, drop_bytes 5 s)
  else if HasPrefix s "null" then Some (JNull, drop_bytes 4 s)
  else '(n, r) ← parse_number s; Some (JNumber n, r).

(** Go's scanner refuses deeper nesting. *)
Definition max_depth : N := 10000.

(** One value, the rest of an array after its first bracket or comma, the rest
    of an object likewise. *)
Fixpoint parse_value (fuel : nat) (depth : N) (s : string) : option (Json * string) :=
  match fuel with
  | 0 => None
  | S f =>
    match skip_ws s with
    | String "{" r =>
        if (max_depth <=? depth)%N then None else
        match skip_ws r with
        | String "}" r' => Some (JObject [], r')
        | r' => '(ms, rest) ← parse_members f (depth + 1) r'; Some (JObject ms, rest)
        end
    | String "[" r =>
        if (max_depth <=? depth)%N then None else
        match skip_ws r with
        | String "]" r' => Some (JArray [], r')
        | r' => '(l, rest) ← parse_elements f (depth + 1) r'; Some (JArray l, rest)
        end
    | String "034" r => '(t, rest) ← parse_string r; Some (JString t, rest)
    | r => literal r
    end
  end
with parse_elements (fuel : nat) (depth : N) (s : string) : option (list Json * string) :=
  match fuel with
  | 0 => None
  | S f =>
    '(v, r) ← parse_value f depth s;
    match skip_ws r with
    | String "," r' => '(l, rest) ← parse_elements f depth r'; Some (v :: l, rest)
    | String "]" r' => Some ([v], r')
    | _ => None
    end
  end
with parse_members (fuel : nat) (depth : N) (s : string)
    : option (list (string * Json) * string) :=
  match fuel with
  | 0 => None
  | S f =>
    match skip_ws s with
    | String "034" r =>
        '(k, r) ← parse_string r;
        match skip_ws r with
        | String ":" r =>
            '(v, r) ← parse_value f depth r;
            match skip_ws r with
            | String "," r' => '(l, rest) ← parse_members f depth r'; Some ((k, v) :: l, rest)
            | String "}" r' => Some ([(k, v)], r')
            | _ => None
            end
        | _ => None
        end
    | _ => None
    end
  end.

(** Every two nested calls consume a byte. *)
Definition parse_fuel (s : string) : nat := 2 * String.length s + 2.

(** The value of a text; [None] is a syntax error. *)
Definition parse (s : string) : option Json :=
  '(v, rest) ← parse_value (parse_fuel s) 0 s;
  match skip_ws rest with EmptyString => Some v | _ => None end.

(** ** Decoding *)

(** An integer of a number's text, as [strconv.ParseInt] reads it. *)
Definition json_int (text : string) : option Z := Atoi text.

(** Decoding into an [interface{}]: a float64 is exact on small integers. *)
Definition number_value (text : string) : Value :=
  match json_int text with
  | Some n => if (Z.abs n <=? 2 ^ 53)%Z then VNumber n else VFloat text
  | None => VFloat text
  end.

Fixpoint to_value (v : Json) : Value :=
  match v with
  | JNull => VNull
  | JBool b => VBool b
  | JNumber t => number_value t
  | JString s => VString s
  | JArray l => VArray (map to_value l)
  | JObject ms => VObject (foldl (λ m kv, <[kv.1 := kv.2]> m) ∅
                             (map (λ kv, (kv.1, to_value kv.2)) ms))
  end.

(** The members that decode into a struct field, in document order. *)
Definition field_values (name : string) (ms : list (string * Json)) : list Json :=
  (filter (λ kv, ToLower kv.1 = ToLower name) ms).*2.

(** The raw value of a key in a map of raw messages. *)
Definition raw_member (name : string) (ms : list (string * Json)) : option Json :=
  last (filter (λ kv, kv.1 = name) ms).*2.

Definition type_error : error := Errorf "json: cannot unmarshal into Go struct field".

Definition set_string (acc : string) (v : Json) : result string :=
  match v with JString s => Ok s | JNull => Ok acc | _ => Err type_error end.
Definition set_bool (acc : bool) (v : Json) : result bool :=
  match v with JBool b => Ok b | JNull => Ok acc | _ => Err type_error end.
Definition set_int (acc : Z) (v : Json) : result Z :=
  match v with
  | JNumber t => match json_int t with Some n => Ok n | None => Err type_error end
  | JNull => Ok acc
  | _ => Err type_error
  end.

Definition string_field (name : string) (ms : list (string * Json)) : result string :=
  result_fold set_string "" (field_values name ms).
Definition bool_field (name : string) (ms : list (string * Json)) : result bool :=
  result_fold set_bool false (field_values name ms).
Definition int_field (name : string) (ms : list (string * Json)) : result Z :=
  result_fold set_int 0%Z (field_values name ms).

(** A [map[string]T] field: null makes it nil, an object adds its members. *)
Definition set_map {A} (zero : A) (set : A → Json → result A) (acc : option (gmap string A))
    (v : Json) : result (option (gmap string A)) :=
  match v with
  | JObject ms =>
      m ← result_fold (λ m kv, x ← set zero kv.2; Ok (<[kv.1 := x]> m)) (default ∅ acc) ms;
      Ok (Some m)
  | JNull => Ok None
  | _ => Err type_error
  end.

Definition map_field {A} (zero : A) (set : A → Json → result A) (name : string)
    (ms : list (string * Json)) : result (option (gmap string A)) :=
  result_fold (set_map zero set) None (field_values name ms).

(** The members of a value decoded into a struct or map; null decodes to none. *)
Definition struct_members (v : Json) : result (list (string * Json)) :=
  match v with JObject ms => Ok ms | JNull => Ok [] | _ => Err type_error end.

(** [json.Unmarshal]. *)
Definition Unmarshal {A} (decode : Json → result A) (text : string) : result A :=
  match parse text with
  | Some v => decode v
  | None => Err (Errorf "json: syntax error")
  end.

(** ** Writing *)

Definition escape_u (n : N) : string :=
  "\u" +:+ String (hex_digit (n / 4096)) (String (hex_digit ((n / 256) mod 16))
    (String (hex_digit ((n / 16) mod 16)) (String (hex_digit (n mod 16)) ""))).

(** [json.Marshal] escapes quotes, control characters and, for HTML, the
    characters of [<], [>] and [&]. *)
Definition escape_byte (a : ascii) : string :=
  let n := byte_N a in
  match n with
  | 34%N => "\" +:+ dquote | 92%N => "\\" | 8%N => "\b" | 12%N => "\f"
  | 10%N => "\n" | 13%N => "\r" | 9%N => "\t"
  | _ => if ((n <? 32) || (n =? 60) || (n =? 62) || (n =? 38))%N then escape_u n
         else String a ""
  end.

Fixpoint escape (s : string) : string :=
  match s with
  | EmptyString => ""
  | String a s' => escape_byte a +:+ escape s'
  end.

Definition print_string (s : string) : string := dquote +:+ escape s +:+ dquote.

(** [json.Marshal]; the caller gives the members in Go's order: a struct's
    field order, a map's sorted keys. *)
Fixpoint Marshal (v : Json) : string :=
  match v with
  | JNull => "null"
  | JBool true => "true"
  | JBool false => "false"
  | JNumber t => t
  | JString s => print_string s
  | JArray l => "[" +:+ Join (map Marshal l) "," +:+ "]"
  | JObject ms => "{" +:+ Join (map (λ kv, print_string kv.1 +:+ ":" +:+ Marshal kv.2) ms) ","
                  +:+ "}"
  end.

(** The members of a Go map, in the order [json.Marshal] writes them. *)
Definition map_members {A} (f : A → Json) (m : gmap string A) : list (string * Json) :=
  omap (λ k, a ← m !! k; Some (k, f a)) (sorted_keys m).

Example parse_ex :
  parse (" { " +:+ dquote +:+ "a\u0041\n" +:+ dquote +:+ ": [1, -2.5e3 , true,null],"
         +:+ dquote +:+ dquote +:+ ":{}}" +:+ nl)
  = Some (JObject [("aA" +:+ nl, JArray [JNumber "1"; JNumber "-2.5e3"; JBool true; JNull]);
                   ("", JObject [])]).
Proof. vm_compute. reflexivity. Qed.
Example parse_surrogate :
  parse (dquote +:+ "\ud83d\ude00\ud83d" +:+ dquote)
  = Some (JString (bytes_of [0xF0; 0x9F; 0x98; 0x80; 0xEF; 0xBF; 0xBD]%N)).
Proof. vm_compute. reflexivity. Qed.
Example parse_bad : map parse ["01"; "[1,]"; "tru"; "1."; ""] = [None; None; None; None; None].
Proof. vm_compute. reflexivity. Qed.

(** ** Reading back what was written *)

Lemma string_body_escape_byte a t :
  string_body (escape_byte a +:+ t) = cons_text (String a "") (string_body t).
Proof.
  destruct a as [[] [] [] [] [] [] [] []]; vm_compute escape_byte; autorewrite with gostr;
    cbn [string_body]; reflexivity.
Qed.

Lemma string_body_escape s r :
  string_body (escape s +:+ dquote +:+ r) = Some (s, r).
Proof.
  induction s as [|a s IH]; [done|]. cbn [escape].
  by rewrite app_assoc_str, string_body_escape_byte, IH.
Qed.

Lemma parse_string_escape s r :
  valid_utf8 0 s = s → parse_string (escape s +:+ dquote +:+ r) = Some (s, r).
Proof. intros Hs. unfold parse_string. rewrite string_body_escape. cbn. by rewrite Hs. Qed.

Lemma valid_utf8_ascii s : all_bytes (λ a, (byte_N a <? 128)%N) s = true → valid_utf8 0 s = s.
Proof.
  induction s as [|a s IH]; [done|]. cbn [all_bytes valid_utf8 utf8_width].
  rewrite andb_true_iff. intros [-> Hs]. by rewrite IH.
Qed.

(** What can follow a value: the end, or a byte no number continues with. *)
Definition delimited (s : string) : bool :=
  match s with
  | EmptyString => true
  | String a _ => negb (is_digit a) && negb (Ascii.eqb a ".") &&
                  negb (byte_N a =? 101)%N && negb (byte_N a =? 69)%N
  end.

Definition number_plain (t : string) : bool :=
  all_bytes is_digit t &&
  match t with EmptyString => false | String a _ => negb (Ascii.eqb a "0") end.

Fixpoint printable (v : Json) : Prop :=
  match v with
  | JNull | JBool _ => True
  | JNumber t => number_plain t = true
  | JString s => valid_utf8 0 s = s
  | JArray l => Forall id (map printable l)
  | JObject ms => Forall id (map (λ kv, valid_utf8 0 kv.1 = kv.1 ∧ printable kv.2) ms)
  end.

Fixpoint jdepth (v : Json) : N :=
  match v with
  | JArray l => 1 + foldr N.max 0 (map jdepth l)
  | JObject ms => 1 + foldr N.max 0 (map (λ kv, jdepth kv.2) ms)
  | _ => 0
  end%N.

(** Induction over values with the induction hypothesis for the members. *)
Lemma Json_nested_ind (P : Json → Prop) :
  P JNull → (∀ b, P (JBool b)) → (∀ t, P (JNumber t)) → (∀ s, P (JString s)) →
  (∀ l, Forall P l → P (JArray l)) →
  (∀ ms, Forall (λ kv, P kv.2) ms → P (JObject ms)) → ∀ v, P v.
Proof.
  intros Hn Hb Hnum Hs Ha Ho. fix IH 1. intros [|b|t|s|l|ms]; [done|apply Hb|apply Hnum|apply Hs|..].
  - apply Ha. induction l as [|v l IHl]; constructor; [apply IH|exact IHl].
  - apply Ho. induction ms as [|[k v] ms IHl]; constructor; [apply IH|exact IHl].
Qed.

Lemma span_digits_app d r :
  all_bytes is_digit d = true → delimited r = true → span_digits (d +:+ r) = (d, r).
Proof.
  intros Hd Hr. induction d as [|a d IH].
  - rewrite app_nil_l_str. destruct r as [|b r]; [done|]. cbn in *.
    destruct (is_digit b); [done|reflexivity].
  - cbn in Hd. apply andb_true_iff in Hd as [Ha Hd]. rewrite app_cons_str. cbn. by rewrite Ha, IH.
Qed.

Lemma number_tail r :
  delimited r = true → number_frac r = Some ("", r) ∧ number_exp r = Some ("", r).
Proof.
  destruct r as [|a r]; [done|]. cbn [delimited]. rewrite !andb_true_iff, !negb_true_iff.
  intros [[[_ Hdot] He] HE]. split.
  - clear He HE. by destruct a as [[] [] [] [] [] [] [] []].
  - unfold number_exp. by rewrite He, HE.
Qed.

Lemma parse_number_plain t r :
  number_plain t = true → delimited r = true → parse_number (t +:+ r) = Some (t, r).
Proof.
  intros Ht Hr. apply andb_true_iff in Ht as [Hd H0].
  destruct t as [|a t]; [done|]. apply negb_true_iff in H0.
  assert (number_int (String a t +:+ r) = Some (String a t, r)) as Hi.
  { unfold number_int. rewrite span_digits_app by done. rewrite app_cons_str.
    by destruct a as [[] [] [] [] [] [] [] []]. }
  unfold parse_number.
  assert (match String a t +:+ r with String "-" r0 => ("-", r0) | _ => ("", String a t +:+ r) end
    = ("", String a t +:+ r)) as ->.
  { rewrite app_cons_str. cbn in Hd. apply andb_true_iff in Hd as [Ha _].
    by destruct a as [[] [] [] [] [] [] [] []]. }
  rewrite Hi. cbn [mbind option_bind].
  destruct (number_tail r Hr) as [Hf He]. rewrite Hf. cbn [mbind option_bind].
  rewrite He. cbn. by rewrite app_nil_r_str.
Qed.

(** The first byte of a printed value. *)
Definition value_head (a : ascii) : bool :=
  is_digit a || Ascii.eqb a "t" || Ascii.eqb a "f" || Ascii.eqb a "n" ||
  Ascii.eqb a "034" || Ascii.eqb a "[" || Ascii.eqb a "{".

Lemma Marshal_head v :
  printable v → ∃ a t, Marshal v = String a t ∧ value_head a = true.
Proof.
  destruct v as [|[]|t|s|l|ms]; cbn; intros Hp; try (eexists _, _; split; [reflexivity|done]).
  apply andb_true_iff in Hp as [Hd H0]. destruct t as [|a t]; [done|].
  cbn in Hd. apply andb_true_iff in Hd as [Ha _]. exists a, t. split; [done|].
  unfold value_head. by rewrite Ha.
Qed.

Lemma skip_ws_head a t : value_head a = true → skip_ws (String a t) = String a t.
Proof. by destruct a as [[] [] [] [] [] [] [] []]. Qed.

Lemma skip_ws_Marshal v t : printable v → skip_ws (Marshal v +:+ t) = Marshal v +:+ t.
Proof.
  intros (a & u & -> & Ha)%Marshal_head. rewrite app_cons_str. by apply skip_ws_head.
Qed.

(** Reading one printed value in any context. *)
Definition reads_back (v : Json) : Prop := ∀ fuel depth r,
  printable v → (jdepth v + depth <= max_depth)%N → delimited r = true →
  2 * String.length (Marshal v) ≤ fuel →
  parse_value fuel depth (Marshal v +:+ r) = Some (v, r).

Lemma parse_elements_Marshal l fuel depth r :
  Forall reads_back l → Forall printable l → l ≠ [] →
  (foldr N.max 0 (map jdepth l) + depth <= max_depth)%N →
  2 * String.length (Join (map Marshal l) ",") + 1 ≤ fuel →
  parse_elements fuel depth (Join (map Marshal l) "," +:+ "]" +:+ r) = Some (l, r).
Proof.
  revert fuel. induction l as [|v l IH]; [done|].
  intros fuel [Hv Hl]%Forall_cons [Hpv Hpl]%Forall_cons _ Hd Hf.
  destruct fuel as [|f]; [lia|]. cbn [parse_elements]. cbn [map foldr] in Hd.
  destruct l as [|w l].
  - cbn [map Join] in *. rewrite Hv; [done..|cbn in Hd; lia|done|lia].
  - cbn [map] in *. set (rest := Join (Marshal w :: map Marshal l) ",") in *.
    change (Join (Marshal v :: Marshal w :: map Marshal l) ",")
      with (Marshal v +:+ "," +:+ rest) in *.
    rewrite !app_assoc_str, Hv; [|done|lia|done|rewrite length_app_str in Hf; lia].
    cbn [mbind option_bind]. rewrite app_cons_str, app_nil_l_str.
    cbn [skip_ws]. change (is_ws ",") with false. cbn iota.
    rewrite IH; [done|done..|cbn [map foldr] in *; lia|].
    rewrite !length_app_str in Hf. change (Join (map Marshal (w :: l)) ",") with rest.
    cbn [String.length] in Hf. lia.
Qed.

Definition print_member (kv : string * Json) : string :=
  print_string kv.1 +:+ ":" +:+ Marshal kv.2.

Lemma parse_members_Marshal ms fuel depth r :
  Forall (λ kv, reads_back kv.2) ms →
  Forall (λ kv, valid_utf8 0 kv.1 = kv.1 ∧ printable kv.2) ms → ms ≠ [] →
  (foldr N.max 0 (map (λ kv, jdepth kv.2) ms) + depth <= max_depth)%N →
  2 * String.length (Join (map print_member ms) ",") + 1 ≤ fuel →
  parse_members fuel depth (Join (map print_member ms) "," +:+ "}" +:+ r) = Some (ms, r).
Proof.
  revert fuel. induction ms as [|[k v] ms IH]; [done|].
  intros fuel [Hv Hl]%Forall_cons [[Hk Hpv] Hpl]%Forall_cons _ Hd Hf.
  destruct fuel as [|f]; [lia|]. cbn [parse_members]. cbn [map foldr fst snd] in *.
  assert (∀ t, print_member (k, v) +:+ t =
    String "034" (escape k +:+ dquote +:+ String ":" (Marshal v +:+ t))) as Hm.
  { intros t. unfold print_member, print_string. cbn [fst snd].
    change dquote with (String "034" "") at 1. by autorewrite with gostr. }
  assert (2 * String.length (Marshal v) + 2 ≤ 2 * String.length (print_member (k, v))) as Hlen.
  { unfold print_member. rewrite !length_app_str. cbn [snd String.length]. lia. }
  destruct ms as [|kv' ms].
  - cbn [map Join] in *. rewrite Hm. cbn [skip_ws]. change (is_ws "034") with false. cbn iota.
    rewrite parse_string_escape by done. cbn [mbind option_bind].
    cbn [skip_ws]. change (is_ws ":") with false. cbn iota.
    rewrite Hv; [done..|cbn in Hd; lia|done|lia].
  - cbn [map] in *. set (rest := Join (print_member kv' :: map print_member ms) ",") in *.
    change (Join (print_member (k, v) :: print_member kv' :: map print_member ms) ",")
      with (print_member (k, v) +:+ "," +:+ rest) in *.
    rewrite !app_assoc_str, Hm. cbn [skip_ws]. change (is_ws "034") with false. cbn iota.
    rewrite parse_string_escape by done. cbn [mbind option_bind].
    cbn [skip_ws]. change (is_ws ":") with false. cbn iota.
    rewrite length_app_str in Hf.
    rewrite Hv; [|done|lia|done|lia].
    cbn [mbind option_bind]. rewrite app_cons_str, app_nil_l_str.
    cbn [skip_ws]. change (is_ws ",") with false. cbn iota.
    rewrite IH; [done|done..|cbn [map foldr] in *; lia|].
    rewrite length_app_str in Hf. change (Join (map print_member (kv' :: ms)) ",") with rest.
    cbn [String.length] in Hf. lia.
Qed.

Lemma parse_value_digit f depth a t :
  is_digit a = true →
  parse_value (S f) depth (String a t) =
  ('(n, r) ← parse_number (String a t); Some (JNumber n, r)).
Proof. by destruct a as [[] [] [] [] [] [] [] []]. Qed.

Ltac take_fuel fuel Hp Hf :=
  let f := fresh "f" in
  destruct fuel as [|f];
  [destruct (Marshal_head _ Hp) as (? & ? & Hm & _); rewrite Hm in Hf; cbn [String.length] in Hf; lia|].

Lemma reads_back_array l : Forall reads_back l → reads_back (JArray l).
Proof.
  intros IH fuel depth r Hp Hd Hr Hf. take_fuel fuel Hp Hf.
  assert ((max_depth <=? depth)%N = false) as E.
  { apply N.leb_gt. cbn [jdepth] in Hd. lia. }
  destruct l as [|v l].
  { change (parse_value (S f) depth (Marshal (JArray []) +:+ r)) with
      (if (max_depth <=? depth)%N then None else Some (JArray [], r)). by rewrite E. }
  cbn [jdepth] in Hd. cbn in Hp.
  apply (proj1 (Forall_fmap printable id (v :: l))) in Hp.
  assert (Marshal (JArray (v :: l)) +:+ r =
    String "[" (Join (map Marshal (v :: l)) "," +:+ "]" +:+ r)) as ->.
  { cbn [Marshal]. by autorewrite with gostr. }
  cbn [parse_value skip_ws]. change (is_ws "[") with false. cbn iota.
  rewrite E.
  pose proof (parse_elements_Marshal (v :: l) f (depth + 1) r IH Hp ltac:(done)) as He.
  assert (∃ a u, Join (map Marshal (v :: l)) "," +:+ "]" +:+ r = String a u ∧
    value_head a = true) as (a & u & Hau & Ha).
  { apply Forall_cons in Hp as [(a & u & Hv & Ha)%Marshal_head _].
    destruct l as [|w l]; cbn [map Join]; rewrite Hv; eexists _, _; by split. }
  rewrite Hau in *. rewrite skip_ws_head by done.
  assert (parse_elements f (depth + 1) (String a u) = Some (v :: l, r)) as Hl.
  { apply He; [lia|]. cbn [Marshal] in Hf. rewrite !length_app_str in Hf.
    cbn [String.length] in Hf. lia. }
  clear -Hl Ha. destruct a as [[] [] [] [] [] [] [] []]; try discriminate Ha; by rewrite Hl.
Qed.

Lemma reads_back_object ms :
  Forall (λ kv : string * Json, reads_back kv.2) ms → reads_back (JObject ms).
Proof.
  intros IH fuel depth r Hp Hd Hr Hf. take_fuel fuel Hp Hf.
  assert ((max_depth <=? depth)%N = false) as E.
  { apply N.leb_gt. cbn [jdepth] in Hd. lia. }
  destruct ms as [|m ms].
  { change (parse_value (S f) depth (Marshal (JObject []) +:+ r)) with
      (if (max_depth <=? depth)%N then None else Some (JObject [], r)). by rewrite E. }
  cbn [jdepth] in Hd. cbn in Hp.
  apply (proj1 (Forall_fmap (λ kv : string * Json, valid_utf8 0 kv.1 = kv.1 ∧
    printable kv.2) id (m :: ms))) in Hp.
  assert (Marshal (JObject (m :: ms)) +:+ r =
    String "{" (Join (map print_member (m :: ms)) "," +:+ "}" +:+ r)) as ->.
  { cbn [Marshal]. by autorewrite with gostr. }
  cbn [parse_value skip_ws]. change (is_ws "{") with false. cbn iota.
  rewrite E.
  pose proof (parse_members_Marshal (m :: ms) f (depth + 1) r IH Hp ltac:(done)) as He.
  assert (∃ u, Join (map print_member (m :: ms)) "," +:+ "}" +:+ r = String "034" u)
    as (u & Hau).
  { destruct ms as [|w ms]; eexists; reflexivity. }
  rewrite Hau in *. cbn [skip_ws]. change (is_ws "034") with false. cbn iota.
  rewrite (He ltac:(lia)); [done|].
  cbn [Marshal] in Hf. rewrite !length_app_str in Hf. cbn [String.length] in Hf.
  change (map (λ kv : string * Json, print_string kv.1 +:+ ":" +:+ Marshal kv.2) (m :: ms))
    with (map print_member (m :: ms)) in Hf. lia.
Qed.

Lemma parse_value_Marshal v : reads_back v.
Proof.
  induction v as [|b|t|s|l IH|ms IH] using Json_nested_ind; 
    [..|by apply reads_back_array|by apply reads_back_object];
    intros fuel depth r Hp Hd Hr Hf; take_fuel fuel Hp Hf.
  - by destruct r.
  - by destruct b, r.
  - cbn [Marshal]. cbn in Hp. pose proof (parse_number_plain _ _ Hp Hr) as Hn.
    apply andb_true_iff in Hp as [Hdig H0]. destruct t as [|a u]; [done|].
    cbn in Hdig. apply andb_true_iff in Hdig as [Ha _].
    rewrite app_cons_str in *. by rewrite parse_value_digit, Hn.
  - cbn [Marshal parse_value]. cbn in Hp. unfold print_string.
    rewrite app_assoc_str. change (dquote +:+ (escape s +:+ dquote) +:+ r)
      with (String "034" ((escape s +:+ dquote) +:+ r)).
    rewrite app_assoc_str. cbn [skip_ws]. change (is_ws "034") with false. cbn iota.
    by rewrite parse_string_escape.
Qed.

(** [json.Unmarshal] reads back what [json.Marshal] wrote, up to final white space. *)
Lemma parse_Marshal v w :
  printable v → (jdepth v <= max_depth)%N → all_bytes is_ws w = true →
  parse (Marshal v +:+ w) = Some v.
Proof.
  intros Hp Hd Hw. unfold parse, parse_fuel.
  assert (skip_ws w = "") as Hs.
  { clear -Hw. induction w as [|a w IH]; [done|]. cbn in *.
    apply andb_true_iff in Hw as [-> ?]. auto. }
  rewrite parse_value_Marshal; [by cbn; rewrite Hs|done|lia| |rewrite length_app_str; lia].
  destruct w as [|a w]; [done|]. cbn in Hw. apply andb_true_iff in Hw as [Ha _].
  by destruct a as [[] [] [] [] [] [] [] []].
Qed.
