(* ===== verification/World.v ===== *)
(** * The outside of the program

    One signature for every call the packages make: the metadata service
    (interface [metadata.Client]), the Docker client, commands, files, network
    namespaces, the clock and the readiness reports. Replies are arbitrary;
    what a theorem relies on is one of its hypotheses. *)
From S2P Require Import Prelude Effects GoStrings GoNet Metadata.

(** The fields of Docker's inspect result the program reads
    (vendor/github.com/moby/moby/api/types/container). *)
Record InspectState := { Running : bool; Pid : Z; StartedAt : string }.
Record InspectConfig := { ConfigHostname : string; ConfigLabels : gmap string string }.
Record InspectHostConfig := { NetworkMode : string; DNSSearch : option (list string) }.
Record Inspect := {
  InspectID : string;
  State : option InspectState;
  ContainerConfig : option InspectConfig;
  HostConfig : option InspectHostConfig;
  HostsPath : string;
  ResolvConfPath : string;
}.

(** An address of a network namespace: [IPNet == nil] or its IP bytes. *)
Definition netlink_Addr : Type := option (list Z).

(** What a CNI plugin is run with, and the result the library decodes: the IP
    bytes of each entry ([nil] entries and addresses are [None]) and its JSON
    text (vendor/github.com/containernetworking/cni). *)
Record RuntimeConf := {
  RtContainerID : string; RtNetNS : string; RtIfName : string;
  RtArgs : list (string * string);
}.
Record CNIResult := { ResultIPs : list (option (list Z)); ResultJSON : result string }.

(** What [os.Lstat] tells the program of an entry. *)
Inductive file_kind := RegularFile | Directory | SymbolicLink | OtherFile.

#[export] Instance file_kind_eq_dec : EqDecision file_kind.
Proof. solve_decision. Defined.

(** A link and a neighbour entry of a network namespace; the entry's other
    fields are copied as they are (vendor/github.com/vishvananda/netlink). *)
Record Link := { LinkIndex : Z; HardwareAddr : list Z }.
Record Neigh := {
  NeighLink : Z; NeighIP : netlink_Addr; NeighHW : list Z; NeighState : Z; NeighOther : Z;
}.

(** The network namespace of a call: the host's or that of a process. *)
Abbreviation netns := (option Z).

Inductive component := HostNAT | HostPorts.

#[export] Instance component_eq_dec : EqDecision component.
Proof. solve_decision. Defined.

Inductive hcall :=
  (* metadata.Client *)
  | GetNetworks | GetHosts | GetContainers | GetServices | GetSelfHost
  (* Docker *)
  | ContainerInspect (id : string)
  | DockerInfo
  | ContainerList
  | ContainerRemove (id : string)
  (* processes: search the PATH, run with a standard input *)
  | LookPath (name : string)
  | Command (argv : list string) (stdin : string)
  (* files *)
  | ReadFile (path : string)
  | WriteFile (path data : string)
  | MkdirAll (path : string)
  | CreateTemp (dir pattern : string)
  | Chmod (path : string) (mode : Z)
  | Write (path data : string)
  | Sync (path : string)
  | Close (path : string)
  | Rename (old new : string)
  | Remove (path : string)
  | Stat (path : string)
  | LstatRegular (path : string)
  | RemoveAll (path : string)
  | Lstat (path : string)
  | FileIdentity (path : string)
  | Symlink (target path : string)
  (* network namespace of a process *)
  | NamespaceIPv4 (pid : Z)
  | NamespaceLinks (pid : Z)
  | OpenNamespace (pid : Z)
  | EnterNamespace (pid : Z)
  (* netlink *)
  | LinkByName (ns : netns) (name : string)
  | LinkSetHardwareAddr (ns : netns) (link : Z) (addr : list Z)
  | LinkList (ns : netns)
  | AddrList (ns : netns) (link : Z)
  | NeighList (ns : netns)
  | NeighSet (ns : netns) (entry : Neigh)
  | NeighDel (ns : netns) (entry : Neigh)
  | RouteAdd (link : Z) (dst : list Z)
  | RouteGet (ns : netns) (ip : list Z)
  (* the CNI library *)
  | ConfFiles (dir : string)
  | ConfFromFile (file : string)
  | AddNetwork (conf : string) (rt : RuntimeConf)
  | DelNetwork (conf : string) (rt : RuntimeConf)
  (* os.Setenv, a started goroutine that retries a container, time.Sleep *)
  | Getenv (name : string)
  | Setenv (name value : string)
  | GoRetry (id : string) (count : nat)
  | Sleep (duration : Z)
  (* time.Now in nanoseconds, and the report callback *)
  | Now
  | Report (c : component) (err : option error).

(** [Command] gives the output and the error of the process. [LstatRegular]
    gives whether the entry is a regular file, with its permission bits, [Lstat]
    its kind, and [FileIdentity] what [os.Stat] and [os.SameFile] tell of a file.
    [RouteAdd] gives the kernel's error number text, [RouteGet] the link of each
    route.
    [NamespaceLinks] gives the number of links. [ConfFromFile] gives the
    loaded configuration, an opaque value. [DockerInfo] gives [FirewallBackend.Driver], when Docker reports one, and
    [ServerVersion]. *)
Definition hreply (c : hcall) : Type :=
  match c with
  | GetNetworks => result (list Network.t)
  | GetHosts => result (list Host.t)
  | GetContainers => result (list Container.t)
  | GetServices => result (list Service.t)
  | GetSelfHost => result Host.t
  | ContainerInspect _ => result Inspect
  | DockerInfo => result (option string * string)
  | LookPath _ => result string
  | Command _ _ => string * option error
  | ReadFile _ => result string
  | CreateTemp _ _ => result string
  | LstatRegular _ => result (bool * Z)
  | WriteFile _ _ | MkdirAll _ | Chmod _ _ | Write _ _ | Sync _ | Close _
  | Rename _ _ | Remove _ | Stat _ | RemoveAll _ | ContainerRemove _ | DelNetwork _ _
  | Setenv _ _ | Symlink _ _ | OpenNamespace _ | EnterNamespace _
  | LinkSetHardwareAddr _ _ _ | NeighSet _ _ | NeighDel _ _ | RouteAdd _ _ => option error
  | Lstat _ => result file_kind
  | FileIdentity _ => result Z
  | Getenv _ => string
  | LinkByName _ _ => result Link
  | LinkList _ => result (list Z)
  | AddrList _ _ => result (list netlink_Addr)
  | NeighList _ => result (list Neigh)
  | RouteGet _ _ => result (list Z)
  | NamespaceIPv4 _ => result (list netlink_Addr)
  | NamespaceLinks _ => nat * option error
  | ContainerList => result (list string)
  | ConfFiles _ => result (list string)
  | ConfFromFile _ => result string
  | AddNetwork _ _ => result CNIResult
  | Now => Z
  | Report _ _ | GoRetry _ _ | Sleep _ => ()
  end.

Definition host_sig : sig := Sig hcall hreply.

Abbreviation hprog A := (prog host_sig A).
Abbreviation hevent := (event host_sig).
Abbreviation hcalls P p := (calls_in (Σ := host_sig) P p).

(** One call as a program, its error reply as the program's error. *)
Definition call1 (c : hcall) : hprog (hreply c) := trigger (Σ := host_sig) c.

Definition err_result (e : option error) : result () :=
  match e with None => Ok () | Some e => Err e end.
Definition result_err {A} (r : result A) : option error :=
  match r with Ok _ => None | Err e => Some e end.

Lemma err_result_Ok e : err_result e = Ok () ↔ e = None.
Proof. by destruct e. Qed.

(** ** Programs that fail early, without a state *)

Definition pbind_ok {A B} (m : hprog (result A)) (f : A → hprog (result B))
    : hprog (result B) :=
  mbind (M := prog host_sig)
    (λ r, match r with Ok a => f a | Err e => Ret (Err e) end) m.

Notation "x <-? m ; k" := (pbind_ok m (λ x, k))
  (at level 20, m at level 100, k at level 200, only parsing) : stdpp_scope.
Notation "' x <-? m ; k" := (pbind_ok m (λ x, k))
  (at level 20, x pattern, m at level 100, k at level 200, only parsing) : stdpp_scope.

Definition wrapped {A} (msg : string) (m : hprog (result A)) : hprog (result A) :=
  mbind (M := prog host_sig) (λ r, Ret (wrap_err msg r)) m.

Lemma exec_pbind_ok {A B} (m : hprog (result A)) (f : A → hprog (result B)) tr r :
  exec (pbind_ok m f) tr r ↔
  (∃ e, r = Err e ∧ exec m tr (Err e)) ∨
  (∃ tr1 tr2 a, tr = tr1 ++ tr2 ∧ exec m tr1 (Ok a) ∧ exec (f a) tr2 r).
Proof.
  unfold pbind_ok. rewrite exec_bind. split.
  - intros (tr1 & tr2 & [a|e] & -> & Hm & Hf); [right; by exists tr1, tr2, a|].
    destruct Hf as [-> ->]. left. exists e. by rewrite app_nil_r.
  - intros [(e & -> & Hm)|(tr1 & tr2 & a & -> & Hm & Hf)].
    + exists tr, [], (Err e). by rewrite app_nil_r.
    + by exists tr1, tr2, (Ok a).
Qed.

Lemma calls_in_pbind_ok {A B} P (m : hprog (result A)) (f : A → hprog (result B)) :
  calls_in P m → (∀ a, calls_in P (f a)) → calls_in P (pbind_ok m f).
Proof. intros Hm Hf. apply calls_in_bind; [done|]. intros [a|e]; [apply Hf|done]. Qed.

Lemma exec_call1 c tr r : exec (call1 c) tr r ↔ tr = [ev (Σ := host_sig) c r].
Proof.
  unfold call1, trigger. rewrite exec_vis. split.
  - by intros (r' & tr' & -> & -> & ->).
  - intros ->. by exists r, [].
Qed.

Lemma exec_ret {A} (a b : A) tr : exec (Σ := host_sig) (Ret a) tr b ↔ tr = [] ∧ b = a.
Proof. done. Qed.

Lemma exec_wrapped {A} msg (m : hprog (result A)) tr r :
  exec (wrapped msg m) tr r ↔ ∃ r', exec m tr r' ∧ r = wrap_err msg r'.
Proof.
  unfold wrapped. rewrite exec_bind. split.
  - intros (tr1 & tr2 & r1 & -> & ? & [-> ->]). rewrite app_nil_r. by exists r1.
  - intros (r' & ? & ->). exists tr, [], r'. by rewrite app_nil_r.
Qed.

(** [for _, x := range l { if err := f(x); err != nil { return err } }] *)
Fixpoint pforeach {A} (f : A → hprog (result ())) (l : list A) : hprog (result ()) :=
  match l with
  | [] => Ret (Ok ())
  | x :: l' => pbind_ok (f x) (λ _, pforeach f l')
  end.

Lemma calls_in_pforeach {A} P (f : A → hprog (result ())) l :
  (∀ x, calls_in P (f x)) → calls_in P (pforeach f l).
Proof.
  intros Hf. induction l as [|x l IH]; cbn; [done|]. by apply calls_in_pbind_ok.
Qed.

(** A loop with an accumulator that can return early with an error. *)
Fixpoint pfold {A S} (f : S → A → hprog (result S)) (s : S) (l : list A) : hprog (result S) :=
  match l with
  | [] => Ret (Ok s)
  | x :: l' => pbind_ok (f s x) (λ s', pfold f s' l')
  end.

Lemma calls_in_pfold {A S} P (f : S → A → hprog (result S)) s l :
  (∀ s x, hcalls P (f s x)) → hcalls P (pfold f s l).
Proof.
  intros Hf. revert s. induction l as [|x l IH]; intros s; cbn; [done|].
  apply calls_in_pbind_ok; [apply Hf|]. intros s'. apply IH.
Qed.

Lemma wp_pbind_ok {A B} R P Q (m : hprog (result A)) (f : A → hprog (result B)) :
  wp R P (λ r, match r with Ok a => wp R P Q (f a) | Err e => Q (Err e) end) m →
  wp R P Q (pbind_ok m f).
Proof.
  intros H. apply wp_bind. eapply wp_mono; [|exact H]. by intros [a|e].
Qed.

Lemma wp_wrapped {A} R P Q msg (m : hprog (result A)) :
  wp R P (λ r, Q (wrap_err msg r)) m → wp R P Q (wrapped msg m).
Proof. intros H. by apply wp_bind. Qed.

Lemma calls_in_call1 (P : hcall → Prop) c : P c → calls_in (Σ := host_sig) P (call1 c).
Proof. intros Hc. by split. Qed.
Lemma calls_in_wrapped {A} (P : hcall → Prop) msg (m : hprog (result A)) :
  calls_in (Σ := host_sig) P m → calls_in (Σ := host_sig) P (wrapped msg m).
Proof. intros Hm. by apply calls_in_bind. Qed.

(** Take an execution of a program apart. *)
Ltac pexec_step H :=
  match type of H with
  | exec (pbind_ok _ _) _ _ => apply exec_pbind_ok in H;
      let e := fresh "e" in let Hr := fresh "Hr" in let H1 := fresh "Hx" in
      let tr1 := fresh "tr" in let tr2 := fresh "tr" in
      let a := fresh "a" in let Ht := fresh "Ht" in let H2 := fresh "Hx" in
      destruct H as [(e & Hr & H1)|(tr1 & tr2 & a & Ht & H1 & H2)]; [try discriminate Hr|]
  | exec (wrapped _ _) _ _ => apply exec_wrapped in H;
      let r := fresh "r" in let Hx := fresh "Hx" in let Hw := fresh "Hw" in
      destruct H as (r & Hx & Hw); destruct r; try discriminate Hw
  | exec (call1 _) _ _ => apply exec_call1 in H
  | exec (Ret _) _ _ => destruct H as [? ?]
  | exec (mbind _ _) _ _ => apply exec_bind in H;
      let tr1 := fresh "tr" in let tr2 := fresh "tr" in let a := fresh "a" in
      let Ht := fresh "Ht" in let H1 := fresh "Hx" in let H2 := fresh "Hx" in
      destruct H as (tr1 & tr2 & a & Ht & H1 & H2)
  | exec (let '(_, _) := ?a in _) _ _ => destruct a
  | exec (match ?x with _ => _ end) _ _ => let E := fresh "E" in destruct x eqn:E
  end; simplify_eq; cbn beta iota in *.
Ltac pexec_all := repeat match goal with H : exec _ _ _ |- _ => pexec_step H end.

(** ** Time

    [time.Time] is nanoseconds since the zero time; [Sub] saturates at the
    range of [time.Duration]. *)
Definition max_duration : Z := (2 ^ 63 - 1)%Z.
Definition min_duration : Z := (- 2 ^ 63)%Z.
Definition zero_time : Z := 0%Z.
Definition IsZero (t : Z) : bool := (t =? zero_time)%Z.
Definition Sub (t u : Z) : Z := Z.max min_duration (Z.min max_duration (t - u)).
Definition second : Z := 1000000000%Z.
Definition minute : Z := (60 * second)%Z.

(** The calls of a trace, without their replies. *)
Definition calls_of (tr : list hevent) : list hcall := map (λ e : hevent, projT1 e) tr.

Lemma calls_of_app tr1 tr2 : calls_of (tr1 ++ tr2) = calls_of tr1 ++ calls_of tr2.
Proof. apply map_app. Qed.

Lemma length_calls_of tr : length (calls_of tr) = length tr.
Proof. apply length_map. Qed.

(** Events of the trace, by their call. *)
Definition is_call (p : hcall → bool) (e : hevent) : bool := p (projT1 e).


(** A silent outside, the base of the concrete environments of the witnesses. *)
Definition idle_reply (c : hcall) : hreply c :=
  match c with
  | GetNetworks => Ok []
  | GetHosts => Ok []
  | GetContainers => Ok []
  | GetServices => Ok []
  | GetSelfHost | ContainerInspect _ | DockerInfo => Err ErrNotFound
  | LookPath _ | ReadFile _ | CreateTemp _ _ | LstatRegular _ => Err ErrNotExist
  | Command _ _ => ("", None)
  | WriteFile _ _ | MkdirAll _ | Chmod _ _ | Write _ _ | Sync _ | Close _
  | Rename _ _ | Remove _ | Stat _ | RemoveAll _ | ContainerRemove _ | DelNetwork _ _
  | Setenv _ _ | Symlink _ _ | OpenNamespace _ | EnterNamespace _
  | LinkSetHardwareAddr _ _ _ | NeighSet _ _ | NeighDel _ _ | RouteAdd _ _ => None
  | Lstat _ | FileIdentity _ | LinkByName _ _ => Err ErrNotExist
  | Getenv _ => ""
  | LinkList _ => Ok []
  | AddrList _ _ => Ok []
  | NeighList _ => Ok []
  | RouteGet _ _ => Ok []
  | NamespaceIPv4 _ => Ok []
  | NamespaceLinks _ => (1, None)
  | ContainerList => Ok []
  | ConfFiles _ => Ok []
  | ConfFromFile file => Ok file
  | AddNetwork _ _ => Err ErrNotExist
  | Now => zero_time
  | Report _ _ | GoRetry _ _ | Sleep _ => tt
  end.

Lemma execs_hask {St} (c : hcall) (s : St) tr s' r :
  execs (ask (Σ := host_sig) c) s tr s' r ↔
  ∃ x, tr = [ev (Σ := host_sig) c x] ∧ s' = s ∧ r = Ok x.
Proof. exact (execs_ask (Σ := host_sig) c s tr s' r). Qed.

(** An outside whose replies do not depend on the history. *)
Lemma run_static (f : ∀ c : hcall, hreply c) {A} (p : hprog A) h c x :
  ev (Σ := host_sig) c x ∈ (run (Σ := host_sig) (λ _, f) h p).1 → x = f c.
Proof.
  assert (Forall (λ e : hevent, projT2 e = f (projT1 e)) (run (Σ := host_sig) (λ _, f) h p).1) as H.
  { revert h. induction p as [a|c' k IH]; intros h; cbn; constructor; [done|]. apply IH. }
  intros Hin. exact (proj1 (Forall_forall _ _) H _ Hin).
Qed.

(** ** Calls that depend on the history, for programs that fail early *)

Section hwp.
Context (P : list hevent → hcall → Prop).
Abbreviation hw Q h p := (hwp (Σ := host_sig) P Q h p).

Lemma hwp_pbind_ok {A B} Q (m : hprog (result A)) (f : A → hprog (result B)) h :
  hw (λ h r, match r with Ok a => hw Q h (f a) | Err e => Q h (Err e) end) h m →
  hw Q h (pbind_ok m f).
Proof. intros H. apply hwp_bind. eapply hwp_mono; [|exact H]. by intros h' [a|e]. Qed.

Lemma hwp_wrapped {A} Q msg (m : hprog (result A)) h :
  hw (λ h r, Q h (wrap_err msg r)) h m → hw Q h (wrapped msg m).
Proof. intros H. by apply hwp_bind. Qed.

Lemma hwp_call1 c (Q : list hevent → hreply c → Prop) h :
  P h c → (∀ r, Q (h ++ [ev (Σ := host_sig) c r]) r) → hw Q h (call1 c).
Proof. intros Hc Hq. by split. Qed.

(** A program whose calls are always allowed is described by its executions. *)
Lemma hwp_of_exec {A} (C : hcall → Prop) Q (p : hprog A) h :
  (∀ h c, C c → P h c) → hcalls C p → (∀ tr a, exec p tr a → Q (h ++ tr) a) → hw Q h p.
Proof.
  intros HC. revert h. induction p as [a|c k IH]; intros h; cbn.
  - intros _ Hq. specialize (Hq [] a). rewrite app_nil_r in Hq. by apply Hq.
  - intros [Hc Hk] Hq. split; [by apply HC|]. intros r. apply IH; [done|].
    intros tr a H. rewrite <-app_assoc. apply Hq. by exists r, tr.
Qed.

(** The loop [pforeach] with an invariant on the elements done. *)
Lemma hwp_pforeach {A} (I : list hevent → list A → Prop) Q (f : A → hprog (result ())) l h :
  I h [] →
  (∀ h pre x, x ∈ l → I h pre →
     hw (λ h r, match r with Ok _ => I h (pre ++ [x]) | Err e => Q h (Err e) end) h (f x)) →
  (∀ h, I h l → Q h (Ok ())) →
  hw Q h (pforeach f l).
Proof.
  intros Hi Hf Hq. assert (∀ suf pre h, l = pre ++ suf → I h pre → hw Q h (pforeach f suf)) as Hgen.
  { induction suf as [|x suf IH]; intros pre h' ->; cbn [pforeach].
    { rewrite app_nil_r in *. apply Hq. }
    intros Hp. apply hwp_pbind_ok. eapply hwp_mono; [|apply (Hf h' pre x); [|done]].
    - intros h1 [[]|e] H1; [|done]. apply (IH (pre ++ [x])); [by rewrite <-app_assoc|done].
    - apply elem_of_app. right. apply list_elem_of_here. }
  by apply (Hgen l []).
Qed.
End hwp.

Lemma elem_of_snoc {A} (x y : A) l : x ∈ l ++ [y] ↔ x ∈ l ∨ x = y.
Proof. by rewrite elem_of_app, list_elem_of_singleton. Qed.

(** Membership in a history that grows by single events. *)
Ltac in_history :=
  repeat (apply elem_of_snoc; first [right; reflexivity | left]); eassumption.
