(* ===== verification/HostLabel.v ===== *)
(** * Host-label subnets (internal/hostlabel/resolve.go)

    A network may name its subnet by a label of the host. [Resolve] reads the
    label, [PeerSubnets] collects the subnets of the other active hosts. *)
From S2P Require Import Prelude GoStrings GoNet Metadata.

Definition prefix : string := "__host_label__:".

Definition IsReference (value : string) : bool := HasPrefix value prefix.

(** The characters " \t\r\n" that may not occur inside a label key. *)
Definition key_spaces : string := " " +:+ tab +:+ String "013" nl.

Definition Resolve (value : string) (labels : gmap string string) : result string :=
  if negb (HasPrefix value prefix) then Ok value else
  let key := TrimSpace (TrimPrefix value prefix) in
  if bool_decide (key = "") || ContainsAny key key_spaces
  then Err (Errorf "invalid network host-label reference") else
  let resolved := TrimSpace (zget "" labels key) in
  if bool_decide (resolved = "")
  then Err (Errorf "network host label is missing or empty") else
  match ParseCIDR resolved with
  | Some (ip, n) =>
      if negb (has_To4 ip) || negb (is_network_address ip n)
      then Err (Errorf "network host label must be a canonical IPv4 subnet")
      else Ok resolved
  | None => Err (Errorf "network host label must be a canonical IPv4 subnet")
  end.

(** The IPv4 prefix of a text, [None] where the code reports an error. *)
Definition ipv4_prefix (s : string) : option Prefix :=
  p ← ParsePrefix s; if Is4 (pfx_addr p) then Some p else None.

Definition overlaps (existing peer : Prefix) : bool :=
  Contains existing (pfx_addr peer) || Contains peer (pfx_addr existing).

(** A host the loop skips: the local one, or one that is not active. *)
Definition skipped (localUUID : string) (h : Host.t) : bool :=
  String.eqb (Host.UUID h) localUUID || negb (String.eqb (Host.State h) "active").

(** One round of the loop: the prefixes seen and the peers collected. *)
Definition peer_step (reference localUUID : string)
    (acc : list Prefix * list string) (h : Host.t) : result (list Prefix * list string) :=
  if skipped localUUID h then Ok acc else
  value ← wrap_err "active peer" (Resolve reference (Host.Labels h));
  match ipv4_prefix value with
  | None => Err (Errorf "active peer has invalid subnet")
  | Some peer =>
      if existsb (λ existing, overlaps existing peer) acc.1
      then Err (Errorf "active peer subnet overlaps")
      else Ok (acc.1 ++ [peer], acc.2 ++ [value])
  end.

(** The nil slice is [None]. *)
Definition PeerSubnets (reference localUUID localSubnet : string) (hosts : list Host.t)
    : result (option (list string)) :=
  if negb (IsReference reference) then Ok None else
  match ipv4_prefix localSubnet with
  | None => Err (Errorf "invalid local per-host subnet")
  | Some loc =>
      acc ← result_fold (peer_step reference localUUID) ([loc], []) hosts;
      Ok (Some (sort_strings acc.2))
  end.

(** ** Specification *)

(** No IPv4 address belongs to both prefixes. *)
Definition disjoint_prefixes (p q : Prefix) : Prop :=
  ¬ ∃ x, Contains p (V4 x) = true ∧ Contains q (V4 x) = true.

(** No address belongs to two entries of the list. *)
Fixpoint pairwise_disjoint (ps : list Prefix) : Prop :=
  match ps with
  | [] => True
  | p :: ps' => Forall (disjoint_prefixes p) ps' ∧ pairwise_disjoint ps'
  end.

(** The hosts whose subnets [PeerSubnets] collects. *)
Definition peers_of (localUUID : string) (hosts : list Host.t) : list Host.t :=
  filter (λ h, skipped localUUID h = false) hosts.

(** [value] is the subnet of host [h], with prefix [p]. *)
Definition host_subnet (reference : string) (h : Host.t) (vp : string * Prefix) : Prop :=
  Resolve reference (Host.Labels h) = Ok vp.1 ∧ ipv4_prefix vp.1 = Some vp.2.

(** What the result of [PeerSubnets] promises, without its loop. *)
Definition peers_spec (reference localUUID localSubnet : string) (hosts : list Host.t)
    (peers : list string) : Prop :=
  ∃ loc vps, ipv4_prefix localSubnet = Some loc ∧
    Forall2 (host_subnet reference) (peers_of localUUID hosts) vps ∧
    pairwise_disjoint (loc :: vps.*2) ∧
    peers = sort_strings vps.*1.

(** ** Lemmas *)

Lemma ipv4_prefix_Some s p :
  ipv4_prefix s = Some p →
  ∃ a, pfx_addr p = V4 a ∧ (0 ≤ pfx_bits p ≤ 32)%Z ∧ (0 ≤ a < 2 ^ 32)%Z ∧
    all_bytes ip_byte s = true ∧ ParsePrefix s = Some p.
Proof.
  unfold ipv4_prefix. intros (q & Hq & H)%bind_Some.
  destruct (Is4 (pfx_addr q)) eqn:H4; [|done]. injection H as ->.
  destruct (ParsePrefix_V4 s p Hq H4) as (? & ? & ?).
  destruct (pfx_addr p) as [a|]; [|done]. by exists a.
Qed.

Lemma overlaps_disjoint s t p q :
  ipv4_prefix s = Some p → ipv4_prefix t = Some q →
  overlaps p q = false ↔ disjoint_prefixes p q.
Proof.
  intros (a & Hp & ? & _)%ipv4_prefix_Some (b & Hq & ? & _)%ipv4_prefix_Some.
  unfold overlaps, disjoint_prefixes. rewrite Hp, Hq.
  rewrite <-(prefixes_meet p q a b) by done. by rewrite not_true_iff_false.
Qed.

Lemma disjoint_prefixes_sym p q : disjoint_prefixes p q → disjoint_prefixes q p.
Proof. unfold disjoint_prefixes. naive_solver. Qed.

Lemma pairwise_disjoint_app ps qs :
  pairwise_disjoint (ps ++ qs) ↔
  pairwise_disjoint ps ∧ pairwise_disjoint qs ∧
  Forall (λ p, Forall (disjoint_prefixes p) qs) ps.
Proof.
  induction ps as [|p ps IH]; cbn; [by rewrite Forall_nil; tauto|].
  rewrite Forall_app, IH, Forall_cons. tauto.
Qed.

#[export] Instance pairwise_disjoint_perm :
  Proper ((≡ₚ) ==> iff) pairwise_disjoint.
Proof.
  assert (∀ ps qs, ps ≡ₚ qs → pairwise_disjoint ps → pairwise_disjoint qs) as Himp.
  { intros ps qs Hp. induction Hp; cbn; [done| | |tauto].
    - intros [Hf ?]. split; [|auto]. by rewrite <-Hp.
    - rewrite !Forall_cons. intros ([Hd ?] & ? & ?).
      split_and!; try done. by apply disjoint_prefixes_sym. }
  intros ps qs Hp. split; apply Himp; [done|by symmetry].
Qed.

Lemma existsb_overlaps seen peer s :
  Forall (λ p, ∃ t, ipv4_prefix t = Some p) seen → ipv4_prefix s = Some peer →
  existsb (λ e, overlaps e peer) seen = false ↔
  Forall (λ p, disjoint_prefixes p peer) seen.
Proof.
  intros Hseen Hs. induction Hseen as [|p seen [t Ht] _ IH]; cbn.
  - by rewrite Forall_nil.
  - rewrite orb_false_iff, IH, Forall_cons, (overlaps_disjoint t s); done.
Qed.

(** The loop succeeds exactly when every peer has a valid subnet, disjoint
    from the ones before it. *)
Lemma peer_loop reference lu hosts seen vals acc :
  Forall (λ p, ∃ t, ipv4_prefix t = Some p) seen → pairwise_disjoint seen →
  result_fold (peer_step reference lu) (seen, vals) hosts = Ok acc ↔
  ∃ vps, Forall2 (host_subnet reference) (peers_of lu hosts) vps ∧
    pairwise_disjoint (seen ++ vps.*2) ∧ acc = (seen ++ vps.*2, vals ++ vps.*1).
Proof.
  revert seen vals. induction hosts as [|h hosts IH]; intros seen vals Hseen Hd.
  - unfold peers_of. rewrite filter_nil. cbn. split.
    + intros [= <-]. exists []. cbn. rewrite !app_nil_r. auto.
    + intros (vps & Hf & _ & ->). apply Forall2_nil_inv_l in Hf as ->.
      cbn. by rewrite !app_nil_r.
  - unfold peers_of in *. cbn [result_fold]. unfold peer_step at 1.
    destruct (skipped lu h) eqn:Hskip.
    { rewrite filter_cons_False by (by rewrite Hskip). by apply IH. }
    rewrite filter_cons_True by done.
    destruct (Resolve reference (Host.Labels h)) as [v|e] eqn:Er.
    2:{ split; [done|]. intros (vps & Hf & _). inversion Hf as [|? ? ? ? [Hr _]].
        congruence. }
    cbn [wrap_err]. cbn [mbind result_bind].
    destruct (ipv4_prefix v) as [p|] eqn:Ep.
    2:{ split; [done|]. intros (vps & Hf & _).
        inversion Hf as [|? ? ? ? [Hr Hip]]; subst. congruence. }
    cbn [fst snd].
    destruct (existsb (λ existing, overlaps existing p) seen) eqn:Eo.
    { split; [done|]. intros (vps & Hf & Hdd & _). exfalso.
      inversion Hf as [|? [v' p'] ? ? [Hr Hip]]; simplify_eq/=.
      rewrite Er in Hr. injection Hr as <-. rewrite Ep in Hip. injection Hip as <-.
      apply pairwise_disjoint_app in Hdd as (_ & _ & Hcross).
      apply not_false_iff_true in Eo. apply Eo, (existsb_overlaps _ _ v); [done..|].
      eapply Forall_impl; [exact Hcross|]. cbn. by intros q [? _]%Forall_cons. }
    apply (existsb_overlaps _ _ v) in Eo; [|done..].
    rewrite IH.
    2:{ apply Forall_app. split; [done|]. apply Forall_singleton. by exists v. }
    2:{ apply pairwise_disjoint_app. cbn. rewrite !Forall_nil. split_and!; try done.
        eapply Forall_impl; [exact Eo|]. intros q Hq. by apply Forall_singleton. }
    split.
    + intros (vps & Hf & Hdd & ->). exists ((v, p) :: vps). cbn.
      rewrite <-!app_assoc in *. split_and!; try done. by constructor.
    + intros (vps & Hf & Hdd & ->).
      inversion Hf as [|? [v' p'] ? vps' [Hr Hip] Hf']; simplify_eq/=.
      rewrite Er in Hr. injection Hr as <-. rewrite Ep in Hip. injection Hip as <-.
      exists vps'. by rewrite <-!app_assoc.
Qed.

(** [PeerSubnets] of a reference is its specification. *)
Lemma PeerSubnets_iff reference lu ls hosts peers :
  IsReference reference = true →
  PeerSubnets reference lu ls hosts = Ok (Some peers) ↔
  peers_spec reference lu ls hosts peers.
Proof.
  intros Href. unfold PeerSubnets, peers_spec. rewrite Href. cbn [negb].
  destruct (ipv4_prefix ls) as [loc|] eqn:El; [|naive_solver].
  rewrite result_bind_Ok. setoid_rewrite peer_loop.
  2:{ apply Forall_singleton. by exists ls. }
  2:{ cbn. by rewrite Forall_nil. }
  split.
  - intros (acc & (vps & Hf & Hd & ->) & [= <-]). by exists loc, vps.
  - intros (loc' & vps & [= <-] & Hf & Hd & ->). eexists. split; [by exists vps|done].
Qed.

(** The order of the hosts plays no role in the specification. *)
#[export] Instance peers_spec_perm reference lu ls :
  Proper ((≡ₚ) ==> (=) ==> iff) (peers_spec reference lu ls).
Proof.
  assert (∀ hs hs' peers, hs ≡ₚ hs' → peers_spec reference lu ls hs peers →
    peers_spec reference lu ls hs' peers) as Himp.
  { intros hs hs' peers Hp (loc & vps & Hl & Hf & Hd & ->).
    assert (peers_of lu hs ≡ₚ peers_of lu hs') as Hpf by (unfold peers_of; by rewrite Hp).
    destruct (Permutation_Forall2 Hpf Hf) as (vps' & Hvp & Hf').
    exists loc, vps'. split_and!; [done|done| |].
    - by rewrite <-Hvp.
    - apply sort_strings_unique. by rewrite Hvp. }
  intros hs hs' Hp ? peers ->. split; apply Himp; [done|by symmetry].
Qed.

(** Two subnet texts with an address in common. *)
Definition share_address (s t : string) : Prop :=
  ∃ p q x, ParsePrefix s = Some p ∧ ParsePrefix t = Some q ∧
    Contains p (V4 x) = true ∧ Contains q (V4 x) = true.

Lemma disjoint_not_share s t p q :
  ipv4_prefix s = Some p → ipv4_prefix t = Some q →
  disjoint_prefixes p q → ¬ share_address s t.
Proof.
  intros (a & _ & _ & _ & _ & Hs)%ipv4_prefix_Some (b & _ & _ & _ & _ & Ht)%ipv4_prefix_Some.
  intros Hd (p' & q' & x & Hp' & Hq' & ? & ?). apply Hd. exists x. by simplify_eq.
Qed.

Lemma pairwise_disjoint_lookup ps i j p q :
  pairwise_disjoint ps → ps !! i = Some p → ps !! j = Some q → i ≠ j →
  disjoint_prefixes p q.
Proof.
  revert i j. induction ps as [|r ps IH]; [done|]. cbn.
  intros i j [Hr Hps] Hi Hj Hne. rewrite Forall_forall in Hr.
  destruct i as [|i], j as [|j]; simplify_eq/=.
  - apply Hr. by eapply list_elem_of_lookup_2.
  - apply disjoint_prefixes_sym, Hr. by eapply list_elem_of_lookup_2.
  - eapply (IH i j); [done|done|done|]. intros ->. by apply Hne.
Qed.

Lemma host_subnet_parse reference hs vps :
  Forall2 (host_subnet reference) hs vps →
  Forall (λ vp, ipv4_prefix vp.1 = Some vp.2) vps.
Proof. induction 1 as [|h [v p] hs vps [_ Hp] _ IH]; by constructor. Qed.

(** Sorting the texts sorts the (text, prefix) pairs along. *)
Lemma vps_sorted (vps : list (string * Prefix)) :
  ∃ vps', vps' ≡ₚ vps ∧ vps'.*1 = sort_strings vps.*1.
Proof.
  destruct (Permutation_map_inv fst vps (sort_strings_perm vps.*1)) as (vps' & Hs & Hp).
  exists vps'. split; [by symmetry|]. symmetry. exact Hs.
Qed.

(** The result, entry by entry: no two entries of [localSubnet :: peers] share
    an address. *)
Lemma peers_spec_disjoint reference lu ls hosts peers i j s t :
  peers_spec reference lu ls hosts peers →
  (ls :: peers) !! i = Some s → (ls :: peers) !! j = Some t → i ≠ j →
  ¬ share_address s t.
Proof.
  intros (loc & vps & Hl & Hf & Hd & ->) Hi Hj Hne.
  destruct (vps_sorted vps) as (vps' & Hp & Hs).
  assert (Forall (λ vp, ipv4_prefix vp.1 = Some vp.2) ((ls, loc) :: vps')) as Hparse.
  { constructor; [done|]. rewrite Hp. by eapply host_subnet_parse. }
  assert (pairwise_disjoint ((ls, loc) :: vps').*2) as Hdis.
  { by rewrite Hp. }
  rewrite <-Hs in Hi, Hj. change (ls :: vps'.*1) with ((ls, loc) :: vps').*1 in Hi, Hj.
  rewrite list_lookup_fmap in Hi, Hj.
  apply fmap_Some in Hi as ([s' p] & Hi & ->). apply fmap_Some in Hj as ([t' q] & Hj & ->).
  rewrite Forall_lookup in Hparse.
  apply (disjoint_not_share _ _ p q); [by apply Hparse in Hi|by apply Hparse in Hj|].
  eapply pairwise_disjoint_lookup; [exact Hdis| | |exact Hne];
    rewrite list_lookup_fmap; [by rewrite Hi|by rewrite Hj].
Qed.

Lemma peers_spec_source reference lu ls hosts peers s :
  peers_spec reference lu ls hosts peers → s ∈ peers →
  ∃ h, h ∈ hosts ∧ skipped lu h = false ∧ Resolve reference (Host.Labels h) = Ok s.
Proof.
  intros (loc & vps & Hl & Hf & Hd & ->) Hin.
  rewrite elem_of_sort_strings, list_elem_of_fmap in Hin. destruct Hin as ([v p] & -> & Hin).
  apply list_elem_of_lookup in Hin as [i Hi].
  destruct (Forall2_lookup_r _ _ _ _ _ Hf Hi) as (h & Hh & [Hr _]).
  apply list_elem_of_lookup_2 in Hh.
  apply list_elem_of_filter in Hh as [? ?]. by exists h.
Qed.

Lemma peers_spec_length reference lu ls hosts peers :
  peers_spec reference lu ls hosts peers → length peers = length (peers_of lu hosts).
Proof.
  intros (loc & vps & Hl & Hf & Hd & ->).
  by rewrite sort_strings_perm, length_fmap, (Forall2_length _ _ _ Hf).
Qed.

(** A text that names a label is no subnet. *)
Lemma ParseCIDR_reference s : IsReference s = true → ParseCIDR s = None.
Proof.
  unfold IsReference. intros H.
  assert (∃ t, s = prefix +:+ t) as [t ->].
  { unfold HasPrefix, prefix in *. cbn in H.
    do 15 (destruct s as [|? s]; [done|]; cbn in H; case_match; [|done]; subst).
    by exists s. }
  unfold ParseCIDR. rewrite Cut_app_free by done.
  destruct (Cut t "/") as [[u m] [|]]; [|done]. cbn [negb].
  assert (ParseAddr (prefix +:+ u) = None) as Hp.
  { unfold ParseAddr. assert (addr_kind (prefix +:+ u) = Some ":"%char) as -> by reflexivity.
    unfold parseIPv6. rewrite Cut_app_free by done.
    destruct (Cut u "%") as [[v z] f]. destruct (f && _); [done|]. vm_compute. done. }
  by rewrite Hp.
Qed.

Lemma ParseCIDR_literal s r : ParseCIDR s = Some r → IsReference s = false.
Proof.
  intros H. destruct (IsReference s) eqn:E; [|done].
  apply ParseCIDR_reference in E. congruence.
Qed.

Lemma Resolve_literal s labels : IsReference s = false → Resolve s labels = Ok s.
Proof. unfold Resolve, IsReference. by intros ->. Qed.

(** ** Properties *)

(** C21: the peer subnets of a host-label network are the sorted subnets of
    exactly the other active hosts, and neither two of them nor one of them and
    the local subnet share an IPv4 address. *)
Theorem PeerSubnets_disjoint reference lu ls hosts peers :
  IsReference reference = true →
  PeerSubnets reference lu ls hosts = Ok (Some peers) →
  StronglySorted String.le peers ∧
  length peers = length (peers_of lu hosts) ∧
  (∀ s, s ∈ peers → ∃ h, h ∈ hosts ∧ skipped lu h = false ∧
     Resolve reference (Host.Labels h) = Ok s) ∧
  (∀ i j s t, (ls :: peers) !! i = Some s → (ls :: peers) !! j = Some t → i ≠ j →
     ¬ share_address s t).
Proof.
  intros Href H. apply PeerSubnets_iff in H; [|done]. split_and!.
  - destruct H as (? & ? & _ & _ & _ & ->). apply sort_strings_sorted.
  - by eapply peers_spec_length.
  - intros s. by eapply peers_spec_source.
  - intros i j s t. by eapply peers_spec_disjoint.
Qed.

(** The order in which metadata lists the hosts does not change the
    outcome of [PeerSubnets]. *)
Lemma PeerSubnets_host_order reference lu ls hosts hosts' peers :
  hosts ≡ₚ hosts' →
  PeerSubnets reference lu ls hosts = Ok peers ↔
  PeerSubnets reference lu ls hosts' = Ok peers.
Proof.
  intros Hp. destruct (IsReference reference) eqn:Href.
  - destruct peers as [peers|].
    + rewrite !PeerSubnets_iff by done. by rewrite Hp.
    + unfold PeerSubnets. rewrite Href. cbn [negb].
      destruct (ipv4_prefix ls); [|done]. rewrite !result_bind_Ok. naive_solver.
  - unfold PeerSubnets. by rewrite Href.
Qed.

(** C27: [Resolve] returns a literal value unchanged, and for a label reference
    the trimmed label of the host, a network address in CIDR form; what it
    returns is no longer a reference, so resolving again changes nothing. *)
Theorem Resolve_resolved value labels s :
  Resolve value labels = Ok s →
  (∀ labels', Resolve s labels' = Ok s) ∧
  (IsReference value = false → s = value) ∧
  (IsReference value = true → ∃ ip n,
     s = TrimSpace (zget "" labels (TrimSpace (TrimPrefix value prefix))) ∧
     ParseCIDR s = Some (ip, n) ∧ has_To4 ip = true ∧ is_network_address ip n = true).
Proof.
  unfold Resolve at 1. fold (IsReference value). destruct (IsReference value) eqn:Href; cbn [negb].
  - destruct (_ || _); [done|]. case_bool_decide; [done|].
    destruct (ParseCIDR _) as [[ip n]|] eqn:Ep; [|done].
    destruct (has_To4 ip) eqn:H4; cbn [negb orb]; [|done].
    destruct (is_network_address ip n) eqn:Hn; cbn [negb]; [|done].
    intros [= <-]. split; [|split; [done|]].
    + intros labels'. by eapply Resolve_literal, ParseCIDR_literal.
    + intros _. by exists ip, n.
  - intros [= <-]. split; [|done]. intros labels'. by apply Resolve_literal.
Qed.

(** ** Witnesses *)

Definition demo_hosts : list Host.t :=
  [ mk_host "h1" "192.0.2.1" "active" {[ "subnet" := "10.42.1.0/24" ]};
    mk_host "h3" "192.0.2.3" "active" {[ "subnet" := " 10.42.3.0/24" ]};
    mk_host "h2" "192.0.2.2" "active" {[ "subnet" := "10.42.2.0/24" ]};
    mk_host "h4" "192.0.2.4" "inactive" ∅ ].

Definition demo_reference : string := "__host_label__: subnet".

Lemma demo_peers :
  PeerSubnets demo_reference "h1" "10.42.1.0/24" demo_hosts =
  Ok (Some ["10.42.2.0/24"; "10.42.3.0/24"]).
Proof. vm_compute. reflexivity. Qed.

Lemma PeerSubnets_disjoint_witness :
  StronglySorted String.le ["10.42.2.0/24"; "10.42.3.0/24"] ∧
  ¬ share_address "10.42.1.0/24" "10.42.3.0/24".
Proof.
  destruct (PeerSubnets_disjoint demo_reference "h1" "10.42.1.0/24" demo_hosts
    ["10.42.2.0/24"; "10.42.3.0/24"] eq_refl demo_peers) as (Hs & _ & _ & Hd).
  split; [exact Hs|]. by apply (Hd 0 2).
Defined.

Lemma PeerSubnets_host_order_witness :
  PeerSubnets demo_reference "h1" "10.42.1.0/24" (reverse demo_hosts) =
  Ok (Some ["10.42.2.0/24"; "10.42.3.0/24"]).
Proof.
  apply (PeerSubnets_host_order _ _ _ demo_hosts).
  - symmetry. apply reverse_Permutation.
  - apply demo_peers.
Defined.

Lemma Resolve_resolved_witness :
  Resolve demo_reference {[ "subnet" := " 10.42.3.0/24" ]} = Ok "10.42.3.0/24" ∧
  Resolve "10.42.3.0/24" ∅ = Ok "10.42.3.0/24".
Proof.
  assert (Resolve demo_reference {[ "subnet" := " 10.42.3.0/24" ]} = Ok "10.42.3.0/24") as H
    by (vm_compute; reflexivity).
  split; [exact H|]. apply (Resolve_resolved _ _ _ H).
Defined.

(** An IPv4-mapped IPv6 subnet passes the check for a canonical IPv4 one. *)
Lemma Resolve_accepts_mapped_IPv6 :
  Resolve demo_reference {[ "subnet" := "::ffff:10.0.0.0/104" ]} = Ok "::ffff:10.0.0.0/104".
Proof. vm_compute. reflexivity. Qed.
