(* ===== verification/Firewall.v ===== *)
(** * Selection of the host firewall backend (internal/firewall/backend.go)

    The backend is resolved once, before the rule watchers start, from what
    Docker reports and from the rules of both xtables frontends. The code's
    function parameters (lookup, version, inspect, readFile) are the calls the
    production code passes for them. *)
From S2P Require Import Prelude Effects GoStrings Metadata World.

(** ** Modes *)

Definition Auto : string := "auto".
Definition IptablesNFT : string := "iptables-nft".
Definition IptablesLegacy : string := "iptables-legacy".
Definition NFTables : string := "nftables".

Record Backend := { Mode : string; BackendCommand : string; Restore : string }.

#[export] Instance Backend_eq_dec : EqDecision Backend.
Proof. solve_decision. Defined.

(** ** Reading rule listings *)

Definition lines (text : string) : list string := Split text "010".

(** Two neighbouring words of a list. *)
Fixpoint neighbours (x y : string) (ws : list string) : bool :=
  match ws with
  | a :: ((b :: _) as rest) =>
      String.eqb a x && String.eqb b y || neighbours x y rest
  | _ => false
  end.

Definition declares_docker (line : string) : bool :=
  bool_decide (Fields line = ["-N"; "DOCKER"]).

Definition hooks_docker (line : string) : bool :=
  match Fields line with
  | "-A" :: chain :: rest =>
      (2 <=? length rest) && (String.eqb chain "PREROUTING" || String.eqb chain "OUTPUT")
      && neighbours "-j" "DOCKER" rest
  | _ => false
  end.

Definition hasDockerNATChain (rules : string) : bool :=
  existsb declares_docker (lines rules) && existsb hooks_docker (lines rules).

Definition hasForwardDropPolicy (rules : string) : bool :=
  existsb (λ line, bool_decide (Fields line = ["-P"; "FORWARD"; "DROP"])) (lines rules).

Definition hasTable (tables name : string) : bool :=
  existsb (λ line, String.eqb (TrimSpace line) name) (lines tables).

Definition nftBackendUnavailable (output : string) : bool :=
  let message := ToLower output in
  Contains message "protocol not supported" ||
  Contains message "operation not supported" ||
  Contains message "address family not supported" ||
  Contains message "could not fetch rule set generation id: invalid argument".

(** *** The platform's own hooks *)

Record jump := { target : string; jump_line : string }.

Definition is_jump_flag (w : string) : bool :=
  String.eqb w "-j" || String.eqb w "-g" || String.eqb w "--jump" || String.eqb w "--goto".

(** The word after the first jump flag that has one. *)
Fixpoint first_jump (ws : list string) : option string :=
  match ws with
  | a :: ((b :: _) as rest) => if is_jump_flag a then Some b else first_jump rest
  | _ => None
  end.

(** The chain a rule line belongs to and the jump it makes. *)
Definition line_jump (line : string) : option (string * jump) :=
  match Fields line with
  | "-A" :: chain :: rest =>
      if 2 <=? length rest
      then t ← first_jump rest; Some (chain, {| target := t; jump_line := TrimSpace line |})
      else None
  | _ => None
  end.

Definition jumps_of (rules : string) : gmap string (list jump) :=
  foldl (λ jumps line,
    match line_jump line with
    | Some (chain, j) => <[chain := zget [] jumps chain ++ [j]]> jumps
    | None => jumps
    end) ∅ (lines rules).

Definition builtin_chains : list string :=
  ["INPUT"; "FORWARD"; "OUTPUT"; "PREROUTING"; "POSTROUTING"].

Definition is_platform (chain : string) : bool := HasPrefix chain "CATTLE_".

(** The jumps of one chain: the first one into a platform chain, or the
    targets to visit next. *)
Fixpoint scan_edges (edges : list jump) : string + list string :=
  match edges with
  | [] => inr []
  | e :: es =>
      if is_platform (target e) then inl (jump_line e)
      else match scan_edges es with
           | inl l => inl l
           | inr ts => inr (target e :: ts)
           end
  end.

(** The traversal from the built-in hooks; [None] when the fuel runs out. *)
Fixpoint traverse (fuel : nat) (jumps : gmap string (list jump))
    (queue : list string) (seen : gset string) : option string :=
  match fuel with
  | 0 => None
  | S f =>
      match queue with
      | [] => Some ""
      | chain :: queue' =>
          if bool_decide (chain ∈ seen) then traverse f jumps queue' seen
          else match scan_edges (zget [] jumps chain) with
               | inl line => Some line
               | inr ts => traverse f jumps (queue' ++ ts) ({[chain]} ∪ seen)
               end
      end
  end.

Definition traverse_fuel (rules : string) : nat :=
  S (length builtin_chains + length (lines rules)).

Definition platformHook (rules : string) : string :=
  default "" (traverse (traverse_fuel rules) (jumps_of rules) builtin_chains ∅).

(** ** Inspecting commands *)

Definition lookup (name : string) : hprog (result string) := call1 (LookPath name).

Definition commandVersion (name : string) : hprog (string * option error) :=
  call1 (Command [name; "--version"] "").

Definition inspectRules (name : string) (args : list string) : hprog (string * option error) :=
  call1 (Command (name :: args) "").

Definition legacyInspectionCommand : hprog (result string) :=
  let command := "iptables-legacy" in
  _ <-? wrapped "find iptables-legacy" (lookup command);
  '(out, err) ← commandVersion command;
  match err with
  | Some e => Ret (Err (Wrapf "verify iptables-legacy version" e))
  | None =>
      if negb (Contains out "(legacy)")
      then Ret (Err (Errorf "iptables-legacy is not the legacy frontend"))
      else Ret (Ok command)
  end.

(** The command to inspect nf_tables rules with, and whether there is none. *)
Definition nftInspectionCommand : hprog (result (string * bool)) :=
  r ← lookup "iptables-nft";
  match r with
  | Ok _ =>
      '(out, err) ← commandVersion "iptables-nft";
      match err with
      | Some e => Ret (Err (Wrapf "iptables-nft version cannot be verified" e))
      | None =>
          if negb (Contains out "nf_tables")
          then Ret (Err (Errorf "iptables-nft is not the nf_tables frontend"))
          else Ret (Ok ("iptables-nft", false))
      end
  | Err e =>
      if negb (is_not_exist e) then Ret (Err (Wrapf "find iptables-nft" e)) else
      r2 ← lookup "iptables";
      match r2 with
      | Err e2 => if is_not_exist e2 then Ret (Ok ("", true))
                  else Ret (Err (Wrapf "find generic iptables" e2))
      | Ok _ =>
          '(out, err) ← commandVersion "iptables";
          match err with
          | Some e3 => Ret (Err (Wrapf "generic iptables version cannot be verified" e3))
          | None =>
              if Contains out "nf_tables" then Ret (Ok ("iptables", false))
              else if Contains out "legacy" then Ret (Ok ("", true))
              else Ret (Err (Errorf "unrecognized generic iptables frontend"))
          end
      end
  end.

(** ** Docker's xtables frontend *)

Definition SelectDockerXTMode (requested active : string) : result string :=
  if String.eqb requested "" || String.eqb requested Auto then Ok active
  else if negb (String.eqb requested active)
  then Err (Errorf "requested frontend differs from Docker's active frontend")
  else Ok requested.

Definition tables_file : string := "/proc/net/ip_tables_names".

(** The rules of a frontend that must not be live next to the active one. *)
Definition stale_filter (rules : string) : bool :=
  negb (String.eqb (platformHook rules) "") || hasForwardDropPolicy rules.

(** The state of the nf_tables frontend: unavailable, or its nat rules. *)
Definition inspect_nft_nat (nftCommand : string) (nftUnavailable : bool)
    : hprog (result (bool * string)) :=
  if nftUnavailable then Ret (Ok (true, "")) else
  '(nftRules, inspectErr) ← inspectRules nftCommand ["-t"; "nat"; "-S"];
  match inspectErr with
  | Some e =>
      if negb (nftBackendUnavailable nftRules)
      then Ret (Err (Wrapf "inspect Docker iptables-nft NAT rules" e))
      else Ret (Ok (true, nftRules))
  | None => Ret (Ok (false, nftRules))
  end.

(** The legacy command and nat rules, when the kernel has loaded that table. *)
Definition inspect_legacy_nat (loaded : bool) : hprog (result (string * string)) :=
  if negb loaded then Ret (Ok ("", "")) else
  legacyCommand <-? wrapped "legacy NAT table is loaded but its Docker rules cannot be inspected"
    legacyInspectionCommand;
  '(legacyRules, err) ← inspectRules legacyCommand ["-t"; "nat"; "-S"];
  match err with
  | Some e => Ret (Err (Wrapf "inspect Docker iptables-legacy NAT rules" e))
  | None => Ret (Ok (legacyCommand, legacyRules))
  end.

Definition active_frontend (nftActive legacyActive : bool) : result string :=
  if nftActive && legacyActive
  then Err (Errorf "Docker-owned NAT DOCKER chains are active in both frontends")
  else if nftActive then Ok IptablesNFT
  else if legacyActive then Ok IptablesLegacy
  else Err (Errorf "no unique active Docker NAT DOCKER chain was found").

(** The frontend Docker does not use must not process packets. *)
Definition check_opposite (active legacyTables legacyCommand legacyRules nftCommand nftRules
    : string) (nftUnavailable : bool) : hprog (result ()) :=
  if String.eqb active IptablesNFT then
    if hasTable legacyTables "nat" && negb (String.eqb (platformHook legacyRules) "")
    then Ret (Err (Errorf "active platform NAT hook remains in iptables-legacy")) else
    if hasTable legacyTables "filter" then
      command <-? (if String.eqb legacyCommand ""
                   then wrapped "loaded legacy filter table cannot be inspected"
                          legacyInspectionCommand
                   else Ret (Ok legacyCommand));
      '(filterRules, err) ← inspectRules command ["-t"; "filter"; "-S"];
      match err with
      | Some e => Ret (Err (Wrapf "inspect opposite iptables-legacy filter rules" e))
      | None =>
          if stale_filter filterRules
          then Ret (Err (Errorf "active platform hook or FORWARD DROP remains in iptables-legacy"))
          else Ret (Ok ())
      end
    else Ret (Ok ())
  else if negb nftUnavailable then
    if negb (String.eqb (platformHook nftRules) "")
    then Ret (Err (Errorf "active platform NAT hook remains in iptables-nft")) else
    '(filterRules, err) ← inspectRules nftCommand ["-t"; "filter"; "-S"];
    match err with
    | Some e => Ret (Err (Wrapf "inspect opposite iptables-nft filter rules" e))
    | None =>
        if stale_filter filterRules
        then Ret (Err (Errorf "active platform hook or FORWARD DROP remains in iptables-nft"))
        else Ret (Ok ())
    end
  else Ret (Ok ()).

Definition DetectDockerXTFrontend : hprog (result string) :=
  r ← call1 (ReadFile tables_file);
  legacyTables <-? Ret (match r with
    | Ok t => Ok t
    | Err e => if is_not_exist e then Ok ""
               else Err (Wrapf "inspect loaded legacy iptables tables" e)
    end);
  '(nftCommand, unavailable) <-? wrapped "cannot inspect Docker's iptables-nft rules"
     nftInspectionCommand;
  '(nftUnavailable, nftRules) <-? inspect_nft_nat nftCommand unavailable;
  '(legacyCommand, legacyRules) <-? inspect_legacy_nat (hasTable legacyTables "nat");
  active <-? Ret (active_frontend
    (negb nftUnavailable && hasDockerNATChain nftRules)
    (hasTable legacyTables "nat" && hasDockerNATChain legacyRules));
  _ <-? check_opposite active legacyTables legacyCommand legacyRules nftCommand nftRules
          nftUnavailable;
  Ret (Ok active).

(** ** Docker's native nftables *)

Definition checkPreviousXTRules (command table : string) : hprog (result ()) :=
  '(out, err) ← inspectRules command ["-t"; table; "-S"];
  match err with
  | Some e => Ret (Err (Wrapf "inspect previous rules before native nftables" e))
  | None =>
      if String.eqb table "filter" && hasForwardDropPolicy out
      then Ret (Err (Errorf "blocked by a previous FORWARD DROP policy"))
      else if negb (String.eqb (platformHook out) "")
      then Ret (Err (Errorf "previous platform hook is still active"))
      else if String.eqb table "nat" && hasDockerNATChain out
      then Ret (Err (Errorf "previous Docker NAT hook is still active"))
      else Ret (Ok ())
  end.

Definition CheckNativeMigration : hprog (result ()) :=
  r ← call1 (ReadFile tables_file);
  legacyTables <-? Ret (match r with
    | Ok t => Ok t
    | Err e => if is_not_exist e then Ok ""
               else Err (Wrapf "inspect loaded legacy iptables tables before native nftables" e)
    end);
  '(nftCommand, nftUnavailable) <-? wrapped
     "find previous iptables-nft rules before native nftables" nftInspectionCommand;
  _ <-? (if negb nftUnavailable then pforeach (checkPreviousXTRules nftCommand) ["filter"; "nat"]
         else Ret (Ok ()));
  if negb (hasTable legacyTables "filter") && negb (hasTable legacyTables "nat")
  then Ret (Ok ()) else
  legacyCommand <-? wrapped "loaded legacy firewall tables cannot be inspected"
    legacyInspectionCommand;
  pforeach (λ table, if hasTable legacyTables table
                     then checkPreviousXTRules legacyCommand table
                     else Ret (Ok ())) ["filter"; "nat"].

(** The pattern "meta mark & 0x0*1068 == 0x0*1068", matched anywhere. *)
Fixpoint strip_zeros (s : string) : string :=
  match s with String "0" s' => strip_zeros s' | _ => s end.

Definition match_hex_1068 (s : string) : option string :=
  let t := strip_zeros s in
  if HasPrefix t "1068" then Some (drop_bytes 4 t) else None.

Definition match_mark_here (s : string) : bool :=
  let first := "meta mark & 0x" in
  let second := " == 0x" in
  if HasPrefix s first then
    match match_hex_1068 (drop_bytes (String.length first) s) with
    | Some t =>
        if HasPrefix t second
        then bool_decide (is_Some (match_hex_1068 (drop_bytes (String.length second) t)))
        else false
    | None => false
    end
  else false.

Fixpoint dockerBridgeMark (s : string) : bool :=
  match_mark_here s ||
  match s with EmptyString => false | String _ s' => dockerBridgeMark s' end.

Definition CheckDockerBridgeMark : hprog (result ()) :=
  '(out, err) ← inspectRules "nft" ["list"; "table"; "ip"; "docker-bridges"];
  match err with
  | Some e => Ret (Err (Wrapf "inspect Docker native nft bridge rules" e))
  | None =>
      if negb (dockerBridgeMark out)
      then Ret (Err (Errorf "Docker native nftables requires bridge-accept-fwmark"))
      else Ret (Ok ())
  end.

(** ** The backend *)

Definition dockerFirewallDriver (reportedDriver serverVersion : string) : result string :=
  if negb (String.eqb reportedDriver "") then Ok reportedDriver else
  let '(majorText, _, _) := Cut (TrimPrefix serverVersion "v") "." in
  match Atoi majorText with
  | None => Err (Errorf "ServerVersion cannot establish a safe fallback")
  | Some major =>
      if (major <? 1)%Z then Err (Errorf "ServerVersion cannot establish a safe fallback")
      else if (29 <=? major)%Z
      then Err (Errorf "Docker did not report FirewallBackend")
      else Ok "iptables"
  end.

(** One binary of an xtables backend: present, and of the selected frontend. *)
Definition check_binary (marker binary : string) : hprog (result ()) :=
  _ <-? wrapped "backend requires binary" (lookup binary);
  '(out, err) ← commandVersion binary;
  if bool_decide (err ≠ None) || negb (Contains out marker)
  then Ret (Err (Errorf "binary is not the selected frontend"))
  else Ret (Ok ()).

Definition ResolveBackend (requested dockerDriver : string) : hprog (result Backend) :=
  let requested := if String.eqb requested "" then Auto else requested in
  if negb (String.eqb dockerDriver "iptables") && negb (String.eqb dockerDriver "nftables")
  then Ret (Err (Errorf "unsupported Docker firewall backend")) else
  requested <-? Ret (if String.eqb requested Auto then
      if String.eqb dockerDriver "nftables" then Ok NFTables
      else Err (Errorf "Docker's active iptables frontend must be inspected")
    else Ok requested);
  if String.eqb requested NFTables then
    if negb (String.eqb dockerDriver "nftables")
    then Ret (Err (Errorf "native nftables requires Docker firewall-backend=nftables")) else
    _ <-? wrapped "native nftables requires nft executable" (lookup "nft");
    Ret (Ok {| Mode := NFTables; BackendCommand := "nft"; Restore := "" |})
  else if String.eqb dockerDriver "nftables"
  then Ret (Err (Errorf "Docker uses native nftables; refusing the incompatible frontend"))
  else
  '(command, restore, marker) <-? Ret (
    if String.eqb requested IptablesNFT
    then Ok ("iptables-nft", "iptables-nft-restore", "nf_tables")
    else if String.eqb requested IptablesLegacy
    then Ok ("iptables-legacy", "iptables-legacy-restore", "legacy")
    else Err (Errorf "unknown firewall backend"));
  c ← lookup command;
  let command := match c with Ok _ => command | Err _ => "iptables" end in
  r ← lookup restore;
  let restore := match r with Ok _ => restore | Err _ => "iptables-restore" end in
  _ <-? pforeach (check_binary marker) [command; restore];
  Ret (Ok {| Mode := requested; BackendCommand := command; Restore := restore |}).

Definition Detect (requested : string) : hprog (result Backend) :=
  '(reported, serverVersion) <-? wrapped "read Docker firewall backend" (call1 DockerInfo);
  driver <-? Ret (dockerFirewallDriver (default "" reported) serverVersion);
  requested <-? (if String.eqb driver "iptables" then
      active <-? DetectDockerXTFrontend;
      Ret (SelectDockerXTMode requested active)
    else Ret (Ok requested));
  backend <-? ResolveBackend requested driver;
  _ <-? (if String.eqb (Mode backend) NFTables then
      _ <-? CheckNativeMigration;
      CheckDockerBridgeMark
    else Ret (Ok ()));
  Ret (Ok backend).

(** ** The traversal of the rule graph *)

(** Specification: the chains packets can reach from the built-in hooks. *)
Inductive reaches (jumps : gmap string (list jump)) : string → Prop :=
  | reaches_builtin c : c ∈ builtin_chains → reaches jumps c
  | reaches_jump c j : reaches jumps c → j ∈ zget [] jumps c → reaches jumps (target j).

(** A reachable rule that jumps into a platform chain. *)
Definition live_platform_jump (jumps : gmap string (list jump)) (j : jump) : Prop :=
  ∃ c, reaches jumps c ∧ j ∈ zget [] jumps c ∧ is_platform (target j) = true.

Definition rule_jumps (rules : string) : list (string * jump) := omap line_jump (lines rules).

Definition jumps_from (c : string) (edges : list (string * jump)) : list jump :=
  (filter (λ e, e.1 = c) edges).*2.

(** The rules of the chains that have not been visited. *)
Definition pending (seen : gset string) (edges : list (string * jump)) : nat :=
  length (filter (λ e, e.1 ∉ seen) edges).

Lemma jumps_of_lookup rules c : zget [] (jumps_of rules) c = jumps_from c (rule_jumps rules).
Proof.
  unfold jumps_of, rule_jumps, jumps_from. generalize (lines rules) as ls.
  assert (∀ ls m, zget [] (foldl (λ jumps line,
      match line_jump line with
      | Some (chain, j) => <[chain := zget [] jumps chain ++ [j]]> jumps
      | None => jumps
      end) m ls) c =
    zget [] m c ++ (filter (λ e : string * jump, e.1 = c) (omap line_jump ls)).*2) as H.
  { induction ls as [|l ls IH]; intros m; cbn [foldl omap list_omap].
    - by rewrite filter_nil, app_nil_r.
    - destruct (line_jump l) as [[ch j]|] eqn:E; rewrite IH; [|done].
      unfold zget. destruct (decide (ch = c)) as [->|Hne].
      + rewrite lookup_insert_eq, filter_cons_True by done. cbn. by rewrite <-app_assoc.
      + rewrite lookup_insert_ne, filter_cons_False by done. done. }
  intros ls. by rewrite H.
Qed.

Lemma scan_edges_inl es l :
  scan_edges es = inl l → ∃ e, e ∈ es ∧ is_platform (target e) = true ∧ l = jump_line e.
Proof.
  induction es as [|e es IH]; cbn; [done|]. destruct (is_platform (target e)) eqn:E.
  - intros [= <-]. exists e. by rewrite elem_of_cons; auto.
  - destruct (scan_edges es) as [l'|ts]; [|done]. intros [= ->].
    destruct (IH eq_refl) as (e' & ? & ? & ?). exists e'. rewrite elem_of_cons. auto.
Qed.

Lemma scan_edges_inr es ts :
  scan_edges es = inr ts →
  ts = target <$> es ∧ Forall (λ e, is_platform (target e) = false) es.
Proof.
  revert ts. induction es as [|e es IH]; intros ts; cbn; [by intros [= <-]|].
  destruct (is_platform (target e)) eqn:E; [done|].
  destruct (scan_edges es) as [l'|ts'] eqn:Es; [done|]. intros [= <-].
  destruct (IH _ eq_refl) as [-> ?]. split; [done|]. by constructor.
Qed.

Lemma pending_le seen edges : pending seen edges ≤ length edges.
Proof. apply length_filter. Qed.

Lemma pending_visit seen c edges :
  c ∉ seen → pending seen edges = pending ({[c]} ∪ seen) edges + length (jumps_from c edges).
Proof.
  intros Hc. unfold pending, jumps_from. rewrite length_fmap.
  induction edges as [|[d j] edges IH]; [done|].
  destruct (decide (d = c)) as [->|Hne].
  - rewrite (filter_cons_True (λ e : string * jump, e.1 ∉ seen)) by done.
    rewrite (filter_cons_False (λ e : string * jump, e.1 ∉ {[c]} ∪ seen)) by set_solver.
    rewrite (filter_cons_True (λ e : string * jump, e.1 = c)) by done.
    cbn [length]. rewrite IH. lia.
  - rewrite (filter_cons_False (λ e : string * jump, e.1 = c)) by done.
    destruct (decide (d ∈ seen)).
    + rewrite !filter_cons_False by set_solver. exact IH.
    + rewrite !filter_cons_True by set_solver. cbn [length]. rewrite IH. lia.
Qed.

Section traverse.
Context (jumps : gmap string (list jump)) (edges : list (string * jump)).
Context (Hedges : ∀ c, zget [] jumps c = jumps_from c edges).
Context (Hlines : ∀ c j, j ∈ zget [] jumps c → jump_line j ≠ "").

(** Every chain is expanded once, so the queue drains. *)
Lemma traverse_total fuel queue seen :
  length queue + pending seen edges < fuel → is_Some (traverse fuel jumps queue seen).
Proof.
  revert queue seen. induction fuel as [|f IH]; intros queue seen Hf; [lia|]. cbn [traverse].
  destruct queue as [|c queue]; [done|]. cbn in Hf. case_bool_decide as Hc.
  { apply IH. lia. }
  destruct (scan_edges _) as [l|ts] eqn:Es; [done|].
  apply scan_edges_inr in Es as [-> _]. apply IH.
  rewrite length_app, length_fmap, Hedges.
  pose proof (pending_visit seen c edges Hc). lia.
Qed.

Lemma traverse_sound fuel queue seen line :
  Forall (reaches jumps) queue → traverse fuel jumps queue seen = Some line → line ≠ "" →
  ∃ j, live_platform_jump jumps j ∧ line = jump_line j.
Proof.
  revert queue seen. induction fuel as [|f IH]; intros queue seen Hq; [done|]. cbn [traverse].
  destruct queue as [|c queue]; [by intros [= <-]|]. apply Forall_cons in Hq as [Hc Hq].
  case_bool_decide; [by apply IH|].
  destruct (scan_edges _) as [l|ts] eqn:Es.
  - intros [= ->] _. apply scan_edges_inl in Es as (j & ? & ? & ->).
    exists j. split; [by exists c|done].
  - apply scan_edges_inr in Es as [-> _]. apply IH, Forall_app. split; [done|].
    apply Forall_fmap, Forall_forall. intros j Hj. by eapply reaches_jump.
Qed.

(** A set of chains that packets cannot leave, with no platform jump. *)
Definition quiet (seen : gset string) (queue : list string) : Prop :=
  ∀ c j, c ∈ seen → j ∈ zget [] jumps c →
    is_platform (target j) = false ∧ (target j ∈ seen ∨ target j ∈ queue).

Lemma quiet_visit seen c queue :
  quiet seen (c :: queue) →
  (∀ j, j ∈ zget [] jumps c → is_platform (target j) = false) →
  quiet ({[c]} ∪ seen) (queue ++ (target <$> zget [] jumps c)).
Proof.
  intros Hq Hc d j Hd Hj. rewrite elem_of_union, elem_of_singleton in Hd.
  rewrite elem_of_app, elem_of_union, elem_of_singleton.
  destruct Hd as [->|Hd].
  - split; [by apply Hc|]. right. right. by apply list_elem_of_fmap_2.
  - destruct (Hq d j Hd Hj) as [Hp Ht]. split; [done|].
    rewrite elem_of_cons in Ht. tauto.
Qed.

Lemma traverse_complete fuel queue seen :
  quiet seen queue → traverse fuel jumps queue seen = Some "" →
  ∃ all, quiet all [] ∧ ∀ c, c ∈ seen ∨ c ∈ queue → c ∈ all.
Proof.
  revert queue seen. induction fuel as [|f IH]; intros queue seen Hq; [done|]. cbn [traverse].
  destruct queue as [|c queue].
  { intros _. exists seen. split; [exact Hq|]. intros d [?|Hd]; [done|by apply not_elem_of_nil in Hd]. }
  case_bool_decide as Hc.
  - intros H. destruct (IH queue seen) as (all & ? & Hall); [|done|].
    + intros d j Hd Hj. destruct (Hq d j Hd Hj) as [Hp Ht]. split; [done|].
      rewrite elem_of_cons in Ht. destruct Ht as [?|[Ht|?]]; [by left| |by right].
      left. by rewrite Ht.
    + exists all. split; [done|]. intros d. rewrite elem_of_cons. naive_solver.
  - destruct (scan_edges _) as [l|ts] eqn:Es.
    + intros [= ->]. apply scan_edges_inl in Es as (j & Hj & _ & Hl).
      by destruct (Hlines c j Hj).
    + apply scan_edges_inr in Es as [-> Hts]. rewrite Forall_forall in Hts. intros H.
      destruct (IH _ _ (quiet_visit seen c queue Hq Hts) H) as (all & ? & Hall).
      exists all. split; [done|]. intros d Hd. apply Hall.
      rewrite elem_of_app, elem_of_union, elem_of_singleton.
      rewrite elem_of_cons in Hd. naive_solver.
Qed.

(** Reachability from the built-in hooks, decided by the traversal. *)
Lemma traverse_correct fuel line :
  traverse fuel jumps builtin_chains ∅ = Some line →
  (line ≠ "" ↔ ∃ j, live_platform_jump jumps j) ∧
  (line ≠ "" → ∃ j, live_platform_jump jumps j ∧ line = jump_line j).
Proof.
  intros H.
  assert (line ≠ "" → ∃ j, live_platform_jump jumps j ∧ line = jump_line j) as Hs.
  { intros Hne. apply (traverse_sound fuel builtin_chains ∅ line); [|done|done].
    apply Forall_forall. intros c Hc. by apply reaches_builtin. }
  split; [|exact Hs]. split; [naive_solver|].
  intros (j & c & Hc & Hj & Hp) ->.
  assert (quiet ∅ builtin_chains) as H0 by (intros d k Hd; by apply not_elem_of_empty in Hd).
  destruct (traverse_complete _ _ _ H0 H) as (all & Hall & Hin).
  assert (c ∈ all) as Hca.
  { clear Hj. induction Hc as [c Hc|c j' _ IH Hj']; [apply Hin; auto|].
    destruct (Hall c j' IH Hj') as [_ [?|Hn]]; [done|by apply not_elem_of_nil in Hn]. }
  destruct (Hall c j Hca Hj) as [Hf _]. congruence.
Qed.
End traverse.

Lemma line_jump_text l c j : line_jump l = Some (c, j) → jump_line j ≠ "".
Proof.
  unfold line_jump. intros H Hj.
  assert (jump_line j = TrimSpace l) as Hl.
  { repeat (case_match; try done). apply bind_Some in H as (t & _ & [= <- <-]). done. }
  rewrite Hl in Hj. apply TrimSpace_Fields in Hj. by rewrite Hj in H.
Qed.

Lemma jumps_of_text rules c j : j ∈ zget [] (jumps_of rules) c → jump_line j ≠ "".
Proof.
  rewrite jumps_of_lookup. unfold jumps_from, rule_jumps.
  rewrite list_elem_of_fmap. intros ([d j'] & -> & Hin).
  apply list_elem_of_filter in Hin as [_ Hin].
  apply list_elem_of_omap in Hin as (l & _ & Hl). by eapply line_jump_text.
Qed.

Lemma platformHook_traverse rules :
  traverse (traverse_fuel rules) (jumps_of rules) builtin_chains ∅ = Some (platformHook rules).
Proof.
  unfold platformHook.
  destruct (traverse_total (jumps_of rules) (rule_jumps rules)
    (jumps_of_lookup rules) (traverse_fuel rules) builtin_chains ∅) as [l ->]; [|done].
  pose proof (pending_le ∅ (rule_jumps rules)).
  pose proof (length_omap_le line_jump (lines rules)).
  unfold traverse_fuel, rule_jumps in *. lia.
Qed.

(** ** Properties of the detection *)

(** What a run learned from listing the rules of a frontend's table. *)
Definition listing (e : hevent) : option (string * string * string) :=
  match e with
  | existT (Command [cmd; "-t"; table; "-S"] _) (out, None) => Some (cmd, table, out)
  | _ => None
  end.
Definition listings (tr : list hevent) : list (string * string * string) := omap listing tr.

Lemma listings_app tr1 tr2 : listings (tr1 ++ tr2) = listings tr1 ++ listings tr2.
Proof. apply omap_app. Qed.

(** The frontend a command reads. *)
Definition owner (cmd : string) : string :=
  if String.eqb cmd "iptables-legacy" then IptablesLegacy else IptablesNFT.

Lemma nftInspection_exec tr c u :
  exec nftInspectionCommand tr (Ok (c, u)) →
  listings tr = [] ∧ owner c = IptablesNFT.
Proof.
  unfold nftInspectionCommand, commandVersion, lookup. intros H. pexec_all; done.
Qed.

Lemma legacyInspection_exec tr c :
  exec legacyInspectionCommand tr (Ok c) → listings tr = [] ∧ c = "iptables-legacy".
Proof.
  unfold legacyInspectionCommand, commandVersion, lookup. intros H. pexec_all; done.
Qed.

Lemma inspect_nft_nat_exec c u tr unavailable rules :
  exec (inspect_nft_nat c u) tr (Ok (unavailable, rules)) →
  (unavailable = true ∧ listings tr = []) ∨
  (unavailable = false ∧ listings tr = [(c, "nat", rules)]).
Proof. unfold inspect_nft_nat, inspectRules. intros H. pexec_all; auto. Qed.

Lemma inspect_legacy_nat_exec loaded tr c rules :
  exec (inspect_legacy_nat loaded) tr (Ok (c, rules)) →
  (loaded = false ∧ c = "" ∧ listings tr = []) ∨
  (loaded = true ∧ c = "iptables-legacy" ∧ listings tr = [(c, "nat", rules)]).
Proof.
  unfold inspect_legacy_nat, inspectRules. intros H. pexec_all.
  - apply negb_true_iff in E. auto.
  - apply negb_false_iff in E. right. rewrite listings_app.
    match goal with Hl : exec legacyInspectionCommand _ (Ok ?a) |- _ =>
      apply legacyInspection_exec in Hl as [-> ->] end.
    match goal with Hw : Ok _ = wrap_err _ (Ok _) |- _ => injection Hw as -> end.
    done.
Qed.

(** What [check_opposite] looked at before it accepted. *)
Lemma check_opposite_exec active lt lc lr nc nr nu tr :
  lc = "" ∨ lc = "iptables-legacy" →
  exec (check_opposite active lt lc lr nc nr nu) tr (Ok ()) →
  (active = IptablesNFT ∧ (hasTable lt "nat" = true → platformHook lr = "") ∧
   ((hasTable lt "filter" = false ∧ listings tr = []) ∨
    ∃ out, stale_filter out = false ∧ listings tr = [("iptables-legacy", "filter", out)])) ∨
  (active ≠ IptablesNFT ∧
   ((nu = true ∧ listings tr = []) ∨
    (nu = false ∧ platformHook nr = "" ∧
     ∃ out, stale_filter out = false ∧ listings tr = [(nc, "filter", out)]))).
Proof.
  unfold check_opposite, inspectRules. intros Hlc H.
  destruct (String.eqb_spec active IptablesNFT) as [->|Hne].
  - left. split; [done|].
    destruct (hasTable lt "nat" && _) eqn:Hn; [by destruct H|]. split.
    { intros Hl. rewrite Hl in Hn. cbn in Hn. by apply negb_false_iff, String.eqb_eq in Hn. }
    destruct (hasTable lt "filter"); [|by destruct H as [-> _]; left].
    right. apply exec_pbind_ok in H as [(e & ? & _)|(tr1 & tr2 & c & -> & Hc & H)]; [done|].
    assert (c = "iptables-legacy" ∧ listings tr1 = []) as [-> Hl].
    { destruct Hlc as [-> | ->].
      2:{ change (String.eqb "iptables-legacy" "") with false in Hc.
          by destruct Hc as [-> [= ->]]. }
      change (String.eqb "" "") with true in Hc. cbn iota in Hc.
      apply exec_wrapped in Hc as ([c'|] & Hc & [= ->]).
      by apply legacyInspection_exec in Hc as [-> ->]. }
    pexec_all; exists s; by rewrite listings_app, Hl.
  - right. split; [done|].
    destruct nu; cbn [negb] in H; [by destruct H as [-> _]; left|].
    destruct (negb (String.eqb (platformHook nr) "")) eqn:Hp; [by destruct H|].
    apply negb_false_iff, String.eqb_eq in Hp. right. pexec_all.
    split_and!; [done|done|]. by exists s.
Qed.

(** A listing agrees with the selected frontend [m]: Docker's nat chain is
    active in [m] and nowhere else, and the other frontend processes no packets
    for the platform. *)
Definition listing_ok (m : string) (l : string * string * string) : Prop :=
  let '(cmd, table, out) := l in
  if String.eqb table "nat" then
    if String.eqb (owner cmd) m then hasDockerNATChain out = true
    else hasDockerNATChain out = false ∧ platformHook out = ""
  else owner cmd ≠ m ∧ stale_filter out = false.

Lemma active_frontend_Ok n l m :
  active_frontend n l = Ok m →
  (n = true ∧ l = false ∧ m = IptablesNFT) ∨ (n = false ∧ l = true ∧ m = IptablesLegacy).
Proof. unfold active_frontend. destruct n, l; cbn; naive_solver. Qed.

(** The listings of a detection, frontend by frontend: [li] and [lg] of the nat
    tables, [lf] of the other frontend's filter table. *)
Lemma detect_parts tr m :
  exec DetectDockerXTFrontend tr (Ok m) →
  ∃ r0 rest nc nu nr lc lr li lg lf,
    let lt := match r0 with Ok t => t | Err _ => "" end in
    tr = ev (Σ := host_sig) (ReadFile tables_file) r0 :: rest ∧ listings rest = li ++ lg ++ lf ∧
    owner nc = IptablesNFT ∧
    ((nu = true ∧ li = []) ∨ (nu = false ∧ li = [(nc, "nat", nr)])) ∧
    ((hasTable lt "nat" = false ∧ lc = "" ∧ lg = []) ∨
     (hasTable lt "nat" = true ∧ lc = "iptables-legacy" ∧ lg = [(lc, "nat", lr)])) ∧
    active_frontend (negb nu && hasDockerNATChain nr) (hasTable lt "nat" && hasDockerNATChain lr) = Ok m ∧
    ((m = IptablesNFT ∧ (hasTable lt "nat" = true → platformHook lr = "") ∧
      ((hasTable lt "filter" = false ∧ lf = []) ∨
       ∃ out, stale_filter out = false ∧ lf = [("iptables-legacy", "filter", out)])) ∨
     (m ≠ IptablesNFT ∧
      ((nu = true ∧ lf = []) ∨
       (nu = false ∧ platformHook nr = "" ∧
        ∃ out, stale_filter out = false ∧ lf = [(nc, "filter", out)])))).
Proof.
  unfold DetectDockerXTFrontend. intros H.
  apply exec_bind in H as (tr1 & tr2 & r0 & -> & H1%exec_call1 & H). subst tr1.
  exists r0, tr2.
  set (lt := match r0 with Ok t => t | Err _ => "" end).
  apply exec_pbind_ok in H as [(e & ? & _)|(? & tr3 & lt' & -> & [-> Hlt] & H)]; [done|].
  assert (lt' = lt) as ->.
  { unfold lt. destruct r0 as [t|e]; [by injection Hlt|].
    by destruct (is_not_exist e); [injection Hlt|]. }
  apply exec_pbind_ok in H as [(e & ? & _)|(tr4 & tr5 & [nc u] & -> & Hn & H)]; [done|].
  apply exec_wrapped in Hn as ([[nc' u']|] & Hn & Heq); [|done].
  injection Heq as <- <-.
  apply nftInspection_exec in Hn as [Hl4 Hown]. cbn beta iota in H.
  apply exec_pbind_ok in H as [(e & ? & _)|(tr6 & tr7 & [nu nr] & -> & Hi & H)]; [done|].
  apply inspect_nft_nat_exec in Hi. cbn beta iota in H.
  apply exec_pbind_ok in H as [(e & ? & _)|(tr8 & tr9 & [lc lr] & -> & Hg & H)]; [done|].
  apply inspect_legacy_nat_exec in Hg. cbn beta iota in H.
  apply exec_pbind_ok in H as [(e & ? & _)|(? & tr10 & m' & -> & [-> Ha] & H)]; [done|].
  symmetry in Ha.
  apply exec_pbind_ok in H as [(e & ? & _)|(tr11 & ? & [] & -> & Hc & [-> [= ->]])]; [done|].
  apply check_opposite_exec in Hc; [|naive_solver].
  exists nc, nu, nr, lc, lr, (listings tr6), (listings tr8), (listings tr11). cbn zeta. fold lt.
  cbn [app]. rewrite !app_nil_r, !listings_app, Hl4. by split_and!.
Qed.

(** What the run of the detection established about both frontends. *)
Lemma detect_listings tr m :
  exec DetectDockerXTFrontend tr (Ok m) →
  ∃ r0 rest, tr = ev (Σ := host_sig) (ReadFile tables_file) r0 :: rest ∧
    Forall (listing_ok m) (listings tr) ∧
    (∃ cmd out, (cmd, "nat", out) ∈ listings tr ∧ owner cmd = m ∧
       hasDockerNATChain out = true) ∧
    (∀ table, m = IptablesNFT → table = "nat" ∨ table = "filter" →
       hasTable (match r0 with Ok t => t | Err _ => "" end) table = true →
       ∃ out, ("iptables-legacy", table, out) ∈ listings tr).
Proof.
  intros (r0 & rest & nc & nu & nr & lc & lr & li & lg & lf & -> & Hl & Hown & Hi & Hg & Ha & Hc)%detect_parts.
  exists r0, rest. split; [done|]. set (lt := match r0 with Ok t => t | Err _ => "" end) in *.
  change (listings (ev (Σ := host_sig) (ReadFile tables_file) r0 :: rest)) with (listings rest). rewrite Hl.
  apply active_frontend_Ok in Ha.
  assert (owner "iptables-legacy" = IptablesLegacy) as Hol by done.
  assert (owner "iptables-legacy" ≠ IptablesNFT) as Hol2 by done.
  unfold stale_filter in Hc.
  destruct Ha as [(Hna & Hla & ->)|(Hna & Hla & ->)].
  - apply andb_true_iff in Hna as [Hnu Hnr].
    destruct Hi as [[-> _]|[-> ->]]; [done|].
    destruct Hc as [(_ & Hph & Hf)|[? _]]; [|done].
    split_and!.
    + constructor; [by cbn; rewrite Hown|]. apply Forall_app. split.
      * destruct Hg as [(_ & _ & ->)|(Hload & -> & ->)]; [done|]. rewrite Hload in *.
        constructor; [|done]. cbn. auto.
      * destruct Hf as [[_ ->]|(out & Hs & ->)]; [done|]. by repeat constructor.
    + exists nc, nr. split; [|done]. rewrite elem_of_app, list_elem_of_singleton. by left.
    + intros table _ [-> | ->] Ht.
      * destruct Hg as [(Hno & _)|(_ & -> & ->)]; [congruence|].
        exists lr. rewrite !elem_of_app, !list_elem_of_singleton. auto.
      * destruct Hf as [[? _]|(out & _ & ->)]; [congruence|].
        exists out. rewrite !elem_of_app, !list_elem_of_singleton. auto.
  - apply andb_true_iff in Hla as [Hload Hlr].
    destruct Hg as [(Hno & _)|(_ & -> & ->)]; [congruence|].
    destruct Hc as [(? & _)|(_ & Hf)]; [done|].
    split_and!.
    + apply Forall_app. split; [|apply Forall_app; split].
      * destruct Hi as [[_ ->]|[-> ->]]; [done|]. cbn in Hna.
        destruct Hf as [[? _]|(_ & Hph & _)]; [done|].
        constructor; [|done]. cbn. rewrite Hown. done.
      * by repeat constructor.
      * destruct Hf as [[_ ->]|(_ & _ & out & Hs & ->)]; [done|].
        constructor; [|done]. cbn. by rewrite Hown.
    + exists "iptables-legacy", lr. split; [|done].
      rewrite !elem_of_app, !list_elem_of_singleton. auto.
    + done.
Qed.

(** C12: [platformHook] is non-empty exactly when a rule that packets can reach
    from a built-in hook jumps into a chain of the platform, and then it is the
    text of such a rule; the worklist always drains. *)
Theorem platformHook_correct rules :
  (platformHook rules ≠ "" ↔ ∃ j, live_platform_jump (jumps_of rules) j) ∧
  (platformHook rules ≠ "" →
     ∃ j, live_platform_jump (jumps_of rules) j ∧ platformHook rules = jump_line j) ∧
  traverse (traverse_fuel rules) (jumps_of rules) builtin_chains ∅ = Some (platformHook rules).
Proof.
  pose proof (platformHook_traverse rules) as H.
  destruct (traverse_correct (jumps_of rules) (jumps_of_text rules) _ _ H). done.
Qed.

Example platformHook_indirect :
  platformHook (Join ["-N X"; "-N CATTLE_F"; "-A FORWARD -i eth0 -j X";
                      "-A X -p tcp -g CATTLE_F"; "-A X -j FORWARD"] nl)
  = "-A X -p tcp -g CATTLE_F".
Proof. vm_compute. reflexivity. Qed.

(** C19: when the detection settles on a frontend, it has seen Docker's nat chain
    in that frontend, every listing it took of the other frontend shows neither
    Docker's nat chain nor a live platform hook nor a FORWARD DROP policy, and a
    legacy table the kernel has loaded was never left unread. *)
Theorem DetectDockerXTFrontend_exclusive tr m :
  exec DetectDockerXTFrontend tr (Ok m) →
  (m = IptablesNFT ∨ m = IptablesLegacy) ∧
  Forall (listing_ok m) (listings tr) ∧
  (∃ cmd out, (cmd, "nat", out) ∈ listings tr ∧ owner cmd = m ∧
     hasDockerNATChain out = true) ∧
  ∃ r0, head tr = Some (ev (Σ := host_sig) (ReadFile tables_file) r0) ∧
    ∀ table, m = IptablesNFT → table = "nat" ∨ table = "filter" →
      hasTable (match r0 with Ok t => t | Err _ => "" end) table = true →
      ∃ out, ("iptables-legacy", table, out) ∈ listings tr.
Proof.
  intros H. destruct (detect_listings _ _ H) as (r0 & rest & Htr & Hall & Hex & Hl).
  split; [|split_and!; [done|done|exists r0; split; [by rewrite Htr|exact Hl]]].
  destruct Hex as (cmd & out & _ & <- & _). unfold owner.
  destruct (String.eqb cmd _); auto.
Qed.

(** *** Concrete hosts *)

(** A host that runs iptables-nft with Docker's chain; the kernel has loaded the
    legacy filter table, whose policy is [legacy_policy]. *)
Definition docker_nat : string :=
  Join ["-P PREROUTING ACCEPT"; "-N DOCKER";
        "-A PREROUTING -m addrtype --dst-type LOCAL -j DOCKER"] nl.

Definition nft_host (legacy_policy : string) : env host_sig := λ _ c,
  match c return hreply c with
  | DockerInfo => Ok (Some "iptables", "29.1.0")
  | ReadFile _ => Ok ("filter" ++ nl)%string
  | LookPath name => Ok name
  | Command argv _ =>
      if bool_decide (argv = ["iptables-nft"; "-t"; "nat"; "-S"]) then (docker_nat, None)
      else if bool_decide (argv = ["iptables-legacy"; "-t"; "filter"; "-S"])
      then (("-P FORWARD " ++ legacy_policy)%string, None)
      else if bool_decide (last argv = Some "--version")
      then (if bool_decide (head argv = Some "iptables-legacy")
            then ("iptables v1.8.9 (legacy)", None)
            else ("iptables v1.8.9 (nf_tables)", None))
      else ("", None)
  | c' => idle_reply c'
  end.

Lemma DetectDockerXTFrontend_exclusive_witness :
  ∃ tr, (∃ out, ("iptables-legacy", "filter", out) ∈ listings tr ∧ stale_filter out = false) ∧
    exec DetectDockerXTFrontend tr (Ok IptablesNFT) ∧ Forall (listing_ok IptablesNFT) (listings tr).
Proof.
  pose proof (run_exec (nft_host "ACCEPT") [] DetectDockerXTFrontend) as H.
  assert ((run (nft_host "ACCEPT") [] DetectDockerXTFrontend).2 = Ok IptablesNFT) as Hr
    by (vm_compute; reflexivity).
  rewrite Hr in H. eexists. split; [|split; [exact H|]].
  - exists "-P FORWARD ACCEPT". split; [|by vm_compute].
    apply (bool_decide_unpack _). vm_compute. exact I.
  - exact (proj1 (proj2 (DetectDockerXTFrontend_exclusive _ _ H))).
Defined.

Example Detect_stale_drop : ¬ is_Ok (run (nft_host "DROP") [] (Detect "")).2.
Proof. vm_compute. by intros [? ?]. Qed.

(** *** The resolved backend *)

Definition marker_of (m : string) : string :=
  if String.eqb m IptablesNFT then "nf_tables" else "legacy".

(** A binary that reported to be the frontend of mode [m]. *)
Definition verified (m binary : string) (tr : list hevent) : Prop :=
  ∃ out, ev (Σ := host_sig) (Command [binary; "--version"] "") (out, None) ∈ tr ∧
    Contains out (marker_of m) = true.

Lemma check_binary_exec marker binary tr :
  exec (check_binary marker binary) tr (Ok ()) →
  listings tr = [] ∧
  ∃ out, ev (Σ := host_sig) (Command [binary; "--version"] "") (out, None) ∈ tr ∧
    Contains out marker = true.
Proof.
  unfold check_binary, lookup, commandVersion. intros H. pexec_all.
  apply orb_false_iff in E as [E1 E2]. apply bool_decide_eq_false in E1.
  apply negb_false_iff in E2. destruct o; [by destruct E1|].
  split; [done|]. exists s. split; [|done].
  apply elem_of_app. right. by apply list_elem_of_here.
Qed.

Lemma ResolveBackend_exec requested driver tr b :
  exec (ResolveBackend requested driver) tr (Ok b) →
  listings tr = [] ∧
  ((driver = "nftables" ∧ b = {| Mode := NFTables; BackendCommand := "nft"; Restore := "" |} ∧
    (requested = "" ∨ requested = Auto ∨ requested = NFTables)) ∨
   (driver = "iptables" ∧ Mode b = requested ∧
    (requested = IptablesNFT ∨ requested = IptablesLegacy) ∧
    verified requested (BackendCommand b) tr ∧ verified requested (Restore b) tr)).
Proof.
  unfold ResolveBackend. set (req := if String.eqb requested "" then Auto else requested).
  assert (req = requested ∨ (requested = "" ∧ req = Auto)) as Hreq.
  { unfold req. destruct (String.eqb_spec requested ""); auto. }
  clearbody req. intros H.
  destruct (negb (String.eqb driver "iptables") && _) eqn:Hd; [by destruct H|].
  apply exec_pbind_ok in H as [(? & ? & _)|(? & tr1 & m & -> & [-> Hm] & H)]; [done|].
  assert (m = req ∨ (req = Auto ∧ m = NFTables ∧ driver = "nftables")) as Hm'.
  { destruct (String.eqb_spec req Auto) as [->|]; [|left; by injection Hm].
    destruct (String.eqb_spec driver "nftables"); [|done]. injection Hm as ->. auto. }
  cbn [app] in *. destruct (String.eqb_spec m NFTables) as [->|Hnm].
  - destruct (String.eqb_spec driver "nftables") as [->|]; [|by destruct H].
    cbn [negb] in H. unfold lookup in H. pexec_all. split; [done|]. left.
    split_and!; [done..|]. naive_solver.
  - destruct (String.eqb_spec driver "nftables") as [->|Hnd]; [by destruct H|].
    assert (driver = "iptables") as ->.
    { by destruct (String.eqb_spec driver "iptables"). }
    destruct Hm' as [->|(_ & _ & ?)]; [|done].
    apply exec_pbind_ok in H as [(? & ? & _)|(? & tr2 & [[cmd rst] mk] & -> & [-> Hk] & H)]; [done|].
    assert ((req = IptablesNFT ∨ req = IptablesLegacy) ∧ mk = marker_of req) as [Hr ->].
    { destruct (String.eqb_spec req IptablesNFT) as [->|];
        [injection Hk as -> -> ->; auto|].
      destruct (String.eqb_spec req IptablesLegacy) as [->|]; [|done].
      injection Hk as -> -> ->. auto. }
    cbn beta iota in H. unfold lookup in H.
    apply exec_bind in H as (tr3 & tr4 & c & -> & ->%exec_call1 & H).
    apply exec_bind in H as (tr5 & tr6 & r & -> & ->%exec_call1 & H).
    apply exec_pbind_ok in H as [(? & ? & _)|(tr7 & ? & [] & -> & H & [-> [= ->]])]; [done|].
    cbn [pforeach] in H. cbn [Mode BackendCommand Restore].
    apply exec_pbind_ok in H as [(? & ? & _)|(tr8 & tr9 & [] & -> & H1 & H)]; [done|].
    apply exec_pbind_ok in H as [(? & ? & _)|(tr10 & ? & [] & -> & H2 & [-> _])]; [done|].
    apply check_binary_exec in H1 as (Hl1 & o1 & Hin1 & Hc1).
    apply check_binary_exec in H2 as (Hl2 & o2 & Hin2 & Hc2).
    split. { rewrite !listings_app, Hl1, Hl2. done. }
    right. destruct Hreq as [->|[_ ->]]; [|naive_solver].
    split_and!; [done|done|done|..].
    + exists o1. split; [|done]. rewrite !elem_of_app. auto 10.
    + exists o2. split; [|done]. rewrite !elem_of_app. auto 10.
Qed.

(** A listing that shows nothing of a previous xtables firewall. *)
Definition native_ok (l : string * string * string) : Prop :=
  let '(_, table, out) := l in
  platformHook out = "" ∧
  (table = "filter" → hasForwardDropPolicy out = false) ∧
  (table = "nat" → hasDockerNATChain out = false).

Lemma checkPreviousXTRules_exec cmd table tr :
  exec (checkPreviousXTRules cmd table) tr (Ok ()) →
  ∃ out, listings tr = [(cmd, table, out)] ∧ native_ok (cmd, table, out).
Proof.
  unfold checkPreviousXTRules, inspectRules. intros H. pexec_all.
  exists s. split; [done|].
  apply negb_false_iff, String.eqb_eq in E0. cbn.
  split_and!; [done|intros ->|intros ->].
  - by rewrite String.eqb_refl in E.
  - by rewrite String.eqb_refl in E1.
Qed.

(** The previous rules of one frontend, table by table. *)
Lemma previous_rules_exec cmd (loaded : string → bool) tables tr :
  exec (pforeach (λ table, if loaded table then checkPreviousXTRules cmd table
                           else Ret (Ok ())) tables) tr (Ok ()) →
  Forall native_ok (listings tr) ∧
  ∀ t, t ∈ tables → loaded t = true → ∃ out, (cmd, t, out) ∈ listings tr.
Proof.
  revert tr. induction tables as [|t ts IH]; intros tr; cbn [pforeach].
  { intros [-> _]. split; [by constructor|]. intros t Ht. by apply not_elem_of_nil in Ht. }
  intros [(? & ? & _)|(tr1 & tr2 & [] & -> & H1 & H2)]%exec_pbind_ok; [done|].
  destruct (IH _ H2) as [Hall Hex]. rewrite listings_app, Forall_app.
  assert (Forall native_ok (listings tr1) ∧
    (loaded t = true → ∃ out, (cmd, t, out) ∈ listings tr1)) as [Ha He].
  { destruct (loaded t) eqn:Hl.
    - apply checkPreviousXTRules_exec in H1 as (out & -> & ?). split; [by constructor|].
      intros _. exists out. apply list_elem_of_here.
    - destruct H1 as [-> _]. split; [by constructor|done]. }
  split; [done|]. intros u [->|Hu]%elem_of_cons Hlu.
  - destruct (He Hlu) as [out ?]. exists out. apply elem_of_app. auto.
  - destruct (Hex _ Hu Hlu) as [out ?]. exists out. apply elem_of_app. auto.
Qed.

(** The tables the kernel reported, when the file could be read. *)
Definition loaded_tables (tr : list hevent) : string :=
  match tr with
  | existT (ReadFile _) (Ok t) :: _ => t
  | _ => ""
  end.

Lemma CheckNativeMigration_exec tr :
  exec CheckNativeMigration tr (Ok ()) →
  Forall native_ok (listings tr) ∧
  ∀ table, table = "filter" ∨ table = "nat" → hasTable (loaded_tables tr) table = true →
    ∃ out, ("iptables-legacy", table, out) ∈ listings tr.
Proof.
  unfold CheckNativeMigration. intros H.
  apply exec_bind in H as (tr1 & tr2 & r0 & -> & H1%exec_call1 & H). subst tr1.
  change (listings ([ev (Σ := host_sig) (ReadFile tables_file) r0] ++ tr2)) with (listings tr2).
  apply exec_pbind_ok in H as [(e & ? & _)|(? & tr3 & lt & -> & [-> Hlt] & H)]; [done|].
  replace (loaded_tables _) with lt.
  2:{ cbn. destruct r0 as [t|e]; [by injection Hlt|].
      by destruct (is_not_exist e); [injection Hlt|]. }
  apply exec_pbind_ok in H as [(e & ? & _)|(tr4 & tr5 & [nc u] & -> & Hn & H)]; [done|].
  apply exec_wrapped in Hn as ([[nc' u']|] & Hn & Heq); [|done]. injection Heq as <- <-.
  apply nftInspection_exec in Hn as [Hl4 _]. cbn beta iota in H.
  apply exec_pbind_ok in H as [(e & ? & _)|(tr6 & tr7 & [] & -> & Hi & H)]; [done|].
  assert (Forall native_ok (listings tr6)) as H6.
  { destruct u; cbn [negb] in Hi; [by destruct Hi as [-> _]|].
    by apply (previous_rules_exec nc (λ _, true)) in Hi as [? _]. }
  cbn [app]. rewrite !listings_app, Hl4, !Forall_app.
  destruct (negb (hasTable lt "filter") && negb (hasTable lt "nat")) eqn:Hno.
  { destruct H as [-> _]. apply andb_true_iff in Hno as [?%negb_true_iff ?%negb_true_iff].
    split; [by repeat constructor|]. intros t [-> | ->]; congruence. }
  apply exec_pbind_ok in H as [(e & ? & _)|(tr8 & tr9 & lc & -> & Hc & H)]; [done|].
  apply exec_wrapped in Hc as ([c'|] & Hc & Heq); [|done]. injection Heq as <-.
  apply legacyInspection_exec in Hc as [Hl8 ->].
  apply (previous_rules_exec _ (hasTable lt)) in H as [H9 Hex].
  rewrite !listings_app, Hl8. split; [by repeat constructor|].
  intros t Ht Hlt'. destruct (Hex t) as [out ?]; [|done|].
  - destruct Ht as [-> | ->]; [apply list_elem_of_here|].
    apply list_elem_of_further, list_elem_of_here.
  - exists out. rewrite !elem_of_app. auto.
Qed.

Lemma CheckDockerBridgeMark_exec tr :
  exec CheckDockerBridgeMark tr (Ok ()) →
  ∃ out, tr = [ev (Σ := host_sig) (Command ["nft"; "list"; "table"; "ip"; "docker-bridges"] "")
                 (out, None)] ∧ dockerBridgeMark out = true.
Proof.
  unfold CheckDockerBridgeMark, inspectRules. intros H. pexec_all.
  apply negb_false_iff in E. by exists s.
Qed.

(** What the program knows about the host once a backend is selected. *)
Definition agrees_with_host (b : Backend) (tr : list hevent) : Prop :=
  if String.eqb (Mode b) NFTables then
    Forall native_ok (listings tr) ∧
    ∃ out, ev (Σ := host_sig) (Command ["nft"; "list"; "table"; "ip"; "docker-bridges"] "")
             (out, None) ∈ tr ∧ dockerBridgeMark out = true
  else
    Forall (listing_ok (Mode b)) (listings tr) ∧
    (∃ cmd out, (cmd, "nat", out) ∈ listings tr ∧ owner cmd = Mode b ∧
       hasDockerNATChain out = true) ∧
    verified (Mode b) (BackendCommand b) tr ∧ verified (Mode b) (Restore b) tr.

Lemma verified_app m bin tr1 tr2 : verified m bin tr2 → verified m bin (tr1 ++ tr2).
Proof. intros (out & ? & ?). exists out. split; [apply elem_of_app; auto|done]. Qed.

Lemma verified_app_l m bin tr1 tr2 : verified m bin tr1 → verified m bin (tr1 ++ tr2).
Proof. intros (out & ? & ?). exists out. split; [apply elem_of_app; auto|done]. Qed.

(** The frontend of the request and of the host, before the backend is built. *)
Lemma SelectDockerXTMode_Ok requested active m :
  SelectDockerXTMode requested active = Ok m →
  m = active ∧ (requested = "" ∨ requested = Auto ∨ requested = m).
Proof.
  unfold SelectDockerXTMode.
  destruct (String.eqb_spec requested "") as [->|]; [intros [= <-]; auto|].
  destruct (String.eqb_spec requested Auto) as [->|]; [intros [= <-]; auto|].
  cbn [orb]. destruct (String.eqb_spec requested active) as [->|]; [|done].
  intros [= <-]. auto.
Qed.

(** C9: a selected backend is the one Docker itself runs on: native nftables
    exactly when Docker reports it, otherwise the xtables frontend that holds
    Docker's chain; the configured mode is automatic or equal to it; every listing
    of another firewall that was taken is quiet, and for nftables Docker accepts the
    platform's packet mark, for xtables its nat chain was listed. *)
Theorem Detect_matches_docker requested tr b :
  exec (Detect requested) tr (Ok b) →
  ∃ reported version driver rest,
    tr = ev (Σ := host_sig) DockerInfo (Ok (reported, version)) :: rest ∧
    dockerFirewallDriver (default "" reported) version = Ok driver ∧
    (driver = "iptables" ∨ driver = "nftables") ∧
    (Mode b = NFTables ↔ driver = "nftables") ∧
    (requested = "" ∨ requested = Auto ∨ requested = Mode b) ∧
    agrees_with_host b tr.
Proof.
  unfold Detect. intros H.
  apply exec_pbind_ok in H as [(? & ? & _)|(tr1 & tr2 & [rep ver] & -> & H1 & H)]; [done|].
  apply exec_wrapped in H1 as ([[rep' ver']|] & H1%exec_call1 & Heq); [|done].
  injection Heq as <- <-. subst tr1. cbn beta iota in H.
  apply exec_pbind_ok in H as [(? & ? & _)|(? & tr3 & driver & -> & [-> Hd] & H)]; [done|].
  apply exec_pbind_ok in H as [(? & ? & _)|(tr4 & tr5 & req & -> & Hq & H)]; [done|].
  apply exec_pbind_ok in H as [(? & ? & _)|(tr6 & tr7 & b' & -> & Hb & H)]; [done|].
  apply exec_pbind_ok in H as [(? & ? & _)|(tr8 & ? & [] & -> & Hm & [-> [= <-]])]; [done|].
  apply ResolveBackend_exec in Hb as [Hl6 [(-> & -> & Hreq)|(-> & Hbm & Hreq & Hv1 & Hv2)]].
  - destruct Hq as [-> [= ->]].
    change (String.eqb (Mode _) NFTables) with true in Hm. cbn iota in Hm.
    apply exec_pbind_ok in Hm as [(? & ? & _)|(tr9 & tr10 & [] & -> & Hn & Hk)]; [done|].
    apply CheckNativeMigration_exec in Hn as [Hn _].
    apply CheckDockerBridgeMark_exec in Hk as (out & -> & Hout).
    eexists rep, ver, "nftables", _. split; [reflexivity|].
    split; [done|]. split; [by right|]. split; [done|]. split; [naive_solver|].
    unfold agrees_with_host. change (String.eqb (Mode _) NFTables) with true. cbn iota.
    cbn [app]. change (listings (?e :: ?l)) with (listings l).
    rewrite !listings_app, Hl6.
    split; [by repeat first [done|apply Forall_app; split|constructor]|].
    exists out. split; [|done]. rewrite !elem_of_cons, !elem_of_app, list_elem_of_singleton. auto 10.
  - change (String.eqb "iptables" "iptables") with true in Hq. cbn iota in Hq.
    apply exec_pbind_ok in Hq as [(? & ? & _)|(tr9 & ? & m & -> & Hx & [-> Hs])]; [done|].
    symmetry in Hs. apply SelectDockerXTMode_Ok in Hs as [-> Hs].
    apply detect_listings in Hx as (r0 & rest & Htr & Hall & Hex & _).
    rewrite Hbm in *. destruct (String.eqb_spec m NFTables) as [->|Hne].
    { by destruct Hreq. }
    destruct Hm as [-> _]. eexists rep, ver, "iptables", _. split; [reflexivity|].
    split_and!; [done|auto|done|done|].
    unfold agrees_with_host. rewrite Hbm. destruct (String.eqb_spec m NFTables); [done|].
    cbn [app]. rewrite !app_nil_r.
    change (listings (?e :: ?l)) with (listings l). rewrite listings_app, Hl6, app_nil_r.
    split_and!; [done|done|..]; apply (verified_app _ _ [_]), verified_app; done.
Qed.

Lemma Detect_matches_docker_witness :
  ∃ tr b, exec (Detect "auto") tr (Ok b) ∧ Mode b = IptablesNFT ∧ agrees_with_host b tr.
Proof.
  pose proof (run_exec (nft_host "ACCEPT") [] (Detect "auto")) as H.
  assert ((run (nft_host "ACCEPT") [] (Detect "auto")).2 =
    Ok {| Mode := IptablesNFT; BackendCommand := "iptables-nft";
          Restore := "iptables-nft-restore" |}) as Hr by (vm_compute; reflexivity).
  rewrite Hr in H. eexists _, _. split; [exact H|]. split; [reflexivity|].
  destruct (Detect_matches_docker _ _ _ H) as (? & ? & ? & ? & _ & _ & _ & _ & _ & Ha). exact Ha.
Defined.

(** *** The legacy tools stay untouched *)

(** Running a legacy tool loads the legacy tables into the kernel. *)
Definition no_legacy_tool (c : hcall) : Prop :=
  match c with
  | LookPath n | Command (n :: _) _ => n ≠ "iptables-legacy"
  | _ => True
  end.

(** The kernel reports no loaded legacy table. *)
Definition no_legacy_table (e : hevent) : Prop :=
  match e with
  | existT (ReadFile _) (Ok t) => hasTable t "nat" = false ∧ hasTable t "filter" = false
  | _ => True
  end.

#[export] Instance no_legacy_table_dec e : Decision (no_legacy_table e).
Proof. destruct e as [[] r]; try (left; exact I). destruct r; [apply _|left; exact I]. Defined.

Abbreviation legacy_free Q p := (wp (Σ := host_sig) no_legacy_table no_legacy_tool Q p).

Lemma legacy_free_call c (Q : hreply c → Prop) :
  no_legacy_tool c → (∀ r, no_legacy_table (ev (Σ := host_sig) c r) → Q r) →
  legacy_free Q (call1 c).
Proof. intros Hc HQ. split; [done|]. exact HQ. Qed.

Lemma nftInspection_legacy_free :
  legacy_free (λ r, ∀ c u, r = Ok (c, u) → c ≠ "iptables-legacy") nftInspectionCommand.
Proof.
  unfold nftInspectionCommand, lookup, commandVersion.
  repeat match goal with
  | |- wp _ _ _ (mbind _ _) => apply wp_bind
  | |- wp _ _ _ (call1 _) => apply legacy_free_call; [done|intros ? _]
  | |- wp _ _ _ (let '(_, _) := ?p in _) => destruct p
  | |- wp _ _ _ (match ?x with _ => _ end) => destruct x
  | |- wp _ _ _ (Ret _) => cbn; intros ?? [=]; subst; done
  end.
Qed.

Lemma inspect_legacy_free cmd args (Q : string * option error → Prop) :
  cmd ≠ "iptables-legacy" → (∀ r, Q r) → legacy_free Q (inspectRules cmd args).
Proof. intros Hc HQ. apply legacy_free_call; [done|]. intros r _. apply HQ. Qed.

Lemma inspect_nft_nat_legacy_free c u :
  c ≠ "iptables-legacy" → legacy_free (λ _, True) (inspect_nft_nat c u).
Proof.
  intros Hc. unfold inspect_nft_nat. destruct u; [done|].
  apply wp_bind, inspect_legacy_free; [done|]. intros [out [e|]]; [by destruct (negb _)|done].
Qed.

Lemma check_opposite_legacy_free active lt lc lr nc nr nu :
  hasTable lt "nat" = false → hasTable lt "filter" = false → nc ≠ "iptables-legacy" →
  legacy_free (λ _, True) (check_opposite active lt lc lr nc nr nu).
Proof.
  intros Hn Hf Hc. unfold check_opposite. rewrite Hn, Hf.
  destruct (String.eqb active IptablesNFT); [done|]. destruct nu; [done|]. cbn [negb].
  destruct (negb _); [done|]. apply wp_bind, inspect_legacy_free; [done|].
  intros [out [e|]]; [done|by destruct (stale_filter out)].
Qed.

(** The text of the kernel's table list, from its reply. *)
Lemma legacy_tables_free msg r lt :
  no_legacy_table (ev (Σ := host_sig) (ReadFile tables_file) r) →
  match r with Ok t => Ok t | Err e => if is_not_exist e then Ok "" else Err (Wrapf msg e) end
  = Ok lt →
  hasTable lt "nat" = false ∧ hasTable lt "filter" = false.
Proof.
  destruct r as [t|e]; cbn; [by intros ? [= ->]|].
  intros _. destruct (is_not_exist e); [|done]. by intros [= <-].
Qed.

Lemma DetectDockerXT_legacy_free :
  legacy_free (λ r, ∀ m, r = Ok m → m = IptablesNFT) DetectDockerXTFrontend.
Proof.
  unfold DetectDockerXTFrontend. apply wp_bind, legacy_free_call; [done|]. intros r0 Hr0.
  apply wp_pbind_ok. destruct (match r0 with Ok _ => _ | Err _ => _ end) as [lt|] eqn:Hlt; [|done].
  apply (legacy_tables_free _ _ _ Hr0) in Hlt as [Hn Hf].
  apply wp_pbind_ok, wp_wrapped. eapply wp_mono; [|apply nftInspection_legacy_free].
  intros [[nc u]|e] Hnc; cbn; [|done]. specialize (Hnc _ _ eq_refl).
  apply wp_pbind_ok. eapply wp_mono; [|by apply inspect_nft_nat_legacy_free].
  intros [[nu nr]|e] _; [|done].
  cbn beta iota. apply wp_pbind_ok. rewrite Hn. cbn [inspect_legacy_nat negb andb].
  apply wp_ret. destruct (active_frontend _ _) as [m|] eqn:Ha; [|done].
  apply active_frontend_Ok in Ha as [(_ & _ & ->)|(_ & ? & _)]; [|done].
  apply wp_pbind_ok. eapply wp_mono; [|by apply check_opposite_legacy_free].
  intros [[]|e] _; [|done]. by intros m [= <-].
Qed.

Lemma checkPrevious_legacy_free cmd table :
  cmd ≠ "iptables-legacy" → legacy_free (λ _, True) (checkPreviousXTRules cmd table).
Proof.
  intros Hc. apply wp_bind, inspect_legacy_free; [done|]. intros [out [e|]]; [done|].
  repeat case_match; done.
Qed.

Lemma CheckNativeMigration_legacy_free : legacy_free (λ _, True) CheckNativeMigration.
Proof.
  unfold CheckNativeMigration. apply wp_bind, legacy_free_call; [done|]. intros r0 Hr0.
  apply wp_pbind_ok. destruct (match r0 with Ok _ => _ | Err _ => _ end) as [lt|] eqn:Hlt; [|done].
  apply (legacy_tables_free _ _ _ Hr0) in Hlt as [Hn Hf].
  apply wp_pbind_ok, wp_wrapped. eapply wp_mono; [|apply nftInspection_legacy_free].
  intros [[nc u]|e] Hnc; [|done]. specialize (Hnc _ _ eq_refl).
  rewrite Hn, Hf. apply wp_pbind_ok. destruct u; cbn [negb andb]; [done|].
  cbn [pforeach].
  apply wp_pbind_ok. eapply wp_mono; [|by apply checkPrevious_legacy_free]. intros [[]|e] _; [|done].
  apply wp_pbind_ok. eapply wp_mono; [|by apply checkPrevious_legacy_free]. by intros [[]|e] _.
Qed.

Lemma check_binary_legacy_free marker b :
  b ≠ "iptables-legacy" → legacy_free (λ _, True) (check_binary marker b).
Proof.
  intros Hb. apply wp_pbind_ok, wp_wrapped, legacy_free_call; [done|]. intros [p|e] _; [|done].
  apply wp_bind, legacy_free_call; [done|]. intros [out err] _. by case_match.
Qed.

Lemma ResolveBackend_legacy_free requested driver :
  requested ≠ IptablesLegacy → legacy_free (λ _, True) (ResolveBackend requested driver).
Proof.
  intros Hreq. unfold ResolveBackend.
  assert (∀ m, (if String.eqb (if String.eqb requested "" then Auto else requested) Auto
    then if String.eqb driver "nftables" then Ok NFTables
         else Err (Errorf "Docker's active iptables frontend must be inspected")
    else Ok (if String.eqb requested "" then Auto else requested)) = Ok m → m ≠ IptablesLegacy) as Hm.
  { intros m. destruct (String.eqb requested ""), (String.eqb driver "nftables");
      try destruct (String.eqb _ Auto); intros [= <-]; done. }
  destruct (_ && _); [done|]. apply wp_pbind_ok.
  destruct (if String.eqb _ Auto then _ else _) as [m|]; [|done]. specialize (Hm m eq_refl).
  apply wp_ret. destruct (String.eqb m NFTables).
  { destruct (negb _); [done|]. apply wp_pbind_ok, wp_wrapped, legacy_free_call; [done|].
    by intros [p|e] _. }
  destruct (String.eqb driver "nftables"); [done|]. apply wp_pbind_ok, wp_ret.
  destruct (String.eqb m IptablesNFT).
  2:{ by destruct (String.eqb_spec m IptablesLegacy). }
  apply wp_bind, legacy_free_call; [done|]. intros c _.
  apply wp_bind, legacy_free_call; [done|]. intros r _.
  apply wp_pbind_ok. cbn [pforeach].
  apply wp_pbind_ok. eapply wp_mono; [|apply check_binary_legacy_free; by destruct c].
  intros [[]|e] _; [|done].
  apply wp_pbind_ok. eapply wp_mono; [|apply check_binary_legacy_free; by destruct r].
  by intros [[]|e] _.
Qed.

Lemma Detect_legacy_free requested :
  requested ≠ IptablesLegacy → legacy_free (λ _, True) (Detect requested).
Proof.
  intros Hreq. unfold Detect. apply wp_pbind_ok, wp_wrapped, legacy_free_call; [done|].
  intros [[rep ver]|e] _; [|done]. apply wp_pbind_ok.
  destruct (dockerFirewallDriver _ _) as [driver|]; [|done].
  apply wp_pbind_ok.
  assert (legacy_free (λ r, ∀ m, r = Ok m → m ≠ IptablesLegacy)
    (if String.eqb driver "iptables"
     then pbind_ok DetectDockerXTFrontend (λ active, Ret (SelectDockerXTMode requested active))
     else Ret (Ok requested))) as Hsel.
  { destruct (String.eqb driver "iptables"); [|by intros m [= <-]].
    apply wp_pbind_ok. eapply wp_mono; [|apply DetectDockerXT_legacy_free].
    intros [m|e] Hm; [|done]. rewrite (Hm m eq_refl). intros m' Hm'.
    apply SelectDockerXTMode_Ok in Hm' as [-> _]. done. }
  eapply wp_mono; [|exact Hsel]. intros [m|e] Hm; [|done]. specialize (Hm m eq_refl).
  apply wp_pbind_ok. eapply wp_mono; [|by apply ResolveBackend_legacy_free].
  intros [b|e] _; [|done]. apply wp_pbind_ok.
  destruct (String.eqb (Mode b) NFTables); [|done].
  apply wp_pbind_ok. eapply wp_mono; [|apply CheckNativeMigration_legacy_free].
  intros [[]|e] _; [|done]. apply wp_bind, inspect_legacy_free; [done|].
  intros [out [e|]]; [done|]. by destruct (negb _).
Qed.

(** C28: on a host whose kernel has no legacy table loaded the detection never
    looks up or runs a legacy tool, which would load the legacy tables, unless
    the operator asked for that frontend; this holds on every path, failing
    ones included. *)
Theorem Detect_keeps_legacy_unloaded requested tr r :
  requested ≠ IptablesLegacy →
  exec (Detect requested) tr r →
  Forall no_legacy_table tr →
  Forall (λ e, no_legacy_tool (projT1 e)) tr.
Proof.
  intros Hreq H Htr. exact (proj1 (wp_exec _ _ _ _ _ _ (Detect_legacy_free _ Hreq) H Htr)).
Qed.

Definition nft_only_host : env host_sig := λ h c,
  match c return hreply c with
  | ReadFile _ => Err ErrNotExist
  | c' => nft_host "ACCEPT" h c'
  end.

Lemma Detect_keeps_legacy_unloaded_witness :
  ∃ tr b, exec (Detect "") tr (Ok b) ∧ 10 ≤ length tr ∧
    Forall (λ e, no_legacy_tool (projT1 e)) tr.
Proof.
  pose proof (run_exec nft_only_host [] (Detect "")) as H.
  assert ((run nft_only_host [] (Detect "")).2 =
    Ok {| Mode := IptablesNFT; BackendCommand := "iptables-nft";
          Restore := "iptables-nft-restore" |}) as Hr by (vm_compute; reflexivity).
  rewrite Hr in H. eexists _, _. split; [exact H|]. split; [vm_compute; lia|].
  apply (Detect_keeps_legacy_unloaded "" _ _ ltac:(discriminate) H).
  apply (bool_decide_unpack _). vm_compute. exact I.
Defined.

(** A binary that is not installed is reported by [exec.LookPath] with
    [exec.ErrNotFound], not with [os.ErrNotExist]: the fallback to the generic
    iptables is then unreachable. *)
Lemma nftInspection_no_fallback :
  (run (Σ := host_sig) (λ _ c, match c return hreply c with
               | LookPath "iptables" => Ok "/usr/sbin/iptables"
               | LookPath _ => Err (ErrSentinel "exec.ErrNotFound")
               | Command ("iptables" :: _) _ => ("iptables v1.8.9 (nf_tables)", None)
               | c' => idle_reply c'
               end) [] nftInspectionCommand).2
  = Err (Wrapf "find iptables-nft" (ErrSentinel "exec.ErrNotFound")).
Proof. vm_compute. reflexivity. Qed.
