(* ===== verification/PortRules.v ===== *)
(** * The rules of the published host ports (hostports/watcher.go)

    The desired rule set, its validation, the discovery of a network's managed
    bridge and the iptables-restore input rendered from a rule set. A line of
    the input is the list of its words, joined by one space as the code's
    formats do. *)
From S2P Require Import Prelude GoStrings GoNet Metadata World HostLabel.

(** ** The rule set *)

Module PortRule.
Record t := Make {
  Bridge : string; SourceIP : string; SourcePort : string;
  TargetIP : string; TargetPort : string; Protocol : string; MasqueradeDNAT : bool;
}.
#[global] Instance eq_dec : EqDecision t.
Proof. solve_decision. Defined.
End PortRule.
Export PortRule (Bridge, SourceIP, SourcePort, TargetIP, TargetPort, Protocol, MasqueradeDNAT).

(** The two optional maps and the peer slices can be nil, which
    [reflect.DeepEqual] tells from empty ones. *)
Record ruleSet := {
  Ports : gmap string PortRule.t;
  ForwardSubnets : gmap string string;
  ForwardBridges : gmap string string;
  ForwardPeers : option (gmap string (option (list string)));
  SharedIngress : option (gmap string bool);
  RouteLocalnetBridges : gmap string bool;
}.

#[export] Instance ruleSet_eq_dec : EqDecision ruleSet.
Proof. solve_decision. Defined.

Definition empty_rules : ruleSet := {|
  Ports := ∅; ForwardSubnets := ∅; ForwardBridges := ∅; ForwardPeers := None;
  SharedIngress := None; RouteLocalnetBridges := ∅ |}.

(** ** Validation *)

Definition validPort (port : string) : bool :=
  if String.eqb port "" then false else
  match Atoi port with
  | Some n => (0 <? n)%Z && (n <=? 65535)%Z
  | None => false
  end.

Definition bridge_byte (a : ascii) : bool :=
  is_alpha a || is_digit a || Ascii.eqb a "_" || Ascii.eqb a "-" || Ascii.eqb a ".".

Definition validateBridgeName (bridge : string) : result () :=
  if String.eqb bridge "" || (15 <? String.length bridge)
  then Err (Errorf "invalid bridge name")
  else if negb (all_bytes bridge_byte bridge) then Err (Errorf "invalid bridge name")
  else Ok ().

Definition valid_ipv4 (address : string) : bool :=
  match ParseAddr address with Some ip => Is4 ip | None => false end.

Definition valid_ipv4_subnet (subnet : string) : bool :=
  match ParsePrefix subnet with
  | Some p => Is4 (pfx_addr p) && negb (pfx_bits p =? 0)%Z
  | None => false
  end.

Definition valid_protocol (p : string) : bool := String.eqb p "tcp" || String.eqb p "udp".

Definition validatePortRule (rule : PortRule.t) : result () :=
  _ ← (if String.eqb (Bridge rule) "" then Ok () else validateBridgeName (Bridge rule));
  _ ← result_iter (λ a, if valid_ipv4 a then Ok ()
                        else Err (Errorf "invalid IPv4 hostport address"))
        [SourceIP rule; TargetIP rule];
  if negb (validPort (SourcePort rule)) || negb (validPort (TargetPort rule))
     || negb (valid_protocol (Protocol rule))
  then Err (Errorf "invalid hostport protocol or port")
  else Ok ().

Section validate.
Context `{!MapRange}.

Definition check_forward (rules : ruleSet) (entry : string * string) : result () :=
  if negb (valid_ipv4_subnet entry.2) then Err (Errorf "invalid IPv4 forward subnet")
  else wrap_err "forward network" (validateBridgeName (zget "" (ForwardBridges rules) entry.1)).

Definition check_forward_bridge (rules : ruleSet) (uuid : string) : result () :=
  if String.eqb (zget "" (ForwardSubnets rules) uuid) ""
  then Err (Errorf "forward bridge network has no local subnet") else Ok ().

Definition check_shared (rules : ruleSet) (entry : string * bool) : result () :=
  if entry.2 && (String.eqb (zget "" (ForwardSubnets rules) entry.1) "" ||
                 String.eqb (zget "" (ForwardBridges rules) entry.1) "")
  then Err (Errorf "shared ingress network has no managed bridge and subnet") else Ok ().

Definition check_peers (rules : ruleSet) (entry : string * option (list string)) : result () :=
  if String.eqb (zget "" (ForwardSubnets rules) entry.1) ""
  then Err (Errorf "forward peer network has no local subnet")
  else if String.eqb (zget "" (ForwardBridges rules) entry.1) ""
  then Err (Errorf "forward peer network has no managed bridge")
  else result_iter (λ peer, if valid_ipv4_subnet peer then Ok ()
                            else Err (Errorf "invalid IPv4 forward peer subnet"))
         (default [] entry.2).

Definition validateRuleSet (rules : ruleSet) : result () :=
  _ ← result_iter (λ e, validatePortRule e.2) (range_map 0 (Ports rules));
  _ ← result_iter (check_forward rules) (range_map 1 (ForwardSubnets rules));
  _ ← result_iter (λ e, check_forward_bridge rules e.1) (range_map 2 (ForwardBridges rules));
  _ ← result_iter (check_shared rules) (range_map 3 (default ∅ (SharedIngress rules)));
  _ ← result_iter (check_peers rules) (range_map 4 (default ∅ (ForwardPeers rules)));
  result_iter (λ e, wrap_err "route_localnet" (validateBridgeName e.1))
    (range_map 5 (RouteLocalnetBridges rules)).
End validate.

(** ** Port definitions *)

Definition parsePortRule (bridge hostIP targetIP portDef : string) : PortRule.t * bool :=
  let zero := PortRule.Make "" "" "" "" "" "" false in
  match Split portDef ":" with
  | [sourceIP; sourcePort; targetPort] =>
      let '(targetPort, proto) :=
        match Split targetPort "/" with
        | [port; proto] => (port, proto)
        | _ => (targetPort, "tcp")
        end in
      if negb (validPort sourcePort) || negb (validPort targetPort)
         || negb (valid_protocol proto) then (zero, false) else
      let rule := PortRule.Make bridge sourceIP sourcePort targetIP targetPort proto false in
      (rule, ok (validatePortRule rule))
  | _ => (zero, false)
  end.

(** ** The managed bridge of a network *)

Record bridgeNetworkConfig := {
  CfgBridge : string; CfgSubnet : string; ExternalGateway : bool; CfgSharedIngress : bool;
}.

#[export] Instance bridgeNetworkConfig_eq_dec : EqDecision bridgeNetworkConfig.
Proof. solve_decision. Defined.

Definition zero_bridge : bridgeNetworkConfig :=
  {| CfgBridge := ""; CfgSubnet := ""; ExternalGateway := false; CfgSharedIngress := false |}.

Definition isBridgeCNIType (cniType : string) : bool :=
  String.eqb cniType "pasture-bridge" || String.eqb cniType "rancher-bridge".

(** The candidate of one CNI file. *)
Definition bridge_candidate (props : gmap string Value) : result bridgeNetworkConfig :=
  let bridge := as_string (props !! "bridge") in
  let bridgeSubnet := as_string (props !! "bridgeSubnet") in
  let externalGateway := as_bool (props !! "skipBridgeConfigureIP") in
  let hostNat := as_bool (props !! "hostNat") in
  let derived := hostNat && negb (String.eqb bridgeSubnet "") && negb (IsReference bridgeSubnet) in
  sharedIngress ← match props !! "allowSharedSubnetIngress" with
                  | None => Ok derived
                  | Some (VBool value) => Ok value
                  | Some _ => Err (Errorf "non-boolean allowSharedSubnetIngress")
                  end;
  if sharedIngress && IsReference bridgeSubnet
  then Err (Errorf "cannot combine shared ingress with a host-label subnet")
  else Ok {| CfgBridge := bridge; CfgSubnet := bridgeSubnet;
             ExternalGateway := externalGateway; CfgSharedIngress := sharedIngress |}.

Definition bridge_step (conf : gmap string Value) (found : option bridgeNetworkConfig)
    (key : string) : result (option bridgeNetworkConfig) :=
  let props := as_map (conf !! key) in
  if negb (isBridgeCNIType (as_string (props !! "type"))) then Ok found else
  candidate ← bridge_candidate props;
  match found with
  | None => Ok (Some candidate)
  | Some result =>
      if bool_decide (candidate = result) then Ok found
      else Err (Errorf "conflicting managed bridge entries")
  end.

Definition bridgeConfigForNetwork (network : Network.t) : result bridgeNetworkConfig :=
  let conf := cniConfig network in
  found ← result_fold (bridge_step conf) None (sorted_keys conf);
  Ok (default zero_bridge found).

(** ** Orders of the rendered rules *)

Definition sortedEnabledBridges (bridges : gmap string bool) : list string :=
  filter (λ b, zget false bridges b = true) (sorted_keys bridges).

Record forwardNetwork := { NetUUID : string; NetBridge : string; NetSubnet : string }.

(** The key of a (bridge, subnet) pair: both texts with a NUL between them. *)
Definition identity (bridge subnet : string) : string := bridge +:+ String "000" subnet.

Fixpoint forward_from (rules : ruleSet) (keys : list string) (seen : gset string)
    : list forwardNetwork :=
  match keys with
  | [] => []
  | key :: keys' =>
      let bridge := zget "" (ForwardBridges rules) key in
      let subnet := zget "" (ForwardSubnets rules) key in
      if String.eqb bridge "" || String.eqb subnet "" || bool_decide (identity bridge subnet ∈ seen)
      then forward_from rules keys' seen
      else {| NetUUID := key; NetBridge := bridge; NetSubnet := subnet |}
           :: forward_from rules keys' ({[identity bridge subnet]} ∪ seen)
  end.

Definition sortedForwardNetworks (rules : ruleSet) : list forwardNetwork :=
  forward_from rules (sorted_keys (ForwardSubnets rules)) ∅.

Definition sortedSharedIngressNetworks (rules : ruleSet) : list forwardNetwork :=
  filter (λ n, zget false (default ∅ (SharedIngress rules)) (NetUUID n) = true)
    (sortedForwardNetworks rules).

Record forwardPair := { Peer : string; Local : string; PairBridge : string }.

Definition sortedForwardPeers (rules : ruleSet) : list forwardPair :=
  let peersOf := default ∅ (ForwardPeers rules) in
  key ← sorted_keys peersOf;
  peer ← sort_strings (default [] (zget None peersOf key));
  [{| Peer := peer; Local := zget "" (ForwardSubnets rules) key;
      PairBridge := zget "" (ForwardBridges rules) key |}].

Definition sortedPorts (rules : ruleSet) : list PortRule.t :=
  omap (λ k, Ports rules !! k) (sorted_keys (Ports rules)).

(** ** The iptables-restore input *)

Definition hostPortsPostRoutingChain : string := "CATTLE_HOSTPORTS_POSTROUTING".
Definition hostPortsRawChain : string := "CATTLE_HOSTPORTS_RAW".

(** Words joined by one space. *)
Definition sp (ws : list string) : string := Join ws " ".

Definition any_address : string := "0.0.0.0".

Definition prefix_words (p : PortRule.t) : list string :=
  ["-A"; "CATTLE_PREROUTING"]
  ++ (if String.eqb (Bridge p) "" then [] else ["!"; "-i"; Bridge p])
  ++ ["-p"; Protocol p; "-m"; Protocol p]
  ++ (if String.eqb (SourceIP p) any_address then [] else ["-d"; SourceIP p])
  ++ ["--dport"; SourcePort p].

Definition prefix (p : PortRule.t) : string := sp (prefix_words p).

Definition target (p : PortRule.t) : string := TargetIP p +:+ ":" +:+ TargetPort p.

(** Mark, three DNAT rules and two MASQUERADE rules of a published port. *)
Definition iptables_words (p : PortRule.t) : list (list string) :=
  let proto := ["-p"; Protocol p; "-m"; Protocol p] in
  let everywhere := String.eqb (SourceIP p) any_address in
  [ prefix_words p ++ ["-j"; "MARK"; "--set-mark"; "4200"];
    prefix_words p ++ ["-j"; "DNAT"; "--to"; target p];
    ["-A"; "CATTLE_PREROUTING"] ++ proto ++ ["--dport"; SourcePort p]
      ++ (if everywhere then ["-m"; "addrtype"; "--dst-type"; "LOCAL"] else ["-d"; SourceIP p])
      ++ ["-j"; "DNAT"; "--to-destination"; target p];
    ["-A"; "CATTLE_OUTPUT"] ++ proto
      ++ ["--dport"; SourcePort p; "-m"; "addrtype"; "--dst-type"; "LOCAL"]
      ++ (if everywhere then [] else ["-d"; SourceIP p])
      ++ ["-j"; "DNAT"; "--to-destination"; target p];
    ["-A"; hostPortsPostRoutingChain; "-s"; TargetIP p; "-d"; TargetIP p] ++ proto
      ++ ["--dport"; TargetPort p; "-j"; "MASQUERADE"];
    ["-A"; hostPortsPostRoutingChain; "-m"; "conntrack"; "--ctstate"; "DNAT"]
      ++ (if MasqueradeDNAT p then [] else ["-m"; "addrtype"; "--src-type"; "LOCAL"])
      ++ ["-d"; TargetIP p] ++ proto ++ ["--dport"; TargetPort p; "-j"; "MASQUERADE"] ].

Definition iptables (p : PortRule.t) : string := Join (map sp (iptables_words p)) nl.

Definition raw_words (rules : ruleSet) : list (list string) :=
  [["*raw"]; [":" +:+ hostPortsRawChain; "-"]; ["-F"; hostPortsRawChain]]
  ++ map (λ b, ["-A"; hostPortsRawChain; "-i"; b; "-d"; "127.0.0.0/8"; "-j"; "DROP"])
         (sortedEnabledBridges (RouteLocalnetBridges rules))
  ++ [["COMMIT"]; []].

Definition nat_words (rules : ruleSet) : list (list string) :=
  [["*nat"]; [":CATTLE_PREROUTING"; "-"]; [":CATTLE_POSTROUTING"; "-"]; [":CATTLE_OUTPUT"; "-"];
   [":" +:+ hostPortsPostRoutingChain; "-"]; ["-F"; "CATTLE_PREROUTING"];
   ["-F"; "CATTLE_POSTROUTING"]; ["-F"; "CATTLE_OUTPUT"]; ["-F"; hostPortsPostRoutingChain]; []]
  ++ concat (map iptables_words (sortedPorts rules))
  ++ [["COMMIT"]; []].

Definition new_states : string := "NEW,ESTABLISHED,RELATED".

Definition filter_words (rules : ruleSet) : list (list string) :=
  [["*filter"]; [":CATTLE_FORWARD"; "-"]; ["-F"; "CATTLE_FORWARD"]]
  ++ concat (map (λ n,
       [ ["-A"; "CATTLE_FORWARD"; "-i"; NetBridge n; "-s"; NetSubnet n; "-m"; "conntrack";
          "--ctstate"; new_states; "-j"; "ACCEPT"];
         ["-A"; "CATTLE_FORWARD"; "-o"; NetBridge n; "-d"; NetSubnet n; "-m"; "conntrack";
          "--ctstate"; "ESTABLISHED,RELATED"; "-j"; "ACCEPT"] ]) (sortedForwardNetworks rules))
  ++ map (λ n, ["-A"; "CATTLE_FORWARD"; "-o"; NetBridge n; "-s"; NetSubnet n; "-d"; NetSubnet n;
                "-m"; "conntrack"; "--ctstate"; new_states; "-j"; "ACCEPT"])
         (sortedSharedIngressNetworks rules)
  ++ map (λ pr, ["-A"; "CATTLE_FORWARD"; "-o"; PairBridge pr; "-s"; Peer pr; "-d"; Local pr;
                 "-j"; "ACCEPT"]) (sortedForwardPeers rules)
  ++ map (λ p, ["-A"; "CATTLE_FORWARD"; "-m"; "conntrack"; "--ctstate"; "DNAT"; "-d"; TargetIP p;
                "-p"; Protocol p; "-m"; Protocol p; "--dport"; TargetPort p; "-j"; "ACCEPT"])
         (sortedPorts rules)
  ++ [["-A"; "CATTLE_FORWARD"; "-m"; "mark"; "--mark"; "0x1068"; "-j"; "ACCEPT"];
      ["-A"; "CATTLE_FORWARD"; "-m"; "mark"; "--mark"; "0x4000"; "-j"; "ACCEPT"];
      []; ["COMMIT"]; []].

Definition payload_words (rules : ruleSet) : list (list string) :=
  raw_words rules ++ nat_words rules ++ filter_words rules.

(** The data of both restore runs, ending in a newline. *)
Definition restore_payload (rules : ruleSet) : string :=
  Join (map sp (payload_words rules)) nl.

(** ** Validated fields are single words *)

Lemma plain_intro s : all_bytes is_plain s = true → s ≠ "" → plain s = true.
Proof.
  intros Hs Hne. unfold plain. rewrite Hs. cbn.
  by destruct (String.eqb_spec s "").
Qed.

Lemma plain_app s t : plain s = true → plain t = true → plain (s +:+ t) = true.
Proof.
  unfold plain. rewrite !andb_true_iff, all_bytes_app. intros [-> Hs] [-> _]. split; [done|].
  by destruct s.
Qed.

Lemma validateBridgeName_Ok b :
  validateBridgeName b = Ok () ↔
  b ≠ "" ∧ String.length b ≤ 15 ∧ all_bytes bridge_byte b = true.
Proof.
  unfold validateBridgeName. destruct (String.eqb_spec b ""); cbn [orb].
  { split; [done|]. by intros [? _]. }
  destruct (15 <? String.length b) eqn:E.
  { apply Nat.ltb_lt in E. split; [done|]. intros (_ & ? & _). lia. }
  apply Nat.ltb_ge in E. destruct (all_bytes bridge_byte b); cbn [negb]; [by repeat split|].
  split; [done|]. by intros (_ & _ & ?).
Qed.

Lemma bridge_byte_plain a : bridge_byte a = true → is_plain a = true.
Proof. by destruct a as [[] [] [] [] [] [] [] []]. Qed.
Lemma ip_byte_plain a : ip_byte a = true → is_plain a = true.
Proof. by destruct a as [[] [] [] [] [] [] [] []]. Qed.
Lemma digit_plain a : is_digit a = true → is_plain a = true.
Proof. by destruct a as [[] [] [] [] [] [] [] []]. Qed.

Lemma plain_bridge b : validateBridgeName b = Ok () → plain b = true.
Proof.
  intros (Hne & _ & Hb)%validateBridgeName_Ok. apply plain_intro; [|done].
  by apply (all_bytes_weaken bridge_byte), Hb; apply bridge_byte_plain.
Qed.

Lemma plain_ipv4 s : valid_ipv4 s = true → plain s = true.
Proof.
  unfold valid_ipv4. destruct (ParseAddr s) as [ip|] eqn:E; [|done]. intros H4.
  destruct (ParseAddr_V4 _ _ E H4) as [Hb _]. apply plain_intro.
  - eapply all_bytes_weaken, Hb. intros a. rewrite orb_true_iff. intros Ha.
    apply ip_byte_plain. unfold ip_byte. rewrite !orb_true_iff. tauto.
  - intros ->. done.
Qed.

Lemma plain_subnet s : valid_ipv4_subnet s = true → plain s = true.
Proof.
  unfold valid_ipv4_subnet. destruct (ParsePrefix s) as [p|] eqn:E; [|done].
  rewrite andb_true_iff. intros [H4 _]. destruct (ParsePrefix_V4 _ _ E H4) as [Hb _].
  apply plain_intro; [|by intros ->].
  eapply all_bytes_weaken, Hb. apply ip_byte_plain.
Qed.

(** The bytes of a text that [strconv.Atoi] accepts. *)
Definition int_byte (a : ascii) : bool := is_digit a || Ascii.eqb a "+" || Ascii.eqb a "-".

Lemma Atoi_bytes s n : Atoi s = Some n → all_bytes int_byte s = true ∧ s ≠ "".
Proof.
  unfold Atoi. intros (m & Hm & _)%bind_Some.
  assert (∀ t k, match t with EmptyString => None | _ => digits_Z 0 t end = Some k →
    all_bytes int_byte t = true ∧ t ≠ "") as Hu.
  { intros t k. destruct t as [|a t]; [done|]. intros Ht%digits_bytes. split; [|done].
    eapply all_bytes_weaken, Ht. intros c Hc. unfold int_byte. by rewrite Hc. }
  destruct s as [|a t]; [done|]. split; [|done].
  destruct a as [[] [] [] [] [] [] [] []];
    try (match type of Hm with digits_Z 0 ?u = _ => exact (proj1 (Hu u m Hm)) end);
    cbn [all_bytes].
  - exact (proj1 (Hu t m Hm)).
  - apply fmap_Some in Hm as (k & Hk & _). exact (proj1 (Hu t k Hk)).
Qed.

Lemma validPort_bytes s : validPort s = true → all_bytes int_byte s = true ∧ s ≠ "".
Proof.
  unfold validPort. destruct (String.eqb s ""); [done|].
  destruct (Atoi s) as [n|] eqn:E; [|done]. intros _. by eapply Atoi_bytes.
Qed.

Lemma plain_port s : validPort s = true → plain s = true.
Proof.
  intros [Hb Hne]%validPort_bytes. apply plain_intro; [|done].
  eapply all_bytes_weaken, Hb. intros a. by destruct a as [[] [] [] [] [] [] [] []].
Qed.

Lemma plain_protocol s : valid_protocol s = true → plain s = true.
Proof.
  unfold valid_protocol. rewrite orb_true_iff, !String.eqb_eq. by intros [-> | ->].
Qed.

(** ** What a validated rule set guarantees *)

Lemma validatePortRule_Ok p :
  validatePortRule p = Ok () ↔
  (Bridge p = "" ∨ validateBridgeName (Bridge p) = Ok ()) ∧
  valid_ipv4 (SourceIP p) = true ∧ valid_ipv4 (TargetIP p) = true ∧
  validPort (SourcePort p) = true ∧ validPort (TargetPort p) = true ∧
  valid_protocol (Protocol p) = true.
Proof.
  unfold validatePortRule. rewrite result_bind_Ok.
  assert ((if String.eqb (Bridge p) "" then Ok () else validateBridgeName (Bridge p)) = Ok () ↔
    Bridge p = "" ∨ validateBridgeName (Bridge p) = Ok ()) as Hb.
  { destruct (String.eqb_spec (Bridge p) "") as [->|]; naive_solver. }
  cbn [result_iter]. split.
  - intros ([] & H1 & H2). rewrite Hb in H1. split; [done|].
    destruct (valid_ipv4 (SourceIP p)); [|done]. destruct (valid_ipv4 (TargetIP p)); [|done].
    cbn in H2. destruct (validPort _), (validPort _), (valid_protocol _); done.
  - intros (H1 & -> & -> & -> & -> & ->). exists (). by rewrite Hb.
Qed.

Lemma if_Ok (b : bool) e : (if b then Err e else Ok ()) = Ok () ↔ b = false.
Proof. by destruct b. Qed.
Lemma if_not_Ok (b : bool) e : (if b then Ok () else Err e) = Ok () ↔ b = true.
Proof. by destruct b. Qed.
Lemma wrap_err_Ok {A} msg (r : result A) a : wrap_err msg r = Ok a ↔ r = Ok a.
Proof. by destruct r. Qed.

Section valid.
Context `{!MapRange}.

Record valid_rules (rules : ruleSet) : Prop := {
  vr_ports : map_Forall (λ _ p, validatePortRule p = Ok ()) (Ports rules);
  vr_subnets : map_Forall (λ u s, valid_ipv4_subnet s = true ∧
    validateBridgeName (zget "" (ForwardBridges rules) u) = Ok ()) (ForwardSubnets rules);
  vr_bridges : map_Forall (λ u _, zget "" (ForwardSubnets rules) u ≠ "") (ForwardBridges rules);
  vr_shared : map_Forall (λ u (e : bool), e = true → zget "" (ForwardSubnets rules) u ≠ "" ∧
    zget "" (ForwardBridges rules) u ≠ "") (default ∅ (SharedIngress rules));
  vr_peers : map_Forall (λ u ps, zget "" (ForwardSubnets rules) u ≠ "" ∧
    zget "" (ForwardBridges rules) u ≠ "" ∧
    Forall (λ peer, valid_ipv4_subnet peer = true) (default [] ps)) (default ∅ (ForwardPeers rules));
  vr_localnet : map_Forall (λ b (_ : bool), validateBridgeName b = Ok ())
    (RouteLocalnetBridges rules);
}.

Lemma eqb_empty s : String.eqb s "" = false ↔ s ≠ "".
Proof. by destruct (String.eqb_spec s ""). Qed.

Lemma check_peers_Ok rules u ps :
  check_peers rules (u, ps) = Ok () ↔
  zget "" (ForwardSubnets rules) u ≠ "" ∧ zget "" (ForwardBridges rules) u ≠ "" ∧
  Forall (λ peer, valid_ipv4_subnet peer = true) (default [] ps).
Proof.
  unfold check_peers. cbn [fst snd]. rewrite <-!eqb_empty.
  destruct (String.eqb (zget "" (ForwardSubnets rules) u) ""); [naive_solver|].
  destruct (String.eqb (zget "" (ForwardBridges rules) u) ""); [naive_solver|].
  rewrite result_iter_Ok. split.
  - intros Hall. split; [done|]. split; [done|]. eapply Forall_impl; [exact Hall|].
    intros peer. apply if_not_Ok.
  - intros (_ & _ & Hall). eapply Forall_impl; [exact Hall|]. intros peer. apply if_not_Ok.
Qed.

(** Validation succeeds on exactly the valid rule sets, whatever the order in
    which the maps are visited. *)
Lemma validateRuleSet_Ok rules : validateRuleSet rules = Ok () ↔ valid_rules rules.
Proof.
  unfold validateRuleSet. rewrite !result_bind_Ok.
  split.
  - intros ([] & H1 & ([] & H2 & ([] & H3 & ([] & H4 & ([] & H5 & H6)%result_bind_Ok)
      %result_bind_Ok)%result_bind_Ok)%result_bind_Ok).
    apply range_iter_Ok in H1, H2, H3, H4, H5, H6. split.
    + exact H1.
    + intros u s Hs. specialize (H2 u s Hs). unfold check_forward in H2. cbn [fst snd] in H2.
      destruct (valid_ipv4_subnet s); [|done]. cbn [negb] in H2.
      by rewrite wrap_err_Ok in H2.
    + intros u b Hb. specialize (H3 u b Hb). unfold check_forward_bridge in H3.
      by rewrite if_Ok, eqb_empty in H3.
    + intros u e He ->. specialize (H4 u true He). unfold check_shared in H4. cbn [fst snd] in H4.
      by rewrite if_Ok, andb_true_l, orb_false_iff, !eqb_empty in H4.
    + intros u ps Hps. apply check_peers_Ok, (H5 u ps Hps).
    + intros b e Hb. specialize (H6 b e Hb). by rewrite wrap_err_Ok in H6.
  - intros [H1 H2 H3 H4 H5 H6].
    exists (). split; [by rewrite range_iter_Ok|].
    apply result_bind_Ok. exists (). split.
    { rewrite range_iter_Ok. intros u s Hs. destruct (H2 u s Hs) as [Hv Hb].
      unfold check_forward. cbn [fst snd]. rewrite Hv. cbn [negb]. by rewrite wrap_err_Ok. }
    apply result_bind_Ok. exists (). split.
    { rewrite range_iter_Ok. intros u b Hb. unfold check_forward_bridge.
      rewrite if_Ok, eqb_empty. by apply (H3 u b). }
    apply result_bind_Ok. exists (). split.
    { rewrite range_iter_Ok. intros u [] He; unfold check_shared; cbn [fst snd]; [|done].
      rewrite if_Ok, andb_true_l, orb_false_iff, !eqb_empty. by apply (H4 u true He). }
    apply result_bind_Ok. exists (). split.
    { rewrite range_iter_Ok. intros u ps Hps. by apply check_peers_Ok, H5. }
    rewrite range_iter_Ok. intros b e Hb. rewrite wrap_err_Ok. by apply (H6 b e).
Qed.
End valid.

(** ** Sorted rules *)

Lemma zget_lookup {A} (z : A) m k : zget z m k ≠ z → m !! k = Some (zget z m k).
Proof. unfold zget. by destruct (m !! k). Qed.

Lemma elem_of_forward_from rules keys seen n :
  n ∈ forward_from rules keys seen →
  NetUUID n ∈ keys ∧ NetBridge n = zget "" (ForwardBridges rules) (NetUUID n) ∧
  NetSubnet n = zget "" (ForwardSubnets rules) (NetUUID n) ∧
  NetBridge n ≠ "" ∧ NetSubnet n ≠ "" ∧ identity (NetBridge n) (NetSubnet n) ∉ seen.
Proof.
  revert seen. induction keys as [|k keys IH]; intros seen; cbn [forward_from].
  { intros Hn. by apply not_elem_of_nil in Hn. }
  destruct (_ || _) eqn:E.
  - intros Hn%IH. rewrite elem_of_cons. tauto.
  - rewrite !orb_false_iff, !eqb_empty, bool_decide_eq_false in E. destruct E as [[Hb Hs] Hseen].
    intros [->|Hn]%elem_of_cons.
    + cbn [NetUUID NetBridge NetSubnet]. rewrite elem_of_cons. tauto.
    + apply IH in Hn. rewrite elem_of_cons. set_solver.
Qed.

Lemma elem_of_sortedForwardNetworks rules n :
  n ∈ sortedForwardNetworks rules →
  NetBridge n = zget "" (ForwardBridges rules) (NetUUID n) ∧
  ForwardSubnets rules !! NetUUID n = Some (NetSubnet n) ∧
  NetBridge n ≠ "" ∧ NetSubnet n ≠ "".
Proof.
  intros (_ & Hb & Hs & ? & ? & _)%elem_of_forward_from. split_and!; [done| |done|done].
  rewrite Hs in *. by apply zget_lookup.
Qed.

Lemma elem_of_sortedForwardPeers rules pr :
  pr ∈ sortedForwardPeers rules ↔
  ∃ u ps, default ∅ (ForwardPeers rules) !! u = Some ps ∧ Peer pr ∈ default [] ps ∧
    Local pr = zget "" (ForwardSubnets rules) u ∧ PairBridge pr = zget "" (ForwardBridges rules) u.
Proof.
  unfold sortedForwardPeers. rewrite list_elem_of_bind. split.
  - intros (u & Hpr & [ps Hu]%elem_of_sorted_keys). apply list_elem_of_bind in Hpr as (p & Hpr & Hp).
    apply list_elem_of_singleton in Hpr as ->. rewrite elem_of_sort_strings in Hp.
    unfold zget at 1 in Hp. rewrite Hu in Hp. by exists u, ps.
  - intros (u & ps & Hu & Hp & Hl & Hb). exists u. split; [|by apply elem_of_sorted_keys; exists ps].
    apply list_elem_of_bind. exists (Peer pr). split.
    + apply list_elem_of_singleton. destruct pr; cbn in *. by subst.
    + rewrite elem_of_sort_strings. unfold zget. by rewrite Hu.
Qed.

Lemma elem_of_sortedPorts rules p : p ∈ sortedPorts rules ↔ ∃ k, Ports rules !! k = Some p.
Proof.
  unfold sortedPorts. rewrite list_elem_of_omap. split.
  - intros (k & _ & Hk). by exists k.
  - intros [k Hk]. exists k. split; [|done]. apply elem_of_sorted_keys. by exists p.
Qed.

Lemma elem_of_sortedEnabledBridges m b : b ∈ sortedEnabledBridges m ↔ m !! b = Some true.
Proof.
  unfold sortedEnabledBridges, zget. rewrite list_elem_of_filter, elem_of_sorted_keys.
  split; [|intros ->; naive_solver]. intros [Ht [[] Hb]]; rewrite Hb in *; done.
Qed.

(** ** The restore input holds the intended rules only *)

Definition plain_words (ws : list string) : Prop := Forall (λ w, plain w = true) ws.

Lemma plain_prefix_words p :
  validatePortRule p = Ok () → plain_words (prefix_words p).
Proof.
  intros (Hb & Hs & _ & Hsp & _ & Hpr)%validatePortRule_Ok. unfold plain_words, prefix_words.
  rewrite !Forall_app. split_and!.
  - by repeat constructor.
  - destruct (String.eqb_spec (Bridge p) ""); [constructor|].
    destruct Hb as [?|Hb]; [done|]. repeat constructor. by apply plain_bridge.
  - repeat constructor; by apply plain_protocol.
  - destruct (String.eqb _ _); repeat constructor. by apply plain_ipv4.
  - repeat constructor. by apply plain_port.
Qed.

Lemma plain_target p : validatePortRule p = Ok () → plain (target p) = true.
Proof.
  intros (_ & _ & Ht & _ & Htp & _)%validatePortRule_Ok. unfold target.
  apply plain_app; [by apply plain_ipv4|]. apply plain_app; [done|by apply plain_port].
Qed.

Create HintDb words.
#[local] Hint Resolve plain_target plain_protocol plain_ipv4 plain_port plain_subnet
  plain_bridge : words.
#[local] Hint Constructors Forall : words.
#[local] Hint Extern 0 (plain _ = true) => reflexivity : words.

Lemma plain_iptables_words p :
  validatePortRule p = Ok () → Forall plain_words (iptables_words p).
Proof.
  intros Hv. pose proof (plain_prefix_words p Hv) as Hpre. pose proof (plain_target p Hv) as Ht.
  apply validatePortRule_Ok in Hv as (_ & Hs & Htip & Hsp & Htp & Hpr).
  unfold iptables_words, plain_words in *.
  repeat first [assumption | apply Forall_nil_2 | apply Forall_app; split | apply Forall_cons_2
               | case_match | solve [auto with words]].
Qed.

Lemma plain_payload_words rules : valid_rules rules → Forall plain_words (payload_words rules).
Proof.
  intros [Hports Hsub Hbr Hsh Hpeers Hloc].
  assert (∀ n, n ∈ sortedForwardNetworks rules →
    plain (NetBridge n) = true ∧ plain (NetSubnet n) = true) as Hnet.
  { intros n (Hb & Hs & _ & _)%elem_of_sortedForwardNetworks.
    destruct (Hsub _ _ Hs) as [? Hv]. rewrite <-Hb in Hv. auto with words. }
  assert (∀ p, p ∈ sortedPorts rules → validatePortRule p = Ok ()) as Hp.
  { intros p [k Hk]%elem_of_sortedPorts. by apply (Hports k). }
  unfold payload_words, raw_words, nat_words, filter_words, plain_words in *.
  rewrite !Forall_app. split_and!; try (by repeat constructor).
  - apply Forall_fmap, Forall_forall. intros b Hb%elem_of_sortedEnabledBridges.
    specialize (Hloc b true Hb). cbn in Hloc. auto 12 with words.
  - apply Forall_concat, Forall_fmap, Forall_forall. intros p Hin.
    by apply plain_iptables_words, Hp.
  - apply Forall_concat, Forall_fmap, Forall_forall. intros n [Hb Hs]%Hnet.
    repeat apply Forall_cons_2; auto 16 with words.
  - apply Forall_fmap, Forall_forall. intros n [_ [Hb Hs]%Hnet]%list_elem_of_filter.
    auto 20 with words.
  - apply Forall_fmap, Forall_forall.
    intros pr (u & ps & Hu & Hpeer & Hl & Hbr')%elem_of_sortedForwardPeers.
    destruct (Hpeers u ps Hu) as (Hne & _ & Hps). rewrite Forall_forall in Hps.
    apply zget_lookup in Hne. destruct (Hsub u _ Hne) as [Hsn Hbn].
    rewrite <-Hl in Hsn. rewrite <-Hbr' in Hbn. auto 20 with words.
  - apply Forall_fmap, Forall_forall. intros p Hin.
    pose proof (Hp p Hin) as (_ & _ & ? & _ & ? & ?)%validatePortRule_Ok. auto 20 with words.
Qed.

Lemma plain_free w : plain w = true → free_of "010" w = true.
Proof.
  unfold plain, free_of. rewrite andb_true_iff. intros [Hw _]. eapply all_bytes_weaken, Hw.
  intros a. by destruct a as [[] [] [] [] [] [] [] []].
Qed.

Lemma free_of_sp ws : plain_words ws → free_of "010" (sp ws) = true.
Proof.
  unfold sp. induction ws as [|w ws IH]; [done|]. intros [Hw Hws]%Forall_cons.
  apply plain_free in Hw. destruct ws as [|w' ws]; [done|].
  change (Join (w :: w' :: ws) " ") with (w +:+ " " +:+ Join (w' :: ws) " ").
  unfold free_of in *. rewrite !all_bytes_app, Hw, IH by done. done.
Qed.

(** Lines of plain words are read back line by line and word by word. *)
Lemma Split_words wss :
  wss ≠ [] → Forall plain_words wss → Fields <$> Split (Join (map sp wss) nl) "010" = wss.
Proof.
  intros Hne Hw. change nl with (String "010" ""). rewrite Split_Join.
  - induction Hw as [|ws wss Hws _ IH]; [done|]. cbn [map fmap list_fmap].
    unfold sp at 1. rewrite Fields_Join by done.
    destruct wss; [done|]. f_equal. by apply IH.
  - by destruct wss.
  - apply Forall_fmap. eapply Forall_impl; [exact Hw|]. apply free_of_sp.
Qed.

(** C5: what iptables-restore reads from the rendered input of a validated rule
    set is, line by line and word by word, the intended rules: no field of the
    metadata can add a line or an argument. *)
Theorem restore_payload_parsed `{!MapRange} rules :
  validateRuleSet rules = Ok () →
  Fields <$> Split (restore_payload rules) "010" = payload_words rules.
Proof.
  intros Hv%validateRuleSet_Ok. apply Split_words; [done|]. by apply plain_payload_words.
Qed.

Definition demo_port : PortRule.t :=
  PortRule.Make "br0" "0.0.0.0" "80" "10.42.1.2" "8080" "tcp" false.

Definition demo_rules : ruleSet := {|
  Ports := {[ "c/0.0.0.0:80:8080" := demo_port ]};
  ForwardSubnets := {[ "n1" := "10.42.1.0/24" ]};
  ForwardBridges := {[ "n1" := "br0" ]};
  ForwardPeers := Some {[ "n1" := Some ["10.42.2.0/24"] ]};
  SharedIngress := None;
  RouteLocalnetBridges := {[ "br0" := true ]} |}.

Lemma restore_payload_parsed_witness :
  20 ≤ length (payload_words demo_rules) ∧
  Fields <$> Split (restore_payload demo_rules) "010" = payload_words demo_rules.
Proof.
  split; [vm_compute; lia|].
  apply (@restore_payload_parsed range_forward). vm_compute. reflexivity.
Defined.

(** ** Port definitions *)

Definition portDef (p : PortRule.t) : string :=
  Join [SourceIP p; SourcePort p; Join [TargetPort p; Protocol p] "/"] ":".

Lemma free_weaken q c s :
  all_bytes q s = true → (∀ a, q a = true → Ascii.eqb a c = false) → free_of c s = true.
Proof.
  intros Hs Hq. unfold free_of. eapply all_bytes_weaken, Hs. intros a Ha. by rewrite Hq.
Qed.

Lemma port_free s : validPort s = true → free_of ":" s = true ∧ free_of "/" s = true.
Proof.
  intros [Hb _]%validPort_bytes.
  split; (eapply free_weaken; [exact Hb|]); intros a; by destruct a as [[] [] [] [] [] [] [] []].
Qed.

Lemma ipv4_free s : valid_ipv4 s = true → free_of ":" s = true.
Proof.
  unfold valid_ipv4. destruct (ParseAddr s) as [ip|] eqn:E; [|done]. intros H4.
  destruct (ParseAddr_V4 _ _ E H4) as [Hb _]. eapply free_weaken; [exact Hb|].
  intros a; by destruct a as [[] [] [] [] [] [] [] []].
Qed.

(** What an accepted port definition looks like. *)
Lemma parsePortRule_sound bridge host tip def rule :
  parsePortRule bridge host tip def = (rule, true) →
  validatePortRule rule = Ok () ∧
  rule = PortRule.Make bridge (SourceIP rule) (SourcePort rule) tip (TargetPort rule)
           (Protocol rule) false ∧
  (def = portDef rule ∨
   Protocol rule = "tcp" ∧ def = Join [SourceIP rule; SourcePort rule; TargetPort rule] ":").
Proof.
  unfold parsePortRule. pose proof (Join_Split def ":") as Hdef.
  destruct (Split def ":") as [|sip [|sport [|tport [|]]]]; try done.
  pose proof (Join_Split tport "/") as Htp.
  assert (∀ tp pr, (if negb (validPort sport) || negb (validPort tp) || negb (valid_protocol pr)
    then (PortRule.Make "" "" "" "" "" "" false, false)
    else (PortRule.Make bridge sip sport tip tp pr false,
          ok (validatePortRule (PortRule.Make bridge sip sport tip tp pr false)))) = (rule, true) →
    validatePortRule rule = Ok () ∧ rule = PortRule.Make bridge sip sport tip tp pr false) as Hr.
  { intros tp pr. destruct (_ || _); [done|]. intros Hr.
    injection Hr as <- Hok. split; [by apply ok_unit|done]. }
  destruct (Split tport "/") as [|port [|proto [|]]];
    cbn zeta beta iota; intros [Hv ->]%Hr; (split; [exact Hv|]);
    cbn [SourceIP SourcePort TargetIP TargetPort Protocol]; (split; [done|]);
    try (right; split; [done|]; exact (eq_sym Hdef)).
  left. unfold portDef. cbn [SourceIP SourcePort TargetPort Protocol].
  by rewrite <-Hdef, <-Htp.
Qed.

Lemma parsePortRule_complete p host :
  validatePortRule p = Ok () → MasqueradeDNAT p = false →
  parsePortRule (Bridge p) host (TargetIP p) (portDef p) = (p, true).
Proof.
  intros Hv Hm. pose proof Hv as (_ & Hs & _ & Hsp & Htp & Hpr)%validatePortRule_Ok.
  destruct (port_free _ Hsp) as [Hsp1 _]. destruct (port_free _ Htp) as [Htp1 Htp2].
  assert (free_of ":" (Protocol p) = true ∧ free_of "/" (Protocol p) = true) as [Hp1 Hp2].
  { unfold valid_protocol in Hpr. rewrite orb_true_iff, !String.eqb_eq in Hpr.
    by destruct Hpr as [-> | ->]. }
  unfold parsePortRule, portDef. change ":" with (String ":" "") at 1.
  rewrite Split_Join; [|done|].
  2:{ repeat constructor; [by apply ipv4_free|done|]. unfold free_of in *. cbn [Join].
      by rewrite !all_bytes_app, Htp1, Hp1. }
  change "/" with (String "/" "") at 1. rewrite Split_Join; [|done|by repeat constructor].
  rewrite Hsp, Htp, Hpr. cbn [negb orb].
  assert (PortRule.Make (Bridge p) (SourceIP p) (SourcePort p) (TargetIP p) (TargetPort p)
    (Protocol p) false = p) as ->.
  { destruct p as [? ? ? ? ? ? m]. cbn in *. by subst. }
  f_equal. by apply ok_unit.
Qed.

(** C29: a port definition is accepted exactly when it is the text
    "source:port:port[/protocol]" of a valid rule on the given bridge and
    target, the protocol being tcp when absent; the accepted rule is that one. *)
Theorem parsePortRule_spec bridge host tip def rule :
  parsePortRule bridge host tip def = (rule, true) ↔
  validatePortRule rule = Ok () ∧ Bridge rule = bridge ∧ TargetIP rule = tip ∧
  MasqueradeDNAT rule = false ∧
  (def = portDef rule ∨
   Protocol rule = "tcp" ∧ def = Join [SourceIP rule; SourcePort rule; TargetPort rule] ":").
Proof.
  split.
  - intros (Hv & Hr & Hd)%parsePortRule_sound. split_and!; [done|by rewrite Hr..|done].
  - intros (Hv & <- & <- & Hm & [->|[Hp ->]]); [by apply parsePortRule_complete|].
    pose proof Hv as (_ & Hs & _ & Hsp & Htp & Hpr)%validatePortRule_Ok.
    destruct (port_free _ Hsp) as [Hsp1 _]. destruct (port_free _ Htp) as [Htp1 Htp2].
    unfold parsePortRule. change ":" with (String ":" "").
    rewrite Split_Join; [|done|].
    2:{ constructor; [by apply ipv4_free|]. by repeat constructor. }
    rewrite Split_free by done. rewrite Hsp, Htp. cbn [negb orb].
    change (valid_protocol "tcp") with true. cbn [negb].
    rewrite <-Hp, <-Hm.
    assert (PortRule.Make (Bridge rule) (SourceIP rule) (SourcePort rule) (TargetIP rule)
      (TargetPort rule) (Protocol rule) (MasqueradeDNAT rule) = rule) as -> by by destruct rule.
    f_equal. by apply ok_unit.
Qed.

(** ** The managed bridge *)

(** The candidate of the CNI file [key], when it is a managed bridge. *)
Definition bridge_entry (conf : gmap string Value) (key : string) : option (result bridgeNetworkConfig) :=
  let props := as_map (conf !! key) in
  if isBridgeCNIType (as_string (props !! "type")) then Some (bridge_candidate props) else None.

Lemma bridge_fold_spec conf keys found r :
  result_fold (bridge_step conf) found keys = Ok r ↔
  match r with
  | None => found = None ∧ Forall (λ k, bridge_entry conf k = None) keys
  | Some c => (found = Some c ∨ found = None ∧ ∃ k, k ∈ keys ∧ bridge_entry conf k = Some (Ok c)) ∧
      Forall (λ k, bridge_entry conf k = None ∨ bridge_entry conf k = Some (Ok c)) keys
  end.
Proof.
  revert found. induction keys as [|k keys IH]; intros found; cbn [result_fold].
  { destruct r as [c|]; [|naive_solver].
    split; [intros [= ->]; auto|]. intros [[->|(_ & k & Hk & _)] _]; [done|].
    by apply not_elem_of_nil in Hk. }
  unfold bridge_step at 1. unfold bridge_entry in *.
  destruct (isBridgeCNIType _) eqn:Ht; cbn [negb].
  2:{ rewrite IH. destruct r as [c|]; rewrite Forall_cons, Ht; [|naive_solver].
      setoid_rewrite elem_of_cons. split; [naive_solver|].
      intros [[->|(-> & k' & [->|Hk] & Hk')] [_ Hall]]; [by auto|by rewrite Ht in Hk'|].
      split; [right; split; [done|by exists k']|done]. }
  destruct (bridge_candidate _) as [cand|e] eqn:Hc; cbn [mbind result_bind].
  2:{ split; [done|]. destruct r; rewrite Forall_cons, Ht, Hc; naive_solver. }
  destruct found as [c0|].
  - case_bool_decide as Hcc.
    + subst c0. rewrite IH. destruct r as [c|]; rewrite Forall_cons, Ht, Hc; naive_solver.
    + split; [done|]. destruct r as [c|]; rewrite Forall_cons, Ht, Hc; naive_solver.
  - rewrite IH. destruct r as [c|]; rewrite Forall_cons, Ht, Hc; [|naive_solver].
    setoid_rewrite elem_of_cons. split.
    + intros [[[= ->]|[? _]] Hall]; [|done]. split; [right|auto].
      split; [done|]. exists k. split; [by left|]. by rewrite Ht, Hc.
    + intros [_ [[?|[= ->]] Hall]]; [done|]. auto.
Qed.

Lemma bridge_entry_lookup conf k r :
  bridge_entry conf k = Some r → is_Some (conf !! k).
Proof. unfold bridge_entry. destruct (conf !! k); [by eexists|done]. Qed.

(** The managed bridge of a network is accepted exactly when every CNI file
    that declares a bridge is well formed and they all agree; it is the zero
    value when no file declares one. The order of the files plays no role. *)
Lemma bridgeConfigForNetwork_spec network c :
  bridgeConfigForNetwork network = Ok c ↔
  (∀ k r, bridge_entry (cniConfig network) k = Some r → r = Ok c) ∧
  (c = zero_bridge ∨ ∃ k, bridge_entry (cniConfig network) k = Some (Ok c)).
Proof.
  unfold bridgeConfigForNetwork. rewrite result_bind_Ok.
  set (conf := cniConfig network). setoid_rewrite bridge_fold_spec. split.
  - intros ([c'|] & H & [= <-]).
    + destruct H as [[|(_ & k & _ & Hk)] Hall]; [done|]. rewrite Forall_forall in Hall.
      split; [|right; by exists k]. intros k' r Hr.
      assert (k' ∈ sorted_keys conf) as Hin
        by (apply elem_of_sorted_keys; by eapply bridge_entry_lookup).
      destruct (Hall k' Hin); congruence.
    + destruct H as [_ Hall]. rewrite Forall_forall in Hall. split; [|by left].
      intros k r Hr. exfalso.
      assert (k ∈ sorted_keys conf) as Hin
        by (apply elem_of_sorted_keys; by eapply bridge_entry_lookup).
      specialize (Hall k Hin). congruence.
  - intros [Hall Hc].
    destruct (decide (Exists (λ k, is_Some (bridge_entry conf k)) (sorted_keys conf))) as [Hex|Hno].
    + apply Exists_exists in Hex as (k & Hin & [r Hr]).
      pose proof (Hall k r Hr) as ->. exists (Some c). split; [|done]. split; [right; eauto|].
      apply Forall_forall. intros k' _. destruct (bridge_entry conf k') as [r'|] eqn:E; [|by left].
      right. by rewrite (Hall k' r' E).
    + rewrite <-Forall_Exists_neg, Forall_forall in Hno.
      assert (∀ k, bridge_entry conf k = None) as Hnone.
      { intros k. destruct (bridge_entry conf k) as [r|] eqn:E; [|done].
        exfalso. apply (Hno k); [|by exists r].
        apply elem_of_sorted_keys. by eapply bridge_entry_lookup. }
      exists None. split; [split; [done|]|].
      * apply Forall_forall. intros k _. apply Hnone.
      * destruct Hc as [->|(k & Hk)]; [done|]. by rewrite Hnone in Hk.
Qed.

(** ** Forwarded networks *)

Definition nul_free (s : string) : Prop := free_of "000" s = true.

Lemma identity_inj b1 s1 b2 s2 :
  nul_free b1 → nul_free b2 → identity b1 s1 = identity b2 s2 → b1 = b2 ∧ s1 = s2.
Proof.
  unfold nul_free, identity. intros H1 H2 He.
  pose proof (Cut_app_free b1 (String "000" s1) "000" H1) as C1.
  pose proof (Cut_app_free b2 (String "000" s2) "000" H2) as C2.
  rewrite He in C1. rewrite C1 in C2. cbn in C2. rewrite !app_nil_r_str in C2. by injection C2.
Qed.

Definition network_pair (n : forwardNetwork) : string * string := (NetBridge n, NetSubnet n).

Lemma forward_from_NoDup rules keys seen :
  (∀ u, nul_free (zget "" (ForwardBridges rules) u)) →
  NoDup (network_pair <$> forward_from rules keys seen).
Proof.
  intros Hnul. revert seen. induction keys as [|k keys IH]; intros seen; cbn [forward_from].
  { constructor. }
  destruct (_ || _); [apply IH|]. cbn [fmap list_fmap]. constructor; [|apply IH].
  intros (n & Hp & Hn)%list_elem_of_fmap. unfold network_pair in Hp. cbn in Hp.
  injection Hp as Hb Hs. apply elem_of_forward_from in Hn as (_ & _ & _ & _ & _ & Hseen).
  rewrite <-Hb, <-Hs in Hseen. set_solver.
Qed.

Lemma forward_from_covers rules keys seen u b s :
  StronglySorted String.le keys → (∀ u, nul_free (zget "" (ForwardBridges rules) u)) →
  u ∈ keys → zget "" (ForwardBridges rules) u = b → zget "" (ForwardSubnets rules) u = s →
  b ≠ "" → s ≠ "" → identity b s ∉ seen →
  ∃ n, n ∈ forward_from rules keys seen ∧ network_pair n = (b, s) ∧ String.le (NetUUID n) u.
Proof.
  intros Hsort Hnul. revert seen.
  induction Hsort as [|k keys _ IH Hk]; intros seen Hu Hb Hs Hbne Hsne Hseen.
  { by apply not_elem_of_nil in Hu. }
  rewrite Forall_forall in Hk. cbn [forward_from].
  set (b' := zget "" (ForwardBridges rules) k). set (s' := zget "" (ForwardSubnets rules) k).
  destruct (_ || _) eqn:E.
  - apply IH; [|done..]. apply elem_of_cons in Hu as [->|Hu]; [|done]. exfalso.
    subst b' s'. rewrite Hb, Hs in E. rewrite !orb_true_iff, bool_decide_eq_true in E.
    destruct (String.eqb_spec b ""), (String.eqb_spec s ""); try done.
    destruct E as [[?|?]|?]; done.
  - destruct (decide (b' = b ∧ s' = s)) as [[Hb' Hs']|Hne].
    + exists {| NetUUID := k; NetBridge := b'; NetSubnet := s' |}.
      split; [apply list_elem_of_here|]. split; [by unfold network_pair; cbn; rewrite Hb', Hs'|].
      cbn. apply elem_of_cons in Hu as [->|Hu]; [reflexivity|by apply Hk].
    + assert (u ∈ keys) as Hu'.
      { apply elem_of_cons in Hu as [->|Hu]; [|done]. exfalso. by apply Hne. }
      destruct (IH ({[identity b' s']} ∪ seen)) as (n & ? & ? & ?); [done..| |].
      * intros [Heq%elem_of_singleton|?]%elem_of_union; [|done].
        apply Hne. rewrite <-Hb in Heq.
        apply identity_inj in Heq as [Hbb Hss]; [|apply Hnul..].
        split; [by rewrite <-Hbb|done].
      * exists n. split; [by apply list_elem_of_further|done].
Qed.

(** C30: the forwarded networks list every managed (bridge, subnet) pair once,
    under the least UUID that declares it, and no other pair. *)
Theorem sortedForwardNetworks_spec rules :
  (∀ u, nul_free (zget "" (ForwardBridges rules) u)) →
  NoDup (network_pair <$> sortedForwardNetworks rules) ∧
  (∀ u s, ForwardSubnets rules !! u = Some s → s ≠ "" → zget "" (ForwardBridges rules) u ≠ "" →
     ∃ n, n ∈ sortedForwardNetworks rules ∧
       network_pair n = (zget "" (ForwardBridges rules) u, s) ∧ String.le (NetUUID n) u) ∧
  (∀ n, n ∈ sortedForwardNetworks rules →
     ForwardSubnets rules !! NetUUID n = Some (NetSubnet n) ∧
     NetBridge n = zget "" (ForwardBridges rules) (NetUUID n) ∧ NetBridge n ≠ "").
Proof.
  intros Hnul. split_and!.
  - by apply forward_from_NoDup.
  - intros u s Hu Hs Hb. apply forward_from_covers; [apply sort_strings_sorted|done| |done| |done|done|].
    + apply elem_of_sorted_keys. by exists s.
    + unfold zget. by rewrite Hu.
    + apply not_elem_of_empty.
  - intros n Hn%elem_of_sortedForwardNetworks. tauto.
Qed.

(** Two networks on one bridge and subnet; the second shares its ingress. *)
Definition twin_rules (shared : string) : ruleSet := {|
  Ports := ∅;
  ForwardSubnets := {[ "n1" := "10.42.1.0/24"; "n2" := "10.42.1.0/24" ]};
  ForwardBridges := {[ "n1" := "br0"; "n2" := "br0" ]};
  ForwardPeers := None; SharedIngress := Some {[ shared := true ]};
  RouteLocalnetBridges := ∅ |}.

Lemma sortedForwardNetworks_spec_witness :
  NetUUID <$> sortedForwardNetworks (twin_rules "n2") = ["n1"] ∧
  ∃ n, n ∈ sortedForwardNetworks (twin_rules "n2") ∧ network_pair n = ("br0", "10.42.1.0/24") ∧
    String.le (NetUUID n) "n2".
Proof.
  split; [vm_compute; reflexivity|].
  assert (∀ u, nul_free (zget "" (ForwardBridges (twin_rules "n2")) u)) as Hnul.
  { intros u. destruct (ForwardBridges (twin_rules "n2") !! u) as [b|] eqn:Hb.
    - assert (map_Forall (λ _ b, nul_free b) (ForwardBridges (twin_rules "n2"))) as Hall.
      { apply map_Forall_insert_2; [reflexivity|]. apply map_Forall_singleton. reflexivity. }
      unfold zget. rewrite Hb. exact (Hall u b Hb).
    - unfold zget. by rewrite Hb. }
  exact (proj1 (proj2 (sortedForwardNetworks_spec _ Hnul)) "n2" "10.42.1.0/24" eq_refl
    ltac:(discriminate) ltac:(discriminate)).
Defined.

(** The shared ingress of a pair is lost when a smaller UUID declares the same
    pair without it. *)
Lemma shared_ingress_lost :
  length (sortedSharedIngressNetworks (twin_rules "n1")) = 1 ∧
  sortedSharedIngressNetworks (twin_rules "n2") = [].
Proof. vm_compute. split; reflexivity. Qed.
