(* ===== verification/RouteLocalnet.v ===== *)
(** * Ownership of route_localnet (hostports/route_localnet.go)

    A bridge with loopback publications needs its route_localnet switch on.
    The value found before the first change is persisted, so that it can be
    restored when the bridge is no longer used, also after a restart. *)
From S2P Require Import Prelude Effects GoStrings GoNet Metadata Json World PortRules.

Definition routeLocalnetStatePath : string :=
  "/run/pasturestack/network-plugin-manager/route-localnet.json".
Definition state_directory : string := "/run/pasturestack/network-plugin-manager".

(** ** The persisted state *)

Definition state_json (original : gmap string bool) : Json :=
  JObject [("version", JNumber "1"); ("original", JObject (map_members JBool original))].

Definition state_data (original : gmap string bool) : string :=
  Marshal (state_json original) +:+ nl.

(** [persistedRouteLocalnetState] as [json.Unmarshal] fills it. *)
Definition decode_state (v : Json) : result (Z * option (gmap string bool)) :=
  ms ← struct_members v;
  version ← int_field "version" ms;
  original ← map_field false set_bool "original" ms;
  Ok (version, original).

Section load.
Context `{!MapRange}.

Definition check_state (state : Z * option (gmap string bool)) : result (gmap string bool) :=
  match state with
  | (1%Z, Some original) =>
      _ ← result_iter (λ e, wrap_err "invalid persisted bridge" (validateBridgeName e.1))
            (range_map 0 original);
      Ok original
  | _ => Err (Errorf "unsupported or incomplete state")
  end.

Definition loadRouteLocalnetState (path : string) : hprog (result (gmap string bool)) :=
  r ← call1 (ReadFile path);
  match r with
  | Err e => if is_not_exist e then Ret (Ok ∅) else Ret (Err e)
  | Ok data =>
      Ret (state ← wrap_err "decode" (Unmarshal decode_state data); check_state state)
  end.
End load.

(** Chmod, write and flush the open temporary file; it is closed on error. *)
Definition write_temporary (file data : string) : hprog (result ()) :=
  let closing (err : option error) (k : hprog (result ())) : hprog (result ()) :=
    match err with
    | Some e => _ ← call1 (Close file); Ret (Err e)
    | None => k
    end in
  cerr ← call1 (Chmod file 384);
  closing cerr (
    werr ← call1 (Write file data);
    closing werr (
      serr ← call1 (Sync file);
      closing serr (
        r ← call1 (Close file); Ret (err_result r)))).

Definition saveRouteLocalnetState (path : string) (original : gmap string bool)
    : hprog (result ()) :=
  merr ← call1 (MkdirAll state_directory);
  _ <-? Ret (err_result merr);
  temporary <-? call1 (CreateTemp state_directory ".route-localnet-*");
  r ← (_ <-? write_temporary temporary (state_data original);
       rerr ← call1 (Rename temporary path);
       Ret (err_result rerr));
  _ ← call1 (Remove temporary);
  Ret r.

(** ** The kernel's switch *)

Definition sysctl_path (bridge : string) : string :=
  "/proc/sys/net/ipv4/conf/" +:+ bridge +:+ "/route_localnet".

Definition parse_switch (value : string) : option bool :=
  let v := TrimSpace value in
  if String.eqb v "0" then Some false else if String.eqb v "1" then Some true else None.

Definition readBridgeRouteLocalnet (bridge : string) : hprog (result bool) :=
  _ <-? Ret (validateBridgeName bridge);
  value <-? call1 (ReadFile (sysctl_path bridge));
  Ret (match parse_switch value with
       | Some b => Ok b
       | None => Err (Errorf "unexpected route_localnet value")
       end).

Definition switch_text (enabled : bool) : string := (if enabled then "1" else "0") +:+ nl.

Definition setBridgeRouteLocalnet (bridge : string) (enabled : bool) : hprog (result ()) :=
  _ <-? Ret (validateBridgeName bridge);
  err ← call1 (WriteFile (sysctl_path bridge) (switch_text enabled));
  Ret (match err with
       | None => Ok ()
       | Some e => if negb enabled && is_not_exist e then Ok () else Err e
       end).

(** ** Changes of ownership *)

(** The owned bridges the new rules no longer need. *)
Definition removed_bridges (original : gmap string bool) (rules : ruleSet) : list string :=
  filter (λ b, zget false (RouteLocalnetBridges rules) b = false) (sorted_keys original).

Definition restoreRemovedRouteLocalnet (original : gmap string bool) (rules : ruleSet)
    : hprog (result ()) :=
  pforeach (λ bridge, wrapped "restore route_localnet"
              (setBridgeRouteLocalnet bridge (zget false original bridge)))
    (removed_bridges original rules).

(** The value to restore for one bridge: the recorded one, or the current. *)
Definition next_original (original : gmap string bool) (next : gmap string bool)
    (bridge : string) : hprog (result (gmap string bool)) :=
  match original !! bridge with
  | Some v => Ret (Ok (<[bridge := v]> next))
  | None =>
      v <-? wrapped "read route_localnet" (readBridgeRouteLocalnet bridge);
      Ret (Ok (<[bridge := v]> next))
  end.

(** The new ownership map with the result: it replaces the old one once it is
    persisted, also when enabling a bridge then fails. *)
Definition activateRouteLocalnet (original : gmap string bool) (rules : ruleSet)
    : hprog (gmap string bool * result ()) :=
  let bridges := sortedEnabledBridges (RouteLocalnetBridges rules) in
  r ← pfold (next_original original) ∅ bridges;
  match r with
  | Err e => Ret (original, Err e)
  | Ok next =>
      s ← wrapped "persist route_localnet ownership"
            (saveRouteLocalnetState routeLocalnetStatePath next);
      match s with
      | Err e => Ret (original, Err e)
      | Ok _ =>
          r ← pforeach (λ bridge, wrapped "enable guarded route_localnet"
                          (setBridgeRouteLocalnet bridge true)) bridges;
          Ret (next, r)
      end
  end.

(** ** The state file reads back *)

Lemma bridge_byte_ascii a : bridge_byte a = true → (byte_N a <? 128)%N = true.
Proof. by destruct a as [[] [] [] [] [] [] [] []]. Qed.

Lemma valid_bridge_utf8 b : validateBridgeName b = Ok () → valid_utf8 0 b = b.
Proof.
  intros (_ & _ & Hb)%validateBridgeName_Ok. apply valid_utf8_ascii.
  eapply all_bytes_weaken, Hb. apply bridge_byte_ascii.
Qed.

Lemma fold_members (o : gmap string bool) keys m0 :
  ∃ m, result_fold (λ (m : gmap string bool) (kv : string * Json),
         x ← set_bool false kv.2; Ok (<[kv.1 := x]> m)) m0
         (omap (λ k, a ← o !! k; Some (k, JBool a)) keys) = Ok m ∧
    ∀ k, m !! k = if decide (k ∈ keys ∧ is_Some (o !! k)) then o !! k else m0 !! k.
Proof.
  revert m0. induction keys as [|k keys IH]; intros m0; cbn [omap list_omap].
  { exists m0. split; [done|]. intros k. rewrite decide_False; [done|].
    intros [Hn _]. by apply not_elem_of_nil in Hn. }
  destruct (o !! k) as [a|] eqn:Hk; cbn [mbind option_bind].
  - cbn [result_fold fst snd set_bool mbind result_bind].
    destruct (IH (<[k := a]> m0)) as (m & -> & Hm). exists m. split; [done|].
    intros k'. rewrite Hm. destruct (decide (k' ∈ keys ∧ is_Some (o !! k'))) as [[? ?]|Hno].
    + rewrite decide_True; [done|]. rewrite elem_of_cons. tauto.
    + destruct (decide (k' = k)) as [->|Hne].
      * rewrite lookup_insert_eq, decide_True; [done|]. rewrite elem_of_cons, Hk. eauto.
      * rewrite lookup_insert_ne by done. rewrite decide_False; [done|].
        rewrite elem_of_cons. naive_solver.
  - destruct (IH m0) as (m & -> & Hm). exists m. split; [done|]. intros k'. rewrite Hm.
    destruct (decide (k' ∈ keys ∧ is_Some (o !! k'))) as [[? ?]|Hno].
    + rewrite decide_True; [done|]. rewrite elem_of_cons. tauto.
    + rewrite decide_False; [done|]. rewrite elem_of_cons.
      intros [[->|?] Hs]; [by rewrite Hk in Hs; destruct Hs|tauto].
Qed.

Lemma decode_state_json o : decode_state (state_json o) = Ok (1%Z, Some o).
Proof.
  unfold decode_state, state_json, int_field, map_field.
  cbn [struct_members mbind result_bind].
  set (members := JObject (map_members JBool o)).
  change (field_values "version" [("version", JNumber "1"); ("original", members)])
    with [JNumber "1"].
  change (field_values "original" [("version", JNumber "1"); ("original", members)]) with [members].
  change (result_fold set_int 0%Z [JNumber "1"]) with (Ok 1%Z).
  cbn [mbind result_bind result_fold]. unfold set_map, members, map_members. cbn [default].
  destruct (fold_members o (sorted_keys o) ∅) as (m & Hf & Hm). rewrite Hf.
  cbn [mbind result_bind]. repeat f_equal. apply map_eq. intros k. rewrite Hm.
  destruct (decide _) as [|Hno]; [done|]. rewrite lookup_empty.
  destruct (o !! k) eqn:Hk; [|done]. exfalso. apply Hno. rewrite elem_of_sorted_keys, Hk. eauto.
Qed.

Lemma parse_state_data o :
  map_Forall (λ b _, validateBridgeName b = Ok ()) o → parse (state_data o) = Some (state_json o).
Proof.
  intros Hv. apply parse_Marshal; [| |reflexivity].
  - cbn [printable state_json map]. repeat constructor.
    cbn [id snd printable].
    apply (Forall_fmap (λ kv : string * Json, valid_utf8 0 kv.1 = kv.1 ∧ printable kv.2) id).
    apply Forall_forall.
    intros [k v] Hin. unfold map_members in Hin. apply list_elem_of_omap in Hin as (k' & _ & Hk').
    apply bind_Some in Hk' as (a & Ha & [= <- <-]). cbn. split; [|done].
    apply valid_bridge_utf8. by apply (Hv k' a).
  - assert (foldr N.max 0%N (map (λ kv : string * Json, jdepth kv.2) (map_members JBool o)) = 0%N)
      as Hz.
    { unfold map_members. induction (sorted_keys o) as [|k ks IH]; [done|].
      cbn [omap list_omap]. destruct (o !! k); cbn [mbind option_bind]; [|exact IH].
      cbn [map foldr]. by rewrite IH. }
    cbn [jdepth state_json map foldr snd]. rewrite Hz. vm_compute. discriminate.
Qed.

(** C26: the ownership file written for valid bridges is read back, after a
    restart, as the same map of original values. *)
Theorem route_localnet_state_roundtrip `{!MapRange} path original :
  map_Forall (λ b _, validateBridgeName b = Ok ()) original →
  exec (loadRouteLocalnetState path)
    [ev (Σ := host_sig) (ReadFile path) (Ok (state_data original))] (Ok original).
Proof.
  intros Hv. unfold loadRouteLocalnetState. apply exec_bind.
  eexists [_], [], _. split; [reflexivity|]. split; [by apply exec_call1|].
  cbn beta iota. unfold Unmarshal. rewrite (parse_state_data original Hv), decode_state_json.
  apply exec_ret. split; [done|]. cbn [wrap_err mbind result_bind check_state].
  symmetry. apply result_bind_Ok. exists (). split; [|done].
  apply range_iter_Ok. intros b v Hb. rewrite wrap_err_Ok. by apply (Hv b v).
Qed.

Lemma route_localnet_state_roundtrip_witness :
  let original : gmap string bool := {[ "br0" := false; "docker0" := true ]} in
  state_data original =
    "{" +:+ dquote +:+ "version" +:+ dquote +:+ ":1," +:+ dquote +:+ "original" +:+ dquote +:+ ":{"
    +:+ dquote +:+ "br0" +:+ dquote +:+ ":false," +:+ dquote +:+ "docker0" +:+ dquote +:+ ":true}}"
    +:+ nl ∧
  exec (@loadRouteLocalnetState range_backward "/s")
    [ev (Σ := host_sig) (ReadFile "/s") (Ok (state_data original))] (Ok original).
Proof.
  intros original. split; [vm_compute; reflexivity|].
  apply (@route_localnet_state_roundtrip range_backward).
  apply map_Forall_insert_2; [reflexivity|]. apply map_Forall_singleton. reflexivity.
Defined.

(** ** The original values are never lost *)

(** A file of the kernel's per-interface switches. *)
Definition is_switch (p : string) : bool := HasPrefix p "/proc/sys/net/ipv4/conf/".

(** The kernel's switches, by path. A trace is consistent with them when every
    read gives the current value and only an absent switch is reported absent;
    the result is the state after the trace's writes. *)
Definition switch_step (σ : gmap string bool) (e : hevent) : option (gmap string bool) :=
  match e with
  | existT (ReadFile p) (Ok text) =>
      match σ !! p with
      | Some v => if bool_decide (parse_switch text = Some v) then Some σ else None
      | None => if is_switch p then None else Some σ
      end
  | existT (WriteFile p text) None =>
      _ ← σ !! p; v ← parse_switch text; Some (<[p := v]> σ)
  | existT (WriteFile p _) (Some e) =>
      if is_not_exist e && bool_decide (is_Some (σ !! p)) then None else Some σ
  | _ => Some σ
  end.

Fixpoint replay (σ : gmap string bool) (tr : list hevent) : option (gmap string bool) :=
  match tr with
  | [] => Some σ
  | e :: tr' => σ' ← switch_step σ e; replay σ' tr'
  end.

(** [base] are the values before this family of processes changed any: an
    owned bridge records its base value, every other switch still has it. *)
Record owned (base σ original : gmap string bool) : Prop := {
  owned_dom : dom σ = dom base;
  owned_value : ∀ b v, original !! b = Some v → base !! sysctl_path b = Some v;
  owned_rest : ∀ p, (∀ b v, original !! b = Some v → p ≠ sysctl_path b) → σ !! p = base !! p;
}.

Lemma replay_app σ tr1 tr2 :
  replay σ (tr1 ++ tr2) = σ' ← replay σ tr1; replay σ' tr2.
Proof.
  revert σ. induction tr1 as [|e tr1 IH]; intros σ; [done|]. cbn [replay app].
  destruct (switch_step σ e) as [σ'|]; [apply IH|done].
Qed.

Lemma app_cancel_l s t u : s +:+ t = s +:+ u → t = u.
Proof. induction s as [|a s IH]; [done|]. rewrite !app_cons_str. intros [= H]. auto. Qed.
Lemma app_cancel_r s t u : t +:+ s = u +:+ s → t = u.
Proof.
  revert u. induction t as [|a t IH]; intros [|b u]; [done|..];
    rewrite ?app_nil_l_str, ?app_cons_str; intros H.
  - apply (f_equal String.length) in H. cbn in H. rewrite length_app_str in H. lia.
  - apply (f_equal String.length) in H. cbn in H. rewrite length_app_str in H. lia.
  - injection H as -> H. f_equal. by apply IH.
Qed.

Lemma sysctl_path_inj b1 b2 : sysctl_path b1 = sysctl_path b2 → b1 = b2.
Proof. unfold sysctl_path. intros H%app_cancel_l. by apply app_cancel_r in H. Qed.

Lemma parse_switch_text v : parse_switch (switch_text v) = Some v.
Proof. by destruct v. Qed.

(** What a replayed write did. *)
Lemma setBridge_exec b v tr r σ σ' :
  exec (setBridgeRouteLocalnet b v) tr r → replay σ tr = Some σ' →
  (σ' = σ ∧ (r = Ok () → σ !! sysctl_path b = None ∧ v = false)) ∨
  (σ' = <[sysctl_path b := v]> σ ∧ is_Some (σ !! sysctl_path b)).
Proof.
  unfold setBridgeRouteLocalnet. intros H Hr.
  apply exec_pbind_ok in H as [(e & -> & [-> _])|(? & tr2 & [] & -> & [-> _] & H)].
  { left. cbn in Hr. injection Hr as <-. done. }
  apply exec_bind in H as (tr3 & tr4 & err & -> & ->%exec_call1 & [-> ->]).
  cbn in Hr. destruct err as [e|].
  - destruct (is_not_exist e) eqn:He; cbn in Hr.
    + case_bool_decide as Hs; [done|]. injection Hr as <-. left. split; [done|].
      destruct v; [done|]. intros _. split; [|done]. by destruct (σ !! _); [destruct Hs|].
    + injection Hr as <-. left. split; [done|]. rewrite andb_false_r. done.
  - destruct (σ !! sysctl_path b) eqn:Hs; [|done]. cbn in Hr.
    rewrite parse_switch_text in Hr. injection Hr as <-. right. eauto.
Qed.

Lemma owned_write base σ original b v w :
  owned base σ original → original !! b = Some v → is_Some (σ !! sysctl_path b) →
  owned base (<[sysctl_path b := w]> σ) original.
Proof.
  intros [Hd Hv Hr] Hb Hs. split.
  - rewrite dom_insert_L. apply elem_of_dom in Hs. rewrite <-Hd. set_solver.
  - exact Hv.
  - intros p Hp. rewrite lookup_insert_ne; [by apply Hr|]. intros <-. by eapply Hp.
Qed.

Lemma owned_present base σ original b v :
  owned base σ original → original !! b = Some v → is_Some (σ !! sysctl_path b).
Proof.
  intros [Hd Hv _] Hb. apply elem_of_dom. rewrite Hd. apply elem_of_dom.
  rewrite (Hv _ _ Hb). eauto.
Qed.

(** Setting owned switches, one after the other. *)
Lemma set_all_exec msg base original (val : string → bool) bridges tr r σ σ' :
  exec (pforeach (λ b, wrapped msg (setBridgeRouteLocalnet b (val b))) bridges) tr r →
  replay σ tr = Some σ' → owned base σ original →
  Forall (λ b, is_Some (original !! b)) bridges →
  owned base σ' original ∧
  (∀ p, (∀ b, b ∈ bridges → p ≠ sysctl_path b) → σ' !! p = σ !! p) ∧
  (r = Ok () → ∀ b, b ∈ bridges → σ' !! sysctl_path b = Some (val b)).
Proof.
  revert tr σ. induction bridges as [|b bridges IH]; intros tr σ; cbn [pforeach].
  { intros [-> _] [= <-] Ho _. split_and!; [done|done|]. intros _ b Hb.
    by apply not_elem_of_nil in Hb. }
  intros H Hrep Ho [[v Hb] Hall]%Forall_cons.
  apply exec_pbind_ok in H as [(e & -> & H)|(tr1 & tr2 & [] & -> & H1 & H2)].
  - apply exec_wrapped in H as (r' & H & Hw).
    destruct (setBridge_exec _ _ _ _ _ _ H Hrep) as [[-> _]|[-> Hs]].
    + split_and!; done.
    + split; [by eapply owned_write|]. split; [|done]. intros p Hp.
      rewrite lookup_insert_ne; [done|]. intros <-. apply (Hp b); [apply list_elem_of_here|done].
  - rewrite replay_app in Hrep. apply bind_Some in Hrep as (σ1 & Hr1 & Hr2).
    apply exec_wrapped in H1 as ([[]|] & H1 & Hw); [|done].
    assert (σ1 = <[sysctl_path b := val b]> σ) as ->.
    { destruct (setBridge_exec _ _ _ _ _ _ H1 Hr1) as [[-> Hno]|[-> _]]; [|done].
      destruct (Hno eq_refl) as [Hn _]. destruct (owned_present _ _ _ _ _ Ho Hb). congruence. }
    pose proof (owned_write _ _ _ _ _ (val b) Ho Hb (owned_present _ _ _ _ _ Ho Hb)) as Ho1.
    destruct (IH _ _ H2 Hr2 Ho1 Hall) as (Ho' & Hrest & Hset). split; [done|]. split.
    + intros p Hp. rewrite Hrest by (intros b' Hb'; apply Hp; by apply list_elem_of_further).
      rewrite lookup_insert_ne; [done|]. intros <-. apply (Hp b); [apply list_elem_of_here|done].
    + intros Hok b' Hb'. destruct (decide (b' ∈ bridges)) as [Hin|Hnin]; [by apply Hset|].
      apply elem_of_cons in Hb' as [->|?]; [|done].
      rewrite Hrest; [apply lookup_insert_eq|]. intros b' Hb' Heq%sysctl_path_inj. by subst.
Qed.

Lemma elem_of_removed_bridges original rules b :
  b ∈ removed_bridges original rules ↔
  is_Some (original !! b) ∧ RouteLocalnetBridges rules !! b ≠ Some true.
Proof.
  unfold removed_bridges, zget. rewrite list_elem_of_filter, elem_of_sorted_keys.
  destruct (RouteLocalnetBridges rules !! b) as [[]|]; cbn; naive_solver.
Qed.

(** Restoring keeps the invariant, on errors too, and on success every removed
    bridge is back at its base value. *)
Lemma restore_exec base original rules tr r σ σ' :
  exec (restoreRemovedRouteLocalnet original rules) tr r → replay σ tr = Some σ' →
  owned base σ original →
  owned base σ' original ∧
  (r = Ok () → ∀ b, is_Some (original !! b) → RouteLocalnetBridges rules !! b ≠ Some true →
     σ' !! sysctl_path b = base !! sysctl_path b).
Proof.
  intros H Hr Ho. unfold restoreRemovedRouteLocalnet in H.
  destruct (set_all_exec _ base original _ _ _ _ _ _ H Hr Ho) as (Ho' & _ & Hset).
  { apply Forall_forall. intros b Hb. by apply elem_of_removed_bridges in Hb as [? _]. }
  split; [done|]. intros Hok b [v Hb] Hn.
  rewrite (Hset Hok b) by (apply elem_of_removed_bridges; eauto).
  unfold zget. rewrite Hb. symmetry. by apply (owned_value _ _ _ Ho).
Qed.

(** Calls that change no switch. *)
Definition no_write (c : hcall) : Prop :=
  match c with WriteFile _ _ => False | _ => True end.

Lemma replay_no_write σ tr σ' :
  Forall (λ e : hevent, no_write (projT1 e)) tr → replay σ tr = Some σ' → σ' = σ.
Proof.
  intros Htr. revert σ. induction Htr as [|[c r] tr Hc _ IH]; intros σ; [by intros [= <-]|].
  cbn [replay]. intros (σ1 & H1 & H2)%bind_Some.
  assert (σ1 = σ) as ->.
  { destruct c; try (by injection H1); try done.
    cbn in H1. destruct r as [text|e]; [|by injection H1].
    destruct (σ !! path) as [v|]; [by case_bool_decide; [injection H1|]|].
    by destruct (is_switch path); [|injection H1]. }
  by apply IH.
Qed.

Lemma replay_calls {A} (m : hprog A) σ tr r σ' :
  hcalls no_write m → exec m tr r → replay σ tr = Some σ' → σ' = σ.
Proof.
  intros Hm H. apply replay_no_write. exact (calls_in_exec (Σ := host_sig) _ _ _ _ Hm H).
Qed.

Lemma switch_sysctl_path b : is_switch (sysctl_path b) = true.
Proof. unfold is_switch, sysctl_path. cbn. by destruct (b +:+ _). Qed.

Lemma save_no_write path o : hcalls no_write (saveRouteLocalnetState path o).
Proof.
  apply calls_in_bind; [by apply calls_in_call1|]. intros merr.
  apply calls_in_pbind_ok; [done|]. intros _.
  apply calls_in_pbind_ok; [by apply calls_in_call1|]. intros file.
  apply calls_in_bind.
  - apply calls_in_pbind_ok.
    + unfold write_temporary. apply calls_in_bind; [by apply calls_in_call1|]. intros cerr.
      destruct cerr; [by apply calls_in_bind; [apply calls_in_call1|]|].
      apply calls_in_bind; [by apply calls_in_call1|]. intros werr.
      destruct werr; [by apply calls_in_bind; [apply calls_in_call1|]|].
      apply calls_in_bind; [by apply calls_in_call1|]. intros serr.
      destruct serr; by apply calls_in_bind; [apply calls_in_call1|].
    + intros _. by apply calls_in_bind; [apply calls_in_call1|].
  - intros r. by apply calls_in_bind; [apply calls_in_call1|].
Qed.

Lemma readBridge_exec b tr r σ σ' :
  exec (readBridgeRouteLocalnet b) tr r → replay σ tr = Some σ' →
  σ' = σ ∧ ∀ v, r = Ok v → σ !! sysctl_path b = Some v.
Proof.
  unfold readBridgeRouteLocalnet. intros H Hr.
  apply exec_pbind_ok in H as [(e & -> & [-> _])|(? & tr2 & [] & -> & [-> _] & H)].
  { cbn in Hr. by injection Hr as <-. }
  apply exec_pbind_ok in H as [(e & -> & ->%exec_call1)|(? & tr3 & text & -> & ->%exec_call1 & [-> ->])].
  { cbn in Hr. by injection Hr as <-. }
  cbn [replay app switch_step ev mbind option_bind] in Hr. rewrite switch_sysctl_path in Hr.
  destruct (σ !! sysctl_path b) as [v|] eqn:Hs; [|done].
  case_bool_decide as Hp; [|done]. injection Hr as <-. split; [done|].
  intros v'. rewrite Hp. by intros [= ->].
Qed.

Definition next_value (original σ : gmap string bool) (b : string) : option bool :=
  match original !! b with Some v => Some v | None => σ !! sysctl_path b end.

Lemma next_originals_exec original bridges next0 tr r σ σ' :
  exec (pfold (next_original original) next0 bridges) tr r → replay σ tr = Some σ' →
  σ' = σ ∧ ∀ next, r = Ok next →
    (∀ b, next !! b = if decide (b ∈ bridges) then next_value original σ b else next0 !! b) ∧
    Forall (λ b, is_Some (next !! b)) bridges.
Proof.
  revert next0 tr σ. induction bridges as [|b bridges IH]; intros next0 tr σ; cbn [pfold].
  { intros [-> ->] [= <-]. split; [done|]. intros next [= ->]. split; [|done]. intros b.
    rewrite decide_False; [done|]. apply not_elem_of_nil. }
  intros H Hr.
  assert (∀ tr1 x σ1, exec (next_original original next0 b) tr1 x → replay σ tr1 = Some σ1 →
    σ1 = σ ∧ ∀ n, x = Ok n → ∃ v, next_value original σ b = Some v ∧ n = <[b := v]> next0) as Hone.
  { intros tr1 x σ1 Hx Hr1. unfold next_original, next_value in *.
    destruct (original !! b) as [v|].
    - destruct Hx as [-> ->]. injection Hr1 as <-. split; [done|]. intros n [= <-]. eauto.
    - apply exec_pbind_ok in Hx as [(e & -> & Hx)|(t1 & t2 & v & -> & Hx & [-> ->])].
      + apply exec_wrapped in Hx as (y & Hx & _).
        by destruct (readBridge_exec _ _ _ _ _ Hx Hr1) as [-> _].
      + rewrite app_nil_r in Hr1. apply exec_wrapped in Hx as ([y|] & Hx & Hw); [|done].
        injection Hw as <-. destruct (readBridge_exec _ _ _ _ _ Hx Hr1) as [-> Hv].
        split; [done|]. intros n [= <-]. eauto. }
  apply exec_pbind_ok in H as [(e & -> & H)|(tr1 & tr2 & next1 & -> & H1 & H2)].
  { by destruct (Hone _ _ _ H Hr) as [-> _]. }
  rewrite replay_app in Hr. apply bind_Some in Hr as (σ1 & Hr1 & Hr2).
  destruct (Hone _ _ _ H1 Hr1) as [-> Hn1]. destruct (Hn1 _ eq_refl) as (v & Hv & ->).
  destruct (IH _ _ _ H2 Hr2) as [-> Hn]. split; [done|]. intros next Hok.
  destruct (Hn next Hok) as [Hnext Hall].
  assert (∀ b', next !! b' = if decide (b' ∈ b :: bridges) then next_value original σ b'
    else next0 !! b') as Hlook.
  { intros b'. rewrite Hnext. destruct (decide (b' ∈ bridges)) as [Hin|Hnin].
    - rewrite decide_True; [done|]. by apply list_elem_of_further.
    - destruct (decide (b' = b)) as [->|Hne].
      + rewrite lookup_insert_eq, decide_True; [done|apply list_elem_of_here].
      + rewrite lookup_insert_ne, decide_False; [done| |done].
        intros [?|?]%elem_of_cons; done. }
  split; [exact Hlook|]. constructor; [|done].
  rewrite Hlook, decide_True, Hv; [eauto|apply list_elem_of_here].
Qed.

(** Activating keeps the invariant for the ownership map it returns, provided
    the bridges it drops have been restored; on success exactly the enabled
    bridges are owned and switched on. *)
Lemma activate_exec base original rules tr original' r σ σ' :
  exec (activateRouteLocalnet original rules) tr (original', r) → replay σ tr = Some σ' →
  owned base σ original →
  (∀ b, is_Some (original !! b) → RouteLocalnetBridges rules !! b ≠ Some true →
     σ !! sysctl_path b = base !! sysctl_path b) →
  owned base σ' original' ∧
  (r = Ok () → ∀ b, (is_Some (original' !! b) ↔ RouteLocalnetBridges rules !! b = Some true) ∧
     (RouteLocalnetBridges rules !! b = Some true → σ' !! sysctl_path b = Some true)).
Proof.
  unfold activateRouteLocalnet. set (bridges := sortedEnabledBridges _).
  intros H Hr Ho Hdrop.
  apply exec_bind in H as (tr1 & tr2 & x & -> & H1 & H).
  rewrite replay_app in Hr. apply bind_Some in Hr as (σ1 & Hr1 & Hr2).
  destruct (next_originals_exec _ _ _ _ _ _ _ H1 Hr1) as [-> Hnext].
  destruct x as [next|e]; [|by destruct H as [-> [= -> ->]]; injection Hr2 as <-].
  destruct (Hnext next eq_refl) as [Hn Hall]. clear Hnext.
  apply exec_bind in H as (tr3 & tr4 & s & -> & Hs & H).
  rewrite replay_app in Hr2. apply bind_Some in Hr2 as (σ2 & Hr3 & Hr4).
  apply exec_wrapped in Hs as (s' & Hs & _).
  apply (replay_calls _ _ _ _ _ (save_no_write _ _) Hs) in Hr3. subst σ2.
  destruct s as [[]|e]; [|by destruct H as [-> [= -> ->]]; injection Hr4 as <-].
  apply exec_bind in H as (tr5 & tr6 & y & -> & Hy & [-> [= -> ->]]).
  rewrite app_nil_r in Hr4.
  assert (∀ b, b ∈ bridges ↔ RouteLocalnetBridges rules !! b = Some true) as Hin
    by apply elem_of_sortedEnabledBridges.
  assert (∀ b, is_Some (next !! b) ↔ b ∈ bridges) as Hdom.
  { intros b. split.
    - rewrite Hn. destruct (decide (b ∈ bridges)); [done|]. by intros [? ?].
    - rewrite Forall_forall in Hall. apply Hall. }
  assert (owned base σ next) as Hown.
  { destruct Ho as [Hd Hv Hrest]. split; [done| |].
    - intros b v Hb. rewrite Hn in Hb. destruct (decide (b ∈ bridges)); [|done].
      unfold next_value in Hb. destruct (original !! b) as [w|] eqn:Hob.
      + injection Hb as ->. by apply Hv.
      + rewrite Hrest in Hb; [done|]. intros b' v' Hb' Heq%sysctl_path_inj. congruence.
    - intros p Hp. destruct (decide (Exists (λ b, p = sysctl_path b) (map_to_list original).*1))
        as [Hex|Hno].
      + apply Exists_exists in Hex as (b & Hb & ->).
        apply list_elem_of_fmap in Hb as ([b' v] & -> & Hb%elem_of_map_to_list). cbn in *.
        apply Hdrop; [eauto|]. rewrite <-Hin, <-Hdom. intros [v' Hv'].
        by apply (Hp b' v').
      + apply Hrest. intros b v Hb ->. apply Hno, Exists_exists. exists b. split; [|done].
        apply list_elem_of_fmap. exists (b, v). split; [done|]. by apply elem_of_map_to_list. }
  destruct (set_all_exec _ base next (λ _, true) _ _ _ _ _ Hy Hr4 Hown Hall) as (Ho' & _ & Hset).
  split; [done|]. intros Hok b. rewrite Hdom, Hin. split; [done|].
  intros Hb. apply (Hset Hok), Hin, Hb.
Qed.
