(* ===== verification/NftRules.v ===== *)
(** * The native nftables batch of the host ports (hostports/nft.go)

    The batch replaces the one table the watcher owns; the periodic check
    compares nft's JSON listing with what was applied. *)
From S2P Require Import Prelude Effects GoStrings GoNet Metadata Json World PortRules.

Definition nftHostportsTable : string := "pasturestack_hostports".

(** ** The batch *)

(** A base chain: its name, its type line and its rules, word by word. *)
Record nft_chain := { chain_name : string; chain_type : list string; chain_rules : list (list string) }.

Definition type_words (type hook prio : string) : list string :=
  ["type"; type; "hook"; hook; "priority"; prio +:+ ";"; "policy"; "accept;"].

Definition mark_words : list string := ["meta"; "mark"; "set"; "meta"; "mark"; "|"; "0x1068"].

Definition local_match (p : PortRule.t) : list string :=
  ["fib"; "daddr"; "type"; "local"]
  ++ (if String.eqb (SourceIP p) any_address then [] else ["ip"; "daddr"; SourceIP p])
  ++ [Protocol p; "dport"; SourcePort p].

Definition nftPortMatch (p : PortRule.t) : string := sp (local_match p).

Definition to_target (p : PortRule.t) : list string := ["dnat"; "to"; target p].

(** The published target of a port. *)
Definition at_target (p : PortRule.t) : list string :=
  ["ip"; "daddr"; TargetIP p; Protocol p; "dport"; TargetPort p].

Definition prerouting_rules (p : PortRule.t) : list (list string) :=
  if String.eqb (Bridge p) "" then [local_match p ++ mark_words ++ to_target p]
  else [local_match p ++ ["iifname"; "!="; Quote (Bridge p)] ++ mark_words ++ to_target p;
        local_match p ++ ["iifname"; Quote (Bridge p)] ++ mark_words ++ to_target p].

Definition postrouting_rules (p : PortRule.t) : list (list string) :=
  (if String.eqb (Bridge p) "" then []
   else [["iifname"; Quote (Bridge p); "oifname"; Quote (Bridge p)] ++ at_target p ++ ["masquerade"]])
  ++ [["ip"; "saddr"; TargetIP p] ++ at_target p ++ ["masquerade"];
      (if MasqueradeDNAT p then [] else ["fib"; "saddr"; "type"; "local"])
      ++ ["ct"; "status"; "dnat"] ++ at_target p ++ ["masquerade"]].

Definition ct_state (states : string) : list string := ["ct"; "state"; states] ++ mark_words ++ ["accept"].

Definition forward_rules (rules : ruleSet) : list (list string) :=
  concat (map (λ n,
    [["iifname"; Quote (NetBridge n); "ip"; "saddr"; NetSubnet n] ++ ct_state "new,established,related";
     ["oifname"; Quote (NetBridge n); "ip"; "daddr"; NetSubnet n] ++ ct_state "established,related"])
    (sortedForwardNetworks rules))
  ++ map (λ n, ["oifname"; Quote (NetBridge n); "ip"; "saddr"; NetSubnet n; "ip"; "daddr"; NetSubnet n]
               ++ ct_state "new,established,related") (sortedSharedIngressNetworks rules)
  ++ map (λ pr, ["oifname"; Quote (PairBridge pr); "ip"; "saddr"; Peer pr; "ip"; "daddr"; Local pr]
               ++ mark_words ++ ["accept"]) (sortedForwardPeers rules)
  ++ map (λ p, ["ct"; "status"; "dnat"] ++ at_target p ++ mark_words ++ ["accept"]) (sortedPorts rules)
  ++ [["meta"; "mark"; "&"; "0x1068"; "=="; "0x1068"; "accept"]; ["meta"; "mark"; "0x4000"; "accept"]].

Definition batch_chains (rules : ruleSet) : list nft_chain := [
  {| chain_name := "raw_prerouting"; chain_type := type_words "filter" "prerouting" "-300";
     chain_rules := map (λ b, ["iifname"; Quote b; "ip"; "daddr"; "127.0.0.0/8"; "drop"])
                        (sortedEnabledBridges (RouteLocalnetBridges rules)) |};
  {| chain_name := "prerouting"; chain_type := type_words "nat" "prerouting" "-101";
     chain_rules := concat (map prerouting_rules (sortedPorts rules)) |};
  {| chain_name := "output"; chain_type := type_words "nat" "output" "-101";
     chain_rules := map (λ p, local_match p ++ to_target p) (sortedPorts rules) |};
  {| chain_name := "postrouting"; chain_type := type_words "nat" "postrouting" "99";
     chain_rules := concat (map postrouting_rules (sortedPorts rules)) |};
  {| chain_name := "forward"; chain_type := type_words "filter" "forward" "-1";
     chain_rules := forward_rules rules |} ].

(** A line: its indentation and its words. *)
Definition chain_lines (c : nft_chain) : list (nat * list string) :=
  (1, ["chain"; chain_name c; "{"]) :: (2, chain_type c) ::
  map (λ ws, (2, ws)) (chain_rules c) ++ [(1, ["}"])].

Definition batch_lines (rules : ruleSet) (existing : bool) : list (nat * list string) :=
  (if existing then [(0, ["delete"; "table"; "ip"; nftHostportsTable])] else [])
  ++ [(0, ["table"; "ip"; nftHostportsTable; "{"])]
  ++ concat (map chain_lines (batch_chains rules))
  ++ [(0, ["}"])].

Definition spaces (n : nat) : string := Nat.iter n (String " ") "".

Definition nftHostportBatch (rules : ruleSet) (existing : bool) : string :=
  Join (map (λ l, spaces l.1 +:+ sp l.2) (batch_lines rules existing) ++ [""]) nl.

(** Whether the listing of the tables has the watcher's own. *)
Definition table_exists (out : string) : bool :=
  existsb (λ line, bool_decide (Fields line = ["table"; "ip"; nftHostportsTable])) (Split out "010").

(** ** The check of the live table *)

Record hook := { hook_type : string; hook_hook : string; hook_prio : Z; hook_policy : string }.

#[export] Instance hook_eq_dec : EqDecision hook.
Proof. solve_decision. Defined.

Definition expected : gmap string hook := {[
  "raw_prerouting" := Build_hook "filter" "prerouting" (-300) "accept";
  "prerouting" := Build_hook "nat" "prerouting" (-101) "accept";
  "output" := Build_hook "nat" "output" (-101) "accept";
  "postrouting" := Build_hook "nat" "postrouting" 99 "accept";
  "forward" := Build_hook "filter" "forward" (-1) "accept" ]}.

Definition has_bridge (p : PortRule.t) : nat := if String.eqb (Bridge p) "" then 0 else 1.

(** The number of rules the applied rule set put into each chain. *)
Definition ruleCount (applied : ruleSet) : gmap string nat := {[
  "raw_prerouting" := length (sortedEnabledBridges (RouteLocalnetBridges applied));
  "prerouting" := sum_list_with (λ p, 1 + has_bridge p) (sortedPorts applied);
  "output" := sum_list_with (λ _, 1) (sortedPorts applied);
  "postrouting" := sum_list_with (λ p, has_bridge p + 2) (sortedPorts applied);
  "forward" := 2 + 2 * length (sortedForwardNetworks applied)
    + length (sortedSharedIngressNetworks applied) + length (sortedForwardPeers applied)
    + length (sortedPorts applied) ]}.

Abbreviation members := (list (string * Json)).

(** The objects of the listing; the last "nftables" member counts. *)
Definition listing_items (v : Json) : result (list members) :=
  ms ← struct_members v;
  match last (field_values "nftables" ms) with
  | None | Some JNull => Ok []
  | Some (JArray l) => result_fold (λ acc v, m ← struct_members v; Ok (acc ++ [m])) [] l
  | Some _ => Err type_error
  end.

(** Family, table, name and hook of a chain; family, table and chain of a rule. *)
Definition decode_chain (raw : Json) : result (string * string * string * hook) :=
  ms ← struct_members raw;
  family ← string_field "family" ms; table ← string_field "table" ms;
  name ← string_field "name" ms; type ← string_field "type" ms;
  hk ← string_field "hook" ms; prio ← int_field "prio" ms; policy ← string_field "policy" ms;
  Ok (family, table, name, Build_hook type hk prio policy).

Definition decode_rule (raw : Json) : result (string * string * string) :=
  ms ← struct_members raw;
  family ← string_field "family" ms; table ← string_field "table" ms;
  chain ← string_field "chain" ms;
  Ok (family, table, chain).

Record tally := { seen : gset string; actual : gmap string nat }.

Definition tally_chain (item : members) (t : tally) : result tally :=
  match raw_member "chain" item with
  | None => Ok t
  | Some raw =>
      '(family, table, name, got) ← wrap_err "decode native nft hostport chain" (decode_chain raw);
      match expected !! name with
      | None => Ok t
      | Some want =>
          if bool_decide (family = "ip" ∧ table = nftHostportsTable ∧ got = want)
          then Ok {| seen := {[name]} ∪ seen t; actual := actual t |}
          else Err (Errorf "native nft hostport chain has unexpected hook or policy")
      end
  end.

Definition tally_rule (item : members) (t : tally) : result tally :=
  match raw_member "rule" item with
  | None => Ok t
  | Some raw =>
      '(family, table, chain) ← wrap_err "decode native nft hostport rule" (decode_rule raw);
      if bool_decide (family = "ip" ∧ table = nftHostportsTable)
      then Ok {| seen := seen t; actual := <[chain := zget 0 (actual t) chain + 1]> (actual t) |}
      else Ok t
  end.

Definition tally_item (t : tally) (item : members) : result tally :=
  t' ← tally_chain item t; tally_rule item t'.

Section check.
Context `{!MapRange}.

Definition check_items (applied : ruleSet) (items : list members) : result () :=
  t ← result_fold tally_item {| seen := ∅; actual := ∅ |} items;
  result_iter (λ e : string * hook,
    if bool_decide (e.1 ∈ seen t ∧ zget 0 (actual t) e.1 = zget 0 (ruleCount applied) e.1)
    then Ok () else Err (Errorf "native nft hostport chain is missing or has other rules"))
    (range_map 0 expected).

Definition checkNFTRules (applied : ruleSet) : hprog (result ()) :=
  '(out, err) ← call1 (Command ["nft"; "-j"; "list"; "table"; "ip"; nftHostportsTable] "");
  match err with
  | Some e => Ret (Err (Wrapf "inspect native nft hostport table" e))
  | None =>
      Ret (items ← wrap_err "decode native nft hostport table" (Unmarshal listing_items out);
           check_items applied items)
  end.
End check.

(** ** The batch holds the intended rules only *)

Lemma Fields_space s : Fields (String " " s) = Fields s.
Proof. reflexivity. Qed.

Lemma Fields_spaces n s : Fields (spaces n +:+ s) = Fields s.
Proof.
  induction n as [|n IH]; [done|]. change (spaces (S n)) with (String " " (spaces n)).
  rewrite app_cons_str. by rewrite Fields_space.
Qed.

Lemma plain_Quote b : validateBridgeName b = Ok () → plain (Quote b) = true.
Proof.
  intros (_ & _ & Hb)%validateBridgeName_Ok. unfold Quote.
  assert (quote_body b = b) as ->.
  { induction b as [|a b IH]; [done|]. cbn in Hb. apply andb_true_iff in Hb as [Ha Hb].
    cbn [quote_body]. rewrite IH by done.
    by destruct a as [[] [] [] [] [] [] [] []]. }
  apply plain_intro; [|done]. rewrite !all_bytes_app.
  rewrite (all_bytes_weaken _ _ _ bridge_byte_plain Hb). done.
Qed.

#[local] Hint Resolve plain_target plain_protocol plain_ipv4 plain_port plain_subnet
  plain_bridge plain_Quote : words.
#[local] Hint Constructors Forall : words.
#[local] Hint Extern 0 (plain _ = true) => reflexivity : words.

(** Take a list of words apart into its parts. *)
Ltac plain_parts := repeat first
  [ assumption | apply Forall_nil_2 | apply Forall_app; split | apply Forall_cons_2
  | case_match | solve [auto with words] ].

Lemma plain_at_target p : validatePortRule p = Ok () → plain_words (at_target p).
Proof.
  intros (_ & ? & ? & ? & ? & ?)%validatePortRule_Ok. unfold at_target, plain_words. plain_parts.
Qed.

Lemma plain_local_match p : validatePortRule p = Ok () → plain_words (local_match p).
Proof.
  intros (_ & ? & ? & ? & ? & ?)%validatePortRule_Ok. unfold local_match, plain_words. plain_parts.
Qed.

Lemma bridge_Quote p :
  validatePortRule p = Ok () → String.eqb (Bridge p) "" = false → plain (Quote (Bridge p)) = true.
Proof.
  intros ([Hb|Hb] & _)%validatePortRule_Ok Hne; [by rewrite Hb in Hne|by apply plain_Quote].
Qed.

Lemma plain_port_rules p :
  validatePortRule p = Ok () →
  Forall plain_words (prerouting_rules p) ∧ plain_words (local_match p ++ to_target p) ∧
  Forall plain_words (postrouting_rules p) ∧
  plain_words (["ct"; "status"; "dnat"] ++ at_target p ++ mark_words ++ ["accept"]).
Proof.
  intros Hv. pose proof (plain_local_match p Hv) as Hl. pose proof (plain_at_target p Hv) as Ha.
  pose proof (plain_target p Hv) as Ht. pose proof (bridge_Quote p Hv) as Hb.
  pose proof Hv as (_ & _ & ? & _)%validatePortRule_Ok.
  unfold prerouting_rules, postrouting_rules, mark_words, to_target, plain_words in *.
  split_and!; [destruct (String.eqb (Bridge p) "") eqn:E| |
    destruct (String.eqb (Bridge p) "") eqn:E|]; try specialize (Hb eq_refl); plain_parts.
Qed.

Lemma plain_batch_chains rules :
  valid_rules rules →
  Forall (λ c, plain_words ["chain"; chain_name c; "{"] ∧ plain_words (chain_type c) ∧
               Forall plain_words (chain_rules c)) (batch_chains rules).
Proof.
  intros [Hports Hsub Hbr Hsh Hpeers Hloc].
  assert (∀ n, n ∈ sortedForwardNetworks rules →
    plain (Quote (NetBridge n)) = true ∧ plain (NetSubnet n) = true) as Hnet.
  { intros n (Hb & Hs & _ & _)%elem_of_sortedForwardNetworks.
    destruct (Hsub _ _ Hs) as [? Hv]. rewrite <-Hb in Hv. auto with words. }
  assert (∀ p, p ∈ sortedPorts rules → validatePortRule p = Ok ()) as Hp.
  { intros p [k Hk]%elem_of_sortedPorts. by apply (Hports k). }
  unfold batch_chains. repeat (apply Forall_cons_2; [split; [|split]; cbn [chain_name chain_type chain_rules];
    [by repeat constructor|by repeat constructor|]|]); [..|apply Forall_nil_2].
  - apply Forall_fmap, Forall_forall. intros b Hb%elem_of_sortedEnabledBridges.
    specialize (Hloc b true Hb). cbn in Hloc. unfold compose, plain_words. plain_parts.
  - apply Forall_concat, Forall_fmap, Forall_forall. intros p Hin. by apply plain_port_rules, Hp.
  - apply Forall_fmap, Forall_forall. intros p Hin. by apply plain_port_rules, Hp.
  - apply Forall_concat, Forall_fmap, Forall_forall. intros p Hin. by apply plain_port_rules, Hp.
  - unfold forward_rules. rewrite !Forall_app. split_and!; [| | | |by repeat constructor].
    + apply Forall_concat, Forall_fmap, Forall_forall. intros n [Hb Hs]%Hnet.
      unfold compose, plain_words, ct_state, mark_words. plain_parts.
    + apply Forall_fmap, Forall_forall. intros n [_ [Hb Hs]%Hnet]%list_elem_of_filter.
      unfold compose, plain_words, ct_state, mark_words. plain_parts.
    + apply Forall_fmap, Forall_forall.
      intros pr (u & ps & Hu & Hpeer & Hl & Hbr')%elem_of_sortedForwardPeers.
      destruct (Hpeers u ps Hu) as (Hne & _ & Hps). rewrite Forall_forall in Hps.
      apply zget_lookup in Hne. destruct (Hsub u _ Hne) as [Hsn Hbn].
      rewrite <-Hl in Hsn. rewrite <-Hbr' in Hbn. apply plain_Quote in Hbn.
      apply plain_subnet in Hsn. specialize (Hps _ Hpeer). apply plain_subnet in Hps.
      unfold compose, plain_words, mark_words. plain_parts.
    + apply Forall_fmap, Forall_forall. intros p Hin. by apply plain_port_rules, Hp.
Qed.

Lemma plain_batch_lines rules existing :
  valid_rules rules → Forall (λ l, plain_words l.2) (batch_lines rules existing).
Proof.
  intros Hv%plain_batch_chains. unfold batch_lines. rewrite !Forall_app. split_and!.
  - destruct existing; by repeat constructor.
  - by repeat constructor.
  - apply Forall_concat, Forall_fmap. eapply Forall_impl; [exact Hv|].
    intros c (Hn & Ht & Hr). unfold compose, chain_lines.
    apply Forall_cons_2; [exact Hn|]. apply Forall_cons_2; [exact Ht|].
    apply Forall_app. split; [|by repeat constructor]. by apply Forall_fmap.
  - by repeat constructor.
Qed.

Lemma free_of_spaces n s : free_of "010" s = true → free_of "010" (spaces n +:+ s) = true.
Proof.
  intros Hs. unfold free_of in *. rewrite all_bytes_app, Hs, andb_true_r.
  induction n as [|n IH]; [done|]. exact IH.
Qed.

(** C6: nft reads from the batch of a validated rule set, line by line and word
    by word, the intended table and nothing else. *)
Theorem nft_batch_parsed `{!MapRange} rules existing :
  validateRuleSet rules = Ok () →
  Fields <$> Split (nftHostportBatch rules existing) "010" =
    (snd <$> batch_lines rules existing) ++ [[]].
Proof.
  intros Hv%validateRuleSet_Ok. pose proof (plain_batch_lines rules existing Hv) as Hp.
  unfold nftHostportBatch. change nl with (String "010" ""). rewrite Split_Join.
  - rewrite fmap_app. f_equal. induction Hp as [|[n ws] ls Hws _ IH]; [done|].
    cbn [map fmap list_fmap fst snd]. rewrite Fields_spaces. unfold sp at 1.
    rewrite Fields_Join by done. f_equal. exact IH.
  - by destruct (map _ _).
  - apply Forall_app. split; [|by repeat constructor]. apply Forall_fmap.
    eapply Forall_impl; [exact Hp|]. intros [n ws] Hws. by apply free_of_spaces, free_of_sp.
Qed.

Lemma nft_batch_parsed_witness :
  length (batch_lines demo_rules true) = 31 ∧
  Fields <$> Split (nftHostportBatch demo_rules true) "010" =
    (snd <$> batch_lines demo_rules true) ++ [[]].
Proof.
  split; [vm_compute; reflexivity|].
  apply (@nft_batch_parsed range_forward). vm_compute. reflexivity.
Defined.

(** ** What the check accepts *)

(** The owned rules of a chain in a listing. *)
Definition owned_rule (chain : string) (item : members) : bool :=
  match raw_member "rule" item with
  | Some raw =>
      match decode_rule raw with
      | Ok (family, table, c) =>
          String.eqb family "ip" && String.eqb table nftHostportsTable && String.eqb c chain
      | Err _ => false
      end
  | None => false
  end.

Definition owned_count (chain : string) (items : list members) : nat :=
  sum_list_with (λ item, if owned_rule chain item then 1 else 0) items.

(** A chain member that can be decoded and, when it has one of the expected
    names, is the watcher's own chain with the expected hook. *)
Definition sound_chain (item : members) : Prop :=
  ∀ raw, raw_member "chain" item = Some raw → ∃ family table name got,
    decode_chain raw = Ok (family, table, name, got) ∧
    ∀ want, expected !! name = Some want →
      family = "ip" ∧ table = nftHostportsTable ∧ got = want.
Definition sound_rule (item : members) : Prop :=
  ∀ raw, raw_member "rule" item = Some raw → is_Ok (decode_rule raw).

(** The listing has the watcher's chain [name]. *)
Definition declares (name : string) (item : members) : Prop :=
  ∃ raw want, raw_member "chain" item = Some raw ∧ expected !! name = Some want ∧
    decode_chain raw = Ok ("ip", nftHostportsTable, name, want).

(** The expected chain an item adds; [None] is an error. *)
Definition chain_status (item : members) : option (gset string) :=
  match raw_member "chain" item with
  | None => Some ∅
  | Some raw =>
      match decode_chain raw with
      | Err _ => None
      | Ok (family, table, name, got) =>
          match expected !! name with
          | None => Some ∅
          | Some want => if bool_decide (family = "ip" ∧ table = nftHostportsTable ∧ got = want)
                         then Some {[name]} else None
          end
      end
  end.

Lemma tally_chain_status item t :
  match chain_status item with
  | Some s => tally_chain item t = Ok {| seen := s ∪ seen t; actual := actual t |}
  | None => ¬ is_Ok (tally_chain item t)
  end.
Proof.
  assert (∀ t, t = {| seen := ∅ ∪ seen t; actual := actual t |}) as Ht.
  { intros [s a]. cbn. by rewrite union_empty_l_L. }
  unfold chain_status, tally_chain. destruct (raw_member "chain" item) as [raw|]; [|by rewrite <-Ht].
  destruct (decode_chain raw) as [[[[family table] name] got]|e]; cbn [wrap_err mbind result_bind];
    [|by intros [? ?]].
  destruct (expected !! name) as [want|]; [|by rewrite <-Ht].
  case_bool_decide; [done|by intros [? ?]].
Qed.

Lemma chain_status_sound item :
  match chain_status item with
  | Some s => sound_chain item ∧ ∀ name, name ∈ s ↔ declares name item
  | None => ¬ sound_chain item
  end.
Proof.
  unfold chain_status, sound_chain, declares.
  destruct (raw_member "chain" item) as [raw|] eqn:Hraw.
  2:{ split; [done|]. intros name. split; [by intros ?%not_elem_of_empty|]. by intros (? & ? & ? & _). }
  destruct (decode_chain raw) as [[[[family table] name] got]|e] eqn:Hd.
  2:{ intros H. destruct (H raw eq_refl) as (? & ? & ? & ? & H' & _). congruence. }
  destruct (expected !! name) as [want|] eqn:Hw.
  - case_bool_decide as Hc; [destruct Hc as (-> & -> & ->)|].
    + split.
      * intros raw' [= <-]. eexists _, _, _, _. split; [exact Hd|]. intros w Hw'. by simplify_eq.
      * intros n. rewrite elem_of_singleton. split; [intros ->; eauto 6|].
        intros (raw' & w & [= <-] & _ & Hd'). congruence.
    + intros H. destruct (H raw eq_refl) as (? & ? & ? & ? & Hd' & Hall).
      rewrite Hd in Hd'. injection Hd' as <- <- <- <-. by apply Hc, Hall.
  - split.
    + intros raw' [= <-]. eexists _, _, _, _. split; [exact Hd|]. intros w Hw'. congruence.
    + intros n. split; [by intros ?%not_elem_of_empty|].
      intros (raw' & w & [= <-] & Hn & Hd'). congruence.
Qed.

Lemma zget_insert {A} (z : A) m k k' v :
  zget z (<[k := v]> m) k' = if decide (k' = k) then v else zget z m k'.
Proof.
  unfold zget. destruct (decide (k' = k)) as [->|]; [by rewrite lookup_insert_eq|].
  by rewrite lookup_insert_ne.
Qed.

Lemma tally_rule_count item t :
  (sound_rule item ∧ ∃ t1, tally_rule item t = Ok t1 ∧ seen t1 = seen t ∧
     ∀ c, zget 0 (actual t1) c = zget 0 (actual t) c + if owned_rule c item then 1 else 0) ∨
  (¬ sound_rule item ∧ ¬ is_Ok (tally_rule item t)).
Proof.
  unfold sound_rule, tally_rule, owned_rule. destruct (raw_member "rule" item) as [raw|] eqn:Hraw.
  2:{ left. split; [done|]. exists t. split_and!; [done..|]. intros c. lia. }
  destruct (decode_rule raw) as [[[family table] chain]|e] eqn:Hd; cbn [wrap_err mbind result_bind].
  2:{ right. split; [|by intros [? ?]]. intros H. destruct (H raw eq_refl). congruence. }
  left. split; [intros raw' [= <-]; rewrite Hd; by eexists|].
  case_bool_decide as Hc.
  - destruct Hc as [-> ->]. eexists. split; [done|]. split; [done|]. intros c. cbn [actual].
    rewrite zget_insert. destruct (decide (c = chain)) as [->|Hne].
    + by rewrite !String.eqb_refl.
    + destruct (String.eqb_spec chain c); [by subst|]. rewrite !andb_false_r. lia.
  - exists t. split_and!; [done..|]. intros c.
    destruct (String.eqb_spec family "ip"), (String.eqb_spec table nftHostportsTable); cbn;
      try lia. by destruct Hc.
Qed.

Lemma tally_fold items t :
  (Forall (λ i, sound_chain i ∧ sound_rule i) items ∧ ∃ t1, result_fold tally_item t items = Ok t1 ∧
     (∀ name, name ∈ seen t1 ↔ name ∈ seen t ∨ Exists (declares name) items) ∧
     ∀ c, zget 0 (actual t1) c = zget 0 (actual t) c + owned_count c items) ∨
  (¬ Forall (λ i, sound_chain i ∧ sound_rule i) items ∧ ¬ is_Ok (result_fold tally_item t items)).
Proof.
  revert t. induction items as [|item items IH]; intros t; cbn [result_fold].
  { left. split; [done|]. exists t. split; [done|]. split; [|intros c; cbn; lia].
    intros name. rewrite Exists_nil. tauto. }
  unfold tally_item at 1 3. pose proof (tally_chain_status item t) as Hst.
  pose proof (chain_status_sound item) as Hso. rewrite Forall_cons.
  destruct (chain_status item) as [s|].
  2:{ right. split; [tauto|]. destruct (tally_chain item t) as [x|e]; [by destruct Hst; eexists|].
      by intros [? ?]. }
  rewrite Hst. cbn [mbind result_bind]. destruct Hso as [Hsc Hdecl].
  set (t0 := {| seen := s ∪ seen t; actual := actual t |}).
  destruct (tally_rule_count item t0) as [(Hsr & t1 & -> & Hs1 & Ha1)|[Hsr Hno]].
  2:{ right. split; [tauto|]. destruct (tally_rule item t0) as [x|e]; [by destruct Hno; eexists|].
      by intros [? ?]. }
  destruct (IH t1) as [(Hall & t2 & -> & Hs2 & Ha2)|[Hall Hno]]; [left|right; tauto].
  split; [tauto|]. exists t2. split; [done|]. split.
  - intros name. rewrite Hs2, Hs1. cbn [seen t0]. rewrite elem_of_union, Hdecl, Exists_cons. tauto.
  - intros c. rewrite Ha2, Ha1. unfold owned_count. cbn [sum_list_with actual t0]. lia.
Qed.

(** The batch agrees with the expected hooks and rule counts. *)
Definition batch_hook (c : nft_chain) (h : hook) : Prop :=
  ∃ prio, chain_type c = type_words (hook_type h) (hook_hook h) prio ∧
    Atoi prio = Some (hook_prio h) ∧ hook_policy h = "accept".

Lemma sum_ones {A} (l : list A) : sum_list_with (λ _, 1) l = length l.
Proof. induction l as [|x l IH]; [done|]. cbn. by rewrite IH. Qed.

Lemma length_concat_map {A B} (f : A → list B) l :
  length (concat (map f l)) = sum_list_with (λ x, length (f x)) l.
Proof. induction l as [|x l IH]; [done|]. cbn. by rewrite length_app, IH. Qed.

Lemma sum_list_with_ext {A} (f g : A → nat) l :
  (∀ x, f x = g x) → sum_list_with f l = sum_list_with g l.
Proof. intros Hfg. induction l as [|x l IH]; [done|]. cbn. by rewrite IH, Hfg. Qed.

Lemma batch_expected rules c :
  c ∈ batch_chains rules → ∃ h, expected !! chain_name c = Some h ∧ batch_hook c h ∧
    zget 0 (ruleCount rules) (chain_name c) = length (chain_rules c).
Proof.
  unfold batch_chains. rewrite !elem_of_cons.
  intros [->|[->|[->|[->|[->|H]]]]]; [..|by apply not_elem_of_nil in H];
    eexists; (split; [reflexivity|]); (split; [eexists; split; [reflexivity|by split]|]);
    cbn [chain_name chain_rules].
  - change (zget 0 (ruleCount rules) "raw_prerouting") with
      (length (sortedEnabledBridges (RouteLocalnetBridges rules))). by rewrite length_map.
  - change (zget 0 (ruleCount rules) "prerouting") with
      (sum_list_with (λ p, 1 + has_bridge p) (sortedPorts rules)).
    rewrite length_concat_map. apply sum_list_with_ext. intros p.
    unfold has_bridge, prerouting_rules. by destruct (String.eqb (Bridge p) "").
  - change (zget 0 (ruleCount rules) "output") with (sum_list_with (λ _, 1) (sortedPorts rules)).
    by rewrite sum_ones, length_map.
  - change (zget 0 (ruleCount rules) "postrouting") with
      (sum_list_with (λ p, has_bridge p + 2) (sortedPorts rules)).
    rewrite length_concat_map. apply sum_list_with_ext. intros p.
    unfold has_bridge, postrouting_rules. by destruct (String.eqb (Bridge p) "").
  - change (zget 0 (ruleCount rules) "forward") with
      (2 + 2 * length (sortedForwardNetworks rules) + length (sortedSharedIngressNetworks rules)
       + length (sortedForwardPeers rules) + length (sortedPorts rules)).
    unfold forward_rules. rewrite !length_app, length_concat_map, !length_map.
    rewrite (sum_list_with_ext _ (λ _, 2)) by done. cbn [length].
    assert (∀ l : list forwardNetwork, sum_list_with (λ _, 2) l = 2 * length l) as ->.
    { intros l. induction l as [|x l IH]; [done|]. cbn. rewrite IH. lia. }
    lia.
Qed.

Lemma expected_batch rules name h :
  expected !! name = Some h → ∃ c, c ∈ batch_chains rules ∧ chain_name c = name.
Proof.
  intros Hn. assert (name ∈ chain_name <$> batch_chains rules) as Hin.
  { cbn [batch_chains fmap list_fmap chain_name].
    assert (name ∈ dom expected) as Hd by (apply elem_of_dom; by exists h).
    unfold expected in Hd. rewrite !dom_insert in Hd. set_solver. }
  apply list_elem_of_fmap in Hin as (c & -> & Hc). by exists c.
Qed.

(** The periodic check accepts a listing exactly when its entries decode,
    no chain under an expected name has another hook or owner, and every chain
    of the batch of the applied rules is there with the batch's number of
    rules, whatever else the listing holds. *)
Lemma check_items_spec `{!MapRange} applied items :
  check_items applied items = Ok () ↔
  Forall (λ i, sound_chain i ∧ sound_rule i) items ∧
  ∀ c, c ∈ batch_chains applied →
    Exists (declares (chain_name c)) items ∧
    owned_count (chain_name c) items = length (chain_rules c).
Proof.
  unfold check_items. rewrite result_bind_Ok.
  destruct (tally_fold items {| seen := ∅; actual := ∅ |}) as [(Hall & t & -> & Hs & Ha)|[Hall Hno]].
  2:{ split; [|tauto]. intros (t & Ht & _). destruct Hno. by exists t. }
  assert (∀ name h, expected !! name = Some h →
    ((if bool_decide (name ∈ seen t ∧ zget 0 (actual t) name = zget 0 (ruleCount applied) name)
      then Ok () else Err (Errorf "native nft hostport chain is missing or has other rules")) = Ok ()
     ↔ Exists (declares name) items ∧ owned_count name items = zget 0 (ruleCount applied) name)) as Hone.
  { intros name h _. rewrite if_not_Ok, bool_decide_eq_true, Hs, Ha. cbn [seen actual].
    rewrite elem_of_empty. change (zget 0 ∅ name) with 0. cbn [plus]. tauto. }
  split.
  - intros (t' & [= <-] & Hc). rewrite range_iter_Ok in Hc. split; [done|]. intros c Hin.
    destruct (batch_expected _ _ Hin) as (h & Hh & _ & Hn). rewrite <-Hn.
    by apply (Hone _ h Hh), (Hc _ _ Hh).
  - intros [_ Hc]. exists t. split; [done|]. rewrite range_iter_Ok. intros name h Hh.
    apply (Hone _ _ Hh). destruct (expected_batch applied _ _ Hh) as (c & Hin & <-).
    destruct (batch_expected _ _ Hin) as (_ & _ & _ & ->). by apply Hc.
Qed.

(** *** A listing *)

Definition listed_chain (c : nft_chain) (h : hook) : Json :=
  JObject [("chain", JObject [("family", JString "ip"); ("table", JString nftHostportsTable);
    ("name", JString (chain_name c)); ("handle", JNumber "7"); ("type", JString (hook_type h));
    ("hook", JString (hook_hook h));
    ("prio", JNumber (match hook_prio h with -300 => "-300" | -101 => "-101" | 99 => "99" | _ => "-1" end)%Z);
    ("policy", JString (hook_policy h))])].

Definition listed_rules (c : nft_chain) : list Json :=
  map (λ _, JObject [("rule", JObject [("family", JString "ip"); ("table", JString nftHostportsTable);
                     ("chain", JString (chain_name c)); ("expr", JArray [])])]) (chain_rules c).

(** The live table as nft prints it after the batch of [rules]. *)
Definition live_listing (rules : ruleSet) : string :=
  Marshal (JObject [("nftables", JArray
    (JObject [("metainfo", JObject [("version", JString "1.0.9")])] ::
     concat (map (λ c, match expected !! chain_name c with
                       | Some h => listed_chain c h :: listed_rules c
                       | None => [] end) (batch_chains rules))))]).

Example check_live :
  (items ← Unmarshal listing_items (live_listing demo_rules);
   @check_items range_forward demo_rules items) = Ok ().
Proof. vm_compute. reflexivity. Qed.

Example check_flushed :
  ¬ is_Ok (items ← Unmarshal listing_items (live_listing empty_rules);
           @check_items range_forward demo_rules items).
Proof. vm_compute. by intros [? ?]. Qed.
