(* ===== verification/Identity.v ===== *)
(** * The host this manager runs on (identity/identity.go)

    Docker labels identify the manager's own container in the metadata
    services; the metadata's source-address answer is only the fallback. *)
From S2P Require Import Prelude Effects GoStrings Metadata World.

Definition containerMountPrefix : string := "/var/lib/docker/containers/".
Definition containerUUIDLabel : string := "io.rancher.container.uuid".
Definition containerNameLabel : string := "io.rancher.container.name".
Definition mountinfo : string := "/proc/self/mountinfo".

(** The container ID in one line of mountinfo. *)
Definition line_container (line : string) : option string :=
  if negb (Contains line "/etc/hosts") && negb (Contains line "/etc/hostname")
     && negb (Contains line "/etc/resolv.conf") then None else
  idx ← Index line containerMountPrefix;
  let rest := drop_bytes (idx + String.length containerMountPrefix) line in
  slash ← Index rest "/";
  if slash =? 0 then None else Some (take_bytes slash rest).

Definition first_container (content : string) : option string :=
  head (omap line_container (Split content "010")).

Definition currentContainerID : hprog (result string) :=
  content <-? wrapped "read /proc/self/mountinfo" (call1 (ReadFile mountinfo));
  Ret (match first_container content with
       | Some id => Ok id
       | None => Err (Errorf "current container id not found in mountinfo")
       end).

(** Whether a metadata container is the manager's own. *)
Definition is_own (ownUUID ownName ownExternalID : string) (c : Container.t) : bool :=
  negb (String.eqb ownUUID "") && String.eqb (Container.UUID c) ownUUID
  || negb (String.eqb ownExternalID "") && String.eqb (Container.ExternalId c) ownExternalID
  || negb (String.eqb ownName "") && String.eqb (Container.Name c) ownName.

Definition own_container (ownUUID ownName ownExternalID : string) (services : list Service.t)
    : option Container.t :=
  head (filter (λ c, is_own ownUUID ownName ownExternalID c = true)
          (services ≫= Service.Containers)).

Definition localHostUUIDFromDockerLabels : hprog (result string) :=
  id <-? currentContainerID;
  inspect <-? wrapped "inspect current container" (call1 (ContainerInspect id));
  match ContainerConfig inspect with
  | None => Ret (Err (Errorf "current container inspect has no config"))
  | Some config =>
      let ownUUID := zget "" (ConfigLabels config) containerUUIDLabel in
      let ownName := zget "" (ConfigLabels config) containerNameLabel in
      let ownExternalID := InspectID inspect in
      if String.eqb ownUUID "" && String.eqb ownName "" && String.eqb ownExternalID ""
      then Ret (Err (Errorf "current container has no compatible identity labels")) else
      services <-? wrapped "get services" (call1 GetServices);
      Ret (match own_container ownUUID ownName ownExternalID services with
           | Some c => Ok (Container.HostUUID c)
           | None => Err (Errorf "current container not found in metadata services")
           end)
  end.

Definition LocalHostUUID : hprog (result string) :=
  r ← localHostUUIDFromDockerLabels;
  let fallback :=
    host <-? wrapped "get self host" (call1 GetSelfHost);
    Ret (if String.eqb (Host.UUID host) ""
         then Err (Errorf "metadata self host has empty uuid")
         else Ok (Host.UUID host)) in
  match r with
  | Ok hostUUID => if String.eqb hostUUID "" then fallback else Ret (Ok hostUUID)
  | Err _ => fallback
  end.

Definition find_host (uuid : string) (hosts : list Host.t) : option Host.t :=
  head (filter (λ h, Host.UUID h = uuid) hosts).

Definition LocalHost : hprog (result Host.t) :=
  hostUUID <-? LocalHostUUID;
  hosts <-? wrapped "get hosts" (call1 GetHosts);
  match find_host hostUUID hosts with
  | Some host => Ret (Ok host)
  | None =>
      selfHost <-? call1 GetSelfHost;
      Ret (if String.eqb (Host.UUID selfHost) hostUUID then Ok selfHost
           else Err (Errorf "local host UUID not found in metadata hosts"))
  end.

(** ** Properties *)

(** The calls of the lookup change nothing. *)
Definition reads_only (c : hcall) : Prop :=
  match c with
  | GetNetworks | GetHosts | GetContainers | GetServices | GetSelfHost
  | ContainerInspect _ | ReadFile _ => True
  | _ => False
  end.

Lemma LocalHostUUID_reads : hcalls reads_only LocalHostUUID.
Proof.
  assert (hcalls reads_only localHostUUIDFromDockerLabels) as Hl.
  { apply calls_in_pbind_ok.
    { apply calls_in_pbind_ok; [by apply calls_in_wrapped, calls_in_call1|done]. }
    intros id. apply calls_in_pbind_ok; [by apply calls_in_wrapped, calls_in_call1|].
    intros i. destruct (ContainerConfig i); [|done]. cbn zeta. destruct (_ && _); [done|].
    apply calls_in_pbind_ok; [by apply calls_in_wrapped, calls_in_call1|done]. }
  apply calls_in_bind; [exact Hl|]. intros r.
  assert (hcalls reads_only (host <-? wrapped "get self host" (call1 GetSelfHost);
    Ret (if String.eqb (Host.UUID host) ""
         then Err (Errorf "metadata self host has empty uuid") else Ok (Host.UUID host)))) as Hf.
  { apply calls_in_pbind_ok; [by apply calls_in_wrapped, calls_in_call1|done]. }
  destruct r as [u|e]; [|exact Hf]. by destruct (String.eqb u "").
Qed.

Lemma LocalHost_reads : hcalls reads_only LocalHost.
Proof.
  apply calls_in_pbind_ok; [apply LocalHostUUID_reads|]. intros u.
  apply calls_in_pbind_ok; [by apply calls_in_wrapped, calls_in_call1|]. intros hs.
  destruct (find_host u hs); [done|].
  apply calls_in_pbind_ok; [by apply calls_in_call1|done].
Qed.

Lemma LocalHostUUID_nonempty tr u : exec LocalHostUUID tr (Ok u) → u ≠ "".
Proof.
  unfold LocalHostUUID. intros (tr1 & tr2 & r & _ & _ & H)%exec_bind.
  assert (∀ tr, exec (host <-? wrapped "get self host" (call1 GetSelfHost);
    Ret (if String.eqb (Host.UUID host) ""
         then Err (Errorf "metadata self host has empty uuid") else Ok (Host.UUID host))) tr (Ok u)
    → u ≠ "") as Hf.
  { intros t [(e & ? & _)|(? & ? & h & _ & _ & [_ Hu])]%exec_pbind_ok; [done|].
    destruct (String.eqb_spec (Host.UUID h) ""); congruence. }
  destruct r as [v|e]; [|by eapply Hf].
  destruct (String.eqb_spec v ""); [by eapply Hf|]. by destruct H as [_ [= ->]].
Qed.

Lemma find_host_Some u hs h : find_host u hs = Some h → h ∈ hs ∧ Host.UUID h = u.
Proof.
  unfold find_host. intros Hh. assert (h ∈ filter (λ h, Host.UUID h = u) hs) as Hin.
  { destruct (filter _ hs); [done|]. injection Hh as ->. apply list_elem_of_here. }
  apply list_elem_of_filter in Hin. tauto.
Qed.

(** A found local host is a host the metadata listed (or its self host)
    whose UUID is the non-empty one of [LocalHostUUID]; the lookup only reads. *)
Lemma LocalHost_identified tr host :
  exec LocalHost tr (Ok host) →
  Forall (λ e, reads_only (projT1 e)) tr ∧
  ∃ tr1 tr2 uuid, tr = tr1 ++ tr2 ∧ exec LocalHostUUID tr1 (Ok uuid) ∧ uuid ≠ "" ∧
    Host.UUID host = uuid ∧
    ((∃ hosts, ev (Σ := host_sig) GetHosts (Ok hosts) ∈ tr2 ∧ host ∈ hosts) ∨
     ev (Σ := host_sig) GetSelfHost (Ok host) ∈ tr2).
Proof.
  intros H. split; [exact (calls_in_exec (Σ := host_sig) _ _ _ _ LocalHost_reads H)|].
  apply exec_pbind_ok in H as [(? & ? & _)|(tr1 & tr2 & u & -> & Hu & H)]; [done|].
  exists tr1, tr2, u. split; [done|]. split; [done|].
  split; [by eapply LocalHostUUID_nonempty|].
  apply exec_pbind_ok in H as [(? & ? & _)|(tr3 & tr4 & hs & -> & Hh & H)]; [done|].
  apply exec_wrapped in Hh as ([hs'|] & ->%exec_call1 & [= ->]).
  destruct (find_host u hs') as [h|] eqn:Hf.
  - destruct H as [-> [= ->]]. apply find_host_Some in Hf as [? ?].
    split; [done|]. left. exists hs'. split; [apply list_elem_of_here|done].
  - apply exec_pbind_ok in H as [(? & ? & _)|(? & ? & h & -> & ->%exec_call1 & [-> Hr])]; [done|].
    destruct (String.eqb_spec (Host.UUID h) u); [|done]. injection Hr as ->.
    split; [done|]. right. apply list_elem_of_further, list_elem_of_here.
Qed.

(** *** The container ID *)

Lemma Index_free s c : free_of c s = true → ∀ t, Index (s +:+ String c t) (String c "") = Some (String.length s).
Proof.
  unfold free_of. induction s as [|a s IH]; intros Hs t.
  - rewrite app_nil_l_str. cbn [Index HasPrefix String.prefix].
    destruct (ascii_dec c c); [|done]. by destruct t.
  - cbn in Hs. apply andb_true_iff in Hs as [Ha%negb_true_iff Hs].
    rewrite app_cons_str. cbn [Index HasPrefix String.prefix].
    destruct (ascii_dec c a) as [->|]; [by rewrite Ascii.eqb_refl in Ha|].
    rewrite IH by done. done.
Qed.

Lemma take_bytes_app s t : take_bytes (String.length s) (s +:+ t) = s.
Proof. induction s as [|a s IH]; [by destruct t|]. rewrite app_cons_str. cbn. by rewrite IH. Qed.
Lemma drop_bytes_app s t : drop_bytes (String.length s) (s +:+ t) = t.
Proof. induction s as [|a s IH]; [by destruct t|]. rewrite app_cons_str. cbn. by rewrite IH. Qed.
Lemma drop_bytes_add n m s : drop_bytes (n + m) s = drop_bytes m (drop_bytes n s).
Proof.
  revert s. induction n as [|n IH]; intros s; [by destruct s|].
  destruct s as [|a s]; [by destruct m|]. apply IH.
Qed.

Lemma HasPrefix_app s t : HasPrefix (s +:+ t) s = true.
Proof.
  unfold HasPrefix. induction s as [|a s IH]; [by destruct t|]. rewrite app_cons_str. cbn.
  by destruct (ascii_dec a a).
Qed.

(** A mountinfo line of one of Docker's container files gives the ID of the
    container directory, for the first occurrence of that directory. *)
Lemma line_container_spec pre id file rest :
  Index (pre +:+ containerMountPrefix +:+ id +:+ "/" +:+ rest) containerMountPrefix
    = Some (String.length pre) →
  free_of "/" id = true → id ≠ "" →
  file ∈ ["/etc/hosts"; "/etc/hostname"; "/etc/resolv.conf"] →
  Contains (pre +:+ containerMountPrefix +:+ id +:+ "/" +:+ rest) file = true →
  line_container (pre +:+ containerMountPrefix +:+ id +:+ "/" +:+ rest) = Some id.
Proof.
  intros Hidx Hid Hne Hf Hc. unfold line_container.
  assert (∀ b c d : bool, b = true ∨ c = true ∨ d = true → negb b && negb c && negb d = false)
    as Hb.
  { by intros [] [] [] [|[|]]. }
  rewrite Hb.
  2:{ apply elem_of_cons in Hf as [->|Hf]; [by auto|].
      apply elem_of_cons in Hf as [->|Hf]; [by auto|].
      apply list_elem_of_singleton in Hf as ->. by auto. }
  rewrite Hidx. cbn [mbind option_bind].
  rewrite drop_bytes_add, !drop_bytes_app.
  change ("/" +:+ rest) with (String "/" rest). rewrite (Index_free id "/" Hid).
  cbn [mbind option_bind]. rewrite take_bytes_app. by destruct id.
Qed.

Lemma line_container_spec_witness :
  line_container ("612 593 8:1 " +:+ "/var/lib/docker/containers/" +:+ "4f2a" +:+ "/" +:+
                  "hosts /etc/hosts rw") = Some "4f2a".
Proof.
  apply (line_container_spec _ _ "/etc/hosts"); [reflexivity|reflexivity|discriminate| |reflexivity].
  apply list_elem_of_here.
Defined.

(** *** A concrete host *)

Definition manager_host : env host_sig := λ _ c,
  match c return hreply c with
  | ReadFile _ => Ok ("612 593 8:1 /var/lib/docker/containers/4f2a/hosts /etc/hosts rw")
  | ContainerInspect id => Ok {| InspectID := id; State := None;
      ContainerConfig := Some {| ConfigHostname := ""; ConfigLabels := ∅ |};
      HostConfig := None; HostsPath := ""; ResolvConfPath := "" |}
  | GetServices => Ok [mk_service "service" "network" "" "infra"
      [mk_container "u1" "4f2a" "host-2" "" "" "" "running" "manager" [] ∅]]
  | GetHosts => Ok [mk_host "host-1" "192.0.2.1" "active" ∅; mk_host "host-2" "192.0.2.2" "active" ∅]
  | GetSelfHost => Ok (mk_host "host-1" "192.0.2.1" "active" ∅)
  | c' => idle_reply c'
  end.

Lemma LocalHost_identified_witness :
  ∃ tr, exec LocalHost tr (Ok (mk_host "host-2" "192.0.2.2" "active" ∅)) ∧
    length tr = 4 ∧ Forall (λ e, reads_only (projT1 e)) tr.
Proof.
  pose proof (run_exec manager_host [] LocalHost) as H.
  assert ((run manager_host [] LocalHost).2 = Ok (mk_host "host-2" "192.0.2.2" "active" ∅))
    as Hr by (vm_compute; reflexivity).
  rewrite Hr in H. eexists. split; [exact H|]. split; [vm_compute; reflexivity|].
  exact (proj1 (LocalHost_identified _ _ H)).
Defined.
