(* ===== verification/HostPorts.v ===== *)
(** * The host-port watcher (hostports/watcher.go, hostports/nft.go)

    Metadata and Docker give the desired rules; they are applied after a
    complete check by the firewall tool, and the applied set is remembered.
    The reconcile mutex makes each callback and each repair atomic. The
    function fields of the Go struct are nil or as [Watch] sets them. *)
From S2P Require Import Prelude Effects GoStrings GoNet Metadata Json World HostLabel Firewall PortRules NftRules RouteLocalnet Identity.

Definition reapplyEvery : Z := (5 * minute)%Z.
Definition hostPortsLabel : string := "io.rancher.network.host_ports".

Record watcher := {
  applied : ruleSet;
  lastApplied : Z;
  routeLocalnetOriginal : gmap string bool;
}.

Abbreviation wact A := (act host_sig watcher A).

(** ** Addresses of running containers *)

Definition inspectRunningContainerPID (containerID : string) : hprog (result Z) :=
  inspect <-? wrapped "inspect Docker container" (call1 (ContainerInspect containerID));
  Ret (match State inspect with
       | Some state =>
           if Running state && (0 <? Pid state)%Z then Ok (Pid state)
           else Err (Errorf "Docker container is not running with a network namespace")
       | None => Err (Errorf "Docker container is not running with a network namespace")
       end).

(** The IPv4 address of one interface entry, when it is a candidate. *)
Definition candidate (prefix : Prefix) (address : netlink_Addr) : option Addr :=
  bytes ← address;
  parsed ← AddrFromSlice bytes;
  let parsed := Unmap parsed in
  if negb (Is4 parsed) || IsLoopback parsed || negb (GoNet.Contains prefix parsed)
  then None else Some parsed.

Definition add_candidate (candidates : list Addr) (address : option Addr) : list Addr :=
  match address with
  | Some a => if bool_decide (a ∈ candidates) then candidates else candidates ++ [a]
  | None => candidates
  end.

Definition addr_string (ip : Addr) : string := V4_String (addr_bits ip).

Definition selectContainerIPv4 (addresses : list netlink_Addr) (prefix : Prefix) : result string :=
  match foldl add_candidate [] (map (candidate prefix) addresses) with
  | [a] => Ok (addr_string a)
  | _ => Err (Errorf "expected exactly one address in managed subnet")
  end.

Definition resolveContainerIPv4 (containerID subnet : string) : hprog (result string) :=
  if String.eqb containerID "" then Ret (Err (Errorf "Docker container ID is empty")) else
  match ParsePrefix subnet with
  | Some prefix =>
      if negb (Is4 (pfx_addr prefix)) then Ret (Err (Errorf "managed subnet is not a valid IPv4 prefix"))
      else
      pid <-? inspectRunningContainerPID containerID;
      addresses <-? call1 (NamespaceIPv4 pid);
      confirmedPID <-? wrapped "revalidate Docker container after network namespace read"
                         (inspectRunningContainerPID containerID);
      if negb (confirmedPID =? pid)%Z
      then Ret (Err (Errorf "Docker container PID changed during network namespace read"))
      else Ret (selectContainerIPv4 addresses (Masked prefix))
  | None => Ret (Err (Errorf "managed subnet is not a valid IPv4 prefix"))
  end.

(** ** The desired rules *)

(** The rules built so far and the peer hosts, once they are loaded. *)
Record building := { rules : ruleSet; peerHosts : option (list Host.t) }.

Definition add_forward (uuid subnet bridge : string) (r : ruleSet) : ruleSet :=
  {| Ports := Ports r; ForwardSubnets := <[uuid := subnet]> (ForwardSubnets r);
     ForwardBridges := <[uuid := bridge]> (ForwardBridges r); ForwardPeers := ForwardPeers r;
     SharedIngress := SharedIngress r; RouteLocalnetBridges := RouteLocalnetBridges r |}.

Definition add_shared (uuid : string) (r : ruleSet) : ruleSet :=
  {| Ports := Ports r; ForwardSubnets := ForwardSubnets r; ForwardBridges := ForwardBridges r;
     ForwardPeers := ForwardPeers r;
     SharedIngress := Some (<[uuid := true]> (default ∅ (SharedIngress r)));
     RouteLocalnetBridges := RouteLocalnetBridges r |}.

Definition add_peers (uuid : string) (peers : option (list string)) (r : ruleSet) : ruleSet :=
  {| Ports := Ports r; ForwardSubnets := ForwardSubnets r; ForwardBridges := ForwardBridges r;
     ForwardPeers := Some (<[uuid := peers]> (default ∅ (ForwardPeers r)));
     SharedIngress := SharedIngress r; RouteLocalnetBridges := RouteLocalnetBridges r |}.

Definition add_port (key : string) (rule : PortRule.t) (localnet : bool) (r : ruleSet) : ruleSet :=
  {| Ports := <[key := rule]> (Ports r); ForwardSubnets := ForwardSubnets r;
     ForwardBridges := ForwardBridges r; ForwardPeers := ForwardPeers r;
     SharedIngress := SharedIngress r;
     RouteLocalnetBridges := if localnet then <[Bridge rule := true]> (RouteLocalnetBridges r)
                             else RouteLocalnetBridges r |}.

Definition networksByUUID : hprog (result (gmap string Network.t)) :=
  networks <-? call1 GetNetworks;
  Ret (Ok (foldl (λ m n, <[Network.UUID n := n]> m) ∅ networks)).

(** The peer hosts, loaded at the first use. *)
Definition load_peers (b : building) : hprog (result (list Host.t)) :=
  match peerHosts b with
  | Some hosts => Ret (Ok hosts)
  | None => call1 GetHosts
  end.

Definition network_step (host : Host.t) (b : building) (entry : string * Network.t)
    : hprog (result building) :=
  let '(uuid, network) := entry in
  bridgeConfig <-? Ret (wrap_err "network bridge configuration" (bridgeConfigForNetwork network));
  let subnet := CfgSubnet bridgeConfig in
  if String.eqb subnet "" then Ret (Ok b) else
  if String.eqb (CfgBridge bridgeConfig) ""
  then Ret (Err (Errorf "network has a forward subnet but no managed bridge")) else
  resolved <-? Ret (wrap_err "network hostport subnet" (Resolve subnet (Host.Labels host)));
  let r := add_forward uuid resolved (CfgBridge bridgeConfig) (rules b) in
  let r := if CfgSharedIngress bridgeConfig then add_shared uuid r else r in
  if IsReference subnet then
    hosts <-? load_peers b;
    peers <-? Ret (wrap_err "network hostport peers"
                     (PeerSubnets subnet (Host.UUID host) resolved hosts));
    Ret (Ok {| rules := add_peers uuid peers r; peerHosts := Some hosts |})
  else Ret (Ok {| rules := r; peerHosts := peerHosts b |}).

(** Whether a container's ports are published on this host. *)
Definition publishes (host : Host.t) (network : Network.t) (c : Container.t) : bool :=
  (String.eqb (Container.State c) "running" || String.eqb (Container.State c) "starting")
  && String.eqb (Container.HostUUID c) (Host.UUID host)
  && (Network.HostPorts network ||
      Container.System c && String.eqb (zget "" (Container.Labels c) hostPortsLabel) "true")
  && negb (length (Container.Ports c) =? 0).

(** Loopback and wildcard sources need route_localnet on the bridge. *)
Definition needs_localnet (rule : PortRule.t) : bool :=
  negb (String.eqb (Bridge rule) "") &&
  (String.eqb (SourceIP rule) any_address ||
   match ParseAddr (SourceIP rule) with Some ip => IsLoopback ip | None => false end).

Definition port_step (bridge targetIP externalId : string) (masquerade : bool) (host : Host.t)
    (r : ruleSet) (port : string) : result ruleSet :=
  match parsePortRule bridge (Host.AgentIP host) targetIP port with
  | (_, false) => Err (Errorf "invalid host port definition")
  | (parsed, true) =>
      let rule := PortRule.Make (Bridge parsed) (SourceIP parsed) (SourcePort parsed)
                    (TargetIP parsed) (TargetPort parsed) (Protocol parsed) masquerade in
      Ok (add_port (externalId +:+ "/" +:+ port) rule (needs_localnet rule) r)
  end.

Definition container_step (host : Host.t) (networks : gmap string Network.t)
    (r : ruleSet) (c : Container.t) : hprog (result ruleSet) :=
  let network := zget Network.zero networks (Container.NetworkUUID c) in
  if negb (publishes host network c) then Ret (Ok r) else
  bridgeConfig <-? Ret (wrap_err "network bridge configuration" (bridgeConfigForNetwork network));
  targetIP <-? (
    if negb (String.eqb (Container.PrimaryIp c) "") then Ret (Ok (Container.PrimaryIp c)) else
    let subnet := zget "" (ForwardSubnets r) (Container.NetworkUUID c) in
    if String.eqb subnet ""
    then Ret (Err (Errorf "container publishes host ports without a metadata IP or managed subnet"))
    else wrapped "resolve host-port address" (resolveContainerIPv4 (Container.ExternalId c) subnet));
  Ret (result_fold (port_step (CfgBridge bridgeConfig) targetIP (Container.ExternalId c)
                      (ExternalGateway bridgeConfig) host) r (Container.Ports c)).

Section watch.
Context `{!MapRange} (backend : Backend).

Definition desired_rules : hprog (result ruleSet) :=
  host <-? LocalHost;
  networks <-? networksByUUID;
  b <-? pfold (network_step host) {| rules := empty_rules; peerHosts := None |}
          (range_map 6 networks);
  containers <-? call1 GetContainers;
  pfold (container_step host networks) (rules b) containers.

(** ** Base rules of the xtables frontends *)

Definition run_command (args : list string) : hprog (option error) :=
  r ← call1 (Command args ""); Ret r.2.

(** A rule that is inserted when the check does not find it. *)
Definition ensure_rule (check insert : list string) : hprog (option error) :=
  missing ← run_command check;
  match missing with
  | Some _ => run_command insert
  | None => Ret None
  end.

Definition forwardJumpIsFirst (output : string) : bool :=
  match filter (λ line, HasPrefix line "-A FORWARD " = true) (Split output "010") with
  | line :: _ => String.eqb line "-A FORWARD -j CATTLE_FORWARD"
  | [] => false
  end.

Definition ensureForwardJumpFirst (iptables : string) : hprog (option error) :=
  '(out, err) ← call1 (Command [iptables; "-w"; "-S"; "FORWARD"] "");
  if bool_decide (err = None) && forwardJumpIsFirst out then Ret None
  else run_command [iptables; "-w"; "-I"; "FORWARD"; "1"; "-j"; "CATTLE_FORWARD"].

Definition local_jump (chain : string) : list string :=
  ["-m"; "addrtype"; "--dst-type"; "LOCAL"; "-j"; chain].

Definition base_steps (iptables : string) : list (hprog (option error)) :=
  let cmd := λ ws, iptables :: "-w" :: ws in
  [ ensure_rule (cmd ["-t"; "raw"; "-C"; "PREROUTING"; "-j"; hostPortsRawChain])
                (cmd ["-t"; "raw"; "-I"; "PREROUTING"; "1"; "-j"; hostPortsRawChain]);
    ensure_rule (cmd (["-t"; "nat"; "-C"; "PREROUTING"] ++ local_jump "CATTLE_PREROUTING"))
                (cmd (["-t"; "nat"; "-I"; "PREROUTING"] ++ local_jump "CATTLE_PREROUTING"));
    ensureForwardJumpFirst iptables;
    ensure_rule (cmd (["-t"; "nat"; "-C"; "OUTPUT"] ++ local_jump "CATTLE_OUTPUT"))
                (cmd (["-t"; "nat"; "-I"; "OUTPUT"] ++ local_jump "CATTLE_OUTPUT"));
    ensure_rule (cmd ["-t"; "nat"; "-C"; "POSTROUTING"; "-j"; hostPortsPostRoutingChain])
                (cmd ["-t"; "nat"; "-I"; "POSTROUTING"; "-j"; hostPortsPostRoutingChain]) ].

(** Every step runs; the errors are collected. *)
Fixpoint collect (steps : list (hprog (option error))) : hprog (list error) :=
  match steps with
  | [] => Ret []
  | s :: steps' =>
      e ← s; es ← collect steps';
      Ret (match e with Some e => e :: es | None => es end)
  end.

Definition insertBaseRules : hprog (result ()) :=
  if String.eqb (Mode backend) NFTables then Ret (Ok ()) else
  if String.eqb (BackendCommand backend) ""
  then Ret (Err (Errorf "hostports iptables command is not configured")) else
  errs ← collect (base_steps (BackendCommand backend));
  Ret (match errs with
       | [] => Ok ()
       | _ => Err (Errorf "failed to insert hostport base rules")
       end).

(** ** Applying *)

Definition restore (name : string) (args : list string) (data : string) : hprog (result ()) :=
  r ← call1 (Command (name :: args) data); Ret (err_result r.2).

Definition set_original (o : gmap string bool) (w : watcher) : watcher :=
  {| applied := applied w; lastApplied := lastApplied w; routeLocalnetOriginal := o |}.

Definition restoreRemoved (rules : ruleSet) : wact () :=
  w ← get; lift (restoreRemovedRouteLocalnet (routeLocalnetOriginal w) rules).

Definition activate (rules : ruleSet) : wact () := λ w,
  mbind (M := prog host_sig) (λ p : gmap string bool * result (),
    Ret (set_original p.1 w, p.2)) (activateRouteLocalnet (routeLocalnetOriginal w) rules).

Definition remember (rules : ruleSet) : wact () :=
  now ← ask (Σ := host_sig) Now;
  modify (λ w, {| applied := rules; lastApplied := now;
                  routeLocalnetOriginal := routeLocalnetOriginal w |}).

(** Check the complete data, restore the bridges no longer used, install the
    data, and only then switch the guarded bridges on. *)
Definition checked_apply (what tool : string) (test run : list string) (data : string)
    (base : hprog (result ())) (rules : ruleSet) : wact () :=
  lift (wrapped ("validate " +:+ what) (restore tool test data));;
  restoreRemoved rules;;
  lift (wrapped ("apply " +:+ what) (restore tool run data));;
  lift base;;
  activate rules;;
  remember rules.

Definition apply_xt (rules : ruleSet) : wact () :=
  if String.eqb (Restore backend) ""
  then fail (Errorf "hostports restore command is not configured") else
  checked_apply "hostport rules" (Restore backend) ["--test"; "-n"] ["-n"] (restore_payload rules)
    (wrapped "apply port base iptables rules" insertBaseRules) rules.

Definition listTables : hprog (result string) :=
  '(out, err) ← call1 (Command ["nft"; "list"; "tables"] "");
  Ret (match err with
       | Some e => Err (Wrapf "inspect nft tables before hostport update" e)
       | None => Ok out
       end).

Definition applyNFT (rules : ruleSet) : wact () :=
  out ← lift listTables;
  checked_apply "native nft hostport batch" "nft" ["-c"; "-f"; "-"] ["-f"; "-"]
    (nftHostportBatch rules (table_exists out)) (Ret (Ok ())) rules.

Definition apply (rules : ruleSet) : wact () :=
  of_result (validateRuleSet rules);;
  if String.eqb (Mode backend) NFTables then applyNFT rules else apply_xt rules.

(** ** Reconciling *)

Definition onChangeLocked (force : bool) : wact () :=
  newRules ← lift desired_rules;
  w ← get;
  if force || bool_decide (applied w ≠ newRules) then apply newRules else
  now ← ask (Σ := host_sig) Now;
  if (reapplyEvery <? Sub now (lastApplied w))%Z then apply newRules else mret ().

Definition reportLocked (err : option error) : wact () := ask (Σ := host_sig) (Report HostPorts err).

(** One turn of the retry loop of [onChangeNoError]: reconcile and report. *)
Definition attempt : wact () :=
  r ← try (onChangeLocked false);
  reportLocked (result_err r);;
  of_result r.

(** [onChangeNoError] repeats until an attempt succeeds; [None] has not yet. *)
Fixpoint onChangeNoError (turns : nat) : wact (option ()) :=
  match turns with
  | 0 => mret None
  | S n =>
      r ← try attempt;
      match r with
      | Ok _ => mret (Some ())
      | Err _ => ask (Σ := host_sig) (Sleep (5 * second)%Z);; onChangeNoError n
      end
  end.

Definition live_check : wact () :=
  w ← get;
  if String.eqb (Mode backend) NFTables then lift (checkNFTRules (applied w))
  else lift insertBaseRules.

Definition repairOnce : wact () :=
  c ← try live_check;
  (match c with
   | Err e => reportLocked (Some e)
   | Ok _ => mret ()
   end);;
  r ← try (onChangeLocked (bool_decide (result_err c ≠ None)));
  reportLocked (result_err r);;
  of_result r.

(** The watcher's first state: nothing applied but the bridges a previous
    process owned. *)
Definition initial (original : gmap string bool) : watcher :=
  {| applied := {| Ports := ∅; ForwardSubnets := ∅; ForwardBridges := ∅; ForwardPeers := None;
                   SharedIngress := None; RouteLocalnetBridges := (λ _, true) <$> original |};
     lastApplied := zero_time; routeLocalnetOriginal := original |}.

Definition setupKernelParameters : hprog (result ()) :=
  err ← run_command ["sysctl"; "-w"; "net.bridge.bridge-nf-call-iptables=1"];
  Ret (wrap_err "set net.bridge.bridge-nf-call-iptables" (err_result err)).

(** [Watch] up to its two goroutines. *)
Definition Watch : hprog (result watcher) :=
  original <-? wrapped "load route_localnet ownership"
                 (loadRouteLocalnetState routeLocalnetStatePath);
  if String.eqb (Mode backend) NFTables then Ret (Ok (initial original)) else
  _ ← setupKernelParameters;
  Ret (Ok (initial original)).

End watch.

(** What the two goroutines do, in any order, each holding the mutex; every
    [range] over a map may visit it in a new order. *)
Inductive turn (backend : Backend) (w : watcher) (tr : list hevent) (w' : watcher) : Prop :=
  | turn_change (range : MapRange) r : execs (attempt backend) w tr w' r → turn backend w tr w'
  | turn_repair (range : MapRange) r : execs (repairOnce backend) w tr w' r → turn backend w tr w'.

Inductive history (backend : Backend) (w : watcher) : list hevent → watcher → Prop :=
  | history_start : history backend w [] w
  | history_turn tr w1 tr' w2 :
      history backend w tr w1 → turn backend w1 tr' w2 → history backend w (tr ++ tr') w2.

(** ** Reading phase *)

(** The calls that build the desired rules. *)
Definition observes (c : hcall) : Prop :=
  match c with
  | GetNetworks | GetHosts | GetContainers | GetServices | GetSelfHost
  | ContainerInspect _ | NamespaceIPv4 _ | Now => True
  | ReadFile p => p = mountinfo
  | _ => False
  end.

Ltac observing := repeat first
  [ done
  | apply calls_in_pbind_ok; [|intros ?]
  | apply calls_in_wrapped | apply calls_in_call1; done
  | apply calls_in_bind; [|intros ?]
  | match goal with
    | |- hcalls _ (let '(_, _) := ?p in _) => destruct p
    | |- hcalls _ (match ?x with _ => _ end) => destruct x
    end ].

Lemma LocalHost_observes : hcalls observes LocalHost.
Proof.
  unfold LocalHost, LocalHostUUID, localHostUUIDFromDockerLabels, currentContainerID.
  observing.
Qed.

Section watch_properties.
Context {range : MapRange} (backend : Backend).

Lemma resolve_observes id subnet : hcalls observes (resolveContainerIPv4 id subnet).
Proof. unfold resolveContainerIPv4, inspectRunningContainerPID. observing. Qed.

Lemma desired_observes : hcalls observes desired_rules.
Proof.
  unfold desired_rules, networksByUUID. apply calls_in_pbind_ok; [apply LocalHost_observes|].
  intros host. apply calls_in_pbind_ok; [observing|]. intros networks.
  apply calls_in_pbind_ok.
  { apply calls_in_pfold. intros b [uuid n]. unfold network_step, load_peers. observing. }
  intros b. apply calls_in_pbind_ok; [observing|]. intros cs.
  apply calls_in_pfold. intros r c. unfold container_step. cbn zeta.
  destruct (negb _); [done|]. apply calls_in_pbind_ok; [done|]. intros cfg.
  apply calls_in_pbind_ok; [|done]. destruct (negb _); [done|].
  destruct (String.eqb _ _); [done|]. apply calls_in_wrapped, resolve_observes.
Qed.

(** A reconcile observes; it then applies the rules it derived, or finds them
    applied and fresh. *)
Lemma onChangeLocked_exec force w tr w' r :
  execs (onChangeLocked backend force) w tr w' r →
  ∃ tr1 tr2, tr = tr1 ++ tr2 ∧ Forall (λ e : hevent, observes (projT1 e)) tr1 ∧
    ((tr2 = [] ∧ w' = w ∧ is_Ok r → False) ∧ (∃ e, tr2 = [] ∧ w' = w ∧ r = Err e)
     ∨ ∃ newRules tr3 tr4, tr1 = tr3 ++ tr4 ∧ exec desired_rules tr3 (Ok newRules) ∧
         (execs (apply backend newRules) w tr2 w' r ∨
          tr2 = [] ∧ w' = w ∧ r = Ok () ∧ force = false ∧ applied w = newRules)).
Proof.
  unfold onChangeLocked. intros [(e & -> & H)|H]%execs_bind.
  { apply execs_lift in H as [H ->]. exists tr, []. rewrite app_nil_r.
    split; [done|]. split; [exact (calls_in_exec (Σ := host_sig) _ _ _ _ desired_observes H)|].
    left. split; [|eauto]. intros (_ & _ & [? ?]). done. }
  destruct H as (tr1 & tr2 & w1 & newRules & -> & [Hd ->]%execs_lift & H).
  pose proof (calls_in_exec (Σ := host_sig) _ _ _ _ desired_observes Hd) as Hobs.
  apply execs_bind in H as [(e & _ & (_ & _ & ?)%execs_get)|H]; [done|].
  destruct H as (? & tr3 & ? & w2 & -> & (-> & -> & [= ->])%execs_get & H). cbn [app].
  destruct (force || _) eqn:Hf.
  { exists tr1, tr3. split; [done|]. split; [done|]. right. exists newRules, tr1, [].
    rewrite app_nil_r. auto. }
  apply orb_false_iff in Hf as [-> Hf]. apply bool_decide_eq_false, dec_stable in Hf.
  apply execs_bind in H as [(e & _ & (? & _ & _ & ?)%execs_hask)|H]; [done|].
  destruct H as (tr4 & tr5 & ? & now & -> & (n & -> & -> & _)%execs_hask & H).
  exists (tr1 ++ [ev (Σ := host_sig) Now n]), tr5. rewrite <-app_assoc. split; [done|].
  split; [apply Forall_app; split; [done|by repeat constructor]|].
  right. exists newRules, tr1, [ev (Σ := host_sig) Now n]. split; [done|]. split; [done|].
  destruct (_ <? _)%Z; [by left|]. right. by apply execs_ret in H as (-> & -> & ->).
Qed.

(** ** Applying *)

Lemma restore_call tool args data tr r :
  exec (restore tool args data) tr r →
  ∃ out err, tr = [ev (Σ := host_sig) (Command (tool :: args) data) (out, err)] ∧
    (r = Ok () ↔ err = None).
Proof.
  unfold restore. intros (tr1 & tr2 & [out err] & -> & ->%exec_call1 & [-> ->])%exec_bind.
  exists out, err. split; [done|]. apply err_result_Ok.
Qed.

(** How far an application came. *)
Lemma checked_apply_exec what tool test run data base rules w tr w' r :
  execs (checked_apply what tool test run data base rules) w tr w' r →
  ∃ o1 e1, let tested := ev (Σ := host_sig) (Command (tool :: test) data) (o1, e1) in
  (e1 ≠ None ∧ tr = [tested] ∧ w' = w ∧ ¬ is_Ok r) ∨
  (e1 = None ∧ ∃ tr1 r1 tr2, tr = tested :: tr1 ++ tr2 ∧
     exec (restoreRemovedRouteLocalnet (routeLocalnetOriginal w) rules) tr1 r1 ∧
     ((r1 ≠ Ok () ∧ tr2 = [] ∧ w' = w ∧ ¬ is_Ok r) ∨
      (r1 = Ok () ∧ ∃ o2 e2 tr3,
         tr2 = ev (Σ := host_sig) (Command (tool :: run) data) (o2, e2) :: tr3 ∧
         ((e2 ≠ None ∧ tr3 = [] ∧ w' = w ∧ ¬ is_Ok r) ∨
          (e2 = None ∧ ∃ tr4 r4 tr5, tr3 = tr4 ++ tr5 ∧ exec base tr4 r4 ∧
             ((r4 ≠ Ok () ∧ tr5 = [] ∧ w' = w ∧ ¬ is_Ok r) ∨
              (r4 = Ok () ∧ ∃ tr6 o r6 tr7, tr5 = tr6 ++ tr7 ∧
                 exec (activateRouteLocalnet (routeLocalnetOriginal w) rules) tr6 (o, r6) ∧
                 ((r6 ≠ Ok () ∧ tr7 = [] ∧ w' = set_original o w ∧ ¬ is_Ok r) ∨
                  (r6 = Ok () ∧ r = Ok () ∧ ∃ now, tr7 = [ev (Σ := host_sig) Now now] ∧
                     w' = {| applied := rules; lastApplied := now;
                             routeLocalnetOriginal := o |}))))))))).
Proof.
  assert (∀ e : error, ¬ is_Ok (Err (A := ()) e)) as Hno by (by intros e [? ?]).
  unfold checked_apply. intros [(e & -> & H)|H]%execs_bind.
  { apply execs_lift in H as [(y & (o & er & -> & Hy)%restore_call & Hw)%exec_wrapped ->].
    exists o, er. left. destruct y as [[]|]; [done|]. split; [|by split_and!; [..|apply Hno]].
    intros ->. by pose proof (proj2 Hy eq_refl). }
  destruct H as (tr1 & tr2 & w1 & [] & -> & [(y & (o & er & -> & Hy)%restore_call & Hw)%exec_wrapped ->]%execs_lift & H).
  destruct y as [[]|]; [|done]. rewrite (proj1 Hy eq_refl) in *. clear Hy Hw.
  exists o, None. right. split; [done|].
  assert (∀ t w0 r0, execs (restoreRemoved rules) w t w0 r0 → w0 = w ∧
    exec (restoreRemovedRouteLocalnet (routeLocalnetOriginal w) rules) t r0) as Hrr.
  { intros t w0 r0 [(e & _ & (_ & _ & ?)%execs_get)|Hx]%execs_bind; [done|].
    destruct Hx as (? & t2 & ? & w2 & -> & (-> & -> & [= ->])%execs_get & [Hx ->]%execs_lift). done. }
  apply execs_bind in H as [(e & -> & [-> H]%Hrr)|(tr3 & tr4 & w2 & [] & -> & [-> Hr1]%Hrr & H)].
  { exists tr2, (Err e), []. rewrite app_nil_r. cbn [app]. split; [done|]. split; [done|]. left. by split_and!; [..|apply Hno]. }
  exists tr3, (Ok ()), tr4. split; [done|]. split; [done|]. right. split; [done|].
  apply execs_bind in H as [(e & -> & H)|H].
  { apply execs_lift in H as [(y & (o2 & er2 & -> & Hy)%restore_call & Hw)%exec_wrapped ->].
    exists o2, er2, []. split; [done|]. left. destruct y as [[]|]; [done|]. split; [|by split_and!; [..|apply Hno]].
    intros ->. by pose proof (proj2 Hy eq_refl). }
  destruct H as (tr5 & tr6 & w3 & [] & -> &
    [(y & (o2 & er2 & -> & Hy)%restore_call & Hw)%exec_wrapped ->]%execs_lift & H).
  destruct y as [[]|]; [|done]. rewrite (proj1 Hy eq_refl) in *. clear Hy Hw.
  exists o2, None, tr6. split; [done|]. right. split; [done|].
  apply execs_bind in H as [(e & -> & [H ->]%execs_lift)|(tr7 & tr8 & w4 & [] & -> & [Hb ->]%execs_lift & H)].
  { exists tr6, (Err e), []. rewrite app_nil_r. split; [done|]. split; [done|]. left. by split_and!; [..|apply Hno]. }
  exists tr7, (Ok ()), tr8. split; [done|]. split; [done|]. right. split; [done|].
  assert (∀ t w0 r0, execs (activate rules) w t w0 r0 → ∃ og, w0 = set_original og w ∧
    exec (activateRouteLocalnet (routeLocalnetOriginal w) rules) t (og, r0)) as Hac.
  { intros t w0 r0 (t1 & t2 & [og r1] & -> & Hx & [-> [= -> ->]])%exec_bind.
    rewrite app_nil_r. eauto. }
  apply execs_bind in H as [(e & -> & (og & -> & H)%Hac)|(tr9 & tr10 & w5 & [] & -> & (og & -> & Ha)%Hac & H)].
  { exists tr8, og, (Err e), []. rewrite app_nil_r. split; [done|]. split; [done|]. left. by split_and!; [..|apply Hno]. }
  exists tr9, og, (Ok ()), tr10. split; [done|]. split; [done|]. right. split; [done|].
  unfold remember in H. apply execs_bind in H as [(e & _ & (? & _ & _ & ?)%execs_hask)|H]; [done|].
  destruct H as (tr11 & tr12 & w6 & now & -> & (n & -> & -> & [= ->])%execs_hask &
    (-> & -> & ->)%execs_modify). split; [done|]. by exists n.
Qed.
End watch_properties.

(** ** The order of an application *)

Section order.
Context {range : MapRange} (backend : Backend).

(** The rule tool of the backend, to check and to install. *)
Definition rule_tool : string :=
  if String.eqb (Mode backend) NFTables then "nft" else Restore backend.
Definition check_args : list string :=
  if String.eqb (Mode backend) NFTables then ["-c"; "-f"; "-"] else ["--test"; "-n"].
Definition install_args : list string :=
  if String.eqb (Mode backend) NFTables then ["-f"; "-"] else ["-n"].

(** The complete rendering of a rule set. *)
Definition rendered (rules : ruleSet) (data : string) : bool :=
  if String.eqb (Mode backend) NFTables
  then String.eqb data (nftHostportBatch rules true) || String.eqb data (nftHostportBatch rules false)
  else String.eqb data (restore_payload rules).

(** The jumps into the platform's chains as iptables checks and inserts them: the
    guard in the raw table, then nat PREROUTING, FORWARD, nat OUTPUT and nat
    POSTROUTING. FORWARD is checked by its listing. *)
Definition hook_checks : list (list string) := [
  ["-w"; "-t"; "raw"; "-C"; "PREROUTING"; "-j"; "CATTLE_HOSTPORTS_RAW"];
  ["-w"; "-t"; "nat"; "-C"; "PREROUTING"; "-m"; "addrtype"; "--dst-type"; "LOCAL"; "-j"; "CATTLE_PREROUTING"];
  ["-w"; "-S"; "FORWARD"];
  ["-w"; "-t"; "nat"; "-C"; "OUTPUT"; "-m"; "addrtype"; "--dst-type"; "LOCAL"; "-j"; "CATTLE_OUTPUT"];
  ["-w"; "-t"; "nat"; "-C"; "POSTROUTING"; "-j"; "CATTLE_HOSTPORTS_POSTROUTING"] ].
Definition hook_inserts : list (list string) := [
  ["-w"; "-t"; "raw"; "-I"; "PREROUTING"; "1"; "-j"; "CATTLE_HOSTPORTS_RAW"];
  ["-w"; "-t"; "nat"; "-I"; "PREROUTING"; "-m"; "addrtype"; "--dst-type"; "LOCAL"; "-j"; "CATTLE_PREROUTING"];
  ["-w"; "-I"; "FORWARD"; "1"; "-j"; "CATTLE_FORWARD"];
  ["-w"; "-t"; "nat"; "-I"; "OUTPUT"; "-m"; "addrtype"; "--dst-type"; "LOCAL"; "-j"; "CATTLE_OUTPUT"];
  ["-w"; "-t"; "nat"; "-I"; "POSTROUTING"; "-j"; "CATTLE_HOSTPORTS_POSTROUTING"] ].
Definition raw_hook : nat := 0.
Definition forward_hook : nat := 2.
Definition position (args : list string) (l : list (list string)) : option nat :=
  fst <$> list_find (λ x, x = args) l.

(** What has happened so far: the data the tool accepted last, whether a complete
    rendering is installed, whether the original switches are on disk, and the
    jumps that were found in place or inserted. *)
Record progress := { checked : option string; installed : bool; persisted : bool; live : gset nat }.

Definition with_live (p : progress) (L : gset nat) : progress :=
  {| checked := checked p; installed := installed p; persisted := persisted p; live := L |}.

(** The guard of the enabled bridges is reached by packets: native nftables hooks
    are part of the rendering, xtables chains need the jump. *)
Definition guarded (p : progress) : bool :=
  installed p && (String.eqb (Mode backend) NFTables || bool_decide (raw_hook ∈ live p)).

(** A check that fails shows that the jump is gone, an insertion that it is there. *)
Definition hook_step (p : progress) (args : list string) (out : string) (err : option error) : progress :=
  match position args hook_checks with
  | Some i =>
      if bool_decide (err = None) && (negb (i =? forward_hook) || forwardJumpIsFirst out)
      then with_live p ({[i]} ∪ live p) else with_live p (live p ∖ {[i]})
  | None =>
      match position args hook_inserts with
      | Some i => if bool_decide (err = None) then with_live p ({[i]} ∪ live p) else p
      | None => p
      end
  end.

Definition enables (rules : ruleSet) (path text : string) : bool :=
  String.eqb text (switch_text true) &&
  existsb (λ b, String.eqb path (sysctl_path b)) (sortedEnabledBridges (RouteLocalnetBridges rules)).

(** The safe next steps: installing only the complete data that the tool has
    just accepted in a dry run, and switching a bridge on only once its guard
    rules are installed, the jump to them is in place and its original value is on
    disk. *)
Definition progress_step (rules : ruleSet) (p : progress) (e : hevent) : option progress :=
  match e with
  | existT (Command argv data) (out, err) =>
      if bool_decide (argv = rule_tool :: check_args) then
        Some {| checked := if bool_decide (err = None) then Some data else None;
                installed := installed p; persisted := persisted p; live := live p |}
      else if bool_decide (argv = rule_tool :: install_args) then
        if bool_decide (checked p = Some data) && rendered rules data
        then Some {| checked := checked p; installed := bool_decide (err = None);
                     persisted := persisted p; live := live p |}
        else None
      else if bool_decide (head argv = Some (BackendCommand backend))
      then Some (hook_step p (tail argv) out err)
      else Some p
  | existT (Rename _ q) None =>
      Some {| checked := checked p; installed := installed p;
              persisted := String.eqb q routeLocalnetStatePath || persisted p; live := live p |}
  | existT (WriteFile q text) _ =>
      if enables rules q text && negb (guarded p && persisted p) then None else Some p
  | _ => Some p
  end.

Fixpoint follows (rules : ruleSet) (p : progress) (tr : list hevent) : option progress :=
  match tr with
  | [] => Some p
  | e :: tr' => p' ← progress_step rules p e; follows rules p' tr'
  end.

Lemma follows_app rules p tr1 tr2 :
  follows rules p (tr1 ++ tr2) = p' ← follows rules p tr1; follows rules p' tr2.
Proof.
  revert p. induction tr1 as [|e tr1 IH]; intros p; [done|]. cbn [follows app].
  destruct (progress_step rules p e) as [p'|]; [apply IH|done].
Qed.

(** Events that leave the progress alone. *)
Lemma follows_skip rules p tr :
  Forall (λ e, progress_step rules p e = Some p) tr → follows rules p tr = Some p.
Proof. induction 1 as [|e tr He _ IH]; [done|]. cbn [follows]. by rewrite He. Qed.

Lemma enables_removed rules original b v :
  b ∈ removed_bridges original rules → enables rules (sysctl_path b) (switch_text v) = false.
Proof.
  intros [_ Hn]%elem_of_removed_bridges. unfold enables. apply andb_false_iff. right.
  apply not_true_iff_false. intros (b' & Hb' & Heq)%existsb_exists.
  apply String.eqb_eq, sysctl_path_inj in Heq as <-.
  by apply list_elem_of_In, elem_of_sortedEnabledBridges in Hb'.
Qed.

Lemma setBridge_calls b v tr r :
  exec (setBridgeRouteLocalnet b v) tr r →
  tr = [] ∨ ∃ err, tr = [ev (Σ := host_sig) (WriteFile (sysctl_path b) (switch_text v)) err].
Proof.
  unfold setBridgeRouteLocalnet. intros H.
  apply exec_pbind_ok in H as [(e & _ & [-> _])|(? & tr2 & [] & -> & [-> _] & H)]; [by left|].
  apply exec_bind in H as (tr3 & tr4 & err & -> & ->%exec_call1 & [-> _]). right. by exists err.
Qed.

Lemma set_all_calls msg (val : string → bool) bridges tr r :
  exec (pforeach (λ b, wrapped msg (setBridgeRouteLocalnet b (val b))) bridges) tr r →
  Forall (λ e, ∃ b err, b ∈ bridges ∧
    e = ev (Σ := host_sig) (WriteFile (sysctl_path b) (switch_text (val b))) err) tr.
Proof.
  revert tr. induction bridges as [|b bridges IH]; intros tr; cbn [pforeach].
  { intros [-> _]. constructor. }
  assert (∀ t x, exec (wrapped msg (setBridgeRouteLocalnet b (val b))) t x →
    Forall (λ e, ∃ b' err, b' ∈ b :: bridges ∧
      e = ev (Σ := host_sig) (WriteFile (sysctl_path b') (switch_text (val b'))) err) t) as Hone.
  { intros t x (y & H & _)%exec_wrapped. apply setBridge_calls in H as [->|[err ->]]; [constructor|].
    repeat constructor. exists b, err. split; [apply list_elem_of_here|done]. }
  intros [(e & _ & H)|(tr1 & tr2 & [] & -> & H1 & H2)]%exec_pbind_ok; [by eapply Hone|].
  apply Forall_app. split; [by eapply Hone|]. eapply Forall_impl; [by apply IH|].
  intros e (b' & err & Hb & ->). exists b', err. split; [by apply list_elem_of_further|done].
Qed.

(** A saved state has been renamed into place. *)
Definition saved (e : hevent) : Prop :=
  ∃ old, e = ev (Σ := host_sig) (Rename old routeLocalnetStatePath) None.

Lemma save_exec o tr r :
  exec (saveRouteLocalnetState routeLocalnetStatePath o) tr r → r = Ok () → Exists saved tr.
Proof.
  unfold saveRouteLocalnetState. intros H ->.
  apply exec_bind in H as (tr1 & tr2 & merr & -> & _ & H).
  apply exec_pbind_ok in H as [(? & ? & _)|(? & tr3 & [] & -> & _ & H)]; [done|].
  apply exec_pbind_ok in H as [(? & ? & _)|(? & tr4 & file & -> & _ & H)]; [done|].
  apply exec_bind in H as (tr5 & tr6 & r5 & -> & Hx & H).
  apply exec_bind in H as (tr7 & tr8 & r7 & -> & _ & [-> <-]).
  apply exec_pbind_ok in Hx as [(? & ? & _)|(tr9 & tr10 & [] & -> & _ & Hx)]; [done|].
  apply exec_bind in Hx as (tr11 & tr12 & rerr & -> & ->%exec_call1 & [-> Hr]).
  destruct rerr; [done|]. rewrite !Exists_app. right. right. right. left. right. left.
  left. by exists file.
Qed.

(** Calls of the ownership bookkeeping other than the switches. *)
Definition bookkeeping (c : hcall) : Prop :=
  match c with WriteFile _ _ | Command _ _ => False | _ => True end.

Lemma save_bookkeeping path o : hcalls bookkeeping (saveRouteLocalnetState path o).
Proof. unfold saveRouteLocalnetState, write_temporary. observing. Qed.

Lemma next_bookkeeping original bridges next0 :
  hcalls bookkeeping (pfold (next_original original) next0 bridges).
Proof.
  apply calls_in_pfold. intros s b. unfold next_original, readBridgeRouteLocalnet. observing.
Qed.

(** Bookkeeping can only add that the state is on disk. *)
Lemma follows_bookkeeping rules p tr :
  Forall (λ e : hevent, bookkeeping (projT1 e)) tr →
  ∃ pers, follows rules p tr = Some {| checked := checked p; installed := installed p;
                                       persisted := pers; live := live p |} ∧
    (persisted p = true → pers = true) ∧ (Exists saved tr → pers = true).
Proof.
  intros Htr. revert p. induction Htr as [|e tr Hc _ IH]; intros p.
  { exists (persisted p). split; [by destruct p|]. split; [done|]. intros H. by inversion H. }
  assert (∃ pers, progress_step rules p e = Some {| checked := checked p;
    installed := installed p; persisted := pers; live := live p |} ∧ (persisted p = true → pers = true) ∧
    (saved e → pers = true)) as (pers & Hs & Hp & Hsv).
  { destruct e as [c x]; destruct c; try done; try (exists (persisted p); split; [by destruct p|]; split; [done|];
      intros [o Ho]; discriminate Ho).
    destruct x as [err|].
    - exists (persisted p). split; [by destruct p|]. split; [done|]. intros [o Ho].
      apply (f_equal (λ e : hevent, match e with existT (Rename _ _) (Some _) => true | _ => false end))
        in Ho. discriminate Ho.
    - eexists. split; [reflexivity|]. split; [intros ->; by rewrite orb_true_r|].
      intros [o Ho]. apply (f_equal (λ e : hevent, match e with existT (Rename _ q) _ => q | _ => "" end))
        in Ho. cbn in Ho. subst. by rewrite String.eqb_refl. }
  cbn [follows]. rewrite Hs. cbn [mbind option_bind].
  destruct (IH {| checked := checked p; installed := installed p; persisted := pers; live := live p |})
    as (pers' & Hf & Hp' & Hsv'). exists pers'. split; [exact Hf|]. cbn in Hp'.
  split; [auto|]. rewrite Exists_cons. intros [?|?]; auto.
Qed.
(** A call that lists or edits single base rules. *)
Definition base_call (c : hcall) : Prop :=
  match c with
  | Command (_ :: flag :: _) _ => flag = "-w" ∨ flag = "list"
  | _ => False
  end.

(** A call of a base rule is one step of the jumps. *)
Lemma base_call_step rules p argv data out err :
  base_call (Command argv data) → head argv = Some (BackendCommand backend) →
  progress_step rules p (ev (Σ := host_sig) (Command argv data) (out, err)) = Some (hook_step p (tail argv) out err).
Proof.
  intros Hbase Hcmd. cbn [progress_step ev].
  destruct argv as [|cmd [|flag rest]]; try done. cbn in Hbase.
  unfold check_args, install_args. rewrite (bool_decide_eq_true_2 _ Hcmd).
  destruct (String.eqb (Mode backend) NFTables);
    rewrite !bool_decide_eq_false_2; try done; intros [= _ -> _]; by destruct Hbase.
Qed.

Lemma calls_in_collect (P : hcall → Prop) steps :
  Forall (λ s, hcalls P s) steps → hcalls P (collect steps).
Proof.
  induction 1 as [|s steps Hs _ IH]; [done|]. cbn [collect].
  apply calls_in_bind; [done|]. intros e. by apply calls_in_bind.
Qed.

Lemma insertBaseRules_calls : hcalls base_call (insertBaseRules backend).
Proof.
  unfold insertBaseRules. destruct (String.eqb (Mode backend) NFTables); [done|].
  destruct (String.eqb (BackendCommand backend) ""); [done|].
  apply calls_in_bind; [|done]. apply calls_in_collect. unfold base_steps, ensure_rule,
    ensureForwardJumpFirst, run_command.
  assert (∀ rest, hcalls base_call (call1 (Command (BackendCommand backend :: "-w" :: rest) "")))
    as Hc by (intros rest; apply calls_in_call1; by left).
  repeat apply Forall_cons_2; [..|apply Forall_nil_2];
    repeat first [done | apply Hc | apply calls_in_bind; [|intros ?]
    | match goal with
      | |- hcalls _ (let '(_, _) := ?p in _) => destruct p
      | |- hcalls _ (match ?x with _ => _ end) => destruct x
      end ].
Qed.

(** *** The jumps after the base rules *)

Definition keeps (i : nat) (rules : ruleSet) (p : progress) (tr : list hevent) (e : option error) : Prop :=
  ∃ L, follows rules p tr = Some (with_live p L) ∧ (∀ j, j ≠ i → j ∈ L ↔ j ∈ live p) ∧ (e = None → i ∈ L).

Lemma follows_call rules p args out err :
  head args = Some "-w" →
  follows rules p [ev (Σ := host_sig) (Command (BackendCommand backend :: args) "") (out, err)] =
    Some (hook_step p args out err).
Proof.
  intros Hw. cbn [follows]. rewrite base_call_step; [done| |done].
  destruct args as [|flag rest]; [done|]. injection Hw as ->. by left.
Qed.

Lemma run_command_call args tr e :
  exec (run_command args) tr e → ∃ out, tr = [ev (Σ := host_sig) (Command args "") (out, e)].
Proof. intros (tr1 & tr2 & [out err] & -> & ->%exec_call1 & [-> ->])%exec_bind. by exists out. Qed.

(** A rule that is inserted when its check fails. *)
Lemma ensure_keeps i check insert rules p tr e :
  head check = Some "-w" → head insert = Some "-w" → i ≠ forward_hook →
  position check hook_checks = Some i →
  position insert hook_checks = None → position insert hook_inserts = Some i →
  exec (ensure_rule (BackendCommand backend :: check) (BackendCommand backend :: insert)) tr e →
  keeps i rules p tr e.
Proof.
  intros Hc Hi Hf Pc Pi1 Pi2 H. apply exec_bind in H as (tr1 & tr2 & m & -> & [o ->]%run_command_call & H).
  unfold keeps. setoid_rewrite follows_app. rewrite follows_call by done. cbn [mbind option_bind].
  unfold hook_step at 1. rewrite Pc. apply Nat.eqb_neq in Hf. rewrite Hf. cbn [negb orb].
  destruct m as [err|].
  - apply run_command_call in H as [o2 ->]. rewrite follows_call by done. unfold hook_step.
    rewrite Pi1, Pi2. cbn. case_bool_decide; eexists; (split; [reflexivity|]); set_solver.
  - destruct H as [-> ->]. cbn. eexists. split; [reflexivity|]. set_solver.
Qed.

Lemma forward_keeps rules p tr e :
  exec (ensureForwardJumpFirst (BackendCommand backend)) tr e → keeps forward_hook rules p tr e.
Proof.
  intros H. apply exec_bind in H as (tr1 & tr2 & [out m] & -> & ->%exec_call1 & H).
  unfold keeps. setoid_rewrite follows_app. rewrite follows_call by done. cbn [mbind option_bind].
  unfold hook_step at 1. change (position _ hook_checks) with (Some forward_hook). cbn [Nat.eqb forward_hook negb orb].
  destruct (bool_decide (m = None) && forwardJumpIsFirst out).
  - destruct H as [-> ->]. eexists. split; [reflexivity|]. cbn. set_solver.
  - apply run_command_call in H as [o2 ->]. rewrite follows_call by done. unfold hook_step.
    change (position _ hook_checks) with (None (A := nat)). change (position _ hook_inserts) with (Some forward_hook).
    case_bool_decide; eexists; (split; [reflexivity|]); cbn; set_solver.
Qed.

Lemma collect_keeps ixs steps rules p tr es :
  Forall2 (λ i s, ∀ p tr e, exec s tr e → keeps i rules p tr e) ixs steps → NoDup ixs →
  exec (collect steps) tr es →
  ∃ L, follows rules p tr = Some (with_live p L) ∧ (∀ j, j ∉ ixs → j ∈ L ↔ j ∈ live p) ∧
    (es = [] → ∀ i, i ∈ ixs → i ∈ L).
Proof.
  intros H. revert p tr es. induction H as [|i s ixs steps Hs _ IH]; intros p tr es Hnd; cbn [collect].
  { intros [-> ->]. exists (live p). destruct p. set_solver. }
  apply NoDup_cons in Hnd as [Hi Hnd].
  intros (tr1 & tr2 & e & -> & (L1 & Hf1 & Hk1 & He1)%(Hs p) & H)%exec_bind.
  apply exec_bind in H as (tr3 & tr4 & es' & -> & H & [-> ->]). rewrite app_nil_r.
  destruct (IH (with_live p L1) _ _ Hnd H) as (L & Hf & Hk & He). exists L.
  rewrite follows_app, Hf1. cbn [mbind option_bind]. split; [by rewrite Hf|]. cbn [live with_live] in *.
  split; [intros j Hj; rewrite Hk, Hk1; set_solver|].
  intros Hes j Hj. destruct e; [done|]. subst es'. apply elem_of_cons in Hj as [->|Hj]; [|by apply He].
  apply Hk; [done|]. by apply He1.
Qed.

(** All jumps are in place. *)
Definition hooked (p : progress) : Prop :=
  Mode backend = NFTables ∨ ∀ i, i < length hook_checks → i ∈ live p.

Lemma insertBaseRules_follows rules p tr r :
  exec (insertBaseRules backend) tr r →
  ∃ L, follows rules p tr = Some (with_live p L) ∧ (r = Ok () → hooked (with_live p L)).
Proof.
  unfold insertBaseRules, hooked. destruct (String.eqb_spec (Mode backend) NFTables) as [Hm|Hm].
  { intros [-> ->]. exists (live p). split; [by destruct p|by left]. }
  destruct (String.eqb (BackendCommand backend) "").
  { intros [-> ->]. exists (live p). by split; [destruct p|]. }
  intros (tr1 & tr2 & es & -> & H & [-> ->])%exec_bind. rewrite app_nil_r.
  apply (collect_keeps [0; 1; 2; 3; 4] _ rules p) in H as (L & Hf & _ & He).
  - exists L. split; [done|]. destruct es as [|e0 es0]; [|done]. intros _. right. intros i Hi.
    apply He; [done|]. cbn in Hi. do 5 (destruct i as [|i]; [set_solver|]). lia.
  - unfold base_steps. repeat apply Forall2_cons_2; [..|apply Forall2_nil_2]; intros q t e H1;
      first [by eapply forward_keeps|eapply ensure_keeps; [..|exact H1]; first [done|reflexivity]].
  - apply (bool_decide_unpack _). vm_compute. done.
Qed.

Lemma follows_restore original rules p tr r :
  exec (restoreRemovedRouteLocalnet original rules) tr r → follows rules p tr = Some p.
Proof.
  intros H%set_all_calls. apply follows_skip. eapply Forall_impl; [exact H|].
  intros e (b & err & Hb & ->). cbn [progress_step ev].
  by rewrite (enables_removed _ _ _ _ Hb).
Qed.

Lemma follows_activate original rules p tr o r :
  exec (activateRouteLocalnet original rules) tr (o, r) → guarded p = true →
  ∃ p', follows rules p tr = Some p' ∧ installed p' = installed p ∧ live p' = live p ∧
    (r = Ok () → persisted p' = true).
Proof.
  unfold activateRouteLocalnet. intros H Hi.
  apply exec_bind in H as (tr1 & tr2 & r1 & -> & H1 & H).
  pose proof (calls_in_exec (Σ := host_sig) _ _ _ _ (next_bookkeeping _ _ _) H1) as Hb1.
  destruct (follows_bookkeeping rules p _ Hb1) as (q1 & Hf1 & _).
  setoid_rewrite follows_app. rewrite Hf1. cbn [mbind option_bind]. clear H1 Hb1 Hf1.
  destruct r1 as [next|e].
  2:{ destruct H as [-> [= -> ->]]. cbn [follows]. eexists. split; [reflexivity|]. by split_and!. }
  apply exec_bind in H as (tr3 & tr4 & r3 & -> & (r3' & Hs & ->)%exec_wrapped & H).
  pose proof (calls_in_exec (Σ := host_sig) _ _ _ _ (save_bookkeeping _ _) Hs) as Hb3.
  destruct (follows_bookkeeping rules {| checked := checked p; installed := installed p;
    persisted := q1; live := live p |} _ Hb3) as (q3 & Hf3 & _ & Hsaved).
  setoid_rewrite follows_app. rewrite Hf3. cbn [mbind option_bind installed checked].
  destruct r3' as [[]|e].
  2:{ destruct H as [-> [= -> ->]]. cbn [follows]. eexists. split; [reflexivity|]. by split_and!. }
  specialize (Hsaved (save_exec _ _ _ Hs eq_refl)). subst q3.
  apply exec_bind in H as (tr5 & tr6 & r5 & -> & Hset%set_all_calls & [-> [= -> ->]]).
  rewrite app_nil_r. rewrite follows_skip; [by eexists|].
  eapply Forall_impl; [exact Hset|]. intros e (b & err & _ & ->). cbn [progress_step ev].
  unfold guarded in *. cbn [installed persisted live]. by rewrite Hi, andb_false_r.
Qed.

Definition nothing_done : progress := {| checked := None; installed := false; persisted := false; live := ∅ |}.

Definition after_check (p : progress) (data : string) (e : option error) : progress :=
  {| checked := if bool_decide (e = None) then Some data else None;
     installed := installed p; persisted := persisted p; live := live p |}.
Definition after_install (p : progress) (data : string) (e : option error) : progress :=
  {| checked := Some data; installed := bool_decide (e = None); persisted := persisted p; live := live p |}.

Lemma check_step rules p data o e :
  progress_step rules p (ev (Σ := host_sig) (Command (rule_tool :: check_args) data) (o, e)) =
    Some (after_check p data e).
Proof. cbn [progress_step ev]. by rewrite bool_decide_eq_true_2. Qed.

Lemma install_step rules p data o e :
  checked p = Some data → rendered rules data = true →
  progress_step rules p (ev (Σ := host_sig) (Command (rule_tool :: install_args) data) (o, e)) =
    Some (after_install p data e).
Proof.
  intros Hc Hdata. cbn [progress_step ev].
  rewrite bool_decide_eq_false_2, (bool_decide_eq_true_2 (_ :: _ = _ :: _)), (bool_decide_eq_true_2 (checked p = _)), Hdata
    by first [done|unfold install_args, check_args; by destruct (String.eqb _ _)].
  unfold after_install. cbn. by rewrite Hc.
Qed.

Lemma checked_apply_follows what rules data base w tr w' r p :
  (∀ q t x, exec base t x → ∃ L, follows rules q t = Some (with_live q L) ∧ (x = Ok () → hooked (with_live q L))) →
  rendered rules data = true →
  execs (checked_apply what rule_tool check_args install_args data base rules) w tr w' r →
  ∃ p', follows rules p tr = Some p' ∧
    (r = Ok () → installed p' = true ∧ persisted p' = true ∧ hooked p' ∧ applied w' = rules) ∧
    (¬ is_Ok r → applied w' = applied w ∧ lastApplied w' = lastApplied w).
Proof.
  intros Hbase Hdata H. apply checked_apply_exec in H as (o1 & e1 & H). cbn zeta in H.
  assert (∀ A (q : A), r = Ok () → ¬ is_Ok r → False) as Hno by (intros ? _ -> []; by eexists).
  cut (∃ p', follows rules p tr = Some p' ∧
    ((¬ is_Ok r ∧ applied w' = applied w ∧ lastApplied w' = lastApplied w) ∨
     (r = Ok () ∧ installed p' = true ∧ persisted p' = true ∧ hooked p' ∧ applied w' = rules))).
  { intros (p' & Hf & [(Hr & Hw)|(Hr & Hok)]); exists p'; (split; [done|]).
    - split; [|done]. intros Hok. by destruct (Hno _ p Hok Hr).
    - split; [done|]. intros Hn. by destruct (Hno _ p Hr Hn). }
  clear Hno.
  set (p1 := after_check p data e1).
  destruct H as [(_ & -> & -> & Hr)|(-> & tr1 & r1 & tr2 & -> & Hrr & H)]; cbn [follows]; rewrite check_step; fold p1.
  { exists p1. by split; [|left]. }
  cbn [mbind option_bind]. setoid_rewrite follows_app. rewrite (follows_restore _ _ _ _ _ Hrr). cbn [mbind option_bind].
  destruct H as [(_ & -> & -> & Hr)|(_ & o2 & e2 & tr3 & -> & H)]; [exists p1; by split; [|left]|].
  set (p2 := after_install p1 data e2).
  cbn [follows]. rewrite install_step by done. fold p2. cbn [mbind option_bind].
  destruct H as [(_ & -> & -> & Hr)|(-> & tr4 & r4 & tr5 & -> & Hb & H)]; [exists p2; by split; [|left]|].
  destruct (Hbase p2 _ _ Hb) as (L & HfL & HL). setoid_rewrite follows_app. rewrite HfL. cbn [mbind option_bind].
  destruct H as [(_ & -> & -> & Hr)|(-> & tr6 & o & r6 & tr7 & -> & Ha & H)]; [eexists; by split; [|left]|].
  specialize (HL eq_refl). assert (guarded (with_live p2 L) = true) as Hg.
  { unfold guarded. cbn. destruct HL as [->|HL]; [by rewrite String.eqb_refl|].
    rewrite (bool_decide_eq_true_2 (raw_hook ∈ L)); [by rewrite orb_true_r|]. apply HL. cbn. unfold raw_hook. lia. }
  destruct (follows_activate _ _ _ _ _ _ Ha Hg) as (p3 & Hf3 & Hi3 & Hl3 & Hp3).
  setoid_rewrite follows_app. rewrite Hf3. cbn [mbind option_bind].
  destruct H as [(_ & -> & -> & Hr)|(-> & -> & now & -> & ->)]; exists p3; (split; [done|]); [by left|right].
  split_and!; auto. destruct HL as [HL|HL]; [by left|right]. intros i Hi. rewrite Hl3. by apply HL.
Qed.

Lemma follows_list_tables rules out err :
  follows rules nothing_done [ev (Σ := host_sig) (Command ["nft"; "list"; "tables"] "") (out, err)] = Some nothing_done.
Proof.
  cbn [follows progress_step ev]. unfold check_args, install_args. case (String.eqb _ _);
    rewrite !(bool_decide_eq_false_2 (_ = _ :: _)) by done; cbn [mbind option_bind]; by case_bool_decide.
Qed.

Lemma apply_follows rules w tr w' r :
  execs (apply backend rules) w tr w' r →
  ∃ p, follows rules nothing_done tr = Some p ∧
    (r = Ok () → validateRuleSet rules = Ok () ∧ installed p = true ∧ persisted p = true ∧
                 hooked p ∧ applied w' = rules) ∧
    (¬ is_Ok r → applied w' = applied w ∧ lastApplied w' = lastApplied w).
Proof.
  unfold apply. intros [(e & -> & (-> & -> & _)%execs_of_result)|H]%execs_bind.
  { exists nothing_done. by split. }
  destruct H as (tr1 & tr2 & w1 & [] & -> & (-> & -> & Hv)%execs_of_result & H). cbn [app].
  unfold apply_xt, applyNFT in H. pose proof checked_apply_follows as Hca.
  unfold rule_tool, check_args, install_args, rendered in Hca.
  destruct (String.eqb_spec (Mode backend) NFTables) as [Hm|Hm].
  - apply execs_bind in H as [(e & -> & [H ->]%execs_lift)|H].
    + apply exec_bind in H as (tr3 & tr4 & [out err] & -> & ->%exec_call1 & [-> _]).
      exists nothing_done. split; [|by split]. apply follows_list_tables.
    + destruct H as (tr3 & tr4 & w2 & out & -> & [Hl ->]%execs_lift & H).
      apply exec_bind in Hl as (tr5 & tr6 & [o err] & -> & ->%exec_call1 & [-> _]).
      pose proof (λ a b, Hca _ rules _ _ _ _ _ _ nothing_done a b H) as Hx.
      destruct Hx as (p & Hf & Hok & Herr).
      { intros q t x [-> _]. exists (live q). split; [by destruct q|by left]. }
      { destruct (table_exists out); by rewrite String.eqb_refl, ?orb_true_r. }
      exists p. split; [|split; [naive_solver|done]].
      by rewrite app_nil_r, follows_app, follows_list_tables.
  - destruct (String.eqb (Restore backend) "").
    + apply execs_fail in H as (-> & -> & ->). exists nothing_done. by split.
    + pose proof (λ a b, Hca _ rules _ _ _ _ _ _ nothing_done a b H) as Hx.
      destruct Hx as (p & Hf & Hok & Herr).
      { intros q t x (y & (L & HfL & HL)%(insertBaseRules_follows rules q) & Hy)%exec_wrapped. exists L. split; [done|].
        intros ->. apply HL. by destruct y as [[]|]. }
      { apply String.eqb_refl. }
      exists p. split; [done|split; [naive_solver|done]].
Qed.

End order.

(** ** Ownership over the watcher's life *)

Section ownership.
Context {range : MapRange} (backend : Backend).

Lemma observes_no_write c : observes c → no_write c.
Proof. by destruct c. Qed.

Lemma base_no_write c : base_call c → no_write c.
Proof. by destruct c. Qed.

Lemma replay_Forall (P : hcall → Prop) σ tr σ' :
  (∀ c, P c → no_write c) → Forall (λ e : hevent, P (projT1 e)) tr →
  replay σ tr = Some σ' → σ' = σ.
Proof.
  intros HP Htr. apply replay_no_write. eapply Forall_impl; [exact Htr|]. intros e. apply HP.
Qed.

Lemma checked_apply_owned what tool test run data bs rules w tr w' r base σ σ' :
  (∀ t x, exec bs t x → Forall (λ e : hevent, no_write (projT1 e)) t) →
  execs (checked_apply what tool test run data bs rules) w tr w' r →
  replay σ tr = Some σ' → owned base σ (routeLocalnetOriginal w) →
  owned base σ' (routeLocalnetOriginal w').
Proof.
  intros Hbs H Hr Ho. apply checked_apply_exec in H as (o1 & e1 & H). cbn zeta in H.
  destruct H as [(_ & -> & -> & _)|(_ & tr1 & r1 & tr2 & -> & Hrr & H)].
  { cbn in Hr. by injection Hr as <-. }
  cbn [replay switch_step ev mbind option_bind] in Hr.
  rewrite replay_app in Hr. apply bind_Some in Hr as (σ1 & Hr1 & Hr).
  destruct (restore_exec _ _ _ _ _ _ _ Hrr Hr1 Ho) as [Ho1 Hdrop].
  destruct H as [(_ & -> & -> & _)|(-> & o2 & e2 & tr3 & -> & H)].
  { cbn in Hr. by injection Hr as <-. }
  cbn [replay switch_step ev mbind option_bind] in Hr.
  destruct H as [(_ & -> & -> & _)|(_ & tr4 & r4 & tr5 & -> & Hb & H)].
  { cbn in Hr. by injection Hr as <-. }
  rewrite replay_app in Hr. apply bind_Some in Hr as (σ2 & Hr2 & Hr).
  apply (replay_no_write _ _ _ (Hbs _ _ Hb)) in Hr2. subst σ2.
  destruct H as [(_ & -> & -> & _)|(_ & tr6 & o & r6 & tr7 & -> & Ha & H)].
  { cbn in Hr. by injection Hr as <-. }
  rewrite replay_app in Hr. apply bind_Some in Hr as (σ3 & Hr3 & Hr).
  destruct (activate_exec _ _ _ _ _ _ _ _ Ha Hr3 Ho1 (Hdrop eq_refl)) as [Ho3 _].
  destruct H as [(_ & -> & -> & _)|(_ & _ & now & -> & ->)];
    cbn in Hr; by injection Hr as <-.
Qed.

Lemma apply_owned rules w tr w' r base σ σ' :
  execs (apply backend rules) w tr w' r →
  replay σ tr = Some σ' → owned base σ (routeLocalnetOriginal w) →
  owned base σ' (routeLocalnetOriginal w').
Proof.
  unfold apply. intros [(e & -> & (-> & -> & _)%execs_of_result)|H]%execs_bind.
  { by intros [= <-]. }
  destruct H as (tr1 & tr2 & w1 & [] & -> & (-> & -> & _)%execs_of_result & H). cbn [app].
  intros Hr Ho. destruct (String.eqb (Mode backend) NFTables).
  - apply execs_bind in H as [(e & _ & [Hl ->]%execs_lift)|H];
      [|destruct H as (tr3 & tr4 & w2 & out & -> & [Hl ->]%execs_lift & H)];
      apply exec_bind in Hl as (tr5 & tr6 & [o err] & -> & ->%exec_call1 & [-> _]).
    + cbn in Hr. by injection Hr as <-.
    + rewrite app_nil_r in Hr. cbn [app replay switch_step ev mbind option_bind] in Hr.
      eapply checked_apply_owned; [|exact H|exact Hr|exact Ho]. by intros t x [-> _].
  - unfold apply_xt in H. destruct (String.eqb (Restore backend) "").
    + apply execs_fail in H as (-> & -> & _). by injection Hr as <-.
    + eapply checked_apply_owned; [|exact H|exact Hr|exact Ho].
      intros t x (y & Hx & _)%exec_wrapped. eapply Forall_impl.
      * exact (calls_in_exec (Σ := host_sig) _ _ _ _ (insertBaseRules_calls backend) Hx).
      * intros e. apply base_no_write.
Qed.

Lemma onChange_owned force w tr w' r base σ σ' :
  execs (onChangeLocked backend force) w tr w' r →
  replay σ tr = Some σ' → owned base σ (routeLocalnetOriginal w) →
  owned base σ' (routeLocalnetOriginal w').
Proof.
  intros (tr1 & tr2 & -> & Hobs & H)%onChangeLocked_exec Hr Ho.
  rewrite replay_app in Hr. apply bind_Some in Hr as (σ1 & Hr1 & Hr2).
  apply (replay_Forall observes _ _ _ observes_no_write Hobs) in Hr1. subst σ1.
  destruct H as [(_ & e & -> & -> & _)|(rules & tr3 & tr4 & _ & _ & [H|(-> & -> & _)])].
  - by injection Hr2 as <-.
  - by eapply apply_owned.
  - by injection Hr2 as <-.
Qed.

Lemma report_owned err w tr w' r σ σ' :
  execs (reportLocked err) w tr w' r → replay σ tr = Some σ' → w' = w ∧ σ' = σ.
Proof. intros ([] & -> & -> & _)%execs_hask [= <-]. done. Qed.

Lemma attempt_owned w tr w' r base σ σ' :
  execs (attempt backend) w tr w' r → replay σ tr = Some σ' →
  owned base σ (routeLocalnetOriginal w) → owned base σ' (routeLocalnetOriginal w').
Proof.
  unfold attempt. intros [(e & _ & (? & _ & ?)%execs_try)|H]%execs_bind; [done|].
  destruct H as (tr1 & tr2 & w1 & x & -> & (r1 & H1 & _)%execs_try & H). intros Hr Ho.
  rewrite replay_app in Hr. apply bind_Some in Hr as (σ1 & Hr1 & Hr2).
  assert (∃ tr3 tr4, tr2 = tr3 ++ tr4 ∧ (∃ x1, execs (reportLocked (result_err x)) w1 tr3 w' x1) ∧
    tr4 = []) as (tr3 & ? & -> & (x1 & Hrep) & ->).
  { apply execs_bind in H as [(e & _ & H)|(tr3 & tr4 & w2 & [] & -> & H & (-> & -> & _)%execs_of_result)].
    - exists tr2, []. rewrite app_nil_r. eauto.
    - exists tr3, []. eauto. }
  rewrite app_nil_r in Hr2. destruct (report_owned _ _ _ _ _ _ _ Hrep Hr2) as [-> ->].
  by eapply onChange_owned.
Qed.

Lemma live_check_owned w tr w' r σ σ' :
  execs (live_check backend) w tr w' r → replay σ tr = Some σ' → w' = w ∧ σ' = σ.
Proof.
  unfold live_check. intros [(e & _ & (_ & _ & ?)%execs_get)|H]%execs_bind; [done|].
  destruct H as (tr1 & tr2 & w1 & w2 & -> & (-> & -> & [= ->])%execs_get & H). cbn [app].
  intros Hr. destruct (String.eqb (Mode backend) NFTables); apply execs_lift in H as [H ->].
  - unfold checkNFTRules in H.
    apply exec_bind in H as (tr3 & tr4 & [out err] & -> & ->%exec_call1 & H).
    destruct err; destruct H as [-> _]; cbn in Hr; by injection Hr as <-.
  - split; [done|]. eapply (replay_Forall base_call); [apply base_no_write| |exact Hr].
    exact (calls_in_exec (Σ := host_sig) _ _ _ _ (insertBaseRules_calls backend) H).
Qed.

Lemma repairOnce_owned w tr w' r base σ σ' :
  execs (repairOnce backend) w tr w' r → replay σ tr = Some σ' →
  owned base σ (routeLocalnetOriginal w) → owned base σ' (routeLocalnetOriginal w').
Proof.
  unfold repairOnce. intros [(e & _ & (? & _ & ?)%execs_try)|H]%execs_bind; [done|].
  destruct H as (tr1 & tr2 & w1 & c & -> & (r1 & H1 & [= ->])%execs_try & H). intros Hr Ho.
  rewrite replay_app in Hr. apply bind_Some in Hr as (σ1 & Hr1 & Hr).
  destruct (live_check_owned _ _ _ _ _ _ H1 Hr1) as [-> ->].
  assert (∀ t w2 x σ2, execs (match r1 with Err e => reportLocked (Some e) | Ok _ => mret () end)
    w t w2 x → replay σ t = Some σ2 → w2 = w ∧ σ2 = σ) as Hrep.
  { intros t w2 x σ2 Hx Ht. destruct r1 as [[]|e]; [|by eapply report_owned].
    apply execs_ret in Hx as (-> & -> & _). by injection Ht as <-. }
  apply execs_bind in H as [(e & _ & H)|(tr3 & tr4 & w2 & [] & -> & H2 & H)].
  { by destruct (Hrep _ _ _ _ H Hr) as [-> ->]. }
  rewrite replay_app in Hr. apply bind_Some in Hr as (σ2 & Hr2 & Hr).
  destruct (Hrep _ _ _ _ H2 Hr2) as [-> ->].
  apply execs_bind in H as [(e & _ & (? & _ & ?)%execs_try)|H]; [done|].
  destruct H as (tr5 & tr6 & w3 & y & -> & (r3 & H3 & _)%execs_try & H).
  rewrite replay_app in Hr. apply bind_Some in Hr as (σ3 & Hr3 & Hr).
  pose proof (onChange_owned _ _ _ _ _ _ _ _ H3 Hr3 Ho) as Ho3.
  apply execs_bind in H as [(e & _ & H)|(tr7 & tr8 & w4 & [] & -> & H4 & (-> & -> & _)%execs_of_result)].
  - by destruct (report_owned _ _ _ _ _ _ _ H Hr) as [-> ->].
  - rewrite app_nil_r in Hr. by destruct (report_owned _ _ _ _ _ _ _ H4 Hr) as [-> ->].
Qed.

End ownership.

(** C8: over any history of callbacks and repairs, failing ones included, the
    watcher's map records the original route_localnet value of every bridge it
    has changed, and every other switch of the kernel has its original value;
    so once it owns no bridge, all switches are as they were found. *)
Theorem route_localnet_owned backend original base σ tr w σ' :
  owned base σ original → history backend (initial original) tr w → replay σ tr = Some σ' →
  owned base σ' (routeLocalnetOriginal w) ∧ (routeLocalnetOriginal w = ∅ → σ' = base).
Proof.
  intros Ho Hh Hr.
  assert (owned base σ' (routeLocalnetOriginal w)) as Hw.
  { revert σ' Hr. induction Hh as [|tr w1 tr' w2 _ IH Hturn]; intros σ' Hr.
    - by injection Hr as <-.
    - rewrite replay_app in Hr. apply bind_Some in Hr as (σ1 & Hr1 & Hr2).
      specialize (IH _ Hr1). destruct Hturn as [rg r Ht|rg r Ht];
        [by eapply attempt_owned|by eapply repairOnce_owned]. }
  split; [done|]. intros Hempty. rewrite Hempty in Hw. apply map_eq. intros p.
  apply (owned_rest _ _ _ Hw). by intros b v.
Qed.

(** *** A concrete host *)

Definition legacy_backend : Backend :=
  {| Mode := "iptables"; BackendCommand := "iptables"; Restore := "iptables-restore" |}.

Definition demo_network : Network.t :=
  mk_network "n1" "managed" true
    {[ "10-bridge.conf" := VObject {[ "type" := VString "pasture-bridge";
         "bridge" := VString "br0"; "bridgeSubnet" := VString "10.42.1.0/24" ]} ]}.

(** A host with one managed network and one published port, which is withdrawn
    once its switch has been turned on; every base rule is in place. *)
Definition switched_on (h : list hevent) : bool :=
  existsb (is_call (λ c, match c with WriteFile _ _ => true | _ => false end)) h.

Definition demo_container : Container.t :=
  mk_container "u1" "c" "host-1" "n1" "10.42.1.2" "" "running" "web" ["0.0.0.0:80:8080/tcp"] ∅.

Definition publishing_host : env host_sig := λ h c,
  match c return hreply c with
  | ReadFile p => if is_switch p then Ok (switch_text false) else Err ErrNotExist
  | CreateTemp dir _ => Ok (dir +:+ "/temporary")
  | GetHosts => Ok [mk_host "host-1" "192.0.2.1" "active" ∅]
  | GetSelfHost => Ok (mk_host "host-1" "192.0.2.1" "active" ∅)
  | GetNetworks => Ok [demo_network]
  | GetContainers => Ok (if switched_on h then [] else [demo_container])
  | Now => (Z.of_nat (length h) * second)%Z
  | c' => idle_reply c'
  end.

Definition applied_run :=
  run publishing_host [] (@apply range_forward legacy_backend demo_rules (initial ∅)).


Definition first_turn := run publishing_host []
  (@attempt range_forward legacy_backend (initial ∅)).
Definition second_turn := run publishing_host first_turn.1
  (@repairOnce range_backward legacy_backend (fst first_turn.2)).
Definition switches_off : gmap string bool := {[ sysctl_path "br0" := false ]}.

Lemma route_localnet_owned_witness :
  length (first_turn.1 ++ second_turn.1) = 55 ∧
  routeLocalnetOriginal (fst first_turn.2) = {["br0" := false]} ∧
  routeLocalnetOriginal (fst second_turn.2) = ∅ ∧
  owned switches_off switches_off (routeLocalnetOriginal (fst second_turn.2)).
Proof.
  do 3 (split; [vm_compute; reflexivity|]).
  assert (history legacy_backend (initial ∅) (([] ++ first_turn.1) ++ second_turn.1)
    (fst second_turn.2)) as Hh.
  { apply (history_turn _ _ _ (fst first_turn.2)).
    - apply (history_turn _ _ _ (initial ∅)); [constructor|].
      apply (turn_change _ _ _ _ range_forward (snd first_turn.2)).
      unfold execs. rewrite <-surjective_pairing. exact (run_exec publishing_host [] _).
    - apply (turn_repair _ _ _ _ range_backward (snd second_turn.2)).
      unfold execs. rewrite <-surjective_pairing. exact (run_exec publishing_host first_turn.1 _). }
  cbn [app] in Hh.
  assert (bool_decide (replay switches_off (first_turn.1 ++ second_turn.1) = Some switches_off) = true)
    as Hr by (vm_compute; reflexivity).
  apply bool_decide_eq_true in Hr.
  assert (owned switches_off switches_off ∅) as Ho
    by (split; [done| |done]; intros b v; by rewrite lookup_empty).
  exact (proj1 (route_localnet_owned _ ∅ switches_off switches_off _ _ _ Ho Hh Hr)).
Defined.

(** ** The address of a container *)

Lemma add_candidates_elem cs l a :
  a ∈ foldl add_candidate cs l ↔ a ∈ cs ∨ Some a ∈ l.
Proof.
  revert cs. induction l as [|x l IH]; intros cs; cbn [foldl].
  { split; [by left|]. intros [?|?%not_elem_of_nil]; done. }
  rewrite IH, elem_of_cons. destruct x as [b|]; cbn [add_candidate]; [|naive_solver].
  case_bool_decide; [|rewrite elem_of_app, list_elem_of_singleton]; naive_solver.
Qed.

Lemma add_candidates_NoDup cs l : NoDup cs → NoDup (foldl add_candidate cs l).
Proof.
  revert cs. induction l as [|x l IH]; intros cs Hcs; cbn [foldl]; [done|]. apply IH.
  destruct x as [b|]; cbn [add_candidate]; [|done]. case_bool_decide; [done|].
  apply NoDup_app. split; [done|]. split; [|apply NoDup_singleton].
  intros y Hy ->%list_elem_of_singleton. done.
Qed.

(** The host-port address of a container is its one IPv4 address, other
    than a loopback one, inside the managed subnet; with none or with two
    different ones the lookup fails. *)
Lemma selectContainerIPv4_spec addresses prefix s :
  selectContainerIPv4 addresses prefix = Ok s ↔
  ∃ a, s = addr_string a ∧ ∀ b, (∃ x, x ∈ addresses ∧ candidate prefix x = Some b) ↔ b = a.
Proof.
  unfold selectContainerIPv4. set (cs := foldl add_candidate [] (map (candidate prefix) addresses)).
  assert (∀ b, b ∈ cs ↔ ∃ x, x ∈ addresses ∧ candidate prefix x = Some b) as Hcs.
  { intros b. unfold cs. rewrite add_candidates_elem.
    change (map (candidate prefix) addresses) with (candidate prefix <$> addresses).
    rewrite list_elem_of_fmap. split.
    - intros [?%not_elem_of_nil|(x & Hx & ?)]; [done|eauto].
    - intros (x & ? & ?). right. eauto. }
  assert (NoDup cs) as Hnd by apply add_candidates_NoDup, NoDup_nil_2.
  setoid_rewrite <-Hcs. clear Hcs. destruct cs as [|a [|b cs]].
  - split; [done|]. intros (a & _ & Ha). pose proof (proj2 (Ha a) eq_refl) as Hin.
    by apply not_elem_of_nil in Hin.
  - split.
    + intros [= <-]. exists a. split; [done|]. intros b. apply list_elem_of_singleton.
    + intros (c & -> & Hc). by rewrite (proj1 (Hc a) (list_elem_of_here _ _)).
  - split; [done|]. intros (c & _ & Hc). apply NoDup_cons in Hnd as [Hn _]. destruct Hn.
    rewrite (proj1 (Hc a) (list_elem_of_here _ _)).
    rewrite <-(proj1 (Hc b) (list_elem_of_further _ _ _ (list_elem_of_here _ _))).
    apply list_elem_of_here.
Qed.

(** ** The order of Go's map iteration *)

(** What a network adds: its subnet, the resolved subnet, its bridge and
    whether it shares ingress. *)
Definition network_plan (host : Host.t) (n : Network.t)
    : result (option (string * string * string * bool)) :=
  cfg ← bridgeConfigForNetwork n;
  if String.eqb (CfgSubnet cfg) "" then Ok None else
  if String.eqb (CfgBridge cfg) "" then Err (Errorf "no managed bridge") else
  resolved ← Resolve (CfgSubnet cfg) (Host.Labels host);
  Ok (Some (CfgSubnet cfg, resolved, CfgBridge cfg, CfgSharedIngress cfg)).

Definition add_network (uuid resolved bridge : string) (shared : bool) (r : ruleSet) : ruleSet :=
  if shared then add_shared uuid (add_forward uuid resolved bridge r)
  else add_forward uuid resolved bridge r.

Lemma network_step_exec host b uuid n tr b' :
  exec (network_step host b (uuid, n)) tr (Ok b') ↔
  match network_plan host n with
  | Err _ => False
  | Ok None => tr = [] ∧ b' = b
  | Ok (Some (subnet, resolved, bridge, shared)) =>
      let r := add_network uuid resolved bridge shared (rules b) in
      if IsReference subnet then
        ∃ hosts peers, exec (load_peers b) tr (Ok hosts) ∧
          PeerSubnets subnet (Host.UUID host) resolved hosts = Ok peers ∧
          b' = {| rules := add_peers uuid peers r; peerHosts := Some hosts |}
      else tr = [] ∧ b' = {| rules := r; peerHosts := peerHosts b |}
  end.
Proof.
  unfold network_step, network_plan.
  destruct (bridgeConfigForNetwork n) as [cfg|e]; cbn [wrap_err mbind result_bind].
  2:{ rewrite exec_pbind_ok. split; [|done].
      intros [(? & ? & _)|(? & ? & ? & _ & [_ ?] & _)]; done. }
  assert (∀ (k : bridgeNetworkConfig → hprog (result building)),
    exec (pbind_ok (Ret (Ok cfg)) k) tr (Ok b') ↔ exec (k cfg) tr (Ok b')) as -> by done.
  destruct (String.eqb (CfgSubnet cfg) ""); [rewrite exec_ret; naive_solver|].
  destruct (String.eqb (CfgBridge cfg) ""); [rewrite exec_ret; naive_solver|].
  destruct (Resolve _ _) as [resolved|e]; cbn [wrap_err mbind result_bind].
  2:{ split; [|done]. by intros [? ?]. }
  assert (∀ (k : string → hprog (result building)),
    exec (pbind_ok (Ret (Ok resolved)) k) tr (Ok b') ↔ exec (k resolved) tr (Ok b')) as -> by done.
  cbn zeta. unfold add_network.
  destruct (IsReference _); [|rewrite exec_ret; destruct (CfgSharedIngress cfg); naive_solver].
  rewrite exec_pbind_ok. split.
  - intros [(? & ? & _)|(tr1 & tr2 & hosts & -> & Hl & H)]; [done|].
    destruct (PeerSubnets _ _ _ _) as [peers|e] eqn:Hp.
    + destruct H as [-> [= ->]]. rewrite app_nil_r. exists hosts, peers.
      by destruct (CfgSharedIngress cfg).
    + by destruct H.
  - intros (hosts & peers & Hl & Hp & ->). right. exists tr, [], hosts. rewrite app_nil_r.
    split_and!; [done|done|]. rewrite Hp. by destruct (CfgSharedIngress cfg).
Qed.

Lemma add_network_swap u1 u2 s1 s2 b1 b2 h1 h2 r :
  u1 ≠ u2 →
  add_network u1 s1 b1 h1 (add_network u2 s2 b2 h2 r) =
  add_network u2 s2 b2 h2 (add_network u1 s1 b1 h1 r).
Proof.
  intros Hu. unfold add_network, add_shared, add_forward.
  by destruct h1, h2; cbn; f_equal; rewrite ?(insert_insert_ne _ u1 u2) by done.
Qed.

Lemma add_peers_network_swap u1 u2 p s b h r :
  add_peers u1 p (add_network u2 s b h r) = add_network u2 s b h (add_peers u1 p r).
Proof. by destruct h. Qed.

Lemma add_peers_swap u1 u2 p1 p2 r :
  u1 ≠ u2 → add_peers u1 p1 (add_peers u2 p2 r) = add_peers u2 p2 (add_peers u1 p1 r).
Proof. intros Hu. unfold add_peers. cbn. by rewrite insert_insert_ne. Qed.

Lemma load_peers_loaded r hosts tr hosts' :
  exec (load_peers {| rules := r; peerHosts := Some hosts |}) tr (Ok hosts') ↔
  tr = [] ∧ hosts' = hosts.
Proof. unfold load_peers. cbn [peerHosts]. rewrite exec_ret. naive_solver. Qed.

(** The step for two networks, in either order. *)
Lemma network_steps_swap host b u1 n1 u2 n2 tr1 b1 tr2 b2 :
  u1 ≠ u2 →
  exec (network_step host b (u1, n1)) tr1 (Ok b1) →
  exec (network_step host b1 (u2, n2)) tr2 (Ok b2) →
  ∃ tr3 b3 tr4, tr1 ++ tr2 = tr3 ++ tr4 ∧
    exec (network_step host b (u2, n2)) tr3 (Ok b3) ∧
    exec (network_step host b3 (u1, n1)) tr4 (Ok b2).
Proof.
  intros Hu. setoid_rewrite network_step_exec.
  destruct (network_plan host n1) as [[[[[s1 r1] br1] h1]|]|e]; [| |done].
  2:{ intros [-> ->]. destruct (network_plan host n2) as [[[[[s2 r2] br2] h2]|]|e]; [| |done].
      - intros H2. eexists tr2, b2, []. rewrite app_nil_r. by split_and!.
      - intros [-> ->]. by exists [], b, []. }
  cbn zeta. destruct (network_plan host n2) as [[[[[s2 r2] br2] h2]|]|e]; [| |done].
  2:{ intros H1 [-> ->]. exists [], b, tr1. rewrite app_nil_r. by split_and!. }
  destruct (IsReference s1), (IsReference s2).
  - intros (hosts & peers & Hl & Hp & ->) (hosts' & peers' & Hl' & Hp' & ->).
    apply load_peers_loaded in Hl' as [-> ->].
    eexists tr1, _, []. split; [done|]. split; [by exists hosts, peers'|].
    exists hosts, peers. split; [by apply load_peers_loaded|]. split; [done|]. cbn [rules].
    f_equal. rewrite <-!add_peers_network_swap.
    by rewrite (add_peers_swap u1 u2), (add_network_swap u1 u2).
  - intros (hosts & peers & Hl & Hp & ->) [-> ->].
    eexists [], _, tr1. rewrite app_nil_r. split; [done|]. split; [done|].
    exists hosts, peers. split; [exact Hl|]. split; [done|]. cbn [rules peerHosts].
    by rewrite <-add_peers_network_swap, (add_network_swap u1 u2).
  - intros [-> ->] (hosts & peers & Hl & Hp & ->).
    eexists tr2, _, []. rewrite app_nil_r. split; [done|]. split; [by exists hosts, peers|].
    cbn [rules peerHosts]. split; [done|].
    by rewrite <-add_peers_network_swap, (add_network_swap u1 u2).
  - intros [-> ->] [-> ->]. eexists [], _, []. split; [done|]. split; [done|].
    split; [done|]. cbn [rules peerHosts]. by rewrite (add_network_swap u1 u2).
Qed.

Lemma network_fold_order host l1 l2 b tr b' :
  l1 ≡ₚ l2 → NoDup l1.*1 →
  exec (pfold (network_step host) b l1) tr (Ok b') →
  exec (pfold (network_step host) b l2) tr (Ok b').
Proof.
  intros Hp. revert b tr b'. induction Hp as [|[u n] l1 l2 _ IH|[u1 n1] [u2 n2] l|l1 l2 l3 Hp1 IH1 _ IH2];
    intros b tr b' Hnd; cbn [pfold].
  - done.
  - cbn [fmap list_fmap fst] in Hnd. apply NoDup_cons in Hnd as [_ Hnd].
    intros [(? & ? & _)|(tr1 & tr2 & b1 & -> & H1 & H2)]%exec_pbind_ok; [done|].
    apply exec_pbind_ok. right. exists tr1, tr2, b1. auto.
  - cbn [fmap list_fmap fst] in Hnd. apply NoDup_cons in Hnd as [Hn _].
    apply not_elem_of_cons in Hn as [Hne _].
    intros [(? & ? & _)|(tr1 & tr2 & b1 & -> & H1 & H)]%exec_pbind_ok; [done|].
    apply exec_pbind_ok in H as [(? & ? & _)|(tr3 & tr4 & b2 & -> & H2 & H)]; [done|].
    destruct (network_steps_swap host b u2 n2 u1 n1 tr1 b1 tr3 b2) as (tr5 & b3 & tr6 & Heq & H3 & H4);
      [done..|].
    apply exec_pbind_ok. right. exists tr5, (tr6 ++ tr4), b3.
    split; [by rewrite !app_assoc, Heq|]. split; [done|].
    apply exec_pbind_ok. right. by exists tr6, tr4, b2.
  - intros H. apply IH2; [by rewrite <-Hp1|]. by apply IH1.
Qed.

(** C31: the desired rules are a function of what the metadata and Docker reply:
    the order in which the networks are visited does not change them. *)
Theorem desired_rules_order (range1 range2 : MapRange) tr r :
  exec (@desired_rules range1) tr (Ok r) → exec (@desired_rules range2) tr (Ok r).
Proof.
  unfold desired_rules. rewrite !exec_pbind_ok.
  intros [(? & ? & _)|(tr1 & tr2 & host & -> & Hh & H)]; [done|].
  right. exists tr1, tr2, host. split; [done|]. split; [done|]. clear Hh.
  rewrite !exec_pbind_ok in *.
  destruct H as [(? & ? & _)|(tr3 & tr4 & networks & -> & Hn & H)]; [done|].
  right. exists tr3, tr4, networks. split; [done|]. split; [done|]. clear Hn.
  rewrite !exec_pbind_ok in *.
  destruct H as [(? & ? & _)|(tr5 & tr6 & b & -> & Hb & H)]; [done|].
  right. exists tr5, tr6, b. split; [done|]. split; [|done]. clear H.
  eapply network_fold_order, Hb.
  - by rewrite !range_map_perm.
  - apply NoDup_range_map.
Qed.

Definition labelled_network : Network.t :=
  mk_network "n2" "per host" true
    {[ "10-bridge.conf" := VObject {[ "type" := VString "pasture-bridge";
         "bridge" := VString "br1"; "bridgeSubnet" := VString demo_reference ]} ]}.

Definition two_networks : env host_sig := λ _ c,
  match c return hreply c with
  | GetHosts => Ok [mk_host "host-1" "192.0.2.1" "active" {[ "subnet" := "10.42.7.0/24" ]};
                    mk_host "host-2" "192.0.2.2" "active" {[ "subnet" := "10.42.8.0/24" ]}]
  | GetSelfHost => Ok (mk_host "host-1" "192.0.2.1" "active" {[ "subnet" := "10.42.7.0/24" ]})
  | GetNetworks => Ok [demo_network; labelled_network]
  | GetContainers => Ok [demo_container]
  | c' => idle_reply c'
  end.

Lemma desired_rules_order_witness :
  ∃ tr r, length tr = 6 ∧ ForwardPeers r = Some {[ "n2" := Some ["10.42.8.0/24"] ]} ∧
    exec (@desired_rules range_backward) tr (Ok r).
Proof.
  pose proof (run_exec two_networks [] (@desired_rules range_forward)) as H.
  destruct ((run two_networks [] (@desired_rules range_forward)).2) as [r|e] eqn:Hr;
    [|exfalso; revert Hr; vm_compute; discriminate].
  eexists _, r. split; [|split; [|exact (desired_rules_order _ range_backward _ _ H)]].
  - vm_compute. reflexivity.
  - revert Hr. vm_compute. by intros [= <-].
Defined.

(** ** Convergence *)

(** C11: a successful reconcile, forced or not, leaves as the applied rules the
    desired rules of the replies it saw; it has just installed them, validated,
    or it was not forced, found them applied within [reapplyEvery] and only
    looked at the clock. *)
Theorem reconcile_converges {range : MapRange} backend force w tr w' :
  execs (onChangeLocked backend force) w tr w' (Ok ()) →
  ∃ tr1 tr2 rules, tr = tr1 ++ tr2 ∧ exec desired_rules tr1 (Ok rules) ∧ applied w' = rules ∧
    ((∃ tr3 tr4 p, tr2 = tr3 ++ tr4 ∧ Forall (λ e : hevent, projT1 e = Now) tr3 ∧
        follows backend rules nothing_done tr4 = Some p ∧
        validateRuleSet rules = Ok () ∧ installed p = true ∧ persisted p = true ∧ hooked backend p) ∨
     (force = false ∧ w' = w ∧ ∃ now, tr2 = [ev (Σ := host_sig) Now now] ∧
        (Sub now (lastApplied w) ≤ reapplyEvery)%Z)).
Proof.
  unfold onChangeLocked. intros [(e & ? & H)|H]%execs_bind; [done|].
  destruct H as (tr1 & tr2 & w1 & r & -> & [Hd ->]%execs_lift & H).
  exists tr1, tr2, r. split; [done|]. split; [done|].
  apply execs_bind in H as [(e & ? & _)|H]; [done|].
  destruct H as (? & tr3 & ? & w2 & -> & (-> & -> & [= ->])%execs_get & H). cbn [app].
  assert (∀ t, execs (apply backend r) w t w' (Ok ()) → applied w' = r ∧ ∃ p,
    follows backend r nothing_done t = Some p ∧
    validateRuleSet r = Ok () ∧ installed p = true ∧ persisted p = true ∧ hooked backend p) as Happ.
  { intros t (p & Hf & Hok & _)%apply_follows. destruct (Hok eq_refl) as (? & ? & ? & ? & ?). eauto 10. }
  destruct (force || _) eqn:Hf.
  { destruct (Happ _ H) as (Ha & p & Hp). split; [done|]. left. by exists [], tr3, p. }
  apply orb_false_iff in Hf as [-> Hf]. apply bool_decide_eq_false, dec_stable in Hf.
  apply execs_bind in H as [(e & ? & _)|H]; [done|].
  destruct H as (tr4 & tr5 & ? & now & -> & (n & -> & -> & [= ->])%execs_hask & H).
  destruct (_ <? _)%Z eqn:Hlt.
  - destruct (Happ _ H) as (Ha & p & Hp). split; [done|]. left.
    exists [ev (Σ := host_sig) Now n], tr5, p. split; [done|]. split; [by repeat constructor|done].
  - apply execs_ret in H as (-> & -> & _). split; [done|]. right. split; [done|]. split; [done|].
    exists n. split; [done|]. by apply Z.ltb_ge in Hlt.
Qed.

Definition first_reconcile := run publishing_host []
  (@onChangeLocked range_forward legacy_backend false (initial ∅)).

Lemma reconcile_converges_witness :
  ∃ tr1 tr2 rules, first_reconcile.1 = tr1 ++ tr2 ∧ length first_reconcile.1 = 24 ∧
    exec (@desired_rules range_forward) tr1 (Ok rules) ∧ applied (fst first_reconcile.2) = rules.
Proof.
  assert (first_reconcile.2 = (fst first_reconcile.2, Ok ())) as Hr by (vm_compute; reflexivity).
  pose proof (run_exec publishing_host []
    (@onChangeLocked range_forward legacy_backend false (initial ∅))) as H.
  fold first_reconcile in H. rewrite Hr in H.
  destruct (@reconcile_converges range_forward legacy_backend false _ _ _ H)
    as (tr1 & tr2 & r & Ht & Hd & Ha & _).
  exists tr1, tr2, r. split; [exact Ht|]. split; [vm_compute; reflexivity|]. by split.
Defined.
