(* ===== verification/Conntrack.v ===== *)
(** * Connection tracking entries and their repair (conntracksync/)

    The listing of the conntrack tool, read line by line, and the watcher that
    deletes the entries whose translated address is not the address of the
    container that publishes the port. *)
From S2P Require Import Prelude Effects GoStrings Metadata World Identity.

Record CTEntry := {
  CtProtocol : string;
  OriginalSourceIP : string; OriginalDestinationIP : string;
  OriginalSourcePort : string; OriginalDestinationPort : string;
  ReplySourceIP : string; ReplyDestinationIP : string;
  ReplySourcePort : string; ReplyDestinationPort : string;
  Unreplied : bool; Assured : bool;
}.

#[export] Instance CTEntry_eq_dec : EqDecision CTEntry.
Proof. solve_decision. Defined.

(** ** Parsing *)

(** The two key-value maps and the flags of a line read so far. *)
Record reading := {
  original : gmap string string; reply : gmap string string;
  saw_unreplied : bool; saw_assured : bool;
}.

Definition read_nothing : reading :=
  {| original := ∅; reply := ∅; saw_unreplied := false; saw_assured := false |}.

Definition read_field (s : reading) (field : string) : reading :=
  if String.eqb field "[UNREPLIED]" then
    {| original := original s; reply := reply s; saw_unreplied := true; saw_assured := saw_assured s |}
  else if String.eqb field "[ASSURED]" then
    {| original := original s; reply := reply s; saw_unreplied := saw_unreplied s; saw_assured := true |}
  else
    match Split field "=" with
    | [k; v] =>
        if bool_decide (is_Some (original s !! k)) then
          {| original := original s; reply := <[k := v]> (reply s);
             saw_unreplied := saw_unreplied s; saw_assured := saw_assured s |}
        else
          {| original := <[k := v]> (original s); reply := reply s;
             saw_unreplied := saw_unreplied s; saw_assured := saw_assured s |}
    | _ => s
    end.

Definition parseOneConntrackEntry (e : string) : result CTEntry :=
  match Fields e with
  | (protocol :: _ :: _ :: _ :: _) as fields =>
      let s := foldl read_field read_nothing (drop 3 fields) in
      Ok {| CtProtocol := protocol;
            OriginalSourceIP := zget "" (original s) "src";
            OriginalDestinationIP := zget "" (original s) "dst";
            OriginalSourcePort := zget "" (original s) "sport";
            OriginalDestinationPort := zget "" (original s) "dport";
            ReplySourceIP := zget "" (reply s) "src";
            ReplyDestinationIP := zget "" (reply s) "dst";
            ReplySourcePort := zget "" (reply s) "sport";
            ReplyDestinationPort := zget "" (reply s) "dport";
            Unreplied := saw_unreplied s; Assured := saw_assured s |}
  | _ => Err (Errorf "conntrack: invalid entry")
  end.

Definition parse_line (line : string) : option CTEntry :=
  if String.eqb line "" then None else
  match parseOneConntrackEntry line with Ok e => Some e | Err _ => None end.

Definition parseMultipleEntries (input : string) : list CTEntry :=
  omap parse_line (Split input "010").

(** ** The conntrack tool *)

Definition list_entries (flag : string) : hprog (result (list CTEntry)) :=
  '(out, err) ← call1 (Command ["conntrack"; flag; "-L"] "");
  Ret (match err with
       | Some e => Err e
       | None => Ok (if String.eqb out "" then [] else parseMultipleEntries out)
       end).
Definition ListSNAT : hprog (result (list CTEntry)) := list_entries "-n".
Definition ListDNAT : hprog (result (list CTEntry)) := list_entries "-g".

Definition delete_argv (e : CTEntry) : list string :=
  ["conntrack"; "--delete"; "-p"; CtProtocol e;
   "--orig-src"; OriginalSourceIP e; "--orig-dst"; OriginalDestinationIP e;
   "--orig-port-dst"; OriginalDestinationPort e;
   "--reply-src"; ReplySourceIP e; "--reply-dst"; ReplyDestinationIP e].

Definition create_argv (e : CTEntry) : list string :=
  ["conntrack"; "--create"; "-p"; CtProtocol e;
   "--orig-src"; OriginalSourceIP e; "--orig-dst"; OriginalDestinationIP e;
   "--orig-port-src"; OriginalSourcePort e; "--orig-port-dst"; OriginalDestinationPort e;
   "--reply-src"; ReplySourceIP e; "--reply-dst"; ReplyDestinationIP e;
   "--reply-port-src"; ReplySourcePort e; "--reply-port-dst"; ReplyDestinationPort e;
   "--timeout"; "120"; "--state"; "ESTABLISHED"].

Definition CTEntryDelete (e : CTEntry) : hprog (result ()) :=
  r ← call1 (Command (delete_argv e) ""); Ret (err_result r.2).
Definition CTEntryCreate (e : CTEntry) : hprog (result ()) :=
  r ← call1 (Command (create_argv e) ""); Ret (err_result r.2).

(** ** The containers that publish ports on this host *)

(** The key of a port definition "hostIP:hostPort:targetPort[/protocol]". *)
Definition port_key (port : string) : option string :=
  match Split port ":" with
  | [hostIP; hostPort; targetPort] =>
      let protocol := match Split targetPort "/" with [_; p] => p | _ => "tcp" end in
      Some (hostIP +:+ ":" +:+ hostPort +:+ "/" +:+ protocol)
  | _ => None
  end.

Definition add_port (c : Container.t) (m : gmap string Container.t) (port : string)
    : gmap string Container.t :=
  match port_key port with Some k => <[k := c]> m | None => m end.

Definition add_container (hostUUID : string) (m : gmap string Container.t) (c : Container.t)
    : gmap string Container.t :=
  if String.eqb (Container.HostUUID c) hostUUID && negb (length (Container.Ports c) =? 0)
  then foldl (add_port c) m (Container.Ports c) else m.

Definition buildContainersMaps : hprog (result (gmap string Container.t)) :=
  host <-? LocalHost;
  containers <-? call1 GetContainers;
  Ret (Ok (foldl (add_container (Host.UUID host)) ∅ containers)).

(** ** Deleting the mismatches *)

(** The container of an address and port, or of the wildcard address. *)
Definition find_published (m : gmap string Container.t) (ip port protocol : string)
    : option Container.t :=
  match m !! (ip +:+ ":" +:+ port +:+ "/" +:+ protocol) with
  | Some c => Some c
  | None => m !! ("0.0.0.0:" +:+ port +:+ "/" +:+ protocol)
  end.

(** The entry belongs to a container with a known address and translates to
    another one. *)
Definition mismatch (m : gmap string Container.t) (ip port actual : string) (e : CTEntry) : bool :=
  match find_published m ip port (CtProtocol e) with
  | Some c => negb (String.eqb (Container.PrimaryIp c) "") &&
              negb (String.eqb actual (Container.PrimaryIp c))
  | None => false
  end.

Definition dnat_mismatch (m : gmap string Container.t) (e : CTEntry) : bool :=
  mismatch m (OriginalDestinationIP e) (OriginalDestinationPort e) (ReplySourceIP e) e.
Definition snat_mismatch (m : gmap string Container.t) (e : CTEntry) : bool :=
  mismatch m (ReplyDestinationIP e) (ReplyDestinationPort e) (OriginalSourceIP e) e.

(** A failed deletion is logged and the loop goes on. *)
Definition sweep_entry (stale : CTEntry → bool) (e : CTEntry) : hprog (result ()) :=
  if stale e then _ ← CTEntryDelete e; Ret (Ok ()) else Ret (Ok ()).

Definition doSync : hprog (result ()) :=
  m <-? buildContainersMaps;
  dnat <-? ListDNAT;
  _ <-? pforeach (sweep_entry (dnat_mismatch m)) dnat;
  snat <-? ListSNAT;
  pforeach (sweep_entry (snat_mismatch m)) snat.

(** ** The watcher's rate limit *)

Definition DefaultSyncInterval : Z := 5.

(** Arithmetic on [time.Duration] wraps around in 64 bits. *)
Definition wrap64 (n : Z) : Z := ((n + 2 ^ 63) `mod` 2 ^ 64 - 2 ^ 63)%Z.
Definition seconds (n : Z) : Z := wrap64 (n * second).

Definition interval (syncIntervalStr : string) : Z :=
  seconds (default DefaultSyncInterval (Atoi syncIntervalStr)).

(** The state is [lastApplied]. *)
Definition onChangeNoError (syncInterval : Z) : act host_sig Z () :=
  now ← ask (Σ := host_sig) Now;
  lastApplied ← get;
  let timeSinceLastApplied := Sub now lastApplied in
  (if (timeSinceLastApplied <? syncInterval)%Z
   then ask (Σ := host_sig) (Sleep (wrap64 (syncInterval - timeSinceLastApplied))) else mret ());;
  try (lift doSync);;
  done ← ask (Σ := host_sig) Now;
  modify (λ _, done).

(** ** Reading a line *)

Definition ct_keys : list string := ["src"; "dst"; "sport"; "dport"].

(** A word that says nothing about the eight fields and the two flags, such as
    a protocol state, a mark or a counter. *)
Definition neutral (w : string) : bool :=
  negb (String.eqb w "[UNREPLIED]") && negb (String.eqb w "[ASSURED]") &&
  match Split w "=" with [k; _] => bool_decide (k ∉ ct_keys) | _ => true end.

Definition pair_word (k v : string) : string := k +:+ String "=" v.

Definition entry_words (e : CTEntry) : list string :=
  [pair_word "src" (OriginalSourceIP e); pair_word "dst" (OriginalDestinationIP e);
   pair_word "sport" (OriginalSourcePort e); pair_word "dport" (OriginalDestinationPort e)]
  ++ (if Unreplied e then ["[UNREPLIED]"] else [])
  ++ [pair_word "src" (ReplySourceIP e); pair_word "dst" (ReplyDestinationIP e);
      pair_word "sport" (ReplySourcePort e); pair_word "dport" (ReplyDestinationPort e)]
  ++ (if Assured e then ["[ASSURED]"] else []).

Definition entry_values (e : CTEntry) : list string :=
  [OriginalSourceIP e; OriginalDestinationIP e; OriginalSourcePort e; OriginalDestinationPort e;
   ReplySourceIP e; ReplyDestinationIP e; ReplySourcePort e; ReplyDestinationPort e].

(** Two readings agree on everything the entry is built from. *)
Definition agree (s t : reading) : Prop :=
  (∀ k, k ∈ ct_keys → original s !! k = original t !! k ∧ reply s !! k = reply t !! k) ∧
  saw_unreplied s = saw_unreplied t ∧ saw_assured s = saw_assured t.

Lemma read_neutral s t w : neutral w = true → agree s t → agree (read_field s w) t.
Proof.
  unfold neutral, read_field. rewrite !andb_true_iff, !negb_true_iff.
  intros [[-> ->] Hk] Hs. destruct (Split w "=") as [|k [|v [|]]]; try done.
  apply bool_decide_eq_true in Hk. destruct Hs as (Hm & Hu & Ha).
  assert (∀ k' (m : gmap string string), k' ∈ ct_keys → <[k:=v]> m !! k' = m !! k') as Hne.
  { intros k' m Hk'. apply lookup_insert_ne. by intros ->. }
  destruct (bool_decide _); (split; [|done]); intros k' Hk'; cbn [original reply];
    rewrite Hne by done; by apply Hm.
Qed.

Lemma read_telling s t w : neutral w = false → agree s t → agree (read_field s w) (read_field t w).
Proof.
  unfold neutral, read_field. intros Hw (Hm & Hu & Ha).
  destruct (String.eqb w "[UNREPLIED]"); [by split|].
  destruct (String.eqb w "[ASSURED]"); [by split|]. cbn [negb andb] in Hw.
  destruct (Split w "=") as [|k [|v [|]]]; try done.
  apply bool_decide_eq_false, dec_stable in Hw. destruct (Hm k Hw) as [Ho Hr].
  rewrite Ho. destruct (bool_decide _); (split; [|done]); intros k' Hk'; cbn [original reply];
    destruct (Hm k' Hk'); (destruct (decide (k' = k)) as [->|]; [by rewrite ?lookup_insert_eq|]);
    by rewrite ?lookup_insert_ne by done.
Qed.

Lemma read_filter ws s t :
  agree s t → agree (foldl read_field s ws)
                    (foldl read_field t (filter (λ w, neutral w = false) ws)).
Proof.
  revert s t. induction ws as [|w ws IH]; intros s t Hs; [done|]. rewrite filter_cons.
  cbn [foldl]. destruct (decide (neutral w = false)) as [Hw|Hw].
  - cbn [foldl]. by apply IH, read_telling.
  - apply IH, read_neutral; [by destruct (neutral w)|done].
Qed.

Lemma Split_pair k v :
  k ∈ ct_keys → free_of "=" v = true →
  Split (pair_word k v) "=" = [k; v] ∧ String.eqb (pair_word k v) "[UNREPLIED]" = false ∧
  String.eqb (pair_word k v) "[ASSURED]" = false.
Proof.
  intros Hk Hv. unfold pair_word. rewrite Split_app_free, (Split_free v) by
    (try done; repeat (apply elem_of_cons in Hk as [->|Hk]; [done|]); by apply not_elem_of_nil in Hk).
  repeat (apply elem_of_cons in Hk as [->|Hk]; [done|]). by apply not_elem_of_nil in Hk.
Qed.

Lemma fold_first s k v ws :
  k ∈ ct_keys → free_of "=" v = true → original s !! k = None →
  foldl read_field s (pair_word k v :: ws) =
  foldl read_field {| original := <[k := v]> (original s); reply := reply s;
    saw_unreplied := saw_unreplied s; saw_assured := saw_assured s |} ws.
Proof.
  intros Hk Hv Hs. cbn [foldl]. f_equal. unfold read_field.
  destruct (Split_pair k v Hk Hv) as (-> & -> & ->). by rewrite Hs.
Qed.

Lemma fold_second s k v ws :
  k ∈ ct_keys → free_of "=" v = true → is_Some (original s !! k) →
  foldl read_field s (pair_word k v :: ws) =
  foldl read_field {| original := original s; reply := <[k := v]> (reply s);
    saw_unreplied := saw_unreplied s; saw_assured := saw_assured s |} ws.
Proof.
  intros Hk Hv Hs. cbn [foldl]. f_equal. unfold read_field.
  destruct (Split_pair k v Hk Hv) as (-> & -> & ->). by rewrite bool_decide_eq_true_2.
Qed.

Lemma read_entry e :
  Forall (λ v, free_of "=" v = true) (entry_values e) →
  foldl read_field read_nothing (entry_words e) =
  {| original := <["dport" := OriginalDestinationPort e]> (<["sport" := OriginalSourcePort e]>
       (<["dst" := OriginalDestinationIP e]> {["src" := OriginalSourceIP e]}));
     reply := <["dport" := ReplyDestinationPort e]> (<["sport" := ReplySourcePort e]>
       (<["dst" := ReplyDestinationIP e]> {["src" := ReplySourceIP e]}));
     saw_unreplied := Unreplied e; saw_assured := Assured e |}.
Proof.
  unfold entry_values. rewrite !Forall_cons. intros (?&?&?&?&?&?&?&?&_).
  assert (∀ k, bool_decide (k ∈ ct_keys) = true → k ∈ ct_keys) as Hk
    by (intros k; apply bool_decide_eq_true).
  unfold entry_words. rewrite foldl_app.
  do 4 (rewrite fold_first; [|by apply Hk|done|reflexivity]). cbn [foldl original reply].
  rewrite foldl_app.
  set (s := foldl read_field _ (if Unreplied e then _ else _)).
  assert (s = {| original := <["dport" := OriginalDestinationPort e]> (<["sport" := OriginalSourcePort e]>
       (<["dst" := OriginalDestinationIP e]> {["src" := OriginalSourceIP e]}));
     reply := ∅; saw_unreplied := Unreplied e; saw_assured := false |}) as ->
    by (unfold s; by destruct (Unreplied e)).
  rewrite foldl_app.
  do 4 (rewrite fold_second; [|by apply Hk|done|by eexists]).
  cbn [foldl original reply saw_unreplied saw_assured]. by destruct (Assured e).
Qed.

(** C33: a listed connection is read back as the entry it describes: from a line
    of printable words the protocol is the first and the addresses, ports and
    flags are those of the two tuples, whatever other words stand between. *)
Theorem conntrack_line_parsed e number timeout words :
  Forall (λ w, plain w = true) (CtProtocol e :: number :: timeout :: words) →
  Forall (λ v, free_of "=" v = true) (entry_values e) →
  filter (λ w, neutral w = false) words = entry_words e →
  parseOneConntrackEntry (Join (CtProtocol e :: number :: timeout :: words) " ") = Ok e.
Proof.
  intros Hp Hv Hw. unfold parseOneConntrackEntry. rewrite (Fields_Join _ Hp).
  assert (∃ w words', words = w :: words') as (w & words' & ->).
  { destruct words as [|w ws]; [|eauto]. by destruct (Unreplied e), (Assured e). }
  cbn [skipn]. pose proof (read_filter (w :: words') read_nothing read_nothing) as Hf.
  destruct Hf as (Hm & Hu & Ha); [by split|].
  rewrite Hw, (read_entry e Hv) in Hm, Hu, Ha. cbn [saw_unreplied saw_assured] in Hu, Ha.
  rewrite Hu, Ha. unfold zget.
  pose proof (λ k Hk, proj1 (Hm k Hk)) as Ho. pose proof (λ k Hk, proj2 (Hm k Hk)) as Hr.
  rewrite !Ho, !Hr by (by apply (bool_decide_unpack _)). by destruct e.
Qed.

Definition demo_entry : CTEntry := {|
  CtProtocol := "tcp"; OriginalSourceIP := "192.0.2.9"; OriginalDestinationIP := "192.0.2.1";
  OriginalSourcePort := "40312"; OriginalDestinationPort := "80";
  ReplySourceIP := "10.42.1.9"; ReplyDestinationIP := "192.0.2.9";
  ReplySourcePort := "8080"; ReplyDestinationPort := "40312";
  Unreplied := false; Assured := true |}.

Lemma conntrack_line_parsed_witness :
  parseOneConntrackEntry ("tcp 6 431999 ESTABLISHED src=192.0.2.9 dst=192.0.2.1 sport=40312 " +:+
    "dport=80 src=10.42.1.9 dst=192.0.2.9 sport=8080 dport=40312 [ASSURED] mark=0 use=1")
  = Ok demo_entry.
Proof.
  apply (conntrack_line_parsed demo_entry "6" "431999" ("ESTABLISHED" :: entry_words demo_entry
    ++ ["mark=0"; "use=1"])).
  - apply (bool_decide_unpack _). vm_compute. exact I.
  - apply (bool_decide_unpack _). vm_compute. exact I.
  - vm_compute. reflexivity.
Defined.

(** ** The published ports *)

Definition publishes_key (hostUUID k : string) (c : Container.t) : Prop :=
  Container.HostUUID c = hostUUID ∧ Some k ∈ port_key <$> Container.Ports c.

#[export] Instance publishes_key_dec hostUUID k c : Decision (publishes_key hostUUID k c).
Proof. unfold publishes_key. apply _. Defined.

Lemma add_ports_lookup c ports m k :
  foldl (add_port c) m ports !! k =
  if decide (Some k ∈ port_key <$> ports) then Some c else m !! k.
Proof.
  revert m. induction ports as [|p ports IH]; intros m; cbn [foldl fmap list_fmap].
  { rewrite decide_False; [done|]. apply not_elem_of_nil. }
  rewrite IH. destruct (decide (Some k ∈ port_key <$> ports)) as [Hin|Hin].
  { rewrite decide_True; [done|]. by apply list_elem_of_further. }
  unfold add_port. destruct (port_key p) as [k'|] eqn:Hp.
  - destruct (decide (k' = k)) as [->|Hne].
    + rewrite lookup_insert_eq, decide_True; [done|]. apply list_elem_of_here.
    + rewrite lookup_insert_ne, decide_False; [done| |done].
      intros [[= ->]|]%elem_of_cons; done.
  - rewrite decide_False; [done|]. by intros [|]%elem_of_cons.
Qed.

Lemma add_container_lookup hostUUID m c k :
  add_container hostUUID m c !! k =
  if decide (publishes_key hostUUID k c) then Some c else m !! k.
Proof.
  unfold add_container.
  destruct (decide (publishes_key hostUUID k c)) as [[Hh Hk]|Hn].
  - apply String.eqb_eq in Hh. rewrite Hh. cbn [andb].
    destruct (Container.Ports c) as [|p ports] eqn:Hp; [by apply not_elem_of_nil in Hk|].
    cbn [length Nat.eqb negb]. by rewrite add_ports_lookup, decide_True.
  - destruct (_ && _) eqn:Hc; [|done]. apply andb_true_iff in Hc as [Hh%String.eqb_eq _].
    rewrite add_ports_lookup, decide_False; [done|]. intros Hk. by destruct Hn.
Qed.

(** The map the repair works from gives, for every address, port and
    protocol, the last container of this host that publishes it. *)
Lemma published_last hostUUID containers k :
  foldl (add_container hostUUID) ∅ containers !! k =
  last (filter (publishes_key hostUUID k) containers).
Proof.
  induction containers as [|c cs IH] using rev_ind; [done|].
  rewrite foldl_app, filter_app. cbn [foldl]. rewrite add_container_lookup, filter_cons, filter_nil.
  destruct (decide _); [by rewrite last_snoc|]. by rewrite app_nil_r.
Qed.

(** ** The deletions *)

Lemma list_entries_exec flag tr r :
  exec (list_entries flag) tr r →
  ∃ out, tr = [ev (Σ := host_sig) (Command ["conntrack"; flag; "-L"] "") out].
Proof.
  unfold list_entries. intros (tr1 & tr2 & [out err] & -> & ->%exec_call1 & [-> _])%exec_bind.
  by eexists.
Qed.

Lemma sweep_exec stale entries tr r :
  exec (pforeach (sweep_entry stale) entries) tr r →
  r = Ok () ∧
  calls_of tr = (λ e, Command (delete_argv e) "") <$> filter (λ e, stale e = true) entries.
Proof.
  revert tr r. induction entries as [|e entries IH]; intros tr r; cbn [pforeach].
  { by intros [-> ->]. }
  assert (∀ t x, exec (sweep_entry stale e) t x → x = Ok () ∧
    calls_of t = if stale e then [Command (delete_argv e) ""] else []) as Hone.
  { intros t x. unfold sweep_entry, CTEntryDelete. destruct (stale e); [|by intros [-> ->]].
    intros (t1 & t2 & y & -> & (t3 & t4 & z & -> & ->%exec_call1 & [-> _])%exec_bind & [-> ->])%exec_bind.
    done. }
  rewrite filter_cons. intros [(x & _ & [[=] _]%Hone)|(t1 & t2 & [] & -> & [_ H1]%Hone & [-> H2]%IH)]%exec_pbind_ok.
  split; [done|]. rewrite calls_of_app, H1, H2.
  destruct (stale e); [by rewrite decide_True|by rewrite decide_False].
Qed.

(** *** Which translations are stale *)

(** The protocol of a target: what follows its only slash, TCP by default. *)
Definition target_protocol (target protocol : string) : Prop :=
  (∃ port, target = port +:+ String "/" protocol ∧ free_of "/" port = true ∧ free_of "/" protocol = true) ∨
  (protocol = "tcp" ∧ length (Split target "/") ≠ 2).

(** A port definition "address:port:target" publishes "address:port/protocol". *)
Definition publishes_text (definition k : string) : Prop :=
  ∃ ip port target protocol,
    definition = ip +:+ String ":" (port +:+ String ":" target) ∧
    free_of ":" ip = true ∧ free_of ":" port = true ∧ free_of ":" target = true ∧
    target_protocol target protocol ∧ k = ip +:+ ":" +:+ port +:+ "/" +:+ protocol.

Definition publishing (hostUUID k : string) (c : Container.t) : Prop :=
  Container.HostUUID c = hostUUID ∧ ∃ d, d ∈ Container.Ports c ∧ publishes_text d k.

(** The container of a host that publishes an address: the last one listed. *)
Definition publisher (hostUUID : string) (containers : list Container.t) (k : string) (c : Container.t) : Prop :=
  ∃ before after, containers = before ++ c :: after ∧ publishing hostUUID k c ∧
    Forall (λ c', ¬ publishing hostUUID k c') after.

(** The container behind an address, a port and a protocol: the publisher of the
    address or, without one, the publisher of all addresses. *)
Definition behind (hostUUID : string) (containers : list Container.t) (ip port protocol : string)
    (c : Container.t) : Prop :=
  publisher hostUUID containers (ip +:+ ":" +:+ port +:+ "/" +:+ protocol) c ∨
  (∀ c', ¬ publisher hostUUID containers (ip +:+ ":" +:+ port +:+ "/" +:+ protocol) c') ∧
  publisher hostUUID containers ("0.0.0.0:" +:+ port +:+ "/" +:+ protocol) c.

(** A connection to a published address is answered by another address than its
    container's. *)
Definition stale_dnat (hostUUID : string) (containers : list Container.t) (e : CTEntry) : Prop :=
  ∃ c, behind hostUUID containers (OriginalDestinationIP e) (OriginalDestinationPort e) (CtProtocol e) c ∧
    Container.PrimaryIp c ≠ "" ∧ ReplySourceIP e ≠ Container.PrimaryIp c.

(** A connection that is answered at a published address comes from another address
    than its container's. *)
Definition stale_snat (hostUUID : string) (containers : list Container.t) (e : CTEntry) : Prop :=
  ∃ c, behind hostUUID containers (ReplyDestinationIP e) (ReplyDestinationPort e) (CtProtocol e) c ∧
    Container.PrimaryIp c ≠ "" ∧ OriginalSourceIP e ≠ Container.PrimaryIp c.

Lemma Split_two s c a b : Split s c = [a; b] ↔ s = a +:+ String c b ∧ free_of c a = true ∧ free_of c b = true.
Proof.
  split.
  - intros H. pose proof (Join_Split s c) as Hj. pose proof (Split_pieces_free s c) as Hf. rewrite H in Hj, Hf.
    rewrite !Forall_cons in Hf. cbn in Hj. subst s. by destruct Hf as (? & ? & _).
  - intros (-> & Ha & Hb). by rewrite Split_app_free, Split_free.
Qed.

Lemma Split_three s c a b d :
  Split s c = [a; b; d] ↔
  s = a +:+ String c (b +:+ String c d) ∧ free_of c a = true ∧ free_of c b = true ∧ free_of c d = true.
Proof.
  split.
  - intros H. pose proof (Join_Split s c) as Hj. pose proof (Split_pieces_free s c) as Hf. rewrite H in Hj, Hf.
    rewrite !Forall_cons in Hf. cbn in Hj. subst s. by destruct Hf as (? & ? & ? & _).
  - intros (-> & Ha & Hb & Hd). by rewrite !Split_app_free, Split_free.
Qed.

Lemma target_protocol_spec target protocol :
  target_protocol target protocol ↔ match Split target "/" with [_; p] => p | _ => "tcp" end = protocol.
Proof.
  unfold target_protocol. split.
  - intros [(port & Hs)|[-> Hl]]; [by apply Split_two in Hs as ->|].
    destruct (Split target "/") as [|? [|? [|? ?]]]; done.
  - destruct (Split target "/") as [|a [|b [|d l]]] eqn:H; intros <-; cbn; try (by right).
    left. exists a. by apply Split_two.
Qed.

Lemma port_key_spec definition k : port_key definition = Some k ↔ publishes_text definition k.
Proof.
  unfold port_key, publishes_text. split.
  - destruct (Split definition ":") as [|a [|b [|d [|? ?]]]] eqn:H; try done. intros [= <-].
    apply Split_three in H as (-> & ? & ? & ?). eexists a, b, d, _. split_and!; [done..| |done].
    by apply target_protocol_spec.
  - intros (ip & port & target & protocol & Hd & H1 & H2 & H3 & Hp%target_protocol_spec & ->).
    assert (Split definition ":" = [ip; port; target]) as -> by by apply Split_three. by rewrite Hp.
Qed.

Lemma publishes_key_spec hostUUID k c : publishes_key hostUUID k c ↔ publishing hostUUID k c.
Proof.
  unfold publishes_key, publishing. rewrite list_elem_of_fmap. setoid_rewrite <-port_key_spec. naive_solver.
Qed.

Lemma last_filter_spec {A} (P : A → Prop) `{!∀ x, Decision (P x)} l x :
  last (filter P l) = Some x ↔ ∃ before after, l = before ++ x :: after ∧ P x ∧ Forall (λ y, ¬ P y) after.
Proof.
  split.
  - induction l as [|y l IH] using rev_ind; [done|]. rewrite filter_app, filter_cons, filter_nil.
    destruct (decide (P y)) as [Hy|Hy].
    + rewrite last_snoc. intros [= <-]. by exists l, [].
    + rewrite app_nil_r. intros (before & after & -> & Hx & Hf)%IH. exists before, (after ++ [y]).
      rewrite <-app_assoc. split; [done|]. split; [done|]. apply Forall_app. by split; [|repeat constructor].
  - intros (before & after & -> & Hx & Hf). rewrite filter_app, filter_cons, decide_True by done.
    assert (filter P after = []) as ->; [|by rewrite last_snoc].
    induction Hf as [|y after Hy _ IH]; [done|]. by rewrite filter_cons, decide_False.
Qed.

Lemma publisher_spec hostUUID containers k c :
  foldl (add_container hostUUID) ∅ containers !! k = Some c ↔ publisher hostUUID containers k c.
Proof.
  rewrite published_last, last_filter_spec. unfold publisher.
  split; intros (before & after & -> & Hc & Hf); exists before, after;
    (split; [done|]; split; [by apply publishes_key_spec|]); (eapply Forall_impl; [exact Hf|]);
    intros c' Hn Hp; by apply Hn, publishes_key_spec.
Qed.

Lemma find_published_spec hostUUID containers ip port protocol c :
  find_published (foldl (add_container hostUUID) ∅ containers) ip port protocol = Some c ↔
  behind hostUUID containers ip port protocol c.
Proof.
  unfold find_published, behind. setoid_rewrite <-publisher_spec.
  destruct (_ !! (ip +:+ _)) as [c'|]; naive_solver.
Qed.

Lemma mismatch_spec hostUUID containers ip port actual e :
  mismatch (foldl (add_container hostUUID) ∅ containers) ip port actual e = true ↔
  ∃ c, behind hostUUID containers ip port (CtProtocol e) c ∧
    Container.PrimaryIp c ≠ "" ∧ actual ≠ Container.PrimaryIp c.
Proof.
  unfold mismatch. setoid_rewrite <-find_published_spec.
  destruct (find_published _ _ _ _) as [c|]; [|naive_solver].
  rewrite andb_true_iff, !negb_true_iff, !String.eqb_neq. naive_solver.
Qed.

Lemma buildContainersMaps_exec tr m :
  exec buildContainersMaps tr (Ok m) →
  ∃ tr0 host containers, exec LocalHost tr0 (Ok host) ∧
    tr = tr0 ++ [ev (Σ := host_sig) GetContainers (Ok containers)] ∧
    m = foldl (add_container (Host.UUID host)) ∅ containers.
Proof.
  intros [(? & [=] & _)|(tr0 & tr1 & host & -> & Hh & H)]%exec_pbind_ok.
  apply exec_pbind_ok in H as [(? & [=] & _)|(tr2 & tr3 & cs & -> & ->%exec_call1 & [-> [= ->]])].
  exists tr0, host, cs. by rewrite app_nil_r.
Qed.

(** C23: a repair that reaches its end has issued exactly one deletion for every
    listed entry that is translated to another address than the known one of the
    container of this host behind its published address, first for the destination
    and then for the source translations; no other entry is deleted, and failed
    deletions do not stop the sweep. *)
Theorem doSync_deletes tr :
  exec doSync tr (Ok ()) →
  ∃ tr0 host containers dnat snat out1 out2 tr1 tr2 gone1 gone2,
    exec LocalHost tr0 (Ok host) ∧
    exec ListDNAT [ev (Σ := host_sig) (Command ["conntrack"; "-g"; "-L"] "") out1] (Ok dnat) ∧
    exec ListSNAT [ev (Σ := host_sig) (Command ["conntrack"; "-n"; "-L"] "") out2] (Ok snat) ∧
    tr = tr0 ++ ev (Σ := host_sig) GetContainers (Ok containers)
             :: ev (Σ := host_sig) (Command ["conntrack"; "-g"; "-L"] "") out1 :: tr1
             ++ ev (Σ := host_sig) (Command ["conntrack"; "-n"; "-L"] "") out2 :: tr2 ∧
    (∀ e : CTEntry, gone1 e = true ↔ stale_dnat (Host.UUID host) containers e) ∧
    (∀ e : CTEntry, gone2 e = true ↔ stale_snat (Host.UUID host) containers e) ∧
    calls_of tr1 = (λ e, Command (delete_argv e) "") <$> filter (λ e, gone1 e = true) dnat ∧
    calls_of tr2 = (λ e, Command (delete_argv e) "") <$> filter (λ e, gone2 e = true) snat.
Proof.
  unfold doSync. intros [(? & [=] & _)|(tr0 & tr' & m & -> & Hm & H)]%exec_pbind_ok.
  apply exec_pbind_ok in H as [(? & [=] & _)|(t1 & ta & dnat & -> & Hd & H)].
  apply exec_pbind_ok in H as [(? & [=] & _)|(tr1 & tb & [] & -> & [_ H1]%sweep_exec & H)].
  apply exec_pbind_ok in H as [(? & [=] & _)|(t2 & tr2 & snat & -> & Hs & [_ H2]%sweep_exec)].
  destruct (list_entries_exec _ _ _ Hd) as [out1 ->], (list_entries_exec _ _ _ Hs) as [out2 ->].
  apply buildContainersMaps_exec in Hm as (tr3 & host & containers & Hh & -> & ->).
  exists tr3, host, containers, dnat, snat, out1, out2, tr1, tr2. eexists _, _.
  split; [done|]. split; [done|]. split; [done|]. split; [by rewrite <-app_assoc|].
  split; [|split; [|by split]]; intros e; apply mismatch_spec.
Qed.

(** One host, one container that moved to a new address, and two tracked
    connections: one to its old address and one to the new one. *)
Definition moved_host : env host_sig := λ _ c,
  match c return hreply c with
  | GetHosts => Ok [mk_host "host-1" "192.0.2.1" "active" ∅]
  | GetSelfHost => Ok (mk_host "host-1" "192.0.2.1" "active" ∅)
  | GetContainers => Ok [mk_container "u1" "c" "host-1" "n1" "10.42.1.2" "" "running" "web"
                           ["0.0.0.0:80:8080/tcp"] ∅]
  | Command ["conntrack"; "-g"; "-L"] _ =>
      ("tcp 6 431999 ESTABLISHED src=192.0.2.9 dst=192.0.2.1 sport=40312 dport=80 " +:+
       "src=10.42.1.9 dst=192.0.2.9 sport=8080 dport=40312 [ASSURED] mark=0 use=1" +:+ nl +:+
       "tcp 6 431999 ESTABLISHED src=192.0.2.8 dst=192.0.2.1 sport=40313 dport=80 " +:+
       "src=10.42.1.2 dst=192.0.2.8 sport=8080 dport=40313 [ASSURED] mark=0 use=1" +:+ nl, None)
  | c' => idle_reply c'
  end.

Definition moved_run := run moved_host [] doSync.

Lemma doSync_deletes_witness :
  filter (λ c, negb (is_call (λ c, match c with Command ("conntrack" :: "--delete" :: _) _ => false
                                              | _ => true end) c) = true) moved_run.1
  = [ev (Σ := host_sig) (Command (delete_argv demo_entry) "") ("", None)] ∧
  ∃ host containers dnat (gone : CTEntry → bool),
    (∀ e, gone e = true ↔ stale_dnat host containers e) ∧
    length (filter (λ e, gone e = true) dnat) ≤ length moved_run.1.
Proof.
  split; [vm_compute; reflexivity|].
  pose proof (run_exec moved_host [] doSync) as H. fold moved_run in H.
  assert (moved_run.2 = Ok ()) as Hr by (vm_compute; reflexivity). rewrite Hr in H.
  destruct (doSync_deletes _ H) as (tr0 & host & containers & dnat & snat & out1 & out2 & tr1 & tr2
    & gone1 & gone2 & _ & _ & _ & Ht & Hg & _ & H1 & _).
  exists (Host.UUID host), containers, dnat, gone1. split; [exact Hg|].
  apply (f_equal length) in H1. rewrite length_calls_of, length_fmap in H1. rewrite <-H1, Ht.
  rewrite length_app. cbn [length]. rewrite length_app. lia.
Defined.

(** ** The rate limit *)

Lemma wrap64_range n : (min_duration ≤ wrap64 n ≤ max_duration)%Z.
Proof. unfold wrap64, min_duration, max_duration. pose proof (Z.mod_pos_bound (n + 2 ^ 63) (2 ^ 64)). lia. Qed.

Lemma wrap64_id n : (min_duration ≤ n ≤ max_duration)%Z → wrap64 n = n.
Proof. unfold wrap64, min_duration, max_duration. intros H. rewrite Z.mod_small; lia. Qed.

Lemma Sub_range t u : (min_duration ≤ Sub t u ≤ max_duration)%Z.
Proof. unfold Sub, min_duration, max_duration. lia. Qed.

(** What one turn does before it repairs: the pause, if any. *)
Definition pause (interval now lastApplied : Z) : list hevent :=
  if (Sub now lastApplied <? interval)%Z
  then [ev (Σ := host_sig) (Sleep (wrap64 (interval - Sub now lastApplied))) ()] else [].

Lemma onChangeNoError_exec d last tr s' r :
  execs (onChangeNoError d) last tr s' r →
  ∃ now synced res, r = Ok () ∧ exec doSync synced res ∧
    tr = ev (Σ := host_sig) Now now :: pause d now last ++ synced ++ [ev (Σ := host_sig) Now s'].
Proof.
  unfold onChangeNoError. intros H.
  apply execs_bind in H as [(e & _ & H)|(tr1 & tr2 & s1 & now & -> & Hm1 & H)];
    [by apply (execs_ask (Σ := host_sig) Now) in H as (? & _ & _ & [=])|].
  apply (execs_ask (Σ := host_sig) Now) in Hm1 as (x & -> & -> & [= <-]).
  apply execs_bind in H as [(e & _ & H)|(tr3 & tr4 & s2 & a & -> & Hm2 & H)];
    [by apply execs_get in H as (_ & _ & [=])|].
  apply execs_get in Hm2 as (-> & -> & [= ->]). cbv zeta in H.
  apply execs_bind in H as [(e & _ & H)|(tr5 & tr6 & s3 & [] & -> & Hm3 & H)].
  { destruct (_ <? _)%Z; [by apply (execs_ask (Σ := host_sig) (Sleep _)) in H as (? & _ & _ & [=])|by apply execs_ret in H as (_ & _ & [=])]. }
  assert (tr5 = pause d now last ∧ s3 = last) as [-> ->].
  { unfold pause. destruct (_ <? _)%Z; [by apply (execs_ask (Σ := host_sig) (Sleep _)) in Hm3 as ([] & -> & -> & _)|by apply execs_ret in Hm3 as (-> & -> & _)]. }
  apply execs_bind in H as [(e & _ & H)|(tr7 & tr8 & s4 & res & -> & Hm4 & H)];
    [by apply execs_try in H as (? & _ & [=])|].
  apply execs_try in Hm4 as (r' & [Hs ->]%execs_lift & [= ->]).
  apply execs_bind in H as [(e & _ & H)|(tr9 & tr10 & s5 & t & -> & Hm5 & H)];
    [by apply (execs_ask (Σ := host_sig) Now) in H as (? & _ & _ & [=])|].
  apply (execs_ask (Σ := host_sig) Now) in Hm5 as (y & -> & -> & [= <-]). apply execs_modify in H as (-> & -> & ->).
  by exists now, tr7, r'.
Qed.

(** C37: the interval is a 64-bit number of nanoseconds, the configured seconds
    when they are at most 9223372036 and 5 seconds when the setting is no number. A
    turn after the last one pauses exactly until one interval after it, never
    longer than the interval and not at all once the interval has passed; then it
    repairs and, whatever the outcome, records its end. *)
Theorem sync_rate_limited setting last tr s' r :
  execs (onChangeNoError (interval setting)) last tr s' r →
  (min_duration ≤ interval setting ≤ max_duration)%Z ∧
  (∀ n, Atoi setting = Some n → (Z.abs n ≤ 9223372036)%Z → interval setting = (n * second)%Z) ∧
  (Atoi setting = None → interval setting = (5 * second)%Z) ∧
  ∃ now synced res, r = Ok () ∧ exec doSync synced res ∧
    tr = ev (Σ := host_sig) Now now :: pause (interval setting) now last ++ synced
         ++ [ev (Σ := host_sig) Now s'] ∧
    ((last ≤ now)%Z →
      ((now - last < interval setting)%Z ∧ ∃ p,
         pause (interval setting) now last = [ev (Σ := host_sig) (Sleep p) ()] ∧
         (0 < p ≤ interval setting)%Z ∧ (now + p = last + interval setting)%Z)
      ∨ ((interval setting ≤ now - last)%Z ∧ pause (interval setting) now last = [])).
Proof.
  intros (now & synced & res & -> & Hs & ->)%onChangeNoError_exec.
  pose proof (wrap64_range (default DefaultSyncInterval (Atoi setting) * second)) as Hd.
  fold (seconds (default DefaultSyncInterval (Atoi setting))) in Hd. fold (interval setting) in Hd.
  split; [done|]. split; [|split].
  - intros n Hn Hb. unfold interval, seconds. rewrite Hn. apply wrap64_id.
    cbn [default]. unfold min_duration, max_duration, second. lia.
  - intros Hn. unfold interval, seconds. by rewrite Hn.
  - exists now, synced, res. split; [done|]. split; [done|]. split; [done|]. intros Hle.
    revert Hd. generalize (interval setting). intros d Hd. unfold pause.
    destruct (Sub now last <? d)%Z eqn:E; [apply Z.ltb_lt in E|apply Z.ltb_ge in E];
      unfold Sub, min_duration, max_duration in *; [left|right]; [|by split; [lia|]].
    split; [lia|]. eexists. split; [done|]. rewrite wrap64_id; unfold min_duration, max_duration; lia.
Qed.

Definition limited_turn := run moved_host [] (onChangeNoError (interval "5") (-3 * second)%Z).

(** The clock of this host stands at 0, three seconds after the last turn. *)
Lemma sync_rate_limited_witness :
  limited_turn.2 = (0%Z, Ok ()) ∧
  firstn 2 (calls_of limited_turn.1) = [Now; Sleep (2 * second)%Z] ∧
  (min_duration ≤ interval "5" ≤ max_duration)%Z.
Proof.
  pose proof (run_exec moved_host [] (onChangeNoError (interval "5") (-3 * second)%Z)) as H.
  fold limited_turn in H. assert (limited_turn.2 = (0%Z, Ok ())) as Hr by (vm_compute; reflexivity).
  rewrite Hr in H. split; [exact Hr|]. split; [vm_compute; reflexivity|].
  exact (proj1 (sync_rate_limited "5" _ _ _ _ H)).
Defined.

(** A larger setting wraps around; this one is negative, so that no turn pauses. *)
Example interval_wraps : (interval "9223372037" < 0)%Z ∧ pause (interval "9223372037") 0 0 = [].
Proof. by vm_compute. Qed.
