(* ===== verification/HostNat.v ===== *)
(** * The host NAT watcher (hostnat/watcher.go)

    Masquerading for the managed subnets and source NAT for the IKE ports of
    the IPsec overlay, in a table (nftables) or a chain (xtables) of their own.
    A statement of the nft script is one constructor of [stmt]; its words are
    the line the code prints. *)
From S2P Require Import Prelude Effects GoStrings GoNet Metadata Json World HostLabel Firewall PortRules NftRules Identity Conntrack.

Definition errNativeHookMismatch : error := ErrSentinel "hostnat.errNativeHookMismatch".
Definition reapplyEvery : Z := (5 * minute)%Z.
Definition staleIKEConntrackSweepEvery : Z := (15 * second)%Z.
Definition natChain : string := "CATTLE_NAT_POSTROUTING".
Definition nftNATTable : string := "pasturestack_hostnat".

(** ** The rule set *)

Module MASQRule.
Record t := Make { Subnet : string; Bridge : string; Peers : option (list string) }.
#[global] Instance eq_dec : EqDecision t.
Proof. solve_decision. Defined.
End MASQRule.

Module IKERule.
Record t := Make { SourceIP : string; HostIP : string; Bridge : string; Port : string }.
#[global] Instance eq_dec : EqDecision t.
Proof. solve_decision. Defined.
End IKERule.

(** The maps of the first state are nil, which [reflect.DeepEqual] tells from
    the empty maps of a computed rule set. *)
Record ruleSet := {
  MASQ : option (gmap string MASQRule.t);
  IKE : option (gmap string IKERule.t);
}.

#[export] Instance natRules_eq_dec : EqDecision ruleSet.
Proof. solve_decision. Defined.

Definition masq_map (rules : ruleSet) : gmap string MASQRule.t := default ∅ (MASQ rules).
Definition ike_map (rules : ruleSet) : gmap string IKERule.t := default ∅ (IKE rules).

Definition sorted_values {A} (m : gmap string A) : list A := omap (λ k, m !! k) (sorted_keys m).

Definition peer_list (p : MASQRule.t) : list string := default [] (MASQRule.Peers p).

(** ** The xtables rendering *)

Definition masq_iptables (p : MASQRule.t) : list (list string) :=
  let subnet := MASQRule.Subnet p in let bridge := MASQRule.Bridge p in
  let outside := ["!"; "-d"; subnet; "!"; "-o"; bridge; "-j"; "MASQUERADE"] in
  let ports := ["--to-ports"; "1024-65535"] in
  map (λ peer, ["-A"; natChain; "-s"; subnet; "-d"; peer; "-j"; "RETURN"]) (peer_list p)
  ++ [ ["-A"; natChain; "-p"; "tcp"; "-s"; subnet] ++ outside ++ ports;
       ["-A"; natChain; "-p"; "udp"; "-s"; subnet] ++ outside ++ ports;
       ["-A"; natChain; "-s"; subnet] ++ outside;
       ["-A"; natChain; "-o"; bridge; "-m"; "addrtype"; "--src-type"; "LOCAL";
        "--dst-type"; "UNICAST"; "-j"; "MASQUERADE"] ].

Definition ike_iptables (p : IKERule.t) : list string :=
  ["-A"; natChain; "-p"; "udp"; "-m"; "udp"; "-s"; IKERule.SourceIP p +:+ "/32";
   "--sport"; IKERule.Port p]
  ++ (if String.eqb (IKERule.Bridge p) "" then [] else ["!"; "-o"; IKERule.Bridge p])
  ++ ["-j"; "SNAT"; "--to-source"; IKERule.HostIP p +:+ ":" +:+ IKERule.Port p].

Definition restore_words (rules : ruleSet) : list (list string) :=
  [["*nat"]; [":" +:+ natChain; "-"]; ["-F"; natChain]; []]
  ++ map ike_iptables (sorted_values (ike_map rules))
  ++ concat (map masq_iptables (sorted_values (masq_map rules)))
  ++ [["COMMIT"]; []].

Definition restore_data (rules : ruleSet) : string := Join (map sp (restore_words rules)) nl.

(** ** The nft rendering *)

Inductive stmt :=
  | Snat (rule : IKERule.t)
  | PeerReturn (subnet peer : string)
  | MasqProto (protocol subnet bridge : string)
  | MasqAny (subnet bridge : string)
  | MasqLocal (bridge : string).

Definition ike_stmts (rules : ruleSet) : list stmt := map Snat (sorted_values (ike_map rules)).

Definition masq_stmts (p : MASQRule.t) : list stmt :=
  let subnet := MASQRule.Subnet p in let bridge := MASQRule.Bridge p in
  map (PeerReturn subnet) (peer_list p)
  ++ map (λ protocol, MasqProto protocol subnet bridge) ["tcp"; "udp"]
  ++ [MasqAny subnet bridge; MasqLocal bridge].

Definition stmts (rules : ruleSet) : list stmt :=
  ike_stmts rules ++ concat (map masq_stmts (sorted_values (masq_map rules))).

Definition quoted (s : string) : string := dquote +:+ s +:+ dquote.

Definition stmt_words (s : stmt) : list string :=
  match s with
  | Snat r =>
      ["ip"; "saddr"; IKERule.SourceIP r; "udp"; "sport"; IKERule.Port r]
      ++ (if String.eqb (IKERule.Bridge r) "" then []
          else ["oifname"; "!="; quoted (IKERule.Bridge r)])
      ++ ["snat"; "to"; IKERule.HostIP r +:+ ":" +:+ IKERule.Port r]
  | PeerReturn subnet peer => ["ip"; "saddr"; subnet; "ip"; "daddr"; peer; "return"]
  | MasqProto protocol subnet bridge =>
      ["ip"; "saddr"; subnet; "ip"; "daddr"; "!="; subnet; "oifname"; "!="; quoted bridge;
       "meta"; "l4proto"; protocol; "masquerade"; "to"; ":1024-65535"]
  | MasqAny subnet bridge =>
      ["ip"; "saddr"; subnet; "ip"; "daddr"; "!="; subnet; "oifname"; "!="; quoted bridge;
       "masquerade"]
  | MasqLocal bridge =>
      ["oifname"; quoted bridge; "fib"; "saddr"; "type"; "local"; "fib"; "daddr"; "type";
       "unicast"; "masquerade"]
  end.

Definition rule_line (table : string) (s : stmt) : list string :=
  ["add"; "rule"; "ip"; table; "postrouting"] ++ stmt_words s.

Definition script_words (table : string) (rules : ruleSet) : list (list string) :=
  [ ["add"; "table"; "ip"; table];
    ["add"; "chain"; "ip"; table; "postrouting"; "{"; "type"; "nat"; "hook"; "postrouting";
     "priority"; "99;"; "policy"; "accept;"; "}"];
    ["flush"; "chain"; "ip"; table; "postrouting"] ]
  ++ map (rule_line table) (stmts rules) ++ [[]].

Definition nftNATScriptForTable (rules : ruleSet) (table : string) : string :=
  Join (map sp (script_words table rules)) nl.

Definition nftNATScript (rules : ruleSet) : string := nftNATScriptForTable rules nftNATTable.

Definition nftNATReplaceScript (rules : ruleSet) : string :=
  "delete table ip " +:+ nftNATTable +:+ nl +:+ nftNATScript rules.

(** ** Validation *)

Definition interface_byte (a : ascii) : bool := bridge_byte a || Ascii.eqb a ":".

(** The regular expression [^[a-zA-Z0-9_.:-]{1,15}$]. *)
Definition interfaceName (s : string) : bool :=
  negb (String.eqb s "") && (String.length s <=? 15) && all_bytes interface_byte s.

Definition isIKEPort (port : string) : bool := String.eqb port "500" || String.eqb port "4500".

Section validate.
Context `{!MapRange}.

Definition check_masq (entry : string * MASQRule.t) : result () :=
  let rule := entry.2 in
  if negb (valid_ipv4_subnet (MASQRule.Subnet rule))
  then Err (Errorf "hostnat MASQ has invalid IPv4 subnet")
  else if negb (interfaceName (MASQRule.Bridge rule))
  then Err (Errorf "hostnat MASQ has invalid bridge name")
  else result_iter (λ peer, if valid_ipv4_subnet peer then Ok ()
                            else Err (Errorf "hostnat MASQ has invalid peer subnet"))
         (peer_list rule).

Definition check_ike (entry : string * IKERule.t) : result () :=
  let rule := entry.2 in
  _ ← result_iter (λ e : string * string,
        if valid_ipv4 e.2 then Ok () else Err (Errorf "hostnat IKE has invalid IPv4 address"))
        (range_map 12 {["source" := IKERule.SourceIP rule; "host" := IKERule.HostIP rule]});
  if negb (String.eqb (IKERule.Bridge rule) "") && negb (interfaceName (IKERule.Bridge rule))
  then Err (Errorf "hostnat IKE has invalid bridge name")
  else if negb (isIKEPort (IKERule.Port rule))
  then Err (Errorf "hostnat IKE has unsupported port")
  else Ok ().

Definition validateNATRules (rules : ruleSet) : result () :=
  _ ← result_iter check_masq (range_map 10 (masq_map rules));
  result_iter check_ike (range_map 11 (ike_map rules)).
End validate.

(** ** The desired rules *)

(** The bridge and the subnet of one CNI file that masquerades. *)
Definition masq_candidate (file : Value) : option MASQRule.t :=
  let props := as_map (Some file) in
  let bridge := as_string (props !! "bridge") in
  let bridgeSubnet := as_string (props !! "bridgeSubnet") in
  if as_bool (props !! "hostNat") && isBridgeCNIType (as_string (props !! "type"))
     && negb (String.eqb bridge "") && negb (String.eqb bridgeSubnet "")
  then Some (MASQRule.Make bridgeSubnet bridge None) else None.

Definition bridge_of_file (file : Value) : option string :=
  let props := as_map (Some file) in
  let bridge := as_string (props !! "bridge") in
  if isBridgeCNIType (as_string (props !! "type")) && negb (String.eqb bridge "")
  then Some bridge else None.

Definition isIPsecOverlayContainer (c : Container.t) : bool :=
  String.eqb (zget "" (Container.Labels c) "io.pasturestack.component") "ipsec-overlay"
  || String.eqb (Container.StackName c) "ipsec" && String.eqb (Container.ServiceName c) "ipsec".

Record watcher := { applied : ruleSet; lastApplied : Z; lastIKESweep : Z }.

Abbreviation wact A := (act host_sig watcher A).

(** The networks seen so far, their rules and the peer hosts once loaded. *)
Record building := {
  networksByUUID : gmap string Network.t;
  masqRules : gmap string MASQRule.t;
  peerHosts : option (list Host.t);
}.

Definition load_peers (b : building) : hprog (result (list Host.t)) :=
  match peerHosts b with
  | Some hosts => Ret (Ok hosts)
  | None => call1 GetHosts
  end.

Definition add_ike (bridge : string) (host : Host.t) (c : Container.t)
    (rules : gmap string IKERule.t) (port : string) : gmap string IKERule.t :=
  <[Container.ExternalId c +:+ "/" +:+ port :=
    IKERule.Make (Container.PrimaryIp c) (Host.AgentIP host) bridge port]> rules.

Definition runs_overlay (host : Host.t) (c : Container.t) : bool :=
  String.eqb (Container.HostUUID c) (Host.UUID host) && isIPsecOverlayContainer c
  && negb (String.eqb (Container.PrimaryIp c) "")
  && (String.eqb (Container.State c) "running" || String.eqb (Container.State c) "starting").

Definition staleIKEEntry (entry : CTEntry) (rule : IKERule.t) : bool :=
  Unreplied entry ||
  String.eqb (OriginalSourceIP entry) (IKERule.SourceIP rule)
  && negb (String.eqb (ReplyDestinationIP entry) (IKERule.HostIP rule)).

Definition ike_entry (entry : CTEntry) : bool :=
  String.eqb (CtProtocol entry) "udp" &&
  (isIKEPort (OriginalSourcePort entry) || isIKEPort (OriginalDestinationPort entry)
   || isIKEPort (ReplySourcePort entry) || isIKEPort (ReplyDestinationPort entry)).

Definition ike_matches (entry : CTEntry) (rule : IKERule.t) : bool :=
  String.eqb (OriginalSourceIP entry) (IKERule.SourceIP rule)
  || String.eqb (ReplySourceIP entry) (IKERule.SourceIP rule)
  || String.eqb (OriginalDestinationIP entry) (IKERule.HostIP rule)
  || String.eqb (ReplyDestinationIP entry) (IKERule.HostIP rule).

Definition reportStatus (err : option error) : wact () :=
  ask (Σ := host_sig) (Report HostNAT err).

(** The two runs of a rule tool over one text. *)
Definition feed (argv : list string) (data : string) : hprog (result ()) :=
  r ← call1 (Command argv data); Ret (err_result r.2).

Section watch.
Context `{!MapRange} (backend : Backend).

Definition networkToRule (network : Network.t) : option MASQRule.t :=
  head (omap (λ e, masq_candidate e.2) (range_map 13 (cniConfig network))).

Definition bridgeForNetwork (network : Network.t) : string :=
  default "" (head (omap (λ e, bridge_of_file e.2) (range_map 14 (cniConfig network)))).

Definition network_step (host : Host.t) (b : building) (network : Network.t)
    : hprog (result building) :=
  let seen := <[Network.UUID network := network]> (networksByUUID b) in
  match networkToRule network with
  | None => Ret (Ok {| networksByUUID := seen; masqRules := masqRules b; peerHosts := peerHosts b |})
  | Some rule =>
      let reference := MASQRule.Subnet rule in
      resolved <-? Ret (wrap_err "network hostnat subnet" (Resolve reference (Host.Labels host)));
      let add peers hosts :=
        {| networksByUUID := seen;
           masqRules := <[Network.UUID network := MASQRule.Make resolved (MASQRule.Bridge rule) peers]>
                          (masqRules b);
           peerHosts := hosts |} in
      if IsReference reference then
        hosts <-? load_peers b;
        peers <-? Ret (wrap_err "network hostnat peers"
                         (PeerSubnets reference (Host.UUID host) resolved hosts));
        Ret (Ok (add peers (Some hosts)))
      else Ret (Ok (add (MASQRule.Peers rule) (peerHosts b)))
  end.

Definition ike_step (host : Host.t) (networks : gmap string Network.t)
    (rules : gmap string IKERule.t) (c : Container.t) : gmap string IKERule.t :=
  if negb (runs_overlay host c) then rules else
  let bridge := match networks !! Container.NetworkUUID c with
                | Some network => bridgeForNetwork network
                | None => ""
                end in
  foldl (add_ike bridge host c) rules ["500"; "4500"].

Definition addIKESNATRules (host : Host.t) (networks : gmap string Network.t)
    : hprog (result (gmap string IKERule.t)) :=
  if String.eqb (Host.AgentIP host) "" then Ret (Ok ∅) else
  containers <-? call1 GetContainers;
  Ret (Ok (foldl (ike_step host networks) ∅ containers)).

Definition desired_rules : hprog (result ruleSet) :=
  host <-? LocalHost;
  networks <-? call1 GetNetworks;
  b <-? pfold (network_step host) {| networksByUUID := ∅; masqRules := ∅; peerHosts := None |} networks;
  ike <-? addIKESNATRules host (networksByUUID b);
  Ret (Ok {| MASQ := Some (masqRules b); IKE := Some ike |}).

(** ** Stale connections *)

Definition matchingIKERule (entry : CTEntry) (rules : gmap string IKERule.t) : option IKERule.t :=
  if negb (ike_entry entry) then None else
  head (filter (λ rule, ike_matches entry rule = true) (range_map 15 rules).*2).

Definition stale (rules : gmap string IKERule.t) (entry : CTEntry) : bool :=
  match matchingIKERule entry rules with
  | Some rule => staleIKEEntry entry rule
  | None => false
  end.

Definition set_sweep (t : Z) (w : watcher) : watcher :=
  {| applied := applied w; lastApplied := lastApplied w; lastIKESweep := t |}.

Definition mark_sweep : wact () := now ← ask (Σ := host_sig) Now; modify (set_sweep now).

(** Nothing in a sweep is an error of the watcher. *)
Definition flushStaleIKEConntrack (rules : gmap string IKERule.t) : wact () :=
  if bool_decide (rules = ∅) then mret () else
  now ← ask (Σ := host_sig) Now;
  w ← get;
  if (Sub now (lastIKESweep w) <? staleIKEConntrackSweepEvery)%Z then mret () else
  mark_sweep;;
  entries ← try (lift ListSNAT);
  match entries with
  | Err _ => mret ()
  | Ok entries => lift (pforeach (sweep_entry (stale rules)) entries)
  end.

Definition ike_flush (option port : string) : hprog (result ()) :=
  _ ← call1 (Command ["conntrack"; "-D"; "-p"; "udp"; option; port] ""); Ret (Ok ()).

Definition flushIKEConntrack : hprog (result ()) :=
  pforeach (λ spec, ike_flush spec.1 spec.2)
    [("--sport", "500"); ("--dport", "500"); ("--sport", "4500"); ("--dport", "4500")].

(** ** Applying *)

Definition localRoutingSetting (p : MASQRule.t) : string :=
  if String.eqb (MASQRule.Bridge p) "" then ""
  else "net.ipv4.conf." +:+ MASQRule.Bridge p +:+ ".route_localnet=1".

Definition enableLocalNetRouting (rules : ruleSet) : hprog (result ()) :=
  pforeach (λ e : string * MASQRule.t,
    let s := localRoutingSetting e.2 in
    if String.eqb s "" then Ret (Ok ()) else feed ["sysctl"; "-w"; s] "")
    (range_map 16 (masq_map rules)).

Definition insertBaseRules : hprog (result ()) :=
  let iptables := BackendCommand backend in
  if String.eqb iptables "" then Ret (Err (Errorf "hostnat iptables command is not selected")) else
  missing ← feed [iptables; "-w"; "-t"; "nat"; "-C"; "POSTROUTING"; "-j"; natChain] "";
  match missing with
  | Ok _ => Ret (Ok ())
  | Err _ => wrapped "install hostnat base jump"
               (feed [iptables; "-w"; "-t"; "nat"; "-I"; "POSTROUTING"; "-j"; natChain] "")
  end.

(** The end of both applications: old IKE connections go, the rules are
    remembered. *)
Definition remember (rules : ruleSet) : wact () :=
  (if bool_decide (ike_map rules = ∅) then mret () else lift flushIKEConntrack;; mark_sweep);;
  now ← ask (Σ := host_sig) Now;
  modify (λ w, {| applied := rules; lastApplied := now; lastIKESweep := lastIKESweep w |}).

(** Check the complete data, set the switches, install the data. *)
Definition checked_apply (preflight_msg msg : string) (test run : list string) (data : string)
    (base : hprog (result ())) (rules : ruleSet) : wact () :=
  lift (wrapped preflight_msg (feed test data));;
  lift (enableLocalNetRouting rules);;
  lift (wrapped msg (feed run data));;
  lift base;;
  remember rules.

Definition applyNFTScript (rules : ruleSet) (script : string) : wact () :=
  checked_apply "hostnat nft preflight" "hostnat nft apply"
    [BackendCommand backend; "-c"; "-f"; "-"] [BackendCommand backend; "-f"; "-"] script (Ret (Ok ())) rules.

Definition applyNFT (rules : ruleSet) : wact () := applyNFTScript rules (nftNATScript rules).

Definition applyNFTReplacing (rules : ruleSet) : wact () :=
  of_result (validateNATRules rules);;
  applyNFTScript rules (nftNATReplaceScript rules).

Definition apply_xt (rules : ruleSet) : wact () :=
  if String.eqb (Restore backend) ""
  then fail (Errorf "hostnat iptables restore command is not selected") else
  checked_apply "hostnat restore preflight" "hostnat restore"
    [Restore backend; "-n"; "--test"] [Restore backend; "-n"]
    (restore_data rules) (wrapped "install base rules" insertBaseRules) rules.

Definition apply (rules : ruleSet) : wact () :=
  of_result (validateNATRules rules);;
  if String.eqb (Mode backend) NFTables then applyNFT rules else
  if negb (String.eqb (Mode backend) IptablesNFT) && negb (String.eqb (Mode backend) IptablesLegacy)
  then fail (Errorf "hostnat firewall backend is not resolved") else apply_xt rules.

(** ** Reconciling *)

Definition onChange : wact () :=
  newRules ← lift desired_rules;
  w ← get;
  if bool_decide (applied w ≠ newRules) then apply newRules else
  now ← ask (Σ := host_sig) Now;
  if (reapplyEvery <? Sub now (lastApplied w))%Z then apply newRules else
  flushStaleIKEConntrack (ike_map newRules).

(** One turn of the retry loop of [onChangeNoError]. *)
Definition attempt : wact () :=
  r ← try onChange;
  reportStatus (result_err r);;
  of_result r.

Fixpoint onChangeNoError (turns : nat) : wact (option ()) :=
  match turns with
  | 0 => mret None
  | S n =>
      r ← try attempt;
      match r with
      | Ok _ => mret (Some ())
      | Err _ => ask (Σ := host_sig) (Sleep (5 * second)%Z);; onChangeNoError n
      end
  end.
End watch.

(** ** The check of the live chain *)

Record native := { baseFound : bool; natRules : nat }.

Definition nat_hook : hook := Build_hook "nat" "postrouting" 99 "accept".

Definition native_chain (item : members) (t : native) : result native :=
  match raw_member "chain" item with
  | None => Ok t
  | Some raw =>
      '(family, table, name, got) ← wrap_err "decode owned base chain" (decode_chain raw);
      Ok {| baseFound := bool_decide (family = "ip" ∧ table = nftNATTable ∧
              name = "postrouting" ∧ got = nat_hook); natRules := natRules t |}
  end.

Definition native_rule (item : members) (t : native) : result native :=
  match raw_member "rule" item with
  | None => Ok t
  | Some raw =>
      '(family, table, chain) ← wrap_err "decode owned rule" (decode_rule raw);
      if bool_decide (family = "ip" ∧ table = nftNATTable ∧ chain = "postrouting")
      then Ok {| baseFound := baseFound t; natRules := natRules t + 1 |} else Ok t
  end.

Definition native_item (t : native) (item : members) : result native :=
  t' ← native_chain item t; native_rule item t'.

Definition wantRules (applied : ruleSet) : nat :=
  size (ike_map applied) + 4 * size (masq_map applied)
  + sum_list_with (λ p, length (peer_list p)) (sorted_values (masq_map applied)).

Definition check_native (applied : ruleSet) (items : list members) : result () :=
  t ← result_fold native_item {| baseFound := false; natRules := 0 |} items;
  if negb (baseFound t) then Err errNativeHookMismatch
  else if negb (natRules t =? wantRules applied)
  then Err (Errorf "owned postrouting rule count differs") else Ok ().

Section native.
Context `{!MapRange} (backend : Backend).

Definition checkNativeState (applied : ruleSet) : hprog (result ()) :=
  '(out, err) ← call1 (Command [BackendCommand backend; "-j"; "list"; "chain"; "ip"; nftNATTable;
                                "postrouting"] "");
  match err with
  | Some e => Ret (Err (Wrapf "read owned chain" e))
  | None => Ret (items ← wrap_err "decode owned chain" (Unmarshal listing_items out);
                 check_native applied items)
  end.

Definition reconcileNativeState : wact () :=
  w ← get;
  if IsZero (lastApplied w) then mret () else
  c ← try (lift (checkNativeState (applied w)));
  match c with
  | Ok _ => mret ()
  | Err e =>
      reportStatus (Some (Wrapf "hostnat native nft state lost" e));;
      r ← try (if errors_is "hostnat.errNativeHookMismatch" e
               then applyNFTReplacing backend (applied w) else apply backend (applied w));
      reportStatus (result_err r)
  end.
End native.

Definition initial : watcher :=
  {| applied := {| MASQ := None; IKE := None |}; lastApplied := zero_time; lastIKESweep := zero_time |}.

(** The goroutines of [Watch]: metadata callbacks and, with native nftables,
    the periodic check; the reconcile mutex makes each turn atomic. *)
Inductive turn (backend : Backend) (w : watcher) (tr : list hevent) (w' : watcher) : Prop :=
  | turn_change (range : MapRange) r : execs (attempt backend) w tr w' r → turn backend w tr w'
  | turn_native (range : MapRange) r :
      Mode backend = NFTables → execs (reconcileNativeState backend) w tr w' r →
      turn backend w tr w'.

Inductive history (backend : Backend) : list hevent → watcher → Prop :=
  | history_start : history backend [] initial
  | history_turn tr w1 tr' w2 :
      history backend tr w1 → turn backend w1 tr' w2 → history backend (tr ++ tr') w2.

(** ** Validated rules *)

Lemma elem_of_sorted_values {A} (m : gmap string A) a :
  a ∈ sorted_values m ↔ ∃ k, m !! k = Some a.
Proof.
  unfold sorted_values. rewrite list_elem_of_omap. split.
  - intros (k & _ & Hk). by exists k.
  - intros [k Hk]. exists k. split; [|done]. apply elem_of_sorted_keys. by exists a.
Qed.

Lemma length_omap_Some {A B} (f : A → option B) l :
  (∀ x, x ∈ l → is_Some (f x)) → length (omap f l) = length l.
Proof.
  induction l as [|x l IH]; intros Hl; [done|].
  destruct (Hl x (list_elem_of_here _ _)) as [y Hy].
  change (omap f (x :: l)) with (match f x with Some y => y :: omap f l | None => omap f l end).
  rewrite Hy. cbn [length]. f_equal. apply IH. intros z Hz. apply Hl. by apply list_elem_of_further.
Qed.

Lemma length_sorted_values {A} (m : gmap string A) : length (sorted_values m) = size m.
Proof.
  unfold sorted_values. rewrite length_omap_Some, length_sorted_keys; [done|].
  intros k. by rewrite elem_of_sorted_keys.
Qed.

Record valid_masq (p : MASQRule.t) : Prop := {
  vm_subnet : valid_ipv4_subnet (MASQRule.Subnet p) = true;
  vm_bridge : interfaceName (MASQRule.Bridge p) = true;
  vm_peers : Forall (λ peer, valid_ipv4_subnet peer = true) (peer_list p);
}.

Record valid_ike (p : IKERule.t) : Prop := {
  vi_source : valid_ipv4 (IKERule.SourceIP p) = true;
  vi_host : valid_ipv4 (IKERule.HostIP p) = true;
  vi_bridge : IKERule.Bridge p = "" ∨ interfaceName (IKERule.Bridge p) = true;
  vi_port : isIKEPort (IKERule.Port p) = true;
}.

Section valid.
Context `{!MapRange}.

Lemma check_masq_Ok k p : check_masq (k, p) = Ok () ↔ valid_masq p.
Proof.
  unfold check_masq. cbn [snd]. split.
  - destruct (valid_ipv4_subnet (MASQRule.Subnet p)) eqn:Hs; [|done].
    destruct (interfaceName (MASQRule.Bridge p)) eqn:Hb; [|done]. cbn [negb].
    rewrite result_iter_Ok. intros Hp. split; [done|done|].
    eapply Forall_impl; [exact Hp|]. intros peer. apply if_not_Ok.
  - intros [-> -> Hp]. cbn [negb]. rewrite result_iter_Ok.
    eapply Forall_impl; [exact Hp|]. intros peer. apply if_not_Ok.
Qed.

Lemma check_ike_Ok k p : check_ike (k, p) = Ok () ↔ valid_ike p.
Proof.
  unfold check_ike. cbn [snd]. rewrite result_bind_Ok. split.
  - intros ([] & Ha & Hrest). rewrite range_iter_Ok in Ha.
    pose proof (Ha "source" (IKERule.SourceIP p) eq_refl) as Hs%if_not_Ok.
    pose proof (Ha "host" (IKERule.HostIP p) eq_refl) as Hh%if_not_Ok.
    destruct (String.eqb_spec (IKERule.Bridge p) "") as [Hb|Hb]; cbn [negb andb] in Hrest.
    + destruct (isIKEPort _) eqn:Hport; [|done]. split; auto.
    + destruct (interfaceName _) eqn:Hi; [|done]. cbn [negb] in Hrest.
      destruct (isIKEPort _) eqn:Hport; [|done]. split; auto.
  - intros [Hs Hh Hb ->]. exists (). split.
    + rewrite range_iter_Ok. intros k' v Hv. apply if_not_Ok. cbn [snd].
      apply lookup_insert_Some in Hv as [[_ <-]|[_ Hv%lookup_singleton_Some]]; [done|].
      by destruct Hv as [_ <-].
    + destruct Hb as [-> | ->]; [done|]. cbn [negb]. by rewrite andb_false_r.
Qed.

Lemma validateNATRules_Ok rules :
  validateNATRules rules = Ok () ↔
  (∀ p, p ∈ sorted_values (masq_map rules) → valid_masq p) ∧
  (∀ p, p ∈ sorted_values (ike_map rules) → valid_ike p).
Proof.
  unfold validateNATRules. rewrite result_bind_Ok.
  setoid_rewrite elem_of_sorted_values. split.
  - intros ([] & Hm & Hi). cbn beta in Hi. apply range_iter_Ok in Hm, Hi. split; intros p [k Hk].
    + by apply (check_masq_Ok k), (Hm k).
    + by apply (check_ike_Ok k), (Hi k).
  - intros [Hm Hi]. exists (). cbn beta. rewrite !range_iter_Ok. split; intros k p Hk.
    + apply check_masq_Ok, Hm. by exists k.
    + apply check_ike_Ok, Hi. by exists k.
Qed.
End valid.

(** ** Both renderings hold the intended rules only *)

Lemma plain_interface b : interfaceName b = true → plain b = true.
Proof.
  unfold interfaceName. rewrite !andb_true_iff, negb_true_iff, eqb_empty. intros [[Hne _] Hb].
  apply plain_intro; [|done]. eapply all_bytes_weaken, Hb.
  intros a. by destruct a as [[] [] [] [] [] [] [] []].
Qed.

Lemma plain_IKEPort p : isIKEPort p = true → plain p = true.
Proof. unfold isIKEPort. rewrite orb_true_iff, !String.eqb_eq. by intros [-> | ->]. Qed.

Lemma plain_quoted b : plain b = true → plain (quoted b) = true.
Proof. intros Hb. unfold quoted. apply plain_app; [done|]. by apply plain_app. Qed.

#[local] Hint Resolve plain_interface plain_IKEPort plain_quoted plain_app plain_subnet
  plain_ipv4 : words.
#[local] Hint Constructors Forall : words.
#[local] Hint Extern 0 (plain _ = true) => reflexivity : words.

Ltac plain_list := unfold plain_words in *;
  repeat first [assumption | apply Forall_nil_2 | apply Forall_app; split | apply Forall_cons_2
               | solve [auto with words]].

Lemma plain_masq_iptables p : valid_masq p → Forall plain_words (masq_iptables p).
Proof.
  intros [Hs Hb Hp]. unfold masq_iptables. apply Forall_app. split.
  - apply Forall_fmap. eapply Forall_impl; [exact Hp|]. intros peer Hpeer. cbn. plain_list.
  - plain_list.
Qed.

Lemma plain_ike_iptables p : valid_ike p → plain_words (ike_iptables p).
Proof.
  intros [Hs Hh Hb Hp]. unfold ike_iptables.
  destruct (String.eqb_spec (IKERule.Bridge p) "") as [|Hne]; [plain_list|].
  destruct Hb as [?|Hb]; [done|]. plain_list.
Qed.

Lemma plain_stmt_ike p : valid_ike p → plain_words (stmt_words (Snat p)).
Proof.
  intros [Hs Hh Hb Hp]. unfold stmt_words.
  destruct (String.eqb_spec (IKERule.Bridge p) "") as [|Hne]; [plain_list|].
  destruct Hb as [?|Hb]; [done|]. plain_list.
Qed.

Lemma plain_stmt_masq p s : valid_masq p → s ∈ masq_stmts p → plain_words (stmt_words s).
Proof.
  intros [Hs Hb Hp] Hin. unfold masq_stmts in Hin. cbn zeta in Hin.
  apply elem_of_app in Hin as [(peer & -> & Hpeer)%list_elem_of_fmap|Hin].
  { rewrite Forall_forall in Hp. specialize (Hp _ Hpeer). cbn [stmt_words]. plain_list. }
  cbn [map app] in Hin. rewrite !elem_of_cons in Hin.
  destruct Hin as [->|[->|[->|[->|Hin%not_elem_of_nil]]]]; [..|done]; cbn [stmt_words]; plain_list.
Qed.

Lemma plain_stmts rules :
  (∀ p, p ∈ sorted_values (masq_map rules) → valid_masq p) →
  (∀ p, p ∈ sorted_values (ike_map rules) → valid_ike p) →
  Forall (λ s, plain_words (stmt_words s)) (stmts rules).
Proof.
  intros Hm Hi. unfold stmts, ike_stmts. apply Forall_app. split.
  - apply Forall_fmap, Forall_forall. intros p Hp. by apply plain_stmt_ike, Hi.
  - apply Forall_concat, Forall_fmap, Forall_forall. intros p Hp. apply Forall_forall.
    intros s Hs. by apply (plain_stmt_masq p); [apply Hm|].
Qed.

(** C32: for a validated rule set both tools read exactly the intended lines, word
    by word: the xtables restore data and the nft script, plain or replacing the
    table, admit no line or argument from the metadata. *)
Theorem nat_rules_parsed `{!MapRange} rules :
  validateNATRules rules = Ok () →
  Fields <$> Split (restore_data rules) "010" = restore_words rules ∧
  Fields <$> Split (nftNATScript rules) "010" = script_words nftNATTable rules ∧
  Fields <$> Split (nftNATReplaceScript rules) "010" =
    ["delete"; "table"; "ip"; nftNATTable] :: script_words nftNATTable rules.
Proof.
  intros [Hm Hi]%validateNATRules_Ok.
  assert (Forall plain_words (script_words nftNATTable rules)) as Hscript.
  { unfold script_words. apply Forall_app. split; [plain_list|]. apply Forall_app. split; [|plain_list].
    apply Forall_fmap. eapply Forall_impl; [by apply plain_stmts|]. intros s Hs.
    unfold rule_line. cbn [compose]. apply Forall_app. split; [plain_list|done]. }
  split_and!.
  - apply Split_words; [done|]. unfold restore_words.
    apply Forall_app. split; [plain_list|]. apply Forall_app. split; [|apply Forall_app; split; [|plain_list]].
    + apply Forall_fmap, Forall_forall. intros p Hp. by apply plain_ike_iptables, Hi.
    + apply Forall_concat, Forall_fmap, Forall_forall. intros p Hp. by apply plain_masq_iptables, Hm.
  - by apply Split_words.
  - pose proof (Split_words (["delete"; "table"; "ip"; nftNATTable] :: script_words nftNATTable rules)) as Hl.
    rewrite <-Hl; [|done|constructor; [plain_list|done]]. f_equal.
Qed.

Definition demo_nat : ruleSet := {|
  MASQ := Some {[ "n1" := MASQRule.Make "10.42.1.0/24" "br0" (Some ["10.42.2.0/24"]) ]};
  IKE := Some {[ "c/500" := IKERule.Make "10.42.1.9" "192.0.2.1" "br0" "500" ]} |}.

Lemma nat_rules_parsed_witness :
  length (script_words nftNATTable demo_nat) = 10 ∧
  Fields <$> Split (nftNATReplaceScript demo_nat) "010" =
    ["delete"; "table"; "ip"; nftNATTable] :: script_words nftNATTable demo_nat.
Proof.
  split; [vm_compute; reflexivity|].
  apply (@nat_rules_parsed range_forward). vm_compute. reflexivity.
Defined.

(** ** What the chain does to a forwarded packet *)

(** A packet at the postrouting hook: its addresses, transport protocol, source
    port and output interface, and whether its source is local and its
    destination a unicast address. *)
Record packet := {
  pk_src : Z; pk_dst : Z; pk_l4 : string; pk_sport : string; pk_out : string;
  pk_src_local : bool; pk_dst_unicast : bool;
}.

Inductive verdict :=
  | Unchanged
  | ToSource (address port : string)
  | Masquerade (high_ports : bool).

Definition in_subnet (subnet : string) (a : Z) : bool :=
  match ParsePrefix subnet with Some p => GoNet.Contains p (V4 a) | None => false end.

Definition is_address (s : string) (a : Z) : bool := bool_decide (ParseAddr s = Some (V4 a)).

(** The documented meaning of one statement of the script. *)
Definition stmt_verdict (pk : packet) (s : stmt) : option verdict :=
  match s with
  | Snat r =>
      if is_address (IKERule.SourceIP r) (pk_src pk) && String.eqb (pk_l4 pk) "udp"
         && String.eqb (pk_sport pk) (IKERule.Port r)
         && (String.eqb (IKERule.Bridge r) "" || negb (String.eqb (pk_out pk) (IKERule.Bridge r)))
      then Some (ToSource (IKERule.HostIP r) (IKERule.Port r)) else None
  | PeerReturn subnet peer =>
      if in_subnet subnet (pk_src pk) && in_subnet peer (pk_dst pk) then Some Unchanged else None
  | MasqProto protocol subnet bridge =>
      if in_subnet subnet (pk_src pk) && negb (in_subnet subnet (pk_dst pk))
         && negb (String.eqb (pk_out pk) bridge) && String.eqb (pk_l4 pk) protocol
      then Some (Masquerade true) else None
  | MasqAny subnet bridge =>
      if in_subnet subnet (pk_src pk) && negb (in_subnet subnet (pk_dst pk))
         && negb (String.eqb (pk_out pk) bridge)
      then Some (Masquerade false) else None
  | MasqLocal bridge =>
      if String.eqb (pk_out pk) bridge && pk_src_local pk && pk_dst_unicast pk
      then Some (Masquerade false) else None
  end.

(** The first matching statement decides; the chain's policy is accept. *)
Fixpoint first_verdict (pk : packet) (ss : list stmt) : option verdict :=
  match ss with
  | [] => None
  | s :: ss' => match stmt_verdict pk s with Some v => Some v | None => first_verdict pk ss' end
  end.

Definition chain_verdict (pk : packet) (rules : ruleSet) : verdict :=
  default Unchanged (first_verdict pk (stmts rules)).

Lemma first_verdict_app pk s1 s2 :
  first_verdict pk (s1 ++ s2) =
  match first_verdict pk s1 with Some v => Some v | None => first_verdict pk s2 end.
Proof. induction s1 as [|s s1 IH]; [done|]. cbn [first_verdict app]. by destruct (stmt_verdict pk s). Qed.

Lemma first_verdict_none pk ss :
  (∀ s, s ∈ ss → stmt_verdict pk s = None) → first_verdict pk ss = None.
Proof.
  induction ss as [|s ss IH]; intros Hs; [done|]. cbn [first_verdict].
  rewrite (Hs s (list_elem_of_here _ _)). apply IH. intros s' Hs'.
  apply Hs. by apply list_elem_of_further.
Qed.

(** A network does nothing to forwarded packets from outside its subnet. *)
Lemma foreign_verdict pk p :
  in_subnet (MASQRule.Subnet p) (pk_src pk) = false → pk_src_local pk = false →
  first_verdict pk (masq_stmts p) = None.
Proof.
  intros Hs Hl. apply first_verdict_none. intros s Hin. unfold masq_stmts in Hin. cbn zeta in Hin.
  apply elem_of_app in Hin as [(peer & -> & _)%list_elem_of_fmap|Hin].
  { cbn [stmt_verdict]. by rewrite Hs. }
  cbn [map app] in Hin. rewrite !elem_of_cons in Hin.
  destruct Hin as [->|[->|[->|[->|Hin%not_elem_of_nil]]]]; [..|done]; cbn [stmt_verdict].
  1-3: by rewrite Hs.
  by rewrite Hl, andb_false_r.
Qed.

Definition overlay_verdict (pk : packet) (p : MASQRule.t) : verdict :=
  if existsb (λ peer, in_subnet peer (pk_dst pk)) (peer_list p) then Unchanged
  else if in_subnet (MASQRule.Subnet p) (pk_dst pk) || String.eqb (pk_out pk) (MASQRule.Bridge p)
  then Unchanged
  else Masquerade (String.eqb (pk_l4 pk) "tcp" || String.eqb (pk_l4 pk) "udp").

Lemma own_verdict pk p :
  in_subnet (MASQRule.Subnet p) (pk_src pk) = true → pk_src_local pk = false →
  default Unchanged (first_verdict pk (masq_stmts p)) = overlay_verdict pk p ∧
  (first_verdict pk (masq_stmts p) = None → overlay_verdict pk p = Unchanged).
Proof.
  intros Hs Hl. unfold masq_stmts, overlay_verdict. cbn zeta. rewrite first_verdict_app.
  assert (first_verdict pk (map (PeerReturn (MASQRule.Subnet p)) (peer_list p)) =
    if existsb (λ peer, in_subnet peer (pk_dst pk)) (peer_list p) then Some Unchanged else None) as ->.
  { induction (peer_list p) as [|peer ps IH]; [done|]. cbn [map first_verdict stmt_verdict existsb].
    rewrite Hs. cbn [andb]. by destruct (in_subnet peer (pk_dst pk)). }
  destruct (existsb _ _); [done|].
  cbn [map app first_verdict stmt_verdict]. rewrite Hs, Hl, andb_false_r. cbn [andb].
  destruct (in_subnet (MASQRule.Subnet p) (pk_dst pk)); cbn [negb andb orb]; [done|].
  destruct (String.eqb (pk_out pk) _); cbn [negb andb]; [done|].
  by destruct (String.eqb (pk_l4 pk) "tcp"), (String.eqb (pk_l4 pk) "udp").
Qed.

(** The values of a map around the one of a key. *)
Lemma sorted_values_around {A} (m : gmap string A) k a :
  m !! k = Some a →
  ∃ l1 l2, sorted_values m = l1 ++ a :: l2 ∧
    ∀ b, b ∈ l1 ++ l2 → ∃ k', k' ≠ k ∧ m !! k' = Some b.
Proof.
  intros Hk. assert (k ∈ sorted_keys m) as Hin by (apply elem_of_sorted_keys; by exists a).
  pose proof (NoDup_sorted_keys m) as Hnd.
  apply list_elem_of_split in Hin as (ks1 & ks2 & Hks). rewrite Hks in Hnd.
  apply NoDup_app in Hnd as (_ & Hn1 & [Hn2 _]%NoDup_cons).
  exists (omap (λ k, m !! k) ks1), (omap (λ k, m !! k) ks2). split.
  - unfold sorted_values. rewrite Hks, omap_app. f_equal.
    change (omap (λ k0, m !! k0) (k :: ks2)) with
      (match m !! k with Some y => y :: omap (λ k0, m !! k0) ks2 | None => omap (λ k0, m !! k0) ks2 end).
    by rewrite Hk.
  - intros b. rewrite elem_of_app, !list_elem_of_omap.
    intros [(k' & Hk' & Hb)|(k' & Hk' & Hb)]; exists k'; (split; [|done]); intros ->.
    + apply (Hn1 k); [done|]. apply list_elem_of_here.
    + done.
Qed.

(** C20: to a forwarded packet whose source lies in the subnet of exactly one
    network, and which is no IKE packet, the chain does this: towards a peer
    host's subnet, inside the network's own subnet or out of its own bridge the
    source address is kept; everything else is masqueraded, tcp and udp with
    unprivileged ports. *)
Theorem overlay_source_kept rules uuid p pk :
  masq_map rules !! uuid = Some p →
  in_subnet (MASQRule.Subnet p) (pk_src pk) = true → pk_src_local pk = false →
  (∀ uuid' q, uuid' ≠ uuid → masq_map rules !! uuid' = Some q →
     in_subnet (MASQRule.Subnet q) (pk_src pk) = false) →
  (∀ r, r ∈ ike_stmts rules → stmt_verdict pk r = None) →
  chain_verdict pk rules = overlay_verdict pk p.
Proof.
  intros Hp Hs Hl Hothers Hike. unfold chain_verdict, stmts.
  rewrite first_verdict_app, first_verdict_none by done.
  destruct (sorted_values_around _ _ _ Hp) as (l1 & l2 & -> & Hl12).
  rewrite map_app, concat_app. cbn [map concat].
  assert (∀ l, (∀ b, b ∈ l → b ∈ l1 ++ l2) → first_verdict pk (concat (map masq_stmts l)) = None) as Hnone.
  { induction l as [|b l IH]; intros Hb; [done|]. cbn [map concat]. rewrite first_verdict_app.
    destruct (Hl12 b) as (k' & Hk' & Hbk); [apply Hb, list_elem_of_here|].
    rewrite foreign_verdict; [|by eapply Hothers|done].
    apply IH. intros c Hc. apply Hb. by apply list_elem_of_further. }
  rewrite first_verdict_app, Hnone; [|intros b Hb; apply elem_of_app; by left].
  rewrite first_verdict_app. destruct (own_verdict pk p Hs Hl) as [Hd Hu].
  destruct (first_verdict pk (masq_stmts p)) as [v|]; [done|].
  rewrite Hnone; [by rewrite Hu|]. intros b Hb. apply elem_of_app. by right.
Qed.

(** 10.42.1.9 to its peer 10.42.2.7 through the underlay keeps its address. *)
Definition demo_packet : packet := {|
  pk_src := 170524937%Z; pk_dst := 170525191%Z; pk_l4 := "tcp"; pk_sport := "40000"; pk_out := "eth0";
  pk_src_local := false; pk_dst_unicast := true |}.

Lemma overlay_source_kept_witness :
  in_subnet "10.42.1.0/24" (pk_src demo_packet) = true ∧
  in_subnet "10.42.2.0/24" (pk_dst demo_packet) = true ∧
  chain_verdict demo_packet demo_nat = Unchanged.
Proof.
  split; [vm_compute; reflexivity|]. split; [vm_compute; reflexivity|].
  apply (overlay_source_kept demo_nat "n1" (MASQRule.Make "10.42.1.0/24" "br0" (Some ["10.42.2.0/24"]))
    demo_packet).
  - reflexivity.
  - vm_compute. reflexivity.
  - reflexivity.
  - intros uuid' q Hne Hq. exfalso. apply Hne. unfold masq_map in Hq. cbn in Hq.
    by apply lookup_singleton_Some in Hq as [<- _].
  - intros r Hr. assert (r = Snat (IKERule.Make "10.42.1.9" "192.0.2.1" "br0" "500")) as ->.
    { apply list_elem_of_singleton. exact Hr. }
    vm_compute. reflexivity.
Defined.

(** ** The live check *)

Definition chain_object (item : members) : option (result bool) :=
  raw ← raw_member "chain" item;
  Some ('(family, table, name, got) ← wrap_err "decode owned base chain" (decode_chain raw);
        Ok (bool_decide (family = "ip" ∧ table = nftNATTable ∧ name = "postrouting" ∧ got = nat_hook))).

Definition rule_object (item : members) : option (result bool) :=
  raw ← raw_member "rule" item;
  Some ('(family, table, chain) ← wrap_err "decode owned rule" (decode_rule raw);
        Ok (bool_decide (family = "ip" ∧ table = nftNATTable ∧ chain = "postrouting"))).

Definition decodes (o : option (result bool)) : Prop :=
  match o with Some (Err _) => False | _ => True end.
Definition object (o : option (result bool)) : option bool :=
  match o with Some (Ok b) => Some b | _ => None end.

Lemma native_item_Ok t item t' :
  native_item t item = Ok t' ↔
  decodes (chain_object item) ∧ decodes (rule_object item) ∧
  t' = {| baseFound := default (baseFound t) (object (chain_object item));
          natRules := natRules t + if bool_decide (object (rule_object item) = Some true) then 1 else 0 |}.
Proof.
  unfold native_item, native_chain, native_rule, chain_object, rule_object.
  destruct (raw_member "chain" item) as [raw|]; cbn [mbind option_bind result_bind decodes object].
  - destruct (decode_chain raw) as [[[[family table] name] got]|e];
      cbn [wrap_err mbind result_bind decodes object baseFound natRules]; [|naive_solver].
    destruct (raw_member "rule" item) as [raw'|]; cbn [mbind option_bind result_bind decodes object default].
    + destruct (decode_rule raw') as [[[f' t''] c']|e]; cbn [wrap_err mbind result_bind decodes object];
        [|naive_solver].
      destruct (bool_decide (f' = "ip" ∧ _)); cbn [baseFound natRules].
      * rewrite (bool_decide_eq_true_2 (Some true = Some true)) by done. naive_solver.
      * rewrite (bool_decide_eq_false_2 (Some false = Some true)), Nat.add_0_r by done. naive_solver.
    + rewrite (bool_decide_eq_false_2 (None = Some true)), Nat.add_0_r by done. naive_solver.
  - destruct (raw_member "rule" item) as [raw'|]; cbn [mbind option_bind result_bind decodes object default].
    + destruct (decode_rule raw') as [[[f' t''] c']|e]; cbn [wrap_err mbind result_bind decodes object];
        [|naive_solver].
      destruct (bool_decide (f' = "ip" ∧ _)); cbn [baseFound natRules].
      * rewrite (bool_decide_eq_true_2 (Some true = Some true)) by done. naive_solver.
      * rewrite (bool_decide_eq_false_2 (Some false = Some true)), Nat.add_0_r by done.
        destruct t; naive_solver.
    + rewrite (bool_decide_eq_false_2 (None = Some true)), Nat.add_0_r by done. destruct t; naive_solver.
Qed.

Lemma native_fold items t t' :
  result_fold native_item t items = Ok t' ↔
  Forall (λ i, decodes (chain_object i) ∧ decodes (rule_object i)) items ∧
  t' = {| baseFound := default (baseFound t) (last (omap (λ i, object (chain_object i)) items));
          natRules := natRules t + length (filter (λ i, object (rule_object i) = Some true) items) |}.
Proof.
  revert t. induction items as [|i items IH]; intros t; cbn [result_fold].
  { cbn. rewrite Nat.add_0_r. destruct t. naive_solver. }
  rewrite Forall_cons, filter_cons.
  change (omap (λ i, object (chain_object i)) (i :: items)) with
    (match object (chain_object i) with Some y => y :: omap (λ i, object (chain_object i)) items
     | None => omap (λ i, object (chain_object i)) items end).
  destruct (native_item t i) as [t1|e] eqn:Hi.
  - apply native_item_Ok in Hi as (Hc & Hr & ->). rewrite IH. cbn [baseFound natRules].
    assert (default (default (baseFound t) (object (chain_object i)))
      (last (omap (λ i, object (chain_object i)) items)) =
      default (baseFound t) (last (match object (chain_object i) with
        Some y => y :: omap (λ i, object (chain_object i)) items
      | None => omap (λ i, object (chain_object i)) items end))) as ->.
    { destruct (object (chain_object i)) as [b|]; [|done]. rewrite last_cons.
      by destruct (last (omap _ items)). }
    destruct (decide _) as [Ho|Ho].
    + rewrite bool_decide_eq_true_2 by done. cbn [length].
      rewrite <-Nat.add_assoc. naive_solver.
    + rewrite bool_decide_eq_false_2 by done. rewrite Nat.add_0_r. naive_solver.
  - split; [done|]. intros [[[Hc Hr] _] _].
    assert (native_item t i = Ok {| baseFound := default (baseFound t) (object (chain_object i));
      natRules := natRules t + if bool_decide (object (rule_object i) = Some true) then 1 else 0 |})
      as Heq by (by apply native_item_Ok). congruence.
Qed.

Lemma length_masq_stmts p : length (masq_stmts p) = 4 + length (peer_list p).
Proof. unfold masq_stmts. cbn zeta. rewrite length_app, length_map. cbn. lia. Qed.

Lemma wantRules_stmts rules : wantRules rules = length (stmts rules).
Proof.
  unfold wantRules, stmts, ike_stmts.
  rewrite length_app, length_map, length_sorted_values, length_concat_map, <-(length_sorted_values (masq_map rules)).
  induction (sorted_values (masq_map rules)) as [|p l IH]; cbn [sum_list_with length]; [lia|].
  rewrite length_masq_stmts. lia.
Qed.

(** The listing of the owned chain passes exactly when every chain and rule
    object decodes, the last chain object is the postrouting nat chain with
    priority 99 and policy accept, and it holds as many rules as the script of
    the applied rule set adds. *)
Lemma check_native_spec rules items :
  check_native rules items = Ok () ↔
  Forall (λ i, decodes (chain_object i) ∧ decodes (rule_object i)) items ∧
  last (omap (λ i, object (chain_object i)) items) = Some true ∧
  length (filter (λ i, object (rule_object i) = Some true) items) = length (stmts rules).
Proof.
  unfold check_native. rewrite result_bind_Ok, <-wantRules_stmts. split.
  - intros (t & Hf & H). apply native_fold in Hf as [Hd ->]. cbn [baseFound natRules Nat.add] in H.
    split; [done|]. destruct (last _) as [[]|]; cbn [default negb] in H; try done.
    split; [done|]. destruct (_ =? _) eqn:E; [|done]. by apply Nat.eqb_eq in E.
  - intros (Hd & Hl & Hn). eexists. split; [apply native_fold; split; [exact Hd|reflexivity]|].
    cbn [baseFound natRules Nat.add]. rewrite Hl, Hn. cbn [default negb]. by rewrite Nat.eqb_refl.
Qed.

(** ** Nothing unchecked is installed *)

Section order.
Context (backend : Backend).

Definition nat_test : list string :=
  if String.eqb (Mode backend) NFTables then [BackendCommand backend; "-c"; "-f"; "-"]
  else [Restore backend; "-n"; "--test"].
Definition nat_run : list string :=
  if String.eqb (Mode backend) NFTables then [BackendCommand backend; "-f"; "-"]
  else [Restore backend; "-n"].

(** The texts the tool has accepted in a dry run; installing another is unsafe. *)
Definition gate_step (accepted : list string) (e : hevent) : option (list string) :=
  match e with
  | existT (Command argv data) (_, err) =>
      if bool_decide (argv = nat_test) then
        Some (if bool_decide (err = None) then data :: accepted else accepted)
      else if bool_decide (argv = nat_run) then
        if bool_decide (data ∈ accepted) then Some accepted else None
      else Some accepted
  | _ => Some accepted
  end.

Fixpoint gate (accepted : list string) (tr : list hevent) : option (list string) :=
  match tr with
  | [] => Some accepted
  | e :: tr' => accepted' ← gate_step accepted e; gate accepted' tr'
  end.

Lemma gate_app acc tr1 tr2 : gate acc (tr1 ++ tr2) = acc' ← gate acc tr1; gate acc' tr2.
Proof.
  revert acc. induction tr1 as [|e tr1 IH]; intros acc; [done|]. cbn [gate app].
  destruct (gate_step acc e) as [acc'|]; [apply IH|done].
Qed.

(** Calls that neither check nor install rules. *)
Definition other (c : hcall) : Prop :=
  match c with
  | Command (_ :: flag :: rest) _ => flag ≠ "-c" ∧ flag ≠ "-f" ∧ (flag = "-n" → rest = ["-L"])
  | Command _ _ => False
  | _ => True
  end.

Lemma gate_step_other acc (e : hevent) : other (projT1 e) → gate_step acc e = Some acc.
Proof.
  destruct e as [c x]. destruct c as []; try done. destruct x as [out err].
  destruct argv as [|a [|flag rest]]; try done. intros (Hc & Hf & Hn).
  cbn [gate_step]. unfold nat_test, nat_run.
  destruct (String.eqb (Mode backend) NFTables); rewrite !bool_decide_eq_false_2; try done;
    intros [= _ -> ->]; naive_solver.
Qed.

Lemma gate_other acc tr : Forall (λ e : hevent, other (projT1 e)) tr → gate acc tr = Some acc.
Proof. induction 1 as [|e tr Hc _ IH]; [done|]. cbn [gate]. by rewrite gate_step_other. Qed.

Lemma gate_calls {A} acc (m : hprog A) tr r :
  hcalls other m → exec m tr r → gate acc tr = Some acc.
Proof. intros Hm H. apply gate_other. exact (calls_in_exec (Σ := host_sig) _ _ _ _ Hm H). Qed.

Lemma feed_exec argv data tr r :
  exec (feed argv data) tr r →
  ∃ out err, tr = [ev (Σ := host_sig) (Command argv data) (out, err)] ∧ r = err_result err.
Proof.
  unfold feed. intros (tr1 & tr2 & [out err] & -> & ->%exec_call1 & [-> ->])%exec_bind. eauto.
Qed.

Lemma feed_other a flag rest data :
  flag ≠ "-c" → flag ≠ "-f" → flag ≠ "-n" → hcalls other (feed (a :: flag :: rest) data).
Proof. intros. apply calls_in_bind; [|done]. apply calls_in_call1. by split_and!. Qed.

Lemma flush_other : hcalls other flushIKEConntrack.
Proof. apply calls_in_pforeach. intros [o p]. apply calls_in_bind; [|done]. by apply calls_in_call1. Qed.

Lemma flush_Ok tr r : exec flushIKEConntrack tr r → r = Ok ().
Proof.
  unfold flushIKEConntrack. generalize [("--sport", "500"); ("--dport", "500"); ("--sport", "4500"); ("--dport", "4500")].
  intros l. revert tr. induction l as [|[o p] l IH]; intros tr; cbn [pforeach]; [by intros [_ ->]|].
  intros [(e & _ & H)|(? & tr2 & [] & -> & _ & H)]%exec_pbind_ok; [|by eapply IH].
  by apply exec_bind in H as (? & ? & ? & -> & _ & [_ [=]]).
Qed.

(** The end of an application only remembers. *)
Lemma remember_exec rules w tr w' r :
  execs (remember rules) w tr w' r →
  Forall (λ e : hevent, other (projT1 e)) tr ∧ r = Ok () ∧ applied w' = rules.
Proof.
  unfold remember. intros H. apply execs_bind in H as [(e & -> & H)|(tr1 & tr2 & w1 & [] & -> & H1 & H2)].
  - exfalso. case_bool_decide; [by apply execs_ret in H as (_ & _ & ?)|].
    apply execs_bind in H as [(? & [= <-] & [H _]%execs_lift)|H]; [by apply flush_Ok in H|].
    destruct H as (? & ? & ? & [] & -> & _ & H). unfold mark_sweep in H.
    apply execs_bind in H as [(? & _ & (? & _ & _ & ?)%execs_hask)|H]; [done|].
    by destruct H as (? & ? & ? & ? & -> & _ & (_ & _ & ?)%execs_modify).
  - assert (Forall (λ e : hevent, other (projT1 e)) tr1) as Ho1.
    { case_bool_decide; [apply execs_ret in H1 as (-> & _); constructor|].
      eapply (acts_in_execs (Σ := host_sig) other); [|exact H1]. apply acts_in_bind.
      - apply acts_in_lift, flush_other.
      - intros _. apply acts_in_bind; [by apply (acts_in_ask (Σ := host_sig))|].
        intros now. apply acts_in_modify. }
    apply execs_bind in H2 as [(? & _ & (? & _ & _ & ?)%execs_hask)|H2]; [done|].
    destruct H2 as (tr3 & tr4 & w2 & now & -> & (n & -> & -> & _)%execs_hask & (-> & -> & ->)%execs_modify).
    split; [|done]. apply Forall_app. split; [done|]. by repeat constructor.
Qed.

Lemma routing_other {range : MapRange} rules : hcalls other (enableLocalNetRouting rules).
Proof.
  apply calls_in_pforeach. intros [k p]. cbn zeta. destruct (String.eqb _ _); [done|].
  by apply feed_other.
Qed.

(** What one application did: it kept the gate, and it either remembers rules
    it has just installed or leaves the state alone. *)
Lemma checked_apply_gated {range : MapRange} m1 m2 data base rules w tr w' r acc :
  hcalls other base →
  execs (checked_apply m1 m2 nat_test nat_run data base rules) w tr w' r →
  is_Some (gate acc tr) ∧
  (r = Ok () → applied w' = rules ∧
     ∃ out, ev (Σ := host_sig) (Command nat_run data) (out, None) ∈ tr) ∧
  (¬ is_Ok r → w' = w).
Proof.
  intros Hbase H.
  assert (∀ e : error, ¬ is_Ok (Err (A := ()) e)) as Herr by (by intros e [? ?]).
  assert (nat_run ≠ nat_test) as Hne
    by (unfold nat_run, nat_test; by destruct (String.eqb (Mode backend) NFTables)).
  apply execs_bind in H as [(e & -> & [H ->]%execs_lift)|(tr1 & tr2 & w1 & [] & -> & [H1 ->]%execs_lift & H)].
  { apply exec_wrapped in H as (y & (o & er & -> & _)%feed_exec & _). cbn [gate]. unfold gate_step.
    cbn [ev]. rewrite bool_decide_eq_true_2 by done. by split. }
  apply exec_wrapped in H1 as (y & (o & er & -> & ->)%feed_exec & Hw).
  destruct er as [|]; [done|]. clear Hw. cbn [app gate]. unfold gate_step at 1. cbn [ev].
  rewrite bool_decide_eq_true_2 by done. rewrite bool_decide_eq_true_2 by done. cbn [mbind option_bind].
  apply execs_bind in H as [(e & -> & [H ->]%execs_lift)|(tr3 & tr4 & w2 & [] & -> & [H1 ->]%execs_lift & H)].
  { rewrite (gate_calls _ _ _ _ (routing_other rules) H). by split. }
  rewrite gate_app, (gate_calls _ _ _ _ (routing_other rules) H1). cbn [mbind option_bind].
  apply execs_bind in H as [(e & -> & [H ->]%execs_lift)|(tr5 & tr6 & w3 & [] & -> & [H2 ->]%execs_lift & H)].
  { apply exec_wrapped in H as (y & (o2 & er2 & -> & _)%feed_exec & _). cbn [gate]. unfold gate_step.
    cbn [ev]. rewrite bool_decide_eq_false_2, bool_decide_eq_true_2, bool_decide_eq_true_2 by
      (try done; by apply list_elem_of_here). by split. }
  apply exec_wrapped in H2 as (y & (o2 & er2 & -> & ->)%feed_exec & Hw).
  destruct er2 as [|]; [done|]. clear Hw. cbn [app gate]. unfold gate_step at 1. cbn [ev].
  rewrite bool_decide_eq_false_2, bool_decide_eq_true_2, bool_decide_eq_true_2 by
    (try done; by apply list_elem_of_here). cbn [mbind option_bind].
  apply execs_bind in H as [(e & -> & [H ->]%execs_lift)|(tr7 & tr8 & w4 & [] & -> & [H3 ->]%execs_lift & H)].
  { rewrite (gate_calls _ _ _ _ Hbase H). by split. }
  apply remember_exec in H as (Ho & -> & Ha).
  rewrite gate_app, (gate_calls _ _ _ _ Hbase H3). cbn [mbind option_bind]. rewrite gate_other by done.
  split; [done|]. split; [|by intros []; eexists]. intros _. split; [done|]. exists o2.
  rewrite !elem_of_cons, !elem_of_app, elem_of_cons. tauto.
Qed.

Lemma insertBaseRules_other : hcalls other (insertBaseRules backend).
Proof.
  unfold insertBaseRules. cbn zeta. destruct (String.eqb _ _); [done|].
  apply calls_in_bind; [by apply feed_other|]. intros [?|?]; [done|].
  apply calls_in_wrapped. by apply feed_other.
Qed.

Definition script_of (rules : ruleSet) (data : string) : Prop :=
  data = (if String.eqb (Mode backend) NFTables then nftNATScript rules else restore_data rules).

Lemma apply_gated {range : MapRange} rules w tr w' r acc :
  execs (apply backend rules) w tr w' r →
  is_Some (gate acc tr) ∧
  (r = Ok () → validateNATRules rules = Ok () ∧ applied w' = rules ∧ ∃ data out,
     script_of rules data ∧ ev (Σ := host_sig) (Command nat_run data) (out, None) ∈ tr) ∧
  (¬ is_Ok r → w' = w).
Proof.
  unfold apply. intros [(e & -> & (-> & -> & _)%execs_of_result)|H]%execs_bind; [by split|].
  destruct H as (tr1 & tr2 & w1 & [] & -> & (-> & -> & Hv)%execs_of_result & H). cbn [app].
  pose proof (λ m1 m2 data base Hb, checked_apply_gated m1 m2 data base rules w tr2 w' r acc Hb) as Hc.
  unfold nat_test, nat_run, script_of, apply_xt, applyNFT, applyNFTScript in *.
  destruct (String.eqb (Mode backend) NFTables).
  - destruct (Hc _ _ _ (Ret (Ok ())) I H) as (Hg & Hok & Herr). split; [done|]. split; [|done].
    intros Hr. destruct (Hok Hr) as (? & out & ?). split; [done|]. eauto 10.
  - destruct (_ && _); [by apply execs_fail in H as (-> & -> & ->)|].
    destruct (String.eqb (Restore backend) ""); [by apply execs_fail in H as (-> & -> & ->)|].
    assert (hcalls other (wrapped "install base rules" (insertBaseRules backend))) as Hb
      by apply calls_in_wrapped, insertBaseRules_other.
    destruct (Hc _ _ _ _ Hb H) as (Hg & Hok & Herr). split; [done|]. split; [|done].
    intros Hr. destruct (Hok Hr) as (? & out & ?). split; [done|]. eauto 10.
Qed.

(** C7: an application of a rule set gives the tool only texts that it has just
    accepted in a dry run; when it succeeds the rule set is valid, its rendering
    was installed and it is the remembered one; when it fails the remembered
    rules, and the times kept with them, do not change. *)
Theorem nat_apply_gated {range : MapRange} rules w tr w' r :
  execs (apply backend rules) w tr w' r →
  is_Some (gate [] tr) ∧
  (r = Ok () → validateNATRules rules = Ok () ∧ applied w' = rules ∧ ∃ data out,
     script_of rules data ∧ ev (Σ := host_sig) (Command nat_run data) (out, None) ∈ tr) ∧
  (¬ is_Ok r → w' = w).
Proof. apply apply_gated. Qed.
End order.

Definition native_backend : Backend := {| Mode := NFTables; BackendCommand := "nft"; Restore := "" |}.

Definition idle_host : env host_sig := λ _ c, idle_reply c.
Definition nat_run_demo := run idle_host [] (@apply range_forward native_backend demo_nat initial).

Lemma nat_apply_gated_witness :
  length nat_run_demo.1 = 9 ∧ is_Some (gate native_backend [] nat_run_demo.1) ∧
  applied (fst nat_run_demo.2) = demo_nat.
Proof.
  split; [vm_compute; reflexivity|].
  pose proof (run_exec idle_host [] (@apply range_forward native_backend demo_nat initial)) as H.
  fold nat_run_demo in H. assert (snd nat_run_demo.2 = Ok ()) as Hr by (vm_compute; reflexivity).
  rewrite (surjective_pairing nat_run_demo.2) in H.
  destruct (@nat_apply_gated native_backend range_forward demo_nat initial _ _ _ H) as (Hg & Hok & _).
  split; [exact Hg|]. exact (proj1 (proj2 (Hok Hr))).
Defined.

(** ** Choices that depend on the order of a map *)

(** When all masquerading CNI files of a network name one bridge and subnet, the
    choice of [networkToRule] is that one, in whatever order they are visited. *)
Lemma networkToRule_agreed {range : MapRange} network rule :
  (∃ k f, cniConfig network !! k = Some f ∧ masq_candidate f = Some rule) →
  (∀ k f rule', cniConfig network !! k = Some f → masq_candidate f = Some rule' → rule' = rule) →
  networkToRule network = Some rule.
Proof.
  intros (k & f & Hk & Hf) Hall. unfold networkToRule.
  set (l := omap _ _). assert (∀ r, r ∈ l → r = rule) as Hl.
  { intros r (e & He & Hr)%list_elem_of_omap. destruct e as [k' f'].
    apply elem_of_range_map in He. by eapply Hall. }
  assert (rule ∈ l) as Hin.
  { apply list_elem_of_omap. exists (k, f). split; [|done]. by apply elem_of_range_map. }
  destruct l as [|r l]; [by apply not_elem_of_nil in Hin|]. cbn [head].
  f_equal. apply Hl, list_elem_of_here.
Qed.

(** Two masquerading files with different subnets: the order decides. *)
Definition conflicting_network : Network.t :=
  let file subnet := VObject {[ "type" := VString "pasture-bridge"; "hostNat" := VBool true;
    "bridge" := VString "br0"; "bridgeSubnet" := VString subnet ]} in
  mk_network "n1" "managed" true
    {[ "10-a.conf" := file "10.42.1.0/24"; "20-b.conf" := file "10.43.1.0/24" ]}.

Lemma networkToRule_conflict :
  MASQRule.Subnet <$> @networkToRule range_forward conflicting_network ≠
  MASQRule.Subnet <$> @networkToRule range_backward conflicting_network.
Proof. vm_compute. discriminate. Qed.

(** Two overlay containers on one host: whether an old connection of the first
    is deleted depends on which of their rules is met first. *)
Definition two_overlays : gmap string IKERule.t :=
  {[ "a/500" := IKERule.Make "10.42.1.8" "192.0.2.1" "" "500";
     "b/500" := IKERule.Make "10.42.1.9" "192.0.2.1" "" "500" ]}.

Definition hairpin : CTEntry := {|
  CtProtocol := "udp"; OriginalSourceIP := "10.42.1.8"; OriginalDestinationIP := "192.0.2.1";
  OriginalSourcePort := "500"; OriginalDestinationPort := "500";
  ReplySourceIP := "10.42.1.9"; ReplyDestinationIP := "10.42.1.8";
  ReplySourcePort := "500"; ReplyDestinationPort := "500"; Unreplied := false; Assured := true |}.

Lemma stale_order :
  @stale range_forward two_overlays hairpin ≠ @stale range_backward two_overlays hairpin.
Proof. vm_compute. discriminate. Qed.
