(* ===== verification/BinExec.v ===== *)
(** * The CNI wrapper watcher (binexec/watcher.go)

    For every CNI driver binary that a container of this host provides, a shell
    wrapper that enters the container is kept in the CNI binary directory. The
    provider is chosen from the containers the metadata authorises, by version. *)
From S2P Require Import Prelude Effects GoStrings Metadata World Identity.

Definition reapplyEvery : Z := (5 * minute)%Z.
(** [cniglue.CniPath[0]] *)
Definition binDir : string := "/opt/cni/bin".
Definition binaryLabel : string := "io.rancher.network.cni.binary".
Definition versionLabel : string := "org.opencontainers.image.version".

(** ** Names and versions *)

Definition name_byte (a : ascii) : bool :=
  is_alpha a || is_digit a || Ascii.eqb a "." || Ascii.eqb a "_" || Ascii.eqb a "-".

Definition validBinaryName (value : string) : bool :=
  if String.eqb value "" || String.eqb value "." || String.eqb value ".."
     || ContainsAny value ("/" +:+ backslash +:+ backslash)
  then false else all_bytes name_byte value.

Definition getBinaryName (c : Container.t) : string := zget "" (Container.Labels c) binaryLabel.
Definition hasDriverLabel (c : Container.t) : bool := negb (String.eqb (getBinaryName c) "").

Definition version_part (part : string) : option Z :=
  if String.eqb part "" then None else
  n ← Atoi part;
  if (n <? 0)%Z then None else Some n.

Definition numericVersionParts (value : string) : option (list Z) :=
  let value := TrimPrefix (TrimSpace value) "v" in
  if String.eqb value "" then None else mapM version_part (Split value ".").

(** The loop over the indices of both lists; a missing part counts as zero. *)
Fixpoint compare_from (n index : nat) (left right : list Z) : comparison :=
  match n with
  | 0 => Eq
  | S n' =>
      match (nth index left 0 ?= nth index right 0)%Z with
      | Eq => compare_from n' (S index) left right
      | c => c
      end
  end.

Definition compare_parts (left right : list Z) : comparison :=
  compare_from (length left `max` length right) 0 left right.

Definition compareNumericVersions (left right : string) : comparison * bool :=
  match numericVersionParts left, numericVersionParts right with
  | Some l, Some r => (compare_parts l r, true)
  | _, _ => (Eq, false)
  end.

Definition is_numeric (version : string) : bool := bool_decide (is_Some (numericVersionParts version)).

Definition preferProvider (current currentVersion candidate candidateVersion : string) : bool :=
  let '(comparison, comparable) := compareNumericVersions candidateVersion currentVersion in
  if comparable && bool_decide (comparison ≠ Eq) then bool_decide (comparison = Gt) else
  let currentNumeric := is_numeric currentVersion in
  let candidateNumeric := is_numeric candidateVersion in
  if negb (Bool.eqb currentNumeric candidateNumeric) then candidateNumeric
  else String.ltb candidate current.

(** ** The wrapper script *)

Definition quoted_quote : string := "'" +:+ dquote +:+ "'" +:+ dquote +:+ "'".
Definition shellQuote (value : string) : string :=
  "'" +:+ ReplaceAll value "'" quoted_quote +:+ "'".

(** The template up to and between its two arguments, and its rest; a tilde
    stands for a double quote. *)
Definition text (s : string) : string := ReplaceAll s "~" dquote.

Definition wrapper_head : string := text "#!/bin/sh
set -eu
target=".

Definition wrapper_middle : string := nl +:+ text "binary_name=".

Definition wrapper_tail : string := nl +:+ text "socket=/var/run/docker.sock
api_prefix=~~
if [ -n ~${DOCKER_API_VERSION:-}~ ]; then
    case ~${DOCKER_API_VERSION}~ in
        *[!0-9.]*|'') echo '{~code~:100,~msg~:~invalid Docker API version~}' >&2; exit 1 ;;
    esac
    api_prefix=~/v${DOCKER_API_VERSION}~
fi
case ~${target}~ in
    *[!0-9a-fA-F]*|'') echo '{~code~:100,~msg~:~invalid CNI driver container id~}' >&2; exit 1 ;;
esac
pid=~$(curl -fsS --max-time 10 --unix-socket ~${socket}~ \
    ~http://localhost${api_prefix}/containers/${target}/json~ | jq -r '.State.Pid // 0' || true)~
case ~${pid}~ in
    ''|0|*[!0-9]*)
    echo ~{\~code\~:100,\~msg\~:\~selected cni driver container not running: ${target}\~}~ >&2
    exit 1
    ;;
esac
private_binary=~/opt/cni/bin/${binary_name}~
if /usr/bin/nsenter -m -u -i -n -p -t ~${pid}~ -- test -x ~${private_binary}~; then
    exec /usr/bin/nsenter -m -u -i -n -p -t ~${pid}~ -- \
        /usr/bin/env CNI_PATH=/opt/cni/bin ~${private_binary}~ ~$@~
fi
exec /usr/bin/nsenter -m -u -i -n -p -t ~${pid}~ -- ~$0~ ~$@~
".

Definition renderDriverWrapper (target name : string) : string :=
  wrapper_head +:+ shellQuote target +:+ wrapper_middle +:+ shellQuote name +:+ wrapper_tail.

(** [filepath.Join(binDir, name)] of a valid name. *)
Definition wrapper_path (name : string) : string := binDir +:+ "/" +:+ name.

(** ** The watcher *)

Record watcher := { applied : gmap string string; lastApplied : Z }.

Abbreviation wact A := (act host_sig watcher A).

Definition service_key (stack name : string) : string := stack +:+ "/" +:+ name.

Definition is_driver_service (s : Service.t) : bool :=
  String.eqb (Service.Kind s) "networkDriverService"
  || String.eqb (Service.Kind s) "storageDriverService".

Definition add_service (m : gmap string Service.t) (s : Service.t) : gmap string Service.t :=
  <[service_key (Service.StackUUID s) (Service.Name s) := s]> m.

(** The driver services and their sidekicks. *)
Definition driver_services (services : list Service.t) : gmap string Service.t :=
  let drivers := foldl (λ m s, if is_driver_service s then add_service m s else m) ∅ services in
  foldl (λ m s,
    if bool_decide (is_Some (m !! service_key (Service.StackUUID s) (Service.PrimaryServiceName s)))
    then add_service m s else m) drivers services.

(** What the loop over the containers has found. *)
Record selection := {
  binaries : gmap string string;
  versions : gmap string string;
  uncertain : gmap string (gset string);
  availableNames : gset string;
  selectionErrors : list error;
}.

Definition nothing_selected : selection :=
  {| binaries := ∅; versions := ∅; uncertain := ∅; availableNames := ∅; selectionErrors := [] |}.

Definition add_error (e : error) (s : selection) : selection :=
  {| binaries := binaries s; versions := versions s; uncertain := uncertain s;
     availableNames := availableNames s; selectionErrors := selectionErrors s ++ [e] |}.

Definition add_available (name : string) (s : selection) : selection :=
  {| binaries := binaries s; versions := versions s; uncertain := uncertain s;
     availableNames := {[name]} ∪ availableNames s; selectionErrors := selectionErrors s |}.

Definition add_uncertain (name id : string) (s : selection) : selection :=
  {| binaries := binaries s; versions := versions s;
     uncertain := <[name := {[id]} ∪ default ∅ (uncertain s !! name)]> (uncertain s);
     availableNames := availableNames s; selectionErrors := selectionErrors s |}.

(** A running provider replaces the current one when it is preferred. *)
Definition offer (name id version : string) (s : selection) : selection :=
  if match binaries s !! name with
     | None => true
     | Some current => preferProvider current (zget "" (versions s) name) id version
     end
  then {| binaries := <[name := id]> (binaries s); versions := <[name := version]> (versions s);
          uncertain := uncertain s; availableNames := availableNames s;
          selectionErrors := selectionErrors s |}
  else s.

Definition runs (i : Inspect) : bool :=
  match State i with Some state => Running state && (0 <? Pid state)%Z | None => false end.

Definition provider_version (i : Inspect) : string :=
  match ContainerConfig i with
  | Some config => TrimSpace (zget "" (ConfigLabels config) versionLabel)
  | None => ""
  end.

Definition offers_driver (hostUUID : string) (c : Container.t) : bool :=
  negb (String.eqb (Container.ExternalId c) "")
  && String.eqb (Container.HostUUID c) hostUUID && hasDriverLabel c.

Definition select_container (hostUUID : string) (s : selection) (c : Container.t) : hprog selection :=
  if negb (offers_driver hostUUID c) then Ret s else
  let name := getBinaryName c in let id := Container.ExternalId c in
  if negb (validBinaryName name)
  then Ret (add_error (Errorf "invalid CNI driver binary name") s) else
  let s := add_available name s in
  r ← call1 (ContainerInspect id);
  match r with
  | Err e =>
      let s := if is_not_found e then s else add_uncertain name id s in
      Ret (add_error (Wrapf "inspect CNI provider" e) s)
  | Ok i => if runs i then Ret (offer name id (provider_version i) s) else Ret s
  end.

(** A loop without early return. *)
Fixpoint ploop {A S} (f : S → A → hprog S) (s : S) (l : list A) : hprog S :=
  match l with
  | [] => Ret s
  | x :: l' => s' ← f s x; ploop f s' l'
  end.

(** An applied provider whose inspect result is unknown stays selected. *)
Definition preserve_step (uncertain : gmap string (gset string)) (m : gmap string string)
    (entry : string * string) : gmap string string :=
  let '(name, target) := entry in
  if String.eqb (zget "" m name) "" && bool_decide (target ∈ default ∅ (uncertain !! name))
  then <[name := target]> m else m.

Definition missing_error (m : gmap string string) (name : string) : option error :=
  if String.eqb (zget "" m name) ""
  then Some (Errorf "no running metadata-authorized CNI provider") else None.

(** ** Wrapper files *)

(** [wrapperFileMatches]: a regular file with mode 0700 and this content. *)
Definition wrapperFileMatches (path expected : string) : hprog bool :=
  info ← call1 (LstatRegular path);
  match info with
  | Ok (true, perm) =>
      if negb (perm =? 448)%Z then Ret false else
      actual ← call1 (ReadFile path);
      Ret (match actual with Ok data => String.eqb data expected | Err _ => false end)
  | _ => Ret false
  end.

(** A file operation with the message of its error. *)
Definition checked (msg : string) (op : hprog (option error)) : hprog (result ()) :=
  r ← op; Ret (wrap_err msg (err_result r)).

Definition write_temporary (temporary path content : string) : hprog (result ()) :=
  _ <-? checked "write private CNI wrapper temporary file" (call1 (Write temporary content));
  _ <-? checked "set private CNI wrapper permissions" (call1 (Chmod temporary 448));
  _ <-? checked "sync private CNI wrapper temporary file" (call1 (Sync temporary));
  _ <-? checked "close private CNI wrapper temporary file" (call1 (Close temporary));
  checked "install private CNI wrapper" (call1 (Rename temporary path)).

(** An uncommitted temporary file is closed and removed. *)
Definition writeWrapperAtomic (name content : string) : hprog (result ()) :=
  temporary <-? wrapped "create private CNI wrapper temporary file"
                  (call1 (CreateTemp binDir ("." +:+ name +:+ ".tmp-*")));
  r ← write_temporary temporary (wrapper_path name) content;
  match r with
  | Ok _ => Ret (Ok ())
  | Err e => _ ← call1 (Close temporary); _ ← call1 (Remove temporary); Ret (Err e)
  end.

(** ** Applying a selection *)

(** The progress of an application: the next [applied] map, the providers
    Docker does not run any more, and the errors. *)
Record application := {
  updated : gmap string string;
  unavailable : gset string;
  applyErrors : list error;
}.

Definition apply_error (e : error) (a : application) : application :=
  {| updated := updated a; unavailable := unavailable a; applyErrors := applyErrors a ++ [e] |}.

(** The wrapper of this very target is now known to be useless. *)
Definition withdraw (name target : string) (a : application) : application :=
  if String.eqb (zget "" (updated a) name) target
  then {| updated := updated a; unavailable := {[name]} ∪ unavailable a; applyErrors := applyErrors a |}
  else a.

Definition install_step (a : application) (entry : string * string) : hprog application :=
  let '(name, target) := entry in
  r ← call1 (ContainerInspect target);
  match r with
  | Err e =>
      Ret (apply_error (Wrapf "inspect selected CNI provider" e)
             (if is_not_found e then withdraw name target a else a))
  | Ok i =>
      if negb (runs i)
      then Ret (apply_error (Errorf "CNI provider is not running") (withdraw name target a)) else
      w ← writeWrapperAtomic name (renderDriverWrapper target name);
      Ret (match w with
           | Err e => apply_error e a
           | Ok _ => {| updated := <[name := target]> (updated a); unavailable := unavailable a;
                        applyErrors := applyErrors a |}
           end)
  end.

Definition forget (name : string) (a : application) : application :=
  {| updated := delete name (updated a); unavailable := unavailable a; applyErrors := applyErrors a |}.

(** Only a file that is exactly the watcher's own wrapper is removed. *)
Definition remove_step (binaries : gmap string string) (a : application) (entry : string * string)
    : hprog application :=
  let '(name, target) := entry in
  if bool_decide (is_Some (binaries !! name)) && negb (bool_decide (name ∈ unavailable a))
  then Ret a else
  own ← wrapperFileMatches (wrapper_path name) (renderDriverWrapper target name);
  if negb own then Ret (forget name a) else
  r ← call1 (Remove (wrapper_path name));
  Ret (match r with
       | Some e => if is_not_exist e then forget name a
                   else apply_error (Wrapf "remove unavailable CNI provider wrapper" e) a
       | None => forget name a
       end).

(** Strip the errors of [errors.Join] to a result. *)
Definition join_result (errs : list error) : result () :=
  err_result (errors_join (Some <$> errs)).

Section watch.
Context `{!MapRange}.

Definition wrapperFilesMatch (binaries : gmap string string) : hprog bool :=
  (fix go (l : list (string * string)) : hprog bool :=
     match l with
     | [] => Ret true
     | (name, target) :: l' =>
         m ← wrapperFileMatches (wrapper_path name) (renderDriverWrapper target name);
         if (m : bool) then go l' else Ret false
     end) (range_map 20 binaries).

Definition apply (binaries : gmap string string) : wact () :=
  made ← ask (Σ := host_sig) (MkdirAll binDir);
  match made with
  | Some e => fail (Wrapf "create CNI wrapper directory" e)
  | None =>
      w ← get;
      let start := {| updated := applied w; unavailable := ∅; applyErrors := [] |} in
      a ← lift (a1 ← ploop install_step start (range_map 21 binaries);
                a2 ← ploop (remove_step binaries) a1 (range_map 22 (applied w));
                Ret (Ok a2));
      modify (λ w, {| applied := updated a; lastApplied := lastApplied w |});;
      match applyErrors a with
      | [] => now ← ask (Σ := host_sig) Now;
              modify (λ w, {| applied := applied w; lastApplied := now |})
      | errs => of_result (join_result errs)
      end
  end.

Definition select (hostUUID : string) (services : list Service.t) : hprog selection :=
  ploop (select_container hostUUID) nothing_selected
    (concat (map (λ e : string * Service.t, Service.Containers e.2)
       (range_map 23 (driver_services services)))).

Definition onChange : wact () :=
  services ← lift (call1 GetServices);
  hostUUID ← lift LocalHostUUID;
  s ← lift (s ← select hostUUID services; Ret (Ok s));
  w ← get;
  let chosen := foldl (preserve_step (uncertain s)) (binaries s) (range_map 24 (applied w)) in
  let missing := omap (missing_error chosen)
    (range_map 25 (set_to_map (λ n, (n, ())) (availableNames s) : gmap string ())).*1 in
  now ← ask (Σ := host_sig) Now;
  let due := (reapplyEvery <? Sub now (lastApplied w))%Z || bool_decide (chosen ≠ applied w) in
  needsApply ← (if due then mret true else
                lift (m ← wrapperFilesMatch chosen; Ret (Ok (negb m))));
  if (needsApply : bool) then
    r ← try (apply chosen);
    of_result (join_result (selectionErrors s ++ missing ++
                            match r with Err e => [e] | Ok _ => [] end))
  else of_result (join_result (selectionErrors s ++ missing)).

(** A Docker event: the part of [Handle] under the lock. *)
Definition mark (actorID action binary : string) : wact bool :=
  w ← get;
  let known := existsb (λ e, String.eqb e.2 actorID) (range_map 26 (applied w)) in
  let changed := known || String.eqb action "start" && validBinaryName binary in
  if changed then
    modify (λ w, {| applied := applied w; lastApplied := zero_time |});; mret true
  else mret false.

Definition Handle (actorID action binary : string) : wact () :=
  changed ← mark actorID action binary;
  if (changed : bool) then onChange else mret ().
End watch.

(** ** The arguments of the wrapper *)

Inductive quoting := Unquoted | Single | Double.

(** The POSIX shell's reading of one word of plain characters and quotes: the
    word and the text after it. A character with another meaning to the shell
    is outside the fragment. *)
Fixpoint sh_word (q : quoting) (s : string) : option (string * string) :=
  match s with
  | EmptyString => match q with Unquoted => Some ("", "") | _ => None end
  | String a s' =>
      let literal q := '(w, rest) ← sh_word q s'; Some (String a w, rest) in
      match q with
      | Single => if Ascii.eqb a "'" then sh_word Unquoted s' else literal Single
      | Double =>
          if Ascii.eqb a "034" then sh_word Unquoted s'
          else if Ascii.eqb a "$" || Ascii.eqb a "`" || Ascii.eqb a "092" then None
          else literal Double
      | Unquoted =>
          if Ascii.eqb a "'" then sh_word Single s'
          else if Ascii.eqb a "034" then sh_word Double s'
          else if Ascii.eqb a " " || Ascii.eqb a "009" || Ascii.eqb a "010" then Some ("", s)
          else if name_byte a || Ascii.eqb a "/" then literal Unquoted
          else None
      end
  end.

Lemma sh_single_close s : sh_word Single (String "'" s) = sh_word Unquoted s.
Proof. reflexivity. Qed.
Lemma sh_single_open s : sh_word Unquoted (String "'" s) = sh_word Single s.
Proof. reflexivity. Qed.
Lemma sh_double_open s : sh_word Unquoted (String "034" s) = sh_word Double s.
Proof. reflexivity. Qed.
Lemma sh_double_close s : sh_word Double (String "034" s) = sh_word Unquoted s.
Proof. reflexivity. Qed.
Lemma sh_double_quote s w rest :
  sh_word Double s = Some (w, rest) → sh_word Double (String "'" s) = Some (String "'" w, rest).
Proof. intros H. cbn [sh_word Ascii.eqb Bool.eqb orb]. by rewrite H. Qed.
Lemma sh_single_literal a s w rest :
  Ascii.eqb a "'" = false → sh_word Single s = Some (w, rest) →
  sh_word Single (String a s) = Some (String a w, rest).
Proof. intros Ha H. cbn [sh_word]. by rewrite Ha, H. Qed.

Lemma sh_word_quote v rest :
  sh_word Unquoted rest = Some ("", rest) →
  sh_word Single (ReplaceAll v "'" quoted_quote +:+ "'" +:+ rest) = Some (v, rest).
Proof.
  intros Hr. induction v as [|a v IH].
  { cbn [ReplaceAll]. by rewrite app_nil_l_str, app_cons_str, app_nil_l_str, sh_single_close. }
  cbn [ReplaceAll]. destruct (Ascii.eqb a "'") eqn:Ha.
  - apply Ascii.eqb_eq in Ha as ->. rewrite app_assoc_str.
    set (t := ReplaceAll v "'" quoted_quote +:+ "'" +:+ rest) in *.
    change (quoted_quote +:+ t) with
      (String "'" (String "034" (String "'" (String "034" (String "'" t))))).
    rewrite sh_single_close, sh_double_open. apply sh_double_quote.
    by rewrite sh_double_close, sh_single_open.
  - rewrite app_cons_str. by apply sh_single_literal.
Qed.

Lemma sh_word_stop s : sh_word Unquoted (nl +:+ s) = Some ("", nl +:+ s).
Proof. reflexivity. Qed.

(** C34: the two assignments at the head of a wrapper give the script exactly the
    container ID and the binary name, whatever characters they consist of: the
    shell reads each as one word and no part of them as code. *)
Theorem wrapper_arguments target name :
  ∃ r1 r2, renderDriverWrapper target name = wrapper_head +:+ r1 ∧
    sh_word Unquoted r1 = Some (target, wrapper_middle +:+ r2) ∧
    sh_word Unquoted r2 = Some (name, wrapper_tail).
Proof.
  assert (∀ v rest, sh_word Unquoted rest = Some ("", rest) →
    sh_word Unquoted (shellQuote v +:+ rest) = Some (v, rest)) as Hq.
  { intros v rest Hr. unfold shellQuote. rewrite !app_assoc_str, app_cons_str. cbn [sh_word].
    by apply sh_word_quote. }
  exists (shellQuote target +:+ wrapper_middle +:+ shellQuote name +:+ wrapper_tail),
    (shellQuote name +:+ wrapper_tail).
  split; [reflexivity|]. unfold wrapper_middle, wrapper_tail. rewrite !app_assoc_str.
  split; apply Hq, sh_word_stop.
Qed.

(** ** The preferred provider *)

Lemma ltb_le s t : String.ltb s t = true ↔ String.le s t ∧ s ≠ t.
Proof.
  assert (String.compare s s = Eq) as Hrefl.
  { pose proof (String.compare_antisym s s) as H. by destruct (String.compare s s). }
  unfold String.ltb, String.le, String.leb. destruct (String.compare s t) eqn:E.
  - apply String.compare_eq_iff in E. subst. naive_solver.
  - split; [|done]. intros _. split; [done|]. intros ->. congruence.
  - split; [done|]. intros [[] _].
Qed.

Lemma ltb_trans s t u : String.ltb s t = true → String.ltb t u = true → String.ltb s u = true.
Proof.
  rewrite !ltb_le. intros [Hst Hne] [Htu _]. split; [by etrans|]. intros <-.
  apply Hne. by apply (anti_symm String.le).
Qed.

Lemma ltb_total s t : s ≠ t → String.ltb s t = true ∨ String.ltb t s = true.
Proof. rewrite !ltb_le. intros Hne. destruct (total String.le s t); auto. Qed.

Lemma ltb_irrefl s : String.ltb s s = false.
Proof. apply not_true_iff_false. rewrite ltb_le. by intros [_ ?]. Qed.

(** Part [i] of a version; those past its end are zero. *)
Abbreviation part l i := (nth i l 0%Z).

Lemma compare_from_spec n i l r :
  match compare_from n i l r with
  | Eq => ∀ k, i ≤ k < i + n → part l k = part r k
  | Lt => ∃ j, i ≤ j ∧ (∀ k, i ≤ k < j → part l k = part r k) ∧ (part l j < part r j)%Z
  | Gt => ∃ j, i ≤ j ∧ (∀ k, i ≤ k < j → part l k = part r k) ∧ (part r j < part l j)%Z
  end.
Proof.
  revert i. induction n as [|n IH]; intros i; cbn [compare_from]; [lia|].
  destruct (part l i ?= part r i)%Z eqn:E.
  - apply Z.compare_eq in E. specialize (IH (S i)). destruct (compare_from n (S i) l r).
    + intros k Hk. destruct (decide (k = i)) as [->|]; [done|]. apply IH. lia.
    + destruct IH as (j & Hj & Hk & Hlt). exists j. split; [lia|]. split; [|done].
      intros k Hk'. destruct (decide (k = i)) as [->|]; [done|]. apply Hk. lia.
    + destruct IH as (j & Hj & Hk & Hlt). exists j. split; [lia|]. split; [|done].
      intros k Hk'. destruct (decide (k = i)) as [->|]; [done|]. apply Hk. lia.
  - exists i. split; [done|]. split; [lia|]. by apply Z.compare_lt_iff.
  - exists i. split; [done|]. split; [lia|]. by apply Z.compare_gt_iff.
Qed.

(** The first differing part decides. *)
Definition below (l r : list Z) : Prop :=
  ∃ j, (∀ k, k < j → part l k = part r k) ∧ (part l j < part r j)%Z.
Definition same (l r : list Z) : Prop := ∀ k, part l k = part r k.

Lemma compare_parts_spec l r :
  match compare_parts l r with Eq => same l r | Lt => below l r | Gt => below r l end.
Proof.
  unfold compare_parts. pose proof (compare_from_spec (length l `max` length r) 0 l r) as H.
  destruct (compare_from _ 0 l r).
  - intros k. destruct (decide (k < length l `max` length r)) as [|Hk]; [apply H; lia|].
    rewrite !nth_overflow by lia. done.
  - destruct H as (j & _ & Hk & Hlt). exists j. split; [|done]. intros k ?. apply Hk. lia.
  - destruct H as (j & _ & Hk & Hlt). exists j. split; [|done]. intros k ?. symmetry. apply Hk. lia.
Qed.

Lemma below_trans l m r : below l m → below m r → below l r.
Proof.
  intros (j1 & Hk1 & H1) (j2 & Hk2 & H2). exists (j1 `min` j2). split.
  - intros k Hk. rewrite Hk1 by lia. apply Hk2. lia.
  - destruct (decide (j1 < j2)) as [Hj|Hj].
    + rewrite Nat.min_l by lia. rewrite <-Hk2 by lia. done.
    + rewrite Nat.min_r by lia. destruct (decide (j1 = j2)) as [->|]; [lia|].
      rewrite Hk1 by lia. done.
Qed.

Lemma below_same_l l m r : same l m → below m r → below l r.
Proof. intros Hs (j & Hk & H). exists j. split; [intros k ?; rewrite Hs; by apply Hk|by rewrite Hs]. Qed.
Lemma below_same_r l m r : below l m → same m r → below l r.
Proof. intros (j & Hk & H) Hs. exists j. split; [intros k ?; rewrite <-Hs; by apply Hk|by rewrite <-Hs]. Qed.

Lemma below_irrefl l r : same l r → ¬ below l r.
Proof. intros Hs (j & _ & H). rewrite Hs in H. lia. Qed.
Lemma below_asym l r : below l r → ¬ below r l.
Proof. intros H1 H2. by apply (below_irrefl l l (λ _, eq_refl)), (below_trans l r l). Qed.

(** A provider: its container ID and the version it declares. *)
Abbreviation provider := (string * string)%type.

(** [p] is to be taken instead of [q]: a numeric version before any other, a
    higher one first, and among equal ones the smaller ID. *)
Definition beats (p q : provider) : Prop :=
  match numericVersionParts p.2, numericVersionParts q.2 with
  | Some a, Some b => below b a ∨ same a b ∧ String.ltb p.1 q.1 = true
  | Some _, None => True
  | None, Some _ => False
  | None, None => String.ltb p.1 q.1 = true
  end.

Lemma is_numeric_parts v :
  is_numeric v = match numericVersionParts v with Some _ => true | None => false end.
Proof. unfold is_numeric. by destruct (numericVersionParts v). Qed.

Lemma preferProvider_beats p q : preferProvider q.1 q.2 p.1 p.2 = true ↔ beats p q.
Proof.
  unfold preferProvider, compareNumericVersions, beats. rewrite !is_numeric_parts.
  destruct (numericVersionParts p.2) as [a|], (numericVersionParts q.2) as [b|];
    cbn [andb negb Bool.eqb]; [|done|done|done].
  pose proof (compare_parts_spec a b) as Hc. destruct (compare_parts a b).
  - rewrite (bool_decide_eq_false_2 (Eq ≠ Eq)) by naive_solver.
    split; [by right|]. intros [Hb|[_ H]]; [|done].
    destruct (below_irrefl b a); [by intros k|done].
  - rewrite (bool_decide_eq_true_2 (Lt ≠ Eq)), (bool_decide_eq_false_2 (Lt = Gt)) by done.
    split; [done|]. intros [Hb|[Hs _]]; [by destruct (below_asym a b)|by destruct (below_irrefl a b)].
  - rewrite (bool_decide_eq_true_2 (Gt ≠ Eq)), (bool_decide_eq_true_2 (Gt = Gt)) by done.
    naive_solver.
Qed.

Lemma beats_trans p q r : beats p q → beats q r → beats p r.
Proof.
  unfold beats. destruct (numericVersionParts p.2) as [a|], (numericVersionParts q.2) as [b|],
    (numericVersionParts r.2) as [c|]; try done; [|by apply ltb_trans].
  intros [Hba|[Hab Hpq]] [Hcb|[Hbc Hqr]].
  - left. by eapply below_trans.
  - left. apply (below_same_l _ b); [intros k; symmetry; apply Hbc|done].
  - left. apply (below_same_r _ b); [done|intros k; symmetry; apply Hab].
  - right. split; [intros k; by rewrite Hab|by eapply ltb_trans].
Qed.

Lemma beats_total p q : p.1 ≠ q.1 → beats p q ∨ beats q p.
Proof.
  intros Hne. unfold beats.
  destruct (numericVersionParts p.2) as [a|], (numericVersionParts q.2) as [b|]; auto.
  - pose proof (compare_parts_spec a b) as Hc. destruct (compare_parts a b); [|auto..].
    destruct (ltb_total _ _ Hne); [auto|]. right. right. split; [by intros k|done].
  - by apply ltb_total.
Qed.

Lemma beats_irrefl p q : p.1 = q.1 → p.2 = q.2 → ¬ beats p q.
Proof.
  intros H1 H2. unfold beats. rewrite H1, H2. destruct (numericVersionParts q.2) as [a|].
  - intros [Hb|[_ H]]; [by apply below_irrefl in Hb|]. by rewrite ltb_irrefl in H.
  - by rewrite ltb_irrefl.
Qed.

(** ** The selected provider of a binary *)

Definition offer_all (s : selection) (os : list (string * provider)) : selection :=
  foldl (λ s o, offer o.1 o.2.1 o.2.2 s) s os.

(** The provider chosen for [n] among the offers seen is one no other beats. *)
Definition chosen (n : string) (os : list (string * provider)) (s : selection) : Prop :=
  match binaries s !! n with
  | None => ∀ p, (n, p) ∉ os
  | Some i => ∃ v, versions s !! n = Some v ∧ (n, (i, v)) ∈ os ∧ ∀ p, (n, p) ∈ os → ¬ beats p (i, v)
  end.

Lemma offer_chosen n os s m p :
  chosen n os s → chosen n (os ++ [(m, p)]) (offer m p.1 p.2 s).
Proof.
  unfold chosen, offer. intros Hs. destruct (decide (m = n)) as [->|Hne].
  - destruct (binaries s !! n) as [i|] eqn:Hi.
    + destruct Hs as (v & Hv & Hin & Hbest). unfold zget. rewrite Hv. cbn [from_option id].
      destruct (preferProvider i v p.1 p.2) eqn:Hp.
      * apply (preferProvider_beats p (i, v)) in Hp. cbn [binaries versions].
        rewrite lookup_insert_eq. exists p.2. rewrite lookup_insert_eq. split; [done|].
        split; [apply elem_of_snoc; right; by destruct p|]. destruct p as [pi pv].
        intros q [Hq|[= ->]]%elem_of_snoc.
        -- intros Hb. by eapply (Hbest q Hq), beats_trans.
        -- by apply beats_irrefl.
      * rewrite Hi. exists v. split; [done|]. split; [apply elem_of_snoc; by left|].
        intros q [Hq|[= ->]]%elem_of_snoc; [by apply Hbest|].
        intros Hb. apply (preferProvider_beats p (i, v)) in Hb. cbn in Hb. congruence.
    + cbn [binaries versions]. rewrite !lookup_insert_eq. exists p.2. split; [done|].
      split; [apply elem_of_snoc; right; by destruct p|]. destruct p as [pi pv].
      intros q [Hq|[= ->]]%elem_of_snoc; [by destruct (Hs q)|by apply beats_irrefl].
  - assert (∀ q, (n, q) ∈ os ++ [(m, p)] ↔ (n, q) ∈ os) as Hiff.
    { intros q. rewrite elem_of_snoc. split; [intros [?|[= -> _]]; done|by left]. }
    match goal with |- context [if ?b then ?t else s] => set (s' := if b then t else s) end.
    assert (binaries s' !! n = binaries s !! n ∧ versions s' !! n = versions s !! n) as [-> ->].
    { unfold s'. destruct (match binaries s !! m with Some _ => _ | None => true end);
        cbn [binaries versions]; rewrite ?lookup_insert_ne by done; done. }
    destruct (binaries s !! n) as [i|].
    + destruct Hs as (v & Hv & Hin & Hbest). exists v. rewrite Hiff. split; [done|]. split; [done|].
      intros q ?%Hiff. by apply Hbest.
    + intros q. rewrite Hiff. apply Hs.
Qed.

Lemma offer_all_chosen n os : chosen n os (offer_all nothing_selected os).
Proof.
  induction os as [|[m p] os IH] using rev_ind.
  { unfold chosen, offer_all. cbn [foldl binaries nothing_selected]. rewrite lookup_empty.
    intros p. apply not_elem_of_nil. }
  unfold offer_all. rewrite foldl_app. by apply offer_chosen.
Qed.

(** With one version per container the unbeaten offer is unique. *)
Lemma unbeaten_unique (os : list (string * provider)) n i j v w :
  (n, (i, v)) ∈ os → (n, (j, w)) ∈ os →
  (∀ p, (n, p) ∈ os → ¬ beats p (i, v)) → (∀ p, (n, p) ∈ os → ¬ beats p (j, w)) → i = j.
Proof.
  intros Hi Hj Hbi Hbj. destruct (decide (i = j)) as [|Hne]; [done|]. exfalso.
  destruct (beats_total (i, v) (j, w) Hne); [by apply (Hbj (i, v))|by apply (Hbi (j, w))].
Qed.

(** A container of a driver service that may provide the binary [n]. *)
Definition authorised (hostUUID n : string) (c : Container.t) : Prop :=
  offers_driver hostUUID c = true ∧ getBinaryName c = n ∧ validBinaryName n = true.

(** An inspection of [id] in the trace that found it running. *)
Definition seen_running (tr : list hevent) (id : string) (i : Inspect) : Prop :=
  ev (Σ := host_sig) (ContainerInspect id) (Ok i) ∈ tr ∧ runs i = true.

(** Docker gives the same answer about a container throughout the trace. *)
Definition consistent (tr : list hevent) : Prop :=
  ∀ id x y, ev (Σ := host_sig) (ContainerInspect id) x ∈ tr →
            ev (Σ := host_sig) (ContainerInspect id) y ∈ tr → x = y.

Definition same_choice (s s' : selection) : Prop :=
  binaries s = binaries s' ∧ versions s = versions s'.

Lemma offer_same n i v s s' : same_choice s s' → same_choice (offer n i v s) (offer n i v s').
Proof.
  intros [Hb Hv]. unfold offer. rewrite <-Hb, <-Hv.
  destruct (match binaries s !! n with Some _ => _ | None => true end); split; cbn; congruence.
Qed.

Lemma ploop_exec_cons {A S} (f : S → A → hprog S) s x l tr s' :
  exec (ploop f s (x :: l)) tr s' ↔
  ∃ tr1 tr2 s1, tr = tr1 ++ tr2 ∧ exec (f s x) tr1 s1 ∧ exec (ploop f s1 l) tr2 s'.
Proof. cbn [ploop]. apply exec_bind. Qed.

(** What one container contributes. *)
Lemma select_container_exec hostUUID s c tr s' :
  exec (select_container hostUUID s c) tr s' →
  (tr = [] ∧ same_choice s s' ∧ ¬ authorised hostUUID (getBinaryName c) c) ∨
  (∃ r, tr = [ev (Σ := host_sig) (ContainerInspect (Container.ExternalId c)) r] ∧
     authorised hostUUID (getBinaryName c) c ∧
     match r with
     | Ok i => if runs i
               then same_choice (offer (getBinaryName c) (Container.ExternalId c) (provider_version i) s) s'
               else same_choice s s'
     | Err _ => same_choice s s'
     end).
Proof.
  unfold select_container, authorised. destruct (offers_driver hostUUID c); cbn [negb].
  2:{ intros [-> ->]. left. split; [done|]. split; [done|]. by intros [? _]. }
  cbn zeta. destruct (validBinaryName (getBinaryName c)); cbn [negb].
  2:{ intros [-> ->]. left. split; [done|]. split; [done|]. by intros (_ & _ & ?). }
  intros (tr1 & tr2 & r & -> & ->%exec_call1 & H)%exec_bind. right. exists r.
  destruct r as [i|e].
  - destruct (runs i); destruct H as [-> ->]; (split; [done|]; split; [done|]).
    + by apply offer_same.
    + done.
  - destruct H as [-> ->]. split; [done|]. split; [done|]. by destruct (is_not_found e).
Qed.

(** The offers of [n] among the containers [cs], as far as [T] tells. *)
Definition offered_by (T : list hevent) (hostUUID : string) (c : Container.t) (n : string)
    (p : provider) : Prop :=
  authorised hostUUID n c ∧ ∃ i, p = (Container.ExternalId c, provider_version i) ∧
    seen_running T (Container.ExternalId c) i.
Definition offered_in T hostUUID (cs : list Container.t) n p : Prop :=
  ∃ c, c ∈ cs ∧ offered_by T hostUUID c n p.

Lemma offered_in_cons T hostUUID c cs n p :
  offered_in T hostUUID (c :: cs) n p ↔ offered_by T hostUUID c n p ∨ offered_in T hostUUID cs n p.
Proof.
  unfold offered_in. split.
  - intros (c' & [->|Hc]%elem_of_cons & H); [by left|]. right. by exists c'.
  - intros [H|(c' & Hc & H)]; [exists c; split; [by left|done]|]. exists c'. split; [by right|done].
Qed.

Lemma offer_all_same os s s' : same_choice s s' → same_choice (offer_all s os) (offer_all s' os).
Proof.
  revert s s'. induction os as [|o os IH]; intros s s' H; [done|].
  cbn [offer_all foldl]. apply IH. by apply offer_same.
Qed.

Lemma same_choice_trans s1 s2 s3 : same_choice s1 s2 → same_choice s2 s3 → same_choice s1 s3.
Proof. intros [? ?] [? ?]. split; congruence. Qed.

(** The offer the loop takes from one container is the one it makes. *)
Lemma select_container_offers T hostUUID s c tr s' :
  consistent T → (∀ e, e ∈ tr → e ∈ T) →
  exec (select_container hostUUID s c) tr s' →
  ∃ os, same_choice (offer_all s os) s' ∧ ∀ n p, (n, p) ∈ os ↔ offered_by T hostUUID c n p.
Proof.
  intros HT Htr [(-> & H1 & Hn)|(r & -> & Ha & H1)]%select_container_exec.
  { exists []. split; [done|]. intros n p. split; [by intros ?%not_elem_of_nil|].
    intros [Hau _]. destruct Hn. by destruct Hau as (? & <- & ?). }
  assert (ev (Σ := host_sig) (ContainerInspect (Container.ExternalId c)) r ∈ T) as Hr
    by (apply Htr, list_elem_of_here).
  assert ((∀ i, r = Ok i → runs i = false) → ∀ n p, (n, p) ∈ [] ↔ offered_by T hostUUID c n p) as Hno.
  { intros Hoff n p. split; [by intros ?%not_elem_of_nil|]. intros (_ & i & _ & Hin & Hrun).
    rewrite (Hoff i (HT _ _ _ Hr Hin)) in Hrun. done. }
  destruct r as [i|e]; [|exists []; by split; [|apply Hno]].
  destruct (runs i) eqn:Hi; [|exists []; split; [done|apply Hno; by intros ? [= <-]]].
  exists [(getBinaryName c, (Container.ExternalId c, provider_version i))]. split; [done|].
  intros n p. rewrite list_elem_of_singleton. split.
  - intros [= -> ->]. split; [done|]. by exists i.
  - intros ((_ & <- & _) & i' & -> & Hin & _). by injection (HT _ _ _ Hr Hin) as ->.
Qed.

Lemma select_offers T hostUUID cs s tr s' :
  consistent T → (∀ e, e ∈ tr → e ∈ T) →
  exec (ploop (select_container hostUUID) s cs) tr s' →
  ∃ os, same_choice (offer_all s os) s' ∧ ∀ n p, (n, p) ∈ os ↔ offered_in T hostUUID cs n p.
Proof.
  intros HT. revert s tr. induction cs as [|c cs IH]; intros s tr Htr.
  { intros [-> ->]. exists []. split; [done|]. intros n p. split; [by intros ?%not_elem_of_nil|].
    by intros (c & ?%not_elem_of_nil & _). }
  intros (tr1 & tr2 & s1 & -> & H1 & H2)%ploop_exec_cons.
  destruct (IH s1 tr2) as (os & Hs & Hos); [intros e He; apply Htr, elem_of_app; by right|done|].
  apply (select_container_offers T) in H1 as (os1 & Hs1 & Hos1);
    [|done|intros e He; apply Htr, elem_of_app; by left].
  exists (os1 ++ os). split.
  - unfold offer_all. rewrite foldl_app. by eapply same_choice_trans; [apply offer_all_same|].
  - intros n p. by rewrite elem_of_app, Hos1, Hos, offered_in_cons.
Qed.

(** C22: the provider selected for a binary is exactly the authorised container of
    this host, seen running, that no other such container beats: a numeric
    version wins over any other text, a higher one over a lower one, and the
    smaller ID decides between equals. The order in which services and
    containers are visited does not matter. *)
Theorem provider_selected {range : MapRange} hostUUID services tr s :
  exec (select hostUUID services) tr s → consistent tr →
  let offered n p := ∃ k svc c, driver_services services !! k = Some svc ∧
    c ∈ Service.Containers svc ∧ offered_by tr hostUUID c n p in
  ∀ n id, binaries s !! n = Some id ↔
    ∃ v, offered n (id, v) ∧ ∀ p, offered n p → ¬ beats p (id, v).
Proof.
  intros H Hc offered. destruct (select_offers tr hostUUID _ nothing_selected tr s Hc (λ _ h, h) H)
    as (os & [Hb Hv] & Hos).
  assert (∀ n p, (n, p) ∈ os ↔ offered n p) as Hoff.
  { intros n p. rewrite Hos. unfold offered. split.
    - intros (c & Hin & Hp). apply list_elem_of_In, in_concat in Hin as (l & Hl & Hin).
      apply list_elem_of_In, list_elem_of_fmap in Hl as ([k svc] & -> & Hk).
      apply elem_of_range_map in Hk. exists k, svc, c. by rewrite list_elem_of_In.
    - intros (k & svc & c & Hk & Hin & Hp). exists c. split; [|done].
      apply list_elem_of_In, in_concat. exists (Service.Containers svc).
      split; [|by apply list_elem_of_In]. apply list_elem_of_In, list_elem_of_fmap.
      exists (k, svc). split; [done|]. by apply elem_of_range_map. }
  intros n id. rewrite <-Hb. pose proof (offer_all_chosen n os) as Hch. unfold chosen in Hch. split.
  - intros Hn. rewrite Hn in Hch. destruct Hch as (v & _ & Hin & Hbest). exists v.
    split; [by apply Hoff|]. intros p ?%Hoff. by apply Hbest.
  - intros (v & Hin%Hoff & Hbest). destruct (binaries (offer_all nothing_selected os) !! n) as [j|];
      [|by destruct (Hch (id, v))].
    destruct Hch as (w & _ & Hj & Hbj). f_equal. eapply (unbeaten_unique os n j id w v); try done.
    intros p ?%Hoff. by apply Hbest.
Qed.

(** ** What an application touches *)

Lemma hwp_ploop {A S} P (I : list hevent → list A → S → Prop) (f : S → A → hprog S) l s h :
  I h [] s →
  (∀ h pre x s, x ∈ l → I h pre s → hwp (Σ := host_sig) P (λ h s', I h (pre ++ [x]) s') h (f s x)) →
  hwp (Σ := host_sig) P (λ h s, I h l s) h (ploop f s l).
Proof.
  intros Hs Hf. assert (∀ pre suf s h, (∀ x, x ∈ suf → x ∈ l) → I h pre s →
    hwp (Σ := host_sig) P (λ h s, I h (pre ++ suf) s) h (ploop f s suf)) as Hgen.
  { intros pre suf. revert pre. induction suf as [|x suf IH]; intros pre s' h' Hl Hi; cbn [ploop].
    { by rewrite app_nil_r. }
    apply hwp_bind. eapply hwp_mono; [|apply (Hf h' pre x s'); [apply Hl; by left|done]].
    intros h1 s1 H1. replace (pre ++ x :: suf) with ((pre ++ [x]) ++ suf) by (by rewrite <-app_assoc).
    apply IH; [|done]. intros y ?. apply Hl. by right. }
  by apply (Hgen []).
Qed.

Section touches.
Variables (bs old : gmap string string).
Abbreviation hist := (list hevent).

Definition ours (h : hist) (tmp : string) : Prop :=
  ∃ pattern, ev (Σ := host_sig) (CreateTemp binDir pattern) (Ok tmp) ∈ h.

(** A private temporary file that holds the complete wrapper. *)
Definition prepared (h : hist) (tmp n t : string) : Prop :=
  ours h tmp ∧
  ev (Σ := host_sig) (Write tmp (renderDriverWrapper t n)) None ∈ h ∧
  ev (Σ := host_sig) (Chmod tmp 448) None ∈ h ∧
  ev (Σ := host_sig) (Sync tmp) None ∈ h ∧ ev (Σ := host_sig) (Close tmp) None ∈ h.

Definition running_in (h : hist) (t : string) : Prop := ∃ i, seen_running h t i.

(** Docker has said that the container does not run. *)
Definition gone (h : hist) (t : string) : Prop :=
  ∃ r, ev (Σ := host_sig) (ContainerInspect t) r ∈ h ∧
    match r with Ok i => runs i = false | Err e => is_not_found e = true end.

(** The watcher's own wrapper of [t] is at its path, byte for byte. *)
Definition own_file (h : hist) (n t : string) : Prop :=
  ev (Σ := host_sig) (LstatRegular (wrapper_path n)) (Ok (true, 448%Z)) ∈ h ∧
  ev (Σ := host_sig) (ReadFile (wrapper_path n)) (Ok (renderDriverWrapper t n)) ∈ h.

Definition installed (h : hist) (n t : string) : Prop :=
  bs !! n = Some t ∧ running_in h t ∧
  ∃ tmp, prepared h tmp n t ∧ ev (Σ := host_sig) (Rename tmp (wrapper_path n)) None ∈ h.

(** The calls an application may make after the history [h]. *)
Definition permitted (h : hist) (c : hcall) : Prop :=
  match c with
  | MkdirAll dir | CreateTemp dir _ => dir = binDir
  | ContainerInspect t => ∃ n, bs !! n = Some t
  | Write tmp _ | Chmod tmp _ | Sync tmp | Close tmp => ours h tmp
  | Rename tmp path => ∃ n t, path = wrapper_path n ∧ bs !! n = Some t ∧
      running_in h t ∧ prepared h tmp n t
  | Remove path => ours h path ∨
      ∃ n t, path = wrapper_path n ∧ old !! n = Some t ∧ own_file h n t ∧
        (bs !! n = None ∨ ∃ t', bs !! n = Some t' ∧ gone h t')
  | LstatRegular _ | ReadFile _ | Now => True
  | _ => False
  end.

Abbreviation ahwp Q h p := (hwp (Σ := host_sig) permitted Q h p).

Lemma installed_app h h' n t : installed h n t → installed (h ++ h') n t.
Proof.
  unfold installed, prepared, ours, running_in, seen_running.
  intros (? & (i & ? & ?) & tmp & ((pat & ?) & ? & ? & ? & ?) & ?).
  split; [done|]. split.
  - exists i. rewrite elem_of_app. auto.
  - exists tmp. rewrite !elem_of_app. split; [|auto]. split; [|auto].
    exists pat. rewrite elem_of_app. auto.
Qed.

Lemma gone_app h h' t : gone h t → gone (h ++ h') t.
Proof. intros (r & ? & ?). exists r. rewrite elem_of_app. auto. Qed.

(** The end of a failed write: the temporary file is closed and removed. *)
Lemma discard_ahwp tmp e h n t :
  ours h tmp →
  ahwp (λ h' r, r = Ok () → installed h' n t) h
    (Vis (Σ := host_sig) (Close tmp) (λ _, Vis (Σ := host_sig) (Remove tmp) (λ _, Ret (Err e)))).
Proof.
  intros [pat Hin]. cbn. split; [by exists pat|]. intros r1.
  split; [left; exists pat; in_history|]. by intros r2.
Qed.

Lemma write_ahwp n t h :
  bs !! n = Some t → running_in h t →
  ahwp (λ h' r, r = Ok () → installed h' n t) h (writeWrapperAtomic n (renderDriverWrapper t n)).
Proof.
  intros Hn [i [Hin Hrun]]. cbn. split; [done|]. intros [tmp|e]; [|done]. cbn.
  set (e0 := ev (Σ := host_sig) (CreateTemp _ _) _).
  assert (∀ h', e0 ∈ h' → ours h' tmp) as Hours by (intros h' ?; by eexists).
  assert (e0 ∈ h ++ [e0]) as H0 by in_history.
  split; [by apply Hours|]. intros [e|]; cbn; [apply discard_ahwp, Hours; in_history|].
  split; [apply Hours; in_history|]. intros [e|]; cbn; [apply discard_ahwp, Hours; in_history|].
  split; [apply Hours; in_history|]. intros [e|]; cbn; [apply discard_ahwp, Hours; in_history|].
  split; [apply Hours; in_history|]. intros [e|]; cbn; [apply discard_ahwp, Hours; in_history|].
  match goal with |- (∃ _ _, _ ∧ _ ∧ _ ∧ prepared ?h' _ _ _) ∧ _ =>
    assert (prepared h' tmp n t) as Hp by (split_and!; [apply Hours| | | |]; in_history);
    assert (running_in h' t) as Hrun' by (exists i; split; [in_history|done]) end.
  split; [by exists n, t|]. intros [e|]; cbn.
  - apply discard_ahwp, Hours. in_history.
  - intros _. split; [done|]. split; [exists i; split; [in_history|done]|].
    exists tmp. split; [|in_history]. destruct Hp as (? & ? & ? & ? & ?).
    split_and!; [apply Hours| | | |]; in_history.
Qed.

#[local] Arguments writeWrapperAtomic : simpl never.

(** The loop that installs the selected wrappers, after the entries [pre]. *)
Definition installing (h : hist) (pre : list (string * string)) (a : application) : Prop :=
  (∀ n t, updated a !! n = Some t → old !! n = Some t ∨ installed h n t) ∧
  (∀ n, n ∈ unavailable a → ∃ t, bs !! n = Some t ∧ gone h t) ∧
  (applyErrors a = [] → unavailable a = ∅ ∧
     ∀ n t, (n, t) ∈ pre → updated a !! n = Some t ∧ installed h n t).

Lemma withdraw_updated n t a : updated (withdraw n t a) = updated a.
Proof. unfold withdraw. by destruct (String.eqb _ _). Qed.

(** A provider that is not installed costs an error. *)
Lemma installing_error h h' pre pre' a e n t (b : bool) :
  installing h pre a → bs !! n = Some t → (b = true → gone (h ++ h') t) →
  installing (h ++ h') pre' (apply_error e (if b then withdraw n t a else a)).
Proof.
  intros (Hu & Hun & _) Hn Hg. split; [|split].
  - intros m v Hm. assert (updated a !! m = Some v) as Hm' by (destruct b; [by rewrite <-(withdraw_updated n t)|done]).
    destruct (Hu m v Hm'); [by left|right; by apply installed_app].
  - intros m Hm. assert (m ∈ unavailable a ∨ b = true ∧ m = n) as [Hm'|[Hb ->]].
    { destruct b; [|by left]. cbn in Hm. unfold withdraw in Hm.
      destruct (String.eqb _ _); [|by left]. cbn in Hm.
      apply elem_of_union in Hm as [->%elem_of_singleton|?]; [by right|by left]. }
    + destruct (Hun m Hm') as (v & ? & ?). exists v. split; [done|]. by apply gone_app.
    + exists t. split; [done|]. by apply Hg.
  - cbn. destruct (applyErrors _); discriminate.
Qed.

Lemma install_step_ahwp h pre a n t :
  bs !! n = Some t → (∀ n' t', (n', t') ∈ pre → bs !! n' = Some t') → installing h pre a →
  ahwp (λ h' a', installing h' (pre ++ [(n, t)]) a') h (install_step a (n, t)).
Proof.
  intros Hn Hpre Ha. cbn. split; [by exists n|]. intros [i|e]; cbn.
  2:{ apply (installing_error _ _ pre); [done..|]. intros He. eexists. split; [in_history|done]. }
  destruct (runs i) eqn:Hrun; cbn [negb].
  2:{ apply (installing_error _ _ pre _ _ _ _ _ true); [done..|]. intros _. eexists.
      split; [in_history|done]. }
  apply hwp_bind. eapply hwp_mono; [|apply hwp_grows, write_ahwp; [done|]].
  2:{ exists i. split; [in_history|done]. }
  intros h1 w [[tr ->] Hw]. rewrite <-app_assoc in *. destruct w as [[]|e]; cbn.
  2:{ by apply (installing_error _ _ pre _ _ _ n t false). }
  specialize (Hw eq_refl). destruct Ha as (Hu & Hun & Hok). split; [|split]; cbn.
  - intros m v [[<- <-]|[_ Hm]]%lookup_insert_Some; [by right|].
    destruct (Hu m v Hm); [by left|right; by apply installed_app].
  - intros m Hm. destruct (Hun m Hm) as (v & ? & ?). exists v. split; [done|]. by apply gone_app.
  - intros He. destruct (Hok He) as [? Hin]. split; [done|]. intros m v [Hm|[= -> ->]]%elem_of_snoc.
    + destruct (Hin m v Hm) as [H1 H2]. split; [|by apply installed_app].
      destruct (decide (m = n)) as [->|]; [|by rewrite lookup_insert_ne].
      rewrite lookup_insert_eq. rewrite (Hpre _ _ Hm) in Hn. congruence.
    + by rewrite lookup_insert_eq.
Qed.

(** The loop that removes wrappers, after the entries [pre]. *)
Definition removing (h : hist) (pre : list (string * string)) (a : application) : Prop :=
  (∀ n t, updated a !! n = Some t → old !! n = Some t ∨ installed h n t) ∧
  (∀ n, n ∈ unavailable a → ∃ t, bs !! n = Some t ∧ gone h t) ∧
  (applyErrors a = [] → unavailable a = ∅ ∧
     (∀ n t, bs !! n = Some t → updated a !! n = Some t ∧ installed h n t) ∧
     ∀ n t, (n, t) ∈ pre → bs !! n = None → updated a !! n = None).

Lemma removing_app h h' pre a : removing h pre a → removing (h ++ h') pre a.
Proof.
  intros (Hu & Hun & Hok). split; [|split].
  - intros n t Hn. destruct (Hu n t Hn); [by left|right; by apply installed_app].
  - intros n Hn. destruct (Hun n Hn) as (t & ? & ?). exists t. split; [done|by apply gone_app].
  - intros He. destruct (Hok He) as (? & Hin & ?). split; [done|]. split; [|done].
    intros n t Hn. destruct (Hin n t Hn). split; [done|]. by apply installed_app.
Qed.

Lemma removing_kept h pre a n t :
  is_Some (bs !! n) → removing h pre a → removing h (pre ++ [(n, t)]) a.
Proof.
  intros [v Hn] (? & ? & Hok). split; [done|]. split; [done|]. intros He.
  destruct (Hok He) as (? & ? & Hpre). split; [done|]. split; [done|].
  intros m w [Hm|[= -> ->]]%elem_of_snoc; [by eapply Hpre|congruence].
Qed.

Lemma removing_forget h pre a n t :
  (bs !! n = None ∨ n ∈ unavailable a) → removing h pre a →
  removing h (pre ++ [(n, t)]) (forget n a).
Proof.
  intros Hn (Hu & Hun & Hok). split; [|split; [done|]]; cbn.
  - intros m v [_ Hm]%lookup_delete_Some. by apply Hu.
  - intros He. destruct (Hok He) as (Hnone & Hin & Hpre). split; [done|].
    assert (bs !! n = None) as Hb.
    { destruct Hn as [|Hn]; [done|]. rewrite Hnone in Hn. by apply not_elem_of_empty in Hn. }
    split.
    + intros m v Hm. rewrite lookup_delete_ne by congruence. by apply Hin.
    + intros m v Hm Hbm. apply lookup_delete_None. apply elem_of_snoc in Hm as [Hm|[= -> ->]];
        [right; by eapply Hpre|by left].
Qed.

Lemma removing_error h pre pre' a e : removing h pre a → removing h pre' (apply_error e a).
Proof.
  intros (? & ? & _). split; [done|]. split; [done|]. cbn. by destruct (applyErrors a).
Qed.

Lemma remove_step_ahwp h pre a n t :
  old !! n = Some t → removing h pre a →
  ahwp (λ h' a', removing h' (pre ++ [(n, t)]) a') h (remove_step bs a (n, t)).
Proof.
  intros Hn Ha. unfold remove_step.
  destruct (decide (is_Some (bs !! n) ∧ n ∉ unavailable a)) as [[Hs Hun]|Hgo].
  { rewrite !bool_decide_eq_true_2, bool_decide_eq_false_2 by done. cbn. by apply removing_kept. }
  assert (bs !! n = None ∨ n ∈ unavailable a) as Hout.
  { destruct (bs !! n) eqn:E; [|by left]. right. destruct (decide (n ∈ unavailable a)); [done|].
    destruct Hgo. by split. }
  assert (bool_decide (is_Some (bs !! n)) && negb (bool_decide (n ∈ unavailable a)) = false) as ->.
  { destruct Hout as [->|?]; [done|]. rewrite (bool_decide_eq_true_2 (n ∈ _)) by done.
    by rewrite andb_false_r. }
  assert (∀ h', removing (h ++ h') (pre ++ [(n, t)]) (forget n a)) as Hforget
    by (intros h'; apply removing_forget; [done|]; by apply removing_app).
  cbn. split; [done|]. intros [[[] perm]|e]; cbn; [|by apply Hforget..].
  destruct (perm =? 448)%Z eqn:Hperm; cbn; [|by apply Hforget]. apply Z.eqb_eq in Hperm as ->.
  split; [done|]. intros [data|e]; cbn; [|rewrite <-app_assoc; by apply Hforget].
  destruct (String.eqb data _) eqn:Hd; cbn; [|rewrite <-app_assoc; by apply Hforget].
  apply String.eqb_eq in Hd as ->. split.
  - right. exists n, t. split; [done|]. split; [done|]. split; [split; in_history|].
    destruct Hout as [|Hun]; [by left|]. right. destruct Ha as (_ & Hgone & _).
    destruct (Hgone n Hun) as (t' & ? & ?). exists t'. split; [done|]. by do 2 apply gone_app.
  - intros [e|]; rewrite <-!app_assoc; [|by apply Hforget].
    destruct (is_not_exist e); [by apply Hforget|].
    apply (removing_error _ pre). by apply removing_app.
Qed.
End touches.

#[local] Arguments install_step : simpl never.
#[local] Arguments remove_step : simpl never.

Lemma join_result_Ok errs : join_result errs = Ok () ↔ errs = [].
Proof.
  unfold join_result. rewrite err_result_Ok. unfold errors_join.
  assert (omap id (Some <$> errs) = errs) as ->.
  { induction errs as [|e errs IH]; [done|]. cbn. by f_equal. }
  by destruct errs.
Qed.

(** After both loops. *)
Lemma loops_hwp {range : MapRange} bs w h :
  hwp (Σ := host_sig) (permitted bs (applied w))
    (λ h r, ∃ a, r = Ok a ∧
       (∀ n t, updated a !! n = Some t → applied w !! n = Some t ∨ installed bs h n t) ∧
       (applyErrors a = [] → updated a = bs ∧ ∀ n t, bs !! n = Some t → installed bs h n t)) h
    (a1 ← ploop install_step {| updated := applied w; unavailable := ∅; applyErrors := [] |}
            (range_map 21 bs);
     a2 ← ploop (remove_step bs) a1 (range_map 22 (applied w)); Ret (Ok a2)).
Proof.
  apply hwp_bind. eapply hwp_mono; [|apply (hwp_ploop _ (λ h pre a,
    (∀ n t, (n, t) ∈ pre → bs !! n = Some t) ∧ installing bs (applied w) h pre a))].
  2:{ split; [by intros ?? ?%not_elem_of_nil|]. split; [by left|].
      split; [by intros ? ?%not_elem_of_empty|]. intros _. split; [done|].
      by intros ?? ?%not_elem_of_nil. }
  2:{ intros h1 pre [n t] a Hin%elem_of_range_map [Hpre Ha].
      eapply hwp_mono; [|by apply (install_step_ahwp bs (applied w) h1 pre)].
      intros h2 a2 H2. split; [|done]. intros m v [Hm|[= -> ->]]%elem_of_snoc; auto. }
  intros h1 a1 [_ (Hu & Hun & Hok)].
  apply hwp_bind. eapply hwp_mono; [|apply (hwp_ploop _ (removing bs (applied w)))].
  - intros h2 a2 (Hu2 & _ & Hok2). cbn. exists a2. split; [done|]. split; [done|]. intros He.
    destruct (Hok2 He) as (_ & Hin & Hpre). split; [|by intros n t ?; apply Hin].
    apply map_eq. intros n. destruct (bs !! n) as [t|] eqn:Hn; [by apply Hin|].
    destruct (updated a2 !! n) as [t|] eqn:Ht; [|done].
    destruct (Hu2 n t Ht) as [Hold|[? _]]; [|congruence].
    rewrite <-Ht. apply (Hpre n t); [|done]. by apply elem_of_range_map.
  - split; [done|]. split; [done|]. intros He. destruct (Hok He) as [? Hin]. split; [done|].
    split; [|by intros ?? ?%not_elem_of_nil]. intros n t Hn. apply Hin. by apply elem_of_range_map.
  - intros h2 pre [n t] a2 Hin%elem_of_range_map Ha. by apply remove_step_ahwp.
Qed.

(** C3: an application only writes private temporary files, moves one to a
    wrapper path only when it holds the complete wrapper of a selected container
    seen running, and removes a wrapper only when the file is byte for byte the
    one this watcher applied and the container is no longer selected or no longer
    runs. Every remembered wrapper was remembered before or just installed, and
    success means that exactly the selected ones are installed. *)
Theorem apply_touches_own {range : MapRange} bs w tr w' r :
  execs (apply bs) w tr w' r →
  (∀ tr1 e tr2, tr = tr1 ++ e :: tr2 → permitted bs (applied w) tr1 (projT1 e)) ∧
  (∀ n t, applied w' !! n = Some t → applied w !! n = Some t ∨ installed bs tr n t) ∧
  (r = Ok () → applied w' = bs ∧ ∀ n t, bs !! n = Some t → installed bs tr n t).
Proof.
  intros H. assert (hwp (Σ := host_sig) (permitted bs (applied w)) (λ h '(w', r),
    (∀ n t, applied w' !! n = Some t → applied w !! n = Some t ∨ installed bs h n t) ∧
    (r = Ok () → applied w' = bs ∧ ∀ n t, bs !! n = Some t → installed bs h n t)) [] (apply bs w)) as Hw.
  2:{ exact (hwp_exec _ _ _ [] tr (w', r) Hw H). }
  cbn. split; [done|]. intros [e|]; cbn; [split; [by left|done]|].
  do 3 apply (hwp_bind (Σ := host_sig)). eapply hwp_mono; [|apply loops_hwp].
  intros h r0 (a & -> & Hu & Hok). cbn.
  destruct (applyErrors a) as [|e errs] eqn:He; cbn; [|split; [exact Hu|done]].
  split; [done|]. intros now. destruct (Hok eq_refl) as [<- Hin]. split.
  - intros n t Hn. right. by apply installed_app, Hin.
  - intros _. split; [done|]. intros n t Hn. by apply installed_app, Hin.
Qed.

(** ** A host with two providers of one binary and a stale wrapper *)

Definition running_version (v : string) : Inspect :=
  {| InspectID := ""; State := Some {| Running := true; Pid := 41; StartedAt := "" |};
     ContainerConfig := Some {| ConfigHostname := ""; ConfigLabels := {[ versionLabel := v ]} |};
     HostConfig := None; HostsPath := ""; ResolvConfPath := "" |}.

Definition driver_reply (c : hcall) : hreply c :=
  match c return hreply c with
  | ContainerInspect id =>
      if String.eqb id "aa" then Ok (running_version "v1.9.2")
      else if String.eqb id "bb" then Ok (running_version "1.10")
      else Err ErrNotFound
  | CreateTemp dir pattern => Ok (dir +:+ "/" +:+ pattern)
  | LstatRegular _ => Ok (true, 448%Z)
  | ReadFile path => Ok (renderDriverWrapper "cc" "old-bridge")
  | Now => 1000%Z
  | c' => idle_reply c'
  end.
Definition driver_host : env host_sig := λ _, driver_reply.

Definition provider_container (id : string) : Container.t :=
  mk_container "" id "host-1" "" "" "" "running" "driver" [] {[ binaryLabel := "bridge" ]}.
Definition driver_stack : list Service.t :=
  [mk_service "networkDriverService" "ipsec" "ipsec" "infra" [provider_container "aa"];
   mk_service "service" "router" "ipsec" "infra" [provider_container "bb"]].

Lemma provider_selected_witness :
  ∃ tr s, exec (@select range_backward "host-1" driver_stack) tr s ∧ consistent tr ∧
    binaries s !! "bridge" = Some "bb" ∧
    ∃ v, ∀ k svc c p, driver_services driver_stack !! k = Some svc → c ∈ Service.Containers svc →
      offered_by tr "host-1" c "bridge" p → ¬ beats p ("bb", v).
Proof.
  pose proof (run_exec driver_host [] (@select range_backward "host-1" driver_stack)) as H.
  eexists _, _. split; [exact H|].
  assert (consistent (run driver_host [] (@select range_backward "host-1" driver_stack)).1) as Hc.
  { intros id x y ->%(run_static driver_reply) ->%(run_static driver_reply). reflexivity. }
  split; [exact Hc|].
  assert (binaries (run driver_host [] (@select range_backward "host-1" driver_stack)).2 !! "bridge"
    = Some "bb") as Hb by (vm_compute; reflexivity).
  split; [exact Hb|].
  apply (@provider_selected range_backward "host-1" driver_stack _ _ H Hc) in Hb as (v & _ & Hbest).
  exists v. intros k svc c p Hk Hin Hp. apply Hbest. exists k, svc, c.
  split; [exact Hk|]. split; [exact Hin|exact Hp].
Defined.

Definition stale_watcher : watcher := {| applied := {[ "old-bridge" := "cc" ]}; lastApplied := zero_time |}.
Definition one_apply := run driver_host [] (@apply range_forward {[ "bridge" := "bb" ]} stale_watcher).

Lemma apply_touches_own_witness :
  one_apply.2 = ({| applied := {[ "bridge" := "bb" ]}; lastApplied := 1000%Z |}, Ok ()) ∧
  length one_apply.1 = 12 ∧
  installed {[ "bridge" := "bb" ]} one_apply.1 "bridge" "bb" ∧
  (∀ tr1 e tr2, one_apply.1 = tr1 ++ e :: tr2 →
     permitted {[ "bridge" := "bb" ]} (applied stale_watcher) tr1 (projT1 e)).
Proof.
  pose proof (run_exec driver_host [] (@apply range_forward {[ "bridge" := "bb" ]} stale_watcher)) as H.
  fold one_apply in H.
  assert (one_apply.2 = ({| applied := {[ "bridge" := "bb" ]}; lastApplied := 1000%Z |}, Ok ())) as Hr
    by (vm_compute; reflexivity).
  split; [exact Hr|]. split; [vm_compute; reflexivity|]. rewrite Hr in H.
  destruct (@apply_touches_own range_forward _ _ _ _ _ H) as (Hp & _ & Hok).
  split; [|exact Hp]. apply (proj2 (Hok eq_refl)). vm_compute. reflexivity.
Defined.
