(* ===== verification/CniGlue.v ===== *)
(** * Running the CNI plugins (internal/cniglue)

    What the manager asks of the CNI library for one container: the runtime
    configuration, the plugin configurations of its network in file order, and
    the order of the additions and deletions. *)
From S2P Require Import Prelude Effects GoStrings World.

Definition CniPath : list string :=
  ["/opt/cni/bin"; "/var/lib/cni/bin"; "/usr/local/sbin"; "/usr/sbin"; "/sbin";
   "/usr/local/bin"; "/usr/bin"; "/bin"].

(** [fmt.Sprintf(CniDir, networkName)]: the init function of cniconf replaces the
    variable's first value, [/etc/docker/cni/%s.d], before main runs. *)
Definition cni_dir (networkName : string) : string := "/etc/cni/" +:+ networkName +:+ ".d".

(** ** Docker's network modes *)
Module NetworkMode.
Definition IsContainer (mode : string) : bool :=
  let '(k, _, hasSep) := Cut mode ":" in hasSep && String.eqb k "container".
Definition IsHost (mode : string) : bool := String.eqb mode "host".
Definition IsNone (mode : string) : bool := String.eqb mode "none".
Definition IsDefault (mode : string) : bool := String.eqb mode "default".
Definition IsBridge (mode : string) : bool := String.eqb mode "bridge".
Definition NetworkName (mode : string) : string :=
  if IsDefault mode then "default"
  else if IsBridge mode then "bridge"
  else if IsHost mode then "host"
  else if IsNone mode then "none"
  else if IsContainer mode then "container"
  else mode.
End NetworkMode.

Record DockerPluginState := {
  ContainerID : string;
  PluginNetworkMode : string;
  PluginLabels : gmap string string;
  PID : Z;
}.

(** It cannot fail, but its callers check. *)
Definition LookupPluginState (inspect : Inspect) : result DockerPluginState :=
  Ok {| ContainerID := InspectID inspect;
        PluginNetworkMode := match HostConfig inspect with Some h => NetworkMode h | None => "" end;
        PluginLabels := match ContainerConfig inspect with Some c => ConfigLabels c | None => ∅ end;
        PID := match State inspect with Some s => Pid s | None => 0%Z end |}.

(** [%d] of an int. *)
Definition format_int (n : Z) : string :=
  if (n <? 0)%Z then "-" +:+ Itoa (Z.to_N (- n)) else Itoa (Z.to_N n).

(** [Args] of a label, when it is set. *)
Definition label_args (labels : gmap string string) (label : string) (keys : list string)
    : list (string * string) :=
  let v := zget "" labels label in
  if String.eqb v "" then [] else map (λ k, (k, v)) keys.

Definition runtimeConf (state : DockerPluginState) : RuntimeConf :=
  {| RtContainerID := ContainerID state;
     RtNetNS := "/proc/" +:+ format_int (PID state) +:+ "/ns/net";
     RtIfName := "eth0";
     RtArgs := [("IgnoreUnknown", "1"); ("DOCKER", "true")]
       ++ label_args (PluginLabels state) "io.rancher.container.uuid"
            ["RancherContainerUUID"; "PlatformContainerUUID"]
       ++ label_args (PluginLabels state) "io.rancher.cni.link_mtu_overhead" ["LinkMTUOverhead"]
       ++ label_args (PluginLabels state) "io.rancher.container.mac_address" ["MACAddress"] |}.

Definition empty_runtime : RuntimeConf :=
  {| RtContainerID := ""; RtNetNS := ""; RtIfName := ""; RtArgs := [] |}.

Record CNIExec := { confs : list string; runtime : RuntimeConf }.

Definition load_step (acc : list string) (file : string) : hprog (result (list string)) :=
  conf <-? call1 (ConfFromFile file); Ret (Ok (acc ++ [conf])).

Definition shares_network (mode : string) : bool :=
  NetworkMode.IsContainer mode || NetworkMode.IsHost mode || NetworkMode.IsNone mode.

Definition network_of (mode : string) : string :=
  let networkName := NetworkMode.NetworkName mode in
  if String.eqb networkName "" then "default" else networkName.

Definition NewCNIExec (state : DockerPluginState) : hprog (result CNIExec) :=
  if shares_network (PluginNetworkMode state)
  then Ret (Ok {| confs := []; runtime := empty_runtime |}) else
  files <-? call1 (ConfFiles (cni_dir (network_of (PluginNetworkMode state))));
  _ <-? wrapped "set CNI plugin path"
          (e ← call1 (Setenv "PATH" (Join CniPath ":")); Ret (err_result e));
  confs <-? pfold load_step [] (sort_strings files);
  Ret (Ok {| confs := confs; runtime := runtimeConf state |}).

(** [IP.To4] and [IP.String] of its result. *)
Definition To4 (ip : list Z) : option (list Z) :=
  if length ip =? 4 then Some ip
  else if (length ip =? 16) && bool_decide (take 12 ip = replicate 10 0%Z ++ [255; 255]%Z)
       then Some (drop 12 ip) else None.
Definition dotted (ip4 : list Z) : string := Join ((λ o, Itoa (Z.to_N o)) <$> ip4) ".".

Definition primary_address (ip : option (list Z)) : option string :=
  ip ← ip; ip4 ← To4 ip; Some (dotted ip4).

Definition PrimaryIPv4 (r : option CNIResult) : string :=
  match r with
  | Some r => default "" (head (omap primary_address (ResultIPs r)))
  | None => ""
  end.

(** The loop of [CNIAdd]: the last result with an IPv4 address is returned. *)
Definition add_step (rt : RuntimeConf) (acc : option CNIResult) (conf : string)
    : hprog (result (option CNIResult)) :=
  pluginResult <-? call1 (AddNetwork conf rt);
  Ret (Ok (if String.eqb (PrimaryIPv4 (Some pluginResult)) "" then acc else Some pluginResult)).

Definition CNIAdd (state : DockerPluginState) : hprog (result (option CNIResult)) :=
  c <-? NewCNIExec state;
  pfold (add_step (runtime c)) None (confs c).

Definition without_netns (rt : RuntimeConf) : RuntimeConf :=
  {| RtContainerID := RtContainerID rt; RtNetNS := ""; RtIfName := RtIfName rt; RtArgs := RtArgs rt |}.

(** The loop of [CNIDel]: every deletion is tried, the last error is returned. *)
Fixpoint del_all (rt : RuntimeConf) (lastErr : option error) (l : list string)
    : hprog (result ()) :=
  match l with
  | [] => Ret (err_result lastErr)
  | conf :: l' =>
      e ← call1 (DelNetwork conf rt);
      del_all rt (match e with Some _ => e | None => lastErr end) l'
  end.

Definition CNIDel (state : DockerPluginState) : hprog (result ()) :=
  c <-? NewCNIExec state;
  del_all (without_netns (runtime c)) None (reverse (confs c)).

(** ** What the traces hold *)

Definition adds_of (tr : list hevent) : list (string * RuntimeConf) :=
  omap (λ c, match c with AddNetwork conf rt => Some (conf, rt) | _ => None end) (calls_of tr).
Definition dels_of (tr : list hevent) : list (string * RuntimeConf) :=
  omap (λ c, match c with DelNetwork conf rt => Some (conf, rt) | _ => None end) (calls_of tr).

(** The answers of the plugins, in order. *)
Definition add_results (tr : list hevent) : list (result CNIResult) :=
  omap (λ e : hevent, match e with existT (AddNetwork _ _) r => Some r | _ => None end) tr.
Definition del_errors (tr : list hevent) : list (option error) :=
  omap (λ e : hevent, match e with existT (DelNetwork _ _) r => Some r | _ => None end) tr.

Lemma add_results_app tr1 tr2 : add_results (tr1 ++ tr2) = add_results tr1 ++ add_results tr2.
Proof. apply omap_app. Qed.
Lemma del_errors_app tr1 tr2 : del_errors (tr1 ++ tr2) = del_errors tr1 ++ del_errors tr2.
Proof. apply omap_app. Qed.

Lemma adds_of_app tr1 tr2 : adds_of (tr1 ++ tr2) = adds_of tr1 ++ adds_of tr2.
Proof. unfold adds_of. by rewrite calls_of_app, omap_app. Qed.
Lemma dels_of_app tr1 tr2 : dels_of (tr1 ++ tr2) = dels_of tr1 ++ dels_of tr2.
Proof. unfold dels_of. by rewrite calls_of_app, omap_app. Qed.

(** Loading the configurations makes neither. *)
Definition is_loading (c : hcall) : Prop :=
  match c with ConfFiles _ | ConfFromFile _ | Setenv _ _ => True | _ => False end.

Lemma loading_adds tr : Forall (λ e : hevent, is_loading (projT1 e)) tr → adds_of tr = [] ∧ dels_of tr = [].
Proof.
  induction 1 as [|[c r] tr Hc _ [IH1 IH2]]; [done|]. unfold adds_of, dels_of in *. cbn.
  cbn in Hc. by destruct c.
Qed.
Lemma loading_results tr :
  Forall (λ e : hevent, is_loading (projT1 e)) tr → add_results tr = [] ∧ del_errors tr = [].
Proof.
  induction 1 as [|[c r] tr Hc _ [IH1 IH2]]; [done|]. unfold add_results, del_errors in *. cbn.
  cbn in Hc. by destruct c.
Qed.

Lemma NewCNIExec_loading state : hcalls is_loading (NewCNIExec state).
Proof.
  unfold NewCNIExec. destruct (shares_network _); [done|].
  apply calls_in_pbind_ok; [by apply calls_in_call1|]. intros files.
  apply calls_in_pbind_ok; [by apply calls_in_wrapped|]. intros _.
  apply calls_in_pbind_ok; [|done]. apply calls_in_pfold. intros acc file.
  apply calls_in_pbind_ok; [by apply calls_in_call1|done].
Qed.

Lemma add_loop_exec rt l acc tr r :
  exec (pfold (add_step rt) acc l) tr r →
  adds_of tr `prefix_of` map (λ conf, (conf, rt)) l ∧ dels_of tr = [] ∧
  (ok r = true → adds_of tr = map (λ conf, (conf, rt)) l).
Proof.
  revert acc tr. induction l as [|conf l IH]; intros acc tr; cbn [pfold].
  { intros [-> ->]. done. }
  intros [(e & -> & H)|(tr1 & tr2 & a & -> & H1 & H2)]%exec_pbind_ok.
  - apply exec_pbind_ok in H as [(e' & [= <-] & H)|(? & ? & ? & _ & _ & [_ ?])]; [|done].
    apply exec_call1 in H as ->. cbn. split; [by exists (map (λ c, (c, rt)) l)|done].
  - apply exec_pbind_ok in H1 as [(? & ? & _)|(tr3 & tr4 & b & -> & H1 & [-> [= ->]])]; [done|].
    apply exec_call1 in H1 as ->. destruct (IH _ _ H2) as (Hpre & Hdel & Hok).
    rewrite app_nil_r, adds_of_app, dels_of_app. cbn. split; [by apply prefix_cons|].
    split; [done|]. intros Hr. f_equal. by apply Hok.
Qed.

(** The first failure ends the additions with its error, and the value is the last
    result with an IPv4 address. *)
Definition addressed (x : CNIResult) : Prop := PrimaryIPv4 (Some x) ≠ "".
Definition add_outcome (acc : option CNIResult) (results : list (result CNIResult))
    (r : result (option CNIResult)) : Prop :=
  match r with
  | Err e => ∃ xs, results = (Ok <$> xs) ++ [Err e]
  | Ok v => ∃ xs, results = Ok <$> xs ∧
      v = match last (filter addressed xs) with Some x => Some x | None => acc end
  end.

Lemma add_loop_outcome rt l acc tr r :
  exec (pfold (add_step rt) acc l) tr r → add_outcome acc (add_results tr) r.
Proof.
  revert acc tr. induction l as [|conf l IH]; intros acc tr; cbn [pfold].
  { intros [-> ->]. by exists []. }
  intros [(e & -> & H)|(tr1 & tr2 & a & -> & H1 & H2)]%exec_pbind_ok.
  - apply exec_pbind_ok in H as [(e' & [= <-] & H)|(? & ? & ? & _ & _ & [_ ?])]; [|done].
    apply exec_call1 in H as ->. by exists [].
  - apply exec_pbind_ok in H1 as [(? & ? & _)|(tr3 & tr4 & b & -> & H1 & [-> [= ->]])]; [done|].
    apply exec_call1 in H1 as ->. apply IH in H2. rewrite app_nil_r, add_results_app.
    destruct r as [v|e]; [|destruct H2 as [xs ->]; by exists (b :: xs)].
    destruct H2 as (xs & -> & ->). exists (b :: xs). split; [done|]. rewrite filter_cons. unfold addressed.
    destruct (decide (PrimaryIPv4 (Some b) ≠ "")) as [Hb|Hb].
    + unfold PrimaryIPv4 in Hb. apply String.eqb_neq in Hb. rewrite Hb. clear IH.
      by destruct (filter _ xs) as [|y ys _] using rev_ind; [|rewrite app_comm_cons, !last_snoc].
    + apply dec_stable in Hb. unfold PrimaryIPv4 in Hb. apply String.eqb_eq in Hb. by rewrite Hb.
Qed.

(** The deletions end with the last error. *)
Lemma del_loop_outcome rt l e0 tr r :
  exec (del_all rt e0 l) tr r →
  r = err_result (match last (omap id (del_errors tr)) with Some e => Some e | None => e0 end).
Proof.
  revert e0 tr. induction l as [|conf l IH]; intros e0 tr; cbn [del_all]; [by intros [-> ->]|].
  intros (tr1 & tr2 & a & -> & ->%exec_call1 & ->%IH)%exec_bind. rewrite del_errors_app.
  f_equal. cbn. destruct a as [e|]; [|done]. cbn.
  by destruct (omap id (del_errors tr2)) as [|y ys] using rev_ind; [|rewrite app_comm_cons, !last_snoc].
Qed.

Lemma del_loop_exec rt l last tr r :
  exec (del_all rt last l) tr r →
  dels_of tr = map (λ conf, (conf, rt)) l ∧ adds_of tr = [].
Proof.
  revert last tr. induction l as [|conf l IH]; intros last tr; cbn [del_all]; [by intros [-> ->]|].
  intros (tr1 & tr2 & a & -> & ->%exec_call1 & H)%exec_bind. destruct (IH _ _ H) as [Hd Ha].
  rewrite adds_of_app, dels_of_app. cbn. by rewrite Hd.
Qed.

(** The configurations that were loaded, and the files they were read from. *)
Definition loaded (tr : list hevent) : list string :=
  omap (λ e : hevent, match e with existT (ConfFromFile _) (Ok conf) => Some conf | _ => None end) tr.
Definition files_of (tr : list hevent) : list string :=
  omap (λ c, match c with ConfFromFile file => Some file | _ => None end) (calls_of tr).

Lemma loaded_app tr1 tr2 : loaded (tr1 ++ tr2) = loaded tr1 ++ loaded tr2.
Proof. apply omap_app. Qed.
Lemma files_of_app tr1 tr2 : files_of (tr1 ++ tr2) = files_of tr1 ++ files_of tr2.
Proof. unfold files_of. by rewrite calls_of_app, omap_app. Qed.

Definition lists_files (c : hcall) : Prop := match c with ConfFiles _ => True | _ => False end.

Lemma load_loop_exec files acc tr confs :
  exec (pfold load_step acc files) tr (Ok confs) →
  confs = acc ++ loaded tr ∧ files_of tr = files ∧ Forall (λ c, ¬ lists_files c) (calls_of tr).
Proof.
  revert acc tr. induction files as [|file files IH]; intros acc tr; cbn [pfold].
  { intros [-> [= ->]]. cbn. by rewrite app_nil_r. }
  intros [(? & ? & _)|(tr1 & tr2 & a & -> & H1 & H2)]%exec_pbind_ok; [done|].
  apply exec_pbind_ok in H1 as [(? & ? & _)|(tr3 & tr4 & b & -> & H1 & [-> [= ->]])]; [done|].
  apply exec_call1 in H1 as ->. destruct (IH _ _ H2) as (-> & Hf & Hl).
  rewrite app_nil_r, loaded_app, files_of_app, Hf. cbn. rewrite <-app_assoc.
  split; [done|]. split; [done|]. by constructor; [intros []|].
Qed.

Lemma NewCNIExec_exec state tr c :
  exec (NewCNIExec state) tr (Ok c) →
  confs c = loaded tr ∧ (loaded tr ≠ [] → runtime c = runtimeConf state) ∧
  ∀ dir files, ev (Σ := host_sig) (ConfFiles dir) (Ok files) ∈ tr → files_of tr = sort_strings files.
Proof.
  unfold NewCNIExec. destruct (shares_network _).
  { intros [-> [= ->]]. split; [done|]. split; [done|]. by intros ? ? ?%not_elem_of_nil. }
  intros [(? & ? & _)|(tr1 & tr2 & files & -> & ->%exec_call1 & H)]%exec_pbind_ok; [done|].
  apply exec_pbind_ok in H as [(? & ? & _)|(tr3 & tr4 & [] & -> & H1 & H)]; [done|].
  apply exec_pbind_ok in H as [(? & ? & _)|(tr5 & tr6 & cs & -> & H2 & [-> [= ->]])]; [done|].
  apply load_loop_exec in H2 as (Hcs & Hf & Hl). cbn in Hcs. subst cs.
  apply exec_wrapped in H1 as (r' & H1 & _).
  apply exec_bind in H1 as (t1 & t2 & a & -> & ->%exec_call1 & [-> _]).
  rewrite !app_nil_r, !loaded_app, !files_of_app. cbn. rewrite Hf. split; [done|]. split; [done|].
  intros dir fs [Heq|[Heq|Hin]%elem_of_cons]%elem_of_cons.
  - apply (f_equal (λ e : hevent, match e with existT (ConfFiles _) (Ok f) => Some f | _ => None end)) in Heq.
    by injection Heq as ->.
  - by apply (f_equal (λ e : hevent, match projT1 e with ConfFiles _ => true | _ => false end)) in Heq.
  - rewrite Forall_forall in Hl. destruct (Hl (ConfFiles dir)); [|done].
    apply list_elem_of_fmap. by exists (ev (Σ := host_sig) (ConfFiles dir) (Ok fs)).
Qed.

(** The loops over the configurations only run plugins. *)
Definition is_plugin (c : hcall) : Prop :=
  match c with AddNetwork _ _ | DelNetwork _ _ => True | _ => False end.

Lemma plugin_calls tr :
  Forall (λ e : hevent, is_plugin (projT1 e)) tr →
  loaded tr = [] ∧ files_of tr = [] ∧ ∀ dir r, ev (Σ := host_sig) (ConfFiles dir) r ∉ tr.
Proof.
  intros H. split; [|split].
  - induction H as [|[c r] tr Hc _ IH]; [done|]. cbn in Hc. unfold loaded in *. cbn. by destruct c.
  - induction H as [|[c r] tr Hc _ IH]; [done|]. cbn in Hc. unfold files_of in *. cbn. by destruct c.
  - intros dir r Hin. by apply (proj1 (Forall_forall _ _) H) in Hin.
Qed.

Lemma add_loop_plugins rt acc l : hcalls is_plugin (pfold (add_step rt) acc l).
Proof.
  apply calls_in_pfold. intros a conf. apply calls_in_pbind_ok; [by apply calls_in_call1|done].
Qed.
Lemma del_loop_plugins rt last l : hcalls is_plugin (del_all rt last l).
Proof.
  revert last. induction l as [|conf l IH]; intros last; [done|].
  apply calls_in_bind; [by apply calls_in_call1|]. intros e. apply IH.
Qed.

Lemma CNIAdd_exec up tr r :
  exec (CNIAdd up) tr r →
  adds_of tr `prefix_of` map (λ conf, (conf, runtimeConf up)) (loaded tr) ∧ dels_of tr = [] ∧
  (ok r = true → adds_of tr = map (λ conf, (conf, runtimeConf up)) (loaded tr) ∧
     ∀ dir files, ev (Σ := host_sig) (ConfFiles dir) (Ok files) ∈ tr → files_of tr = sort_strings files) ∧
  (add_outcome None (add_results tr) r ∨ add_results tr = [] ∧ ok r = false).
Proof.
  intros [(e & -> & H1)|(t1 & t2 & c & -> & H1 & H2)]%exec_pbind_ok;
    pose proof (loading_results _ (calls_in_exec (Σ := host_sig) _ _ _ _ (NewCNIExec_loading up) H1))
      as [Hr1 _];
    pose proof (loading_adds _ (calls_in_exec (Σ := host_sig) _ _ _ _ (NewCNIExec_loading up) H1))
      as [Ha1 Hd1].
  { rewrite Ha1, Hd1. split; [apply prefix_nil|]. split; [done|]. split; [done|]. by right. }
  apply NewCNIExec_exec in H1 as (Hc & Hrt & Hfiles).
  destruct (plugin_calls t2) as (Hl2 & Hf2 & Hn2);
    [exact (calls_in_exec (Σ := host_sig) _ _ _ _ (add_loop_plugins _ _ _) H2)|].
  pose proof (add_loop_outcome _ _ _ _ _ H2) as Hout. apply add_loop_exec in H2 as (Hpre & Hd2 & Hok).
  rewrite adds_of_app, dels_of_app, loaded_app, files_of_app, add_results_app, Hr1, Ha1, Hd1, Hd2, Hl2, Hf2, !app_nil_r.
  cbn [app]. rewrite Hc in Hpre, Hok.
  assert (map (λ conf, (conf, runtime c)) (loaded t1) = map (λ conf, (conf, runtimeConf up)) (loaded t1)) as Hm.
  { destruct (loaded t1) as [|conf l]; [done|]. by rewrite Hrt. }
  rewrite Hm in Hpre, Hok. split; [done|]. split; [done|]. split; [|by left]. intros Hr. split; [by apply Hok|].
  intros dir files [Hin|Hin]%elem_of_app; [by eapply Hfiles|by apply Hn2 in Hin].
Qed.

Lemma CNIDel_exec down tr r :
  exec (CNIDel down) tr r →
  adds_of tr = [] ∧
  (dels_of tr = map (λ conf, (conf, without_netns (runtimeConf down))) (reverse (loaded tr)) ∧
     r = err_result (last (omap id (del_errors tr))) ∨
   dels_of tr = [] ∧ ok r = false).
Proof.
  intros [(e & -> & H1)|(t1 & t2 & c & -> & H1 & H2)]%exec_pbind_ok;
    pose proof (loading_results _ (calls_in_exec (Σ := host_sig) _ _ _ _ (NewCNIExec_loading down) H1))
      as [_ Hr1];
    pose proof (loading_adds _ (calls_in_exec (Σ := host_sig) _ _ _ _ (NewCNIExec_loading down) H1))
      as [Ha1 Hd1].
  { split; [done|by right]. }
  apply NewCNIExec_exec in H1 as (Hc & Hrt & _).
  destruct (plugin_calls t2) as (Hl2 & _ & _);
    [exact (calls_in_exec (Σ := host_sig) _ _ _ _ (del_loop_plugins _ _ _) H2)|].
  pose proof (del_loop_outcome _ _ _ _ _ H2) as Hout. apply del_loop_exec in H2 as [Hd2 Ha2].
  rewrite adds_of_app, dels_of_app, del_errors_app, Hr1, loaded_app, Ha1, Hd1, Ha2, Hd2, Hl2, !app_nil_r.
  split; [done|]. left. cbn [app]. split; [|rewrite Hout; by destruct (last _)].
  rewrite Hc. destruct (loaded t1) as [|conf l]; [done|]. by rewrite Hrt.
Qed.

(** C35: an addition runs the plugin configurations of the container's network once
    each, in the order of the sorted file names; the first failure is the last
    addition and its error the outcome, and without one all were run and the value is
    the last result with an IPv4 address. A deletion that could load the
    configurations runs every one, in the opposite order, without the network
    namespace and whatever fails on the way, and ends with the last error. *)
Theorem cni_order up down tr1 r1 tr2 r2 :
  exec (CNIAdd up) tr1 r1 → exec (CNIDel down) tr2 r2 →
  (adds_of tr1 `prefix_of` map (λ conf, (conf, runtimeConf up)) (loaded tr1) ∧ dels_of tr1 = [] ∧
   (ok r1 = true → adds_of tr1 = map (λ conf, (conf, runtimeConf up)) (loaded tr1) ∧
     ∀ dir files, ev (Σ := host_sig) (ConfFiles dir) (Ok files) ∈ tr1 → files_of tr1 = sort_strings files) ∧
   (add_outcome None (add_results tr1) r1 ∨ add_results tr1 = [] ∧ ok r1 = false)) ∧
  (adds_of tr2 = [] ∧
   (dels_of tr2 = map (λ conf, (conf, without_netns (runtimeConf down))) (reverse (loaded tr2)) ∧
      r2 = err_result (last (omap id (del_errors tr2))) ∨
    dels_of tr2 = [] ∧ ok r2 = false)).
Proof. intros H1 H2. split; [by apply CNIAdd_exec|by eapply CNIDel_exec]. Qed.

(** ** A network of two plugins *)

Definition two_plugins : env host_sig := λ _ c,
  match c return hreply c with
  | ConfFiles _ => Ok ["/etc/cni/managed.d/20-portmap.json"; "/etc/cni/managed.d/10-bridge.conf"]
  | AddNetwork _ _ => Ok {| ResultIPs := [Some [10; 42; 0; 7]%Z]; ResultJSON := Ok "{}" |}
  | DelNetwork conf _ => Some ErrNotFound
  | c' => idle_reply c'
  end.

Definition demo_state : DockerPluginState :=
  {| ContainerID := "4f2a"; PluginNetworkMode := "managed"; PluginLabels := ∅; PID := 41 |}.

Lemma cni_order_witness :
  ∃ tr1 tr2 e, exec (CNIAdd demo_state) tr1 (Ok (Some {| ResultIPs := [Some [10; 42; 0; 7]%Z]; ResultJSON := Ok "{}" |})) ∧
    exec (CNIDel demo_state) tr2 (Err e) ∧
    map fst (adds_of tr1) = ["/etc/cni/managed.d/10-bridge.conf"; "/etc/cni/managed.d/20-portmap.json"] ∧
    dels_of tr2 = map (λ conf, (conf, without_netns (runtimeConf demo_state))) (reverse (loaded tr1)).
Proof.
  pose proof (run_exec two_plugins [] (CNIAdd demo_state)) as H1.
  pose proof (run_exec two_plugins [] (CNIDel demo_state)) as H2.
  assert ((run two_plugins [] (CNIAdd demo_state)).2 =
    Ok (Some {| ResultIPs := [Some [10; 42; 0; 7]%Z]; ResultJSON := Ok "{}" |})) as Hr1
    by (vm_compute; reflexivity).
  assert ((run two_plugins [] (CNIDel demo_state)).2 = Err ErrNotFound) as Hr2 by (vm_compute; reflexivity).
  rewrite Hr1 in H1. rewrite Hr2 in H2. eexists _, _, _. split; [exact H1|]. split; [exact H2|].
  destruct (cni_order _ _ _ _ _ _ H1 H2) as [(_ & _ & Hadd & _) [_ [[Hd _]|[Hd _]]]].
  - split; [|exact Hd]. rewrite (proj1 (Hadd eq_refl)). vm_compute. reflexivity.
  - exfalso. revert Hd. vm_compute. discriminate.
Defined.
