(* ===== verification/Manager.v ===== *)
(** * Container networking (network/manager.go, network/state.go)

    The manager compares what it has recorded of a container with what Docker
    says, and brings the container's network up or down. A turn runs under the
    container's lock; failed additions are retried by new turns. *)
From S2P Require Import Prelude Effects GoStrings World CniGlue.

Definition maxRetries : nat := 15.
Definition IPLabel : string := "io.rancher.container.ip".
Definition LegacyManagedNetLabel : string := "io.rancher.container.network".
Definition CNILabel : string := "io.rancher.cni.network".
Definition rootStateDir : string := "/var/lib/pasturestack/state/cni".

(** [path.Join] of elements without slashes and dot segments. *)
Definition path_join (dir name : string) : string :=
  if String.eqb name "" then dir else dir +:+ "/" +:+ name.

(** The start time of each container whose network is up. *)
Record state := { startTimes : gmap string string }.

Abbreviation sact A := (act host_sig state A).

(** A nil pointer is dereferenced. *)
Definition ErrNilPointer : error := ErrSentinel "nil pointer dereference".

(** ** The record of the container's network *)

Definition StartTime (id : string) (s : state) : string := zget "" (startTimes s) id.
Definition started (id startedAt : string) (s : state) : state :=
  {| startTimes := <[id := startedAt]> (startTimes s) |}.
Definition forgotten (id : string) (s : state) : state :=
  {| startTimes := delete id (startTimes s) |}.

(** The file operations between [CreateTemp] and the deferred removal; each
    failure is logged and ends them. *)
Definition save_temporary (tempName filename data : string) : hprog (result ()) :=
  chmod ← call1 (Chmod tempName 384);
  match chmod with Some e => _ ← call1 (Close tempName); Ret (Err e) | None =>
  written ← call1 (Write tempName data);
  match written with Some e => _ ← call1 (Close tempName); Ret (Err e) | None =>
  synced ← call1 (Sync tempName);
  match synced with Some e => _ ← call1 (Close tempName); Ret (Err e) | None =>
  closed ← call1 (Close tempName);
  match closed with Some e => Ret (Err e) | None =>
  renamed ← call1 (Rename tempName filename); Ret (err_result renamed)
  end end end end.

Definition writeState (id startedAt : string) (marshalled : result string) : hprog () :=
  let dir := path_join rootStateDir id in
  let filename := path_join dir startedAt in
  match marshalled with
  | Err _ => Ret ()
  | Ok data =>
      made ← call1 (MkdirAll dir);
      match made with
      | Some _ => Ret ()
      | None =>
          f ← call1 (CreateTemp dir startedAt);
          match f with
          | Err _ => Ret ()
          | Ok tempName =>
              _ ← save_temporary tempName filename data;
              _ ← call1 (Remove tempName); Ret ()
          end
      end
  end.

(** [json.Marshal] of a plugin result; a nil one is null. *)
Definition result_data (networkData : option CNIResult) : result string :=
  match networkData with Some r => ResultJSON r | None => Ok "null" end.

Definition pure_step (p : hprog ()) : sact () := lift (x ← p; Ret (Ok x)).

Definition Started (id startedAt : string) (networkData : option CNIResult) : sact () :=
  modify (started id startedAt);;
  pure_step (writeState id startedAt (result_data networkData)).

Definition Stopped (id : string) : sact () :=
  modify (forgotten id);;
  _ ← ask (Σ := host_sig) (RemoveAll (path_join rootStateDir id));
  mret ().

(** ** The container's network *)

(** [configureNetwork]: the network of the container's labels becomes the
    network mode of the inspect result, which the callers keep using. *)
Definition label_network (labels : gmap string string) : string :=
  match labels !! CNILabel with
  | Some net => net
  | None => if String.eqb (zget "" labels LegacyManagedNetLabel) "true"
               || negb (String.eqb (zget "" labels IPLabel) "")
            then "managed" else ""
  end.

Definition with_mode (net : string) (h : InspectHostConfig) : InspectHostConfig :=
  {| NetworkMode := net; DNSSearch := DNSSearch h |}.

Definition configureNetwork (inspect : Inspect) : option Inspect :=
  match ContainerConfig inspect, HostConfig inspect with
  | Some config, Some host =>
      let net := label_network (ConfigLabels config) in
      if String.eqb net "" then None else
      Some {| InspectID := InspectID inspect; State := State inspect;
              ContainerConfig := ContainerConfig inspect;
              HostConfig := Some (with_mode net host);
              HostsPath := HostsPath inspect; ResolvConfPath := ResolvConfPath inspect |}
  | _, _ => None
  end.

Definition hosts_line (ip hostname : string) : string := nl +:+ ip +:+ tab +:+ hostname +:+ nl.

Definition setupHosts (inspect : Inspect) (r : option CNIResult) : hprog (result ()) :=
  let ip := PrimaryIPv4 r in
  match ContainerConfig inspect with
  | None => Ret (Ok ())
  | Some config =>
      if String.eqb (ConfigHostname config) "" || String.eqb (HostsPath inspect) ""
         || String.eqb ip "" then Ret (Ok ()) else
      hosts ← call1 (ReadFile (HostsPath inspect));
      match hosts with
      | Err e => Ret (if is_not_exist e then Ok () else Err e)
      | Ok hostsString =>
          let line := hosts_line ip (ConfigHostname config) in
          if Contains hostsString line then Ret (Ok ()) else
          e ← call1 (WriteFile (HostsPath inspect) (hostsString +:+ line));
          Ret (err_result e)
      end
  end.

Section manager.
(** The JSON object that holds an error's message. *)
Context (error_data : error → result string).

Definition recordNetworkUpError {A} (id startedAt : string) (err : error) : sact A :=
  pure_step (writeState id startedAt (error_data err));; fail err.

Definition networkUp (id : string) (inspect : Inspect) (startedAt : string) (retryCount : nat)
    : sact () :=
  match LookupPluginState inspect with
  | Err e => recordNetworkUpError id startedAt (Wrapf "find CNI plugin state" e)
  | Ok pluginState =>
      added ← try (lift (CNIAdd pluginState));
      match added with
      | Err e =>
          if retryCount <? maxRetries
          then _ ← ask (Σ := host_sig) (GoRetry id (S retryCount)); fail e
          else recordNetworkUpError id startedAt (Wrapf "bring up CNI network" e)
      | Ok r =>
          hosts ← try (lift (setupHosts inspect r));
          match hosts with
          | Err e => recordNetworkUpError id startedAt (Wrapf "set up container hosts file" e)
          | Ok _ => Started id startedAt r
          end
      end
  end.

(** The deferred [Stopped] runs on every return. *)
Definition delete_network (inspect : Inspect) : hprog (result ()) :=
  match HostConfig inspect with
  | None => Ret (Ok ())
  | Some _ =>
      match LookupPluginState inspect with
      | Err e => Ret (Err (if is_not_exist e then Errorf "CNI state is nil"
                           else Wrapf "find CNI plugin state on down" e))
      | Ok pluginState => CNIDel pluginState
      end
  end.

Definition networkDown (id : string) (inspect : Inspect) : sact () :=
  r ← try (lift (delete_network inspect));
  Stopped id;;
  of_result r.

Definition no_container : Inspect :=
  {| InspectID := ""; State := None; ContainerConfig := None; HostConfig := None;
     HostsPath := ""; ResolvConfPath := "" |}.

Definition compare (id wasTime : string) (running : bool) (time : string) (inspect : Inspect)
    (retryCount : nat) : sact () :=
  let wasRunning := negb (String.eqb wasTime "") in
  if wasRunning then
    if running && negb (String.eqb wasTime time) then networkUp id inspect time retryCount
    else if negb running then networkDown id inspect
    else mret ()
  else if running then networkUp id inspect time retryCount
  else mret ().

Definition evaluate (id : string) (retryCount : nat) : sact () :=
  s ← get;
  let wasTime := StartTime id s in
  r ← ask (Σ := host_sig) (ContainerInspect id);
  match r with
  | Err e =>
      if is_not_found e then compare id wasTime false "" no_container retryCount else fail e
  | Ok inspect =>
      match configureNetwork inspect with
      | None => mret ()
      | Some inspect =>
          match State inspect with
          | None => fail ErrNilPointer
          | Some st => compare id wasTime (Running st) (StartedAt st) inspect retryCount
          end
      end
  end.

Definition Evaluate (id : string) : sact () := evaluate id 0.

(** The goroutine of a retry; its error is logged. *)
Definition retry (id : string) (retryCount : nat) : sact () :=
  _ ← ask (Σ := host_sig) (Sleep (2 * second)%Z);
  _ ← try (evaluate id retryCount);
  mret ().
End manager.

(** ** The containers that already run *)

Definition hasNetwork (pid : Z) : hprog (result bool) :=
  r ← call1 (NamespaceLinks pid);
  Ret (match r with
       | (links, None) => Ok (1 <? links)
       | (_, Some e) => Err e
       end).

Definition recover_step (s : state) (id : string) : hprog (result state) :=
  r ← call1 (ContainerInspect id);
  match r with
  | Err e => Ret (if is_not_found e then Ok s else Err e)
  | Ok inspect =>
      match State inspect with
      | None => Ret (Err ErrNilPointer)
      | Some st =>
          if negb (Running st) then Ret (Ok s) else
          has ← hasNetwork (Pid st);
          Ret (Ok (match has with
                   | Ok true => started id (StartedAt st) s
                   | _ => s
                   end))
      end
  end.

Definition newState : hprog (result state) :=
  ids <-? call1 ContainerList;
  pfold recover_step {| startTimes := ∅ |} ids.

(** ** What a turn does *)

Definition retries_of (tr : list hevent) : list (string * nat) :=
  omap (λ c, match c with GoRetry id count => Some (id, count) | _ => None end) (calls_of tr).
Lemma retries_of_app tr1 tr2 : retries_of (tr1 ++ tr2) = retries_of tr1 ++ retries_of tr2.
Proof. unfold retries_of. by rewrite calls_of_app, omap_app. Qed.

(** Calls that touch files only. *)
Definition file_call (c : hcall) : Prop :=
  match c with
  | MkdirAll _ | CreateTemp _ _ | Chmod _ _ | Write _ _ | Sync _ | Close _ | Rename _ _
  | Remove _ | ReadFile _ | WriteFile _ _ => True
  | _ => False
  end.
Definition cni_call (c : hcall) : Prop := is_loading c ∨ is_plugin c.

(** Neither CNI plugins nor retries. *)
Definition quiet (tr : list hevent) : Prop := adds_of tr = [] ∧ dels_of tr = [] ∧ retries_of tr = [].

Lemma file_quiet tr : Forall (λ e : hevent, file_call (projT1 e)) tr → quiet tr ∧ loaded tr = [].
Proof.
  unfold quiet. induction 1 as [|[c r] tr Hc _ ((IH1 & IH2 & IH3) & IH4)]; [done|].
  unfold adds_of, dels_of, retries_of, loaded in *. cbn. cbn in Hc. by destruct c.
Qed.

Lemma cni_no_retries tr : Forall (λ e : hevent, cni_call (projT1 e)) tr → retries_of tr = [].
Proof.
  induction 1 as [|[c r] tr Hc _ IH]; [done|]. unfold retries_of in *. cbn. cbn in Hc.
  destruct Hc as [Hc|Hc]; by destruct c.
Qed.

Lemma CNIAdd_calls st : hcalls cni_call (CNIAdd st).
Proof.
  apply calls_in_pbind_ok.
  - eapply calls_in_weaken; [|apply NewCNIExec_loading]. by left.
  - intros c. eapply calls_in_weaken; [|apply add_loop_plugins]. by right.
Qed.
Lemma CNIDel_calls st : hcalls cni_call (CNIDel st).
Proof.
  apply calls_in_pbind_ok.
  - eapply calls_in_weaken; [|apply NewCNIExec_loading]. by left.
  - intros c. eapply calls_in_weaken; [|apply del_loop_plugins]. by right.
Qed.

Lemma writeState_calls id startedAt data : hcalls file_call (writeState id startedAt data).
Proof.
  destruct data as [data|e]; [|done]. cbn. split; [done|]. intros [e|]; [done|].
  split; [done|]. intros [f|e]; [|done]. cbn. split; [done|].
  repeat (intros [?|]; cbn; [repeat (split; [done|]; intros ?); done|split; [done|]]).
  intros r. cbn. by split.
Qed.

Lemma setupHosts_calls inspect r : hcalls file_call (setupHosts inspect r).
Proof.
  unfold setupHosts. destruct (ContainerConfig inspect) as [config|]; [|done]. cbn zeta.
  destruct (_ || _ || _); [done|]. cbn. split; [done|]. intros [hosts|e]; [|done].
  destruct (Contains _ _); [done|]. by split.
Qed.

Lemma exec_quiet {A} (p : hprog A) tr a : hcalls file_call p → exec p tr a → quiet tr ∧ loaded tr = [].
Proof. intros Hp H. by apply file_quiet, (calls_in_exec (Σ := host_sig) _ _ _ _ Hp H). Qed.

Lemma quiet_app tr1 tr2 : quiet tr1 → quiet tr2 → quiet (tr1 ++ tr2).
Proof.
  unfold quiet. rewrite adds_of_app, dels_of_app, retries_of_app.
  intros (-> & -> & ->) (-> & -> & ->). done.
Qed.

Lemma pure_step_execs p s tr s' r :
  hcalls file_call p → execs (pure_step p) s tr s' r → quiet tr ∧ loaded tr = [] ∧ s' = s ∧ r = Ok ().
Proof.
  intros Hp [H ->]%execs_lift. apply exec_bind in H as (tr1 & tr2 & [] & -> & H & [-> ->]).
  rewrite app_nil_r. destruct (exec_quiet _ _ _ Hp H). by split_and!.
Qed.

(** Files touched at the end leave the rest of a trace as it is. *)
Lemma then_quiet tr tr' :
  quiet tr' → loaded tr' = [] →
  adds_of (tr ++ tr') = adds_of tr ∧ dels_of (tr ++ tr') = dels_of tr ∧
  retries_of (tr ++ tr') = retries_of tr ∧ loaded (tr ++ tr') = loaded tr.
Proof.
  intros (Ha & Hd & Hr) Hl. rewrite adds_of_app, dels_of_app, retries_of_app, loaded_app, Ha, Hd, Hr, Hl.
  by rewrite !app_nil_r.
Qed.

Section turns.
Context (error_data : error → result string).

Lemma record_execs {A} id startedAt err s tr s' (r : result A) :
  execs (recordNetworkUpError error_data id startedAt err) s tr s' r →
  quiet tr ∧ loaded tr = [] ∧ s' = s ∧ r = Err err.
Proof.
  intros H. unfold recordNetworkUpError in H. exec_step H.
  - apply pure_step_execs in H0 as (_ & _ & _ & ?); [done|apply writeState_calls].
  - apply pure_step_execs in H0 as (? & ? & -> & _); [|apply writeState_calls].
    apply execs_fail in H1 as (-> & -> & ->). by rewrite app_nil_r.
Qed.

(** Bringing a network up. *)
Inductive upped (id : string) (count : nat) (t : string) (st : DockerPluginState) (s : state)
    (tr : list hevent) : state → result () → Prop :=
  | up_done : retries_of tr = [] →
      adds_of tr = map (λ conf, (conf, runtimeConf st)) (loaded tr) →
      upped id count t st s tr (started id t s) (Ok ())
  | up_retried e : retries_of tr = [(id, S count)] → count < maxRetries →
      upped id count t st s tr s (Err e)
  | up_failed e : retries_of tr = [] →
      upped id count t st s tr s (Err e).

Lemma networkUp_execs id inspect t count s tr s' r st :
  LookupPluginState inspect = Ok st →
  execs (networkUp error_data id inspect t count) s tr s' r →
  upped id count t st s tr s' r ∧ dels_of tr = [] ∧
  adds_of tr `prefix_of` map (λ conf, (conf, runtimeConf st)) (loaded tr).
Proof.
  intros Hst H. unfold networkUp in H. rewrite Hst in H. exec_step H.
  { apply execs_try in H0 as (? & ? & ?). done. }
  apply execs_try in H0 as (r0 & [Hadd ->]%execs_lift & [= ->]).
  pose proof (cni_no_retries _ (calls_in_exec (Σ := host_sig) _ _ _ _ (CNIAdd_calls st) Hadd)) as Hret.
  apply CNIAdd_exec in Hadd as (Hpre & Hdel & Hok & _).
  assert (∀ tr2 r', quiet tr2 → loaded tr2 = [] →
    (retries_of tr0 = [] → adds_of tr0 = adds_of (tr0 ++ tr2) → loaded tr0 = loaded (tr0 ++ tr2) →
     retries_of (tr0 ++ tr2) = [] → upped id count t st s (tr0 ++ tr2) s' r') →
    upped id count t st s (tr0 ++ tr2) s' r' ∧ dels_of (tr0 ++ tr2) = [] ∧
    adds_of (tr0 ++ tr2) `prefix_of` map (λ conf, (conf, runtimeConf st)) (loaded (tr0 ++ tr2))) as Hend.
  { intros tr2 r' Hq Hl Hup. destruct (then_quiet tr0 tr2 Hq Hl) as (Ha & Hd & Hr & Hl').
    split; [apply Hup; congruence|]. rewrite Hd, Ha, Hl'. by split. }
  destruct r0 as [res|e].
  - apply execs_bind in H1 as [(? & _ & (? & _ & ?)%execs_try)|(tr3 & tr4 & s1 & h & -> & H0 & H1)]; [done|].
    apply execs_try in H0 as (r1 & [Hhosts ->]%execs_lift & [= ->]).
    apply exec_quiet in Hhosts as [Hq1 Hl1]; [|apply setupHosts_calls].
    destruct r1 as [[]|e].
    + unfold Started in H1.
      apply execs_bind in H1 as [(? & _ & (_ & _ & ?)%execs_modify)|(tr5 & tr6 & s2 & [] & -> & H0 & H1)]; [done|].
      apply execs_modify in H0 as (-> & -> & _).
      apply pure_step_execs in H1 as (Hq2 & Hl2 & -> & ->); [|apply writeState_calls].
      apply Hend; [by apply quiet_app|by rewrite !loaded_app, Hl1, Hl2|].
      intros _ Ha Hl Hr. apply up_done; [done|]. rewrite <-Ha, <-Hl. by apply Hok.
    + apply record_execs in H1 as (Hq2 & Hl2 & -> & ->).
      apply Hend; [by apply quiet_app|by rewrite !loaded_app, Hl1, Hl2|].
      intros _ _ _ Hr. by apply up_failed.
  - destruct (count <? maxRetries) eqn:Hc.
    + apply execs_bind in H1 as [(? & _ & (? & _ & _ & ?)%execs_hask)|(tr3 & tr4 & s1 & h & -> & H0 & H1)]; [done|].
      apply execs_hask in H0 as (x & -> & -> & [= ->]). apply execs_fail in H1 as (-> & -> & ->).
      rewrite adds_of_app, dels_of_app, loaded_app. cbn. rewrite !app_nil_r. split; [|by split].
      apply up_retried; [|by apply Nat.ltb_lt]. rewrite retries_of_app, Hret. done.
    + apply record_execs in H1 as (Hq2 & Hl2 & -> & ->). apply Hend; [done..|].
      intros _ _ _ Hr. by apply up_failed.
Qed.

Lemma delete_network_exec inspect tr r :
  exec (delete_network inspect) tr r →
  adds_of tr = [] ∧ retries_of tr = [] ∧
  (dels_of tr = [] ∧ (ok r = true → HostConfig inspect = None) ∨
   ∃ st, LookupPluginState inspect = Ok st ∧
     dels_of tr = map (λ conf, (conf, without_netns (runtimeConf st))) (reverse (loaded tr))).
Proof.
  unfold delete_network. destruct (HostConfig inspect) as [h|]; [|intros [-> ->]; by auto].
  cbn. intros H. pose proof (cni_no_retries _ (calls_in_exec (Σ := host_sig) _ _ _ _ (CNIDel_calls _) H)) as Hr.
  apply CNIDel_exec in H as [Ha Hd]. split; [done|]. split; [done|].
  destruct Hd as [[Hd _]|[Hd Hok]]; [right; by eexists|left]. split; [done|]. by rewrite Hok.
Qed.

Lemma Stopped_execs id s tr s' r :
  execs (Stopped id) s tr s' r →
  (∃ x, tr = [ev (Σ := host_sig) (RemoveAll (path_join rootStateDir id)) x]) ∧
  s' = forgotten id s ∧ r = Ok ().
Proof. intros (x & tr' & -> & [-> [= -> ->]]). split; [by exists x|done]. Qed.

Lemma networkDown_execs id inspect s tr s' r :
  execs (networkDown id inspect) s tr s' r →
  ∃ tr1 x, tr = tr1 ++ [ev (Σ := host_sig) (RemoveAll (path_join rootStateDir id)) x] ∧
    s' = forgotten id s ∧ exec (delete_network inspect) tr1 r.
Proof.
  intros H. unfold networkDown in H.
  apply execs_bind in H as [(? & _ & (? & _ & ?)%execs_try)|(tr1 & tr2 & s1 & h & -> & H0 & H)]; [done|].
  apply execs_try in H0 as (r1 & [H0 ->]%execs_lift & [= ->]).
  apply execs_bind in H as [(? & _ & (_ & _ & ?)%Stopped_execs)|(tr3 & tr4 & s2 & h & -> & H1 & H)]; [done|].
  apply Stopped_execs in H1 as ((x & ->) & -> & _). apply execs_of_result in H as (-> & -> & ->).
  exists tr1, x. by rewrite app_nil_r.
Qed.

(** ** One container as an abstract machine

    Its state is the start time its network was brought up for, if it is up. *)
Inductive observed := Absent | Unreadable | Unmanaged | NotRunning | RunningSince (t : string).

Definition observe (x : result Inspect) : observed :=
  match x with
  | Err e => if is_not_found e then Absent else Unreadable
  | Ok i =>
      match configureNetwork i, State i with
      | None, _ => Unmanaged
      | Some _, None => Unreadable
      | Some _, Some st => if Running st then RunningSince (StartedAt st) else NotRunning
      end
  end.

Inductive action := Nothing | Attach | AttachFailed | Detach.

Inductive spec_step : observed → option string → action → option string → Prop :=
  | spec_attach t a : a ≠ Some t → spec_step (RunningSince t) a Attach (Some t)
  | spec_attach_failed t a : a ≠ Some t → spec_step (RunningSince t) a AttachFailed a
  | spec_current t : spec_step (RunningSince t) (Some t) Nothing (Some t)
  | spec_detach o t : o = Absent ∨ o = NotRunning → spec_step o (Some t) Detach None
  | spec_off o : o = Absent ∨ o = NotRunning → spec_step o None Nothing None
  | spec_other o a : o = Unreadable ∨ o = Unmanaged → spec_step o a Nothing a.

(** What the plugins are run with: the container as Docker reports it, in the
    network of its labels. *)
Definition plugin_state (x : result Inspect) : option DockerPluginState :=
  match x with
  | Ok i => i' ← configureNetwork i;
            match LookupPluginState i' with Ok st => Some st | Err _ => None end
  | Err _ => None
  end.

(** The calls that carry out an action. *)
Definition performs (id : string) (count : nat) (x : result Inspect) (a : action)
    (tr : list hevent) (r : result ()) : Prop :=
  match a with
  | Nothing => quiet tr ∧ length tr = 1
  | Attach => r = Ok () ∧ dels_of tr = [] ∧ retries_of tr = [] ∧
      ∃ st, plugin_state x = Some st ∧ adds_of tr = map (λ conf, (conf, runtimeConf st)) (loaded tr)
  | AttachFailed => ok r = false ∧ dels_of tr = [] ∧
      (retries_of tr = [] ∨ retries_of tr = [(id, S count)] ∧ count < maxRetries) ∧
      ∃ st, plugin_state x = Some st ∧
        adds_of tr `prefix_of` map (λ conf, (conf, runtimeConf st)) (loaded tr)
  | Detach => adds_of tr = [] ∧ retries_of tr = [] ∧
      RemoveAll (path_join rootStateDir id) ∈ calls_of tr ∧
      (dels_of tr = [] ∧ (ok r = true → observe x = Absent) ∨
       ∃ st, plugin_state x = Some st ∧
         dels_of tr = map (λ conf, (conf, without_netns (runtimeConf st))) (reverse (loaded tr)))
  end.

Definition timed (s : state) : Prop := map_Forall (λ _ t, t ≠ "") (startTimes s).

Definition frame (id : string) (s s' : state) : Prop :=
  ∀ id', id' ≠ id → startTimes s' !! id' = startTimes s !! id'.

Lemma StartTime_spec id s :
  timed s → startTimes s !! id = if String.eqb (StartTime id s) "" then None else Some (StartTime id s).
Proof.
  intros Hs. unfold StartTime, zget. destruct (startTimes s !! id) as [t|] eqn:Ht; cbn; [|done].
  pose proof (Hs id t Ht) as Hne. by apply String.eqb_neq in Hne as ->.
Qed.

Lemma no_del_first id x tr :
  adds_of (ev (Σ := host_sig) (ContainerInspect id) x :: tr) = adds_of tr ∧
  dels_of (ev (Σ := host_sig) (ContainerInspect id) x :: tr) = dels_of tr ∧
  retries_of (ev (Σ := host_sig) (ContainerInspect id) x :: tr) = retries_of tr ∧
  loaded (ev (Σ := host_sig) (ContainerInspect id) x :: tr) = loaded tr.
Proof. done. Qed.

(** A turn carries out one step of the machine. *)
Definition carried_out (id : string) (count : nat) (x : result Inspect) (s : state)
    (tr : list hevent) (s' : state) (r : result ()) : Prop :=
  ∃ a, spec_step (observe x) (startTimes s !! id) a (startTimes s' !! id) ∧
    performs id count x a (ev (Σ := host_sig) (ContainerInspect id) x :: tr) r ∧
    frame id s s' ∧ timed s'.

Lemma nothing_carried_out id count x s r :
  timed s → spec_step (observe x) (startTimes s !! id) Nothing (startTimes s !! id) →
  carried_out id count x s [] s r.
Proof. intros Hs Hstep. exists Nothing. by split_and!. Qed.

Lemma up_carried_out id count x inspect t st s tr s' r :
  timed s → observe x = RunningSince t → t ≠ "" → plugin_state x = Some st →
  LookupPluginState inspect = Ok st → startTimes s !! id ≠ Some t →
  execs (networkUp error_data id inspect t count) s tr s' r →
  carried_out id count x s tr s' r.
Proof.
  intros Hs Ho Ht Hp Hst Hne H.
  apply (networkUp_execs _ _ _ _ _ _ _ _ _ Hst) in H as (Hup & Hdel & Hpre). unfold carried_out. rewrite Ho.
  destruct (no_del_first id x tr) as (Ea & Ed & Er & El). unfold performs. rewrite Ea, Ed, Er, El.
  destruct Hup as [Hr Hadd|e Hr Hc|e Hr].
  - exists Attach. cbn [started startTimes]. rewrite lookup_insert_eq. split; [by constructor|].
    split; [split_and!; [done..|by eexists]|]. split.
    + intros id' Hid. cbn. by rewrite lookup_insert_ne.
    + by apply map_Forall_insert_2.
  - exists AttachFailed. split; [by constructor|]. split; [|done].
    split_and!; [done..|by right|by eexists].
  - exists AttachFailed. split; [by constructor|]. split; [|done].
    split_and!; [done..|by left|by eexists].
Qed.

Lemma down_carried_out id count x inspect t s tr s' r :
  timed s → startTimes s !! id = Some t →
  (observe x = Absent ∧ HostConfig inspect = None ∨
   observe x = NotRunning ∧ HostConfig inspect ≠ None ∧
     ∃ st, plugin_state x = Some st ∧ LookupPluginState inspect = Ok st) →
  execs (networkDown id inspect) s tr s' r →
  carried_out id count x s tr s' r.
Proof.
  intros Hs Hid Ho (tr1 & y & -> & -> & H)%networkDown_execs.
  destruct (no_del_first id x (tr1 ++ [ev (Σ := host_sig) (RemoveAll (path_join rootStateDir id)) y]))
    as (Ea & Ed & Er & El).
  pose proof H as H0. apply delete_network_exec in H as (Ha & Hr & Hd).
  exists Detach. cbn [forgotten startTimes]. rewrite Hid, lookup_delete_eq.
  split; [constructor; naive_solver|]. split.
  - unfold performs. rewrite Ea, Ed, Er, El, adds_of_app, dels_of_app, retries_of_app, loaded_app, Ha, Hr.
    cbn. rewrite !app_nil_r. split; [done|]. split; [done|]. split.
    { right. unfold calls_of. rewrite map_app. apply elem_of_app. right. apply list_elem_of_here. }
    destruct Ho as [[Ho Hn]|(Ho & Hn & st & Hp & Hst)].
    + left. split; [|done]. unfold delete_network in H0. rewrite Hn in H0. by destruct H0 as [-> _].
    + destruct Hd as [[Hd Hok]|(st' & Hst' & Hd)]; [left; naive_solver|].
      right. exists st'. split; [congruence|done].
  - split; [|by apply map_Forall_delete]. intros id' Hne. cbn. by rewrite lookup_delete_ne.
Qed.

Lemma configured_observe i i' st :
  configureNetwork i = Some i' → LookupPluginState i' = Ok st →
  plugin_state (Ok i) = Some st ∧ HostConfig i' ≠ None ∧ State i' = State i ∧
  observe (Ok i) = match State i with
                   | None => Unreadable
                   | Some s => if Running s then RunningSince (StartedAt s) else NotRunning
                   end.
Proof.
  intros Hc Hst. split.
  { unfold plugin_state. rewrite Hc.
    change (match LookupPluginState i' with Ok st0 => Some st0 | Err _ => None end = Some st).
    by rewrite Hst. }
  cbn [observe]. rewrite Hc. assert (HostConfig i' ≠ None ∧ State i' = State i) as [? ?]; [|done].
  unfold configureNetwork in Hc. destruct (ContainerConfig i), (HostConfig i); try done.
  destruct (String.eqb _ _); [done|]. by injection Hc as <-.
Qed.

(** C2: a turn refines the abstract machine of its container. What Docker answers
    and what is recorded decide the step; attaching runs every plugin of the
    container's network, a failed attachment leaves the record as it was and
    schedules at most one retry, and only below the limit; detaching deletes with
    every plugin, in reverse, and forgets the container whatever fails. A
    container whose network is right, or that is not this program's, is left
    alone, and no turn touches another container's record. *)
Theorem evaluate_refines id count s tr s' r :
  timed s →
  (∀ i st, ev (Σ := host_sig) (ContainerInspect id) (Ok i) ∈ tr → State i = Some st →
     Running st = true → StartedAt st ≠ "") →
  execs (evaluate error_data id count) s tr s' r →
  ∃ x rest, tr = ev (Σ := host_sig) (ContainerInspect id) x :: rest ∧
    carried_out id count x s rest s' r.
Proof.
  intros Hs Hstart H. unfold evaluate in H.
  apply execs_bind in H as [(? & _ & (_ & _ & ?)%execs_get)|(tr0 & tr1 & s0 & w & -> & H0 & H)]; [done|].
  apply execs_get in H0 as (-> & -> & [= ->]). cbn zeta in H.
  apply execs_bind in H as [(? & _ & (? & _ & _ & ?)%execs_hask)|(tr0 & tr2 & s0 & x & -> & H0 & H)]; [done|].
  apply execs_hask in H0 as (x' & -> & -> & [= <-]). exists x, tr2. split; [done|]. cbn [app] in Hstart.
  pose proof (StartTime_spec id s Hs) as Hst. destruct x as [i|e].
  2:{ destruct (is_not_found e) eqn:He.
      2:{ apply execs_fail in H as (-> & -> & ->). apply nothing_carried_out; [done|].
          apply spec_other. cbn. rewrite He. by left. }
      assert (observe (Err e) = Absent) as Ho by (cbn; by rewrite He).
      unfold compare in H. destruct (String.eqb (StartTime id s) "") eqn:Hw; cbn [negb andb] in H.
      - apply execs_ret in H as (-> & -> & ->). apply nothing_carried_out; [done|].
        rewrite Ho, Hst. apply spec_off. by left.
      - eapply down_carried_out; [done|done| |exact H]. by left. }
  destruct (configureNetwork i) as [i'|] eqn:Hc.
  2:{ apply execs_ret in H as (-> & -> & ->). apply nothing_carried_out; [done|].
      apply spec_other. cbn. rewrite Hc. by right. }
  destruct (configured_observe i i' _ Hc eq_refl) as (Hp & Hh & Hsi & Ho). rewrite Hsi in H.
  destruct (State i) as [st|] eqn:Hi.
  2:{ apply execs_fail in H as (-> & -> & ->). apply nothing_carried_out; [done|].
      rewrite Ho. apply spec_other. by left. }
  unfold compare in H. destruct (Running st) eqn:Hrun; cbn [negb andb] in H.
  - assert (StartedAt st ≠ "") as Hne by (eapply Hstart; [apply list_elem_of_here|done..]).
    assert (startTimes s !! id ≠ Some (StartedAt st) → execs (networkUp error_data id i' (StartedAt st) count) s tr2 s' r →
      carried_out id count (Ok i) s tr2 s' r) as Hup.
    { intros Hd. by eapply up_carried_out. }
    destruct (String.eqb (StartTime id s) "") eqn:Hw; cbn [negb] in H; [apply Hup; [by rewrite Hst|done]|].
    destruct (String.eqb (StartTime id s) (StartedAt st)) eqn:Heq; cbn [negb] in H.
    + apply String.eqb_eq in Heq. apply execs_ret in H as (-> & -> & ->).
      apply nothing_carried_out; [done|]. rewrite Ho, Hst, Heq. constructor.
    + apply String.eqb_neq in Heq. apply Hup; [rewrite Hst; congruence|done].
  - destruct (String.eqb (StartTime id s) "") eqn:Hw; cbn [negb] in H.
    + apply execs_ret in H as (-> & -> & ->). apply nothing_carried_out; [done|].
      rewrite Ho, Hst. apply spec_off. by right.
    + eapply down_carried_out; [done|done| |exact H]. right. split; [done|]. split; [done|by eexists].
Qed.

(** ** Retries *)

Lemma networkUp_retries id inspect t count s tr s' r :
  execs (networkUp error_data id inspect t count) s tr s' r →
  retries_of tr = [] ∨ retries_of tr = [(id, S count)] ∧ count < maxRetries.
Proof. intros H. apply (networkUp_execs _ _ _ _ _ _ _ _ _ eq_refl) in H as ([] & _); auto. Qed.

Lemma networkDown_retries id inspect s tr s' r :
  execs (networkDown id inspect) s tr s' r → retries_of tr = [].
Proof.
  intros (tr1 & x & -> & _ & (_ & Hr & _)%delete_network_exec)%networkDown_execs.
  by rewrite retries_of_app, Hr.
Qed.

Lemma compare_retries id was running time inspect count s tr s' r :
  execs (compare error_data id was running time inspect count) s tr s' r →
  retries_of tr = [] ∨ retries_of tr = [(id, S count)] ∧ count < maxRetries.
Proof.
  unfold compare. destruct (negb (String.eqb was "")); [|destruct running].
  - destruct (running && _); [by apply networkUp_retries|].
    destruct (negb running); [intros ?%networkDown_retries; by left|].
    intros (-> & _)%execs_ret. by left.
  - by apply networkUp_retries.
  - intros (-> & _)%execs_ret. by left.
Qed.

Lemma evaluate_retries id count s tr s' r :
  execs (evaluate error_data id count) s tr s' r →
  retries_of tr = [] ∨ retries_of tr = [(id, S count)] ∧ count < maxRetries.
Proof.
  intros H. unfold evaluate in H.
  apply execs_bind in H as [(? & _ & (_ & _ & ?)%execs_get)|(tr0 & tr1 & s0 & w & -> & H0 & H)]; [done|].
  apply execs_get in H0 as (-> & -> & [= ->]). cbn zeta in H.
  apply execs_bind in H as [(? & _ & (? & _ & _ & ?)%execs_hask)|(tr0 & tr2 & s0 & x & -> & H0 & H)]; [done|].
  apply execs_hask in H0 as (x' & -> & _ & _). rewrite !retries_of_app. cbn [app].
  destruct x as [i|e].
  - destruct (configureNetwork i) as [i'|]; [|apply execs_ret in H as (-> & _); by left].
    destruct (State i'); [by eapply compare_retries|]. apply execs_fail in H as (-> & _). by left.
  - destruct (is_not_found e); [by eapply compare_retries|].
    apply execs_fail in H as (-> & _). by left.
Qed.

Lemma retry_retries id count s tr s' r :
  execs (retry error_data id count) s tr s' r →
  retries_of tr = [] ∨ retries_of tr = [(id, S count)] ∧ count < maxRetries.
Proof.
  intros H. unfold retry in H.
  apply execs_bind in H as [(? & _ & (? & _ & _ & ?)%execs_hask)|(tr0 & tr1 & s0 & x & -> & H0 & H)]; [done|].
  apply execs_hask in H0 as (? & -> & _ & _).
  apply execs_bind in H as [(? & _ & (? & _ & ?)%execs_try)|(tr2 & tr3 & s1 & y & -> & H0 & H)]; [done|].
  apply execs_try in H0 as (r' & H0 & _). apply execs_ret in H as (-> & _).
  rewrite !retries_of_app, app_nil_r. by apply evaluate_retries in H0.
Qed.

(** The manager with the retries that sleep; turns are atomic, as the lock of
    the container makes them. *)
Record system := { manager : state; pending : list (string * nat) }.

Inductive fires : system → system → Prop :=
  | fires_retry id count l1 l2 s tr s' r :
      execs (retry error_data id count) s tr s' r →
      fires {| manager := s; pending := l1 ++ (id, count) :: l2 |}
            {| manager := s'; pending := l1 ++ l2 ++ retries_of tr |}.

Inductive notified : system → system → Prop :=
  | notified_event id l s tr s' r :
      execs (Evaluate error_data id) s tr s' r →
      notified {| manager := s; pending := l |} {| manager := s'; pending := l ++ retries_of tr |}.

Definition sys_step (x y : system) : Prop := fires x y ∨ notified x y.

(** The turns the pending retries can still cause. *)
Definition budget (l : list (string * nat)) : nat := sum_list ((λ e, S maxRetries - e.2) <$> l).
Definition within (l : list (string * nat)) : Prop := Forall (λ e, 1 ≤ e.2 ≤ maxRetries) l.

Lemma budget_app l1 l2 : budget (l1 ++ l2) = budget l1 + budget l2.
Proof. unfold budget. rewrite fmap_app. induction l1 as [|e l1 IH]; cbn; [done|lia]. Qed.

Lemma within_step x y : within (pending x) → sys_step x y → within (pending y).
Proof.
  unfold within. intros Hw Hstep. revert Hw.
  destruct Hstep as [[id count l1 l2 s tr s' r H]|[id l s tr s' r H]]; cbn; intros Hw.
  - rewrite Forall_app, Forall_cons in Hw. destruct Hw as (? & ? & ?). rewrite !Forall_app.
    split; [done|]. split; [done|].
    apply retry_retries in H as [->|[-> ?]]; [constructor|]. constructor; [|constructor]. cbn. lia.
  - rewrite Forall_app. split; [done|].
    apply evaluate_retries in H as [->|[-> ?]]; [constructor|]. constructor; [|constructor]. cbn. lia.
Qed.

Lemma fires_budget x y : within (pending x) → fires x y → budget (pending y) < budget (pending x).
Proof.
  unfold within. intros Hw Hstep. revert Hw. destruct Hstep as [id count l1 l2 s tr s' r H]. cbn [pending manager]. intros Hw.
  rewrite Forall_app, Forall_cons in Hw. destruct Hw as (? & Hc & ?). cbn in Hc.
  rewrite !budget_app. change ((id, count) :: l2) with ([(id, count)] ++ l2). rewrite budget_app.
  apply retry_retries in H as [->|[-> ?]]; cbn; unfold maxRetries in *; lia.
Qed.

Lemma fires_progress x : pending x ≠ [] → ∃ y, fires x y.
Proof.
  destruct x as [s [|[id count] l]]; [done|]. intros _.
  pose proof (run_exec (Σ := host_sig) (λ _, idle_reply) [] (retry error_data id count s)) as H.
  rewrite (surjective_pairing (run _ _ _).2) in H.
  eexists. eapply (fires_retry id count [] l). exact H.
Qed.

Inductive reachable : system → Prop :=
  | reachable_start s : reachable {| manager := s; pending := [] |}
  | reachable_step x y : reachable x → sys_step x y → reachable y.

(** C18: retries end. In every reachable system the pending ones have a count of at
    most [maxRetries]; without new events at most [budget] further turns happen,
    whatever the plugins and Docker reply, any schedule of them ends, and it ends
    only when nothing is pending. One event can cause at most [maxRetries] retries. *)
Theorem retries_terminate x :
  reachable x →
  within (pending x) ∧
  (∀ n y, nsteps fires n x y → n + budget (pending y) ≤ budget (pending x)) ∧
  Acc (flip fires) x ∧
  (∀ n y, nsteps fires n x y → (∀ z, ¬ fires y z) → pending y = []) ∧
  (∀ y, notified x y → budget (pending y) ≤ budget (pending x) + maxRetries).
Proof.
  intros Hx. assert (within (pending x)) as Hw.
  { induction Hx as [s|x y _ IH Hstep]; [constructor|by eapply within_step]. }
  clear Hx. split; [done|]. split; [|split; [|split]].
  - intros n y H. revert Hw. induction H as [|n x y z Hxy _ IH]; intros Hw; [lia|].
    pose proof (fires_budget _ _ Hw Hxy). enough (n + budget (pending z) ≤ budget (pending y)) by lia.
    apply IH. eapply within_step; [exact Hw|by left].
  - remember (budget (pending x)) as n eqn:Hn. assert (budget (pending x) ≤ n) as Hle by lia. clear Hn.
    revert x Hw Hle. induction n as [|n IH]; intros x Hw Hle; constructor; intros y Hy;
      pose proof (fires_budget _ _ Hw Hy); [lia|].
    apply IH; [|lia]. eapply within_step; [exact Hw|by left].
  - intros n y _ Hstuck. destruct (pending y) eqn:Hp; [done|]. exfalso.
    destruct (fires_progress y) as [z Hz]; [by rewrite Hp|]. by destruct (Hstuck z).
  - intros y Hy. destruct Hy as [id l s tr s' r H]. cbn [pending]. rewrite budget_app.
    apply evaluate_retries in H as [->|[-> _]]; unfold budget at 2; cbn; unfold maxRetries; lia.
Qed.
End turns.

(** ** A container whose plugin fails once *)

Definition legacy_inspect (startedAt : string) : Inspect :=
  {| InspectID := "4f2a"; State := Some {| Running := true; Pid := 41; StartedAt := startedAt |};
     ContainerConfig := Some {| ConfigHostname := "web";
       ConfigLabels := {[ LegacyManagedNetLabel := "true" ]} |};
     HostConfig := Some {| NetworkMode := "bridge"; DNSSearch := None |};
     HostsPath := "/hosts"; ResolvConfPath := "" |}.

Definition docker_reply (broken : bool) (c : hcall) : hreply c :=
  match c return hreply c with
  | ContainerInspect _ => Ok (legacy_inspect "2024-05-01")
  | ConfFiles _ => Ok ["20.json"; "10.conf"]
  | AddNetwork _ _ => if broken then Err ErrNotExist
                      else Ok {| ResultIPs := [Some [10; 42; 0; 7]%Z]; ResultJSON := Ok "{}" |}
  | CreateTemp dir pattern => Ok (dir +:+ "/" +:+ pattern +:+ "1")
  | c' => idle_reply c'
  end.

Definition plain_error (e : error) : result string := Ok "{}".
Definition stale : state := {| startTimes := {[ "4f2a" := "2024-04-01" ]} |}.
Definition good_turn := run (Σ := host_sig) (λ _, docker_reply false) [] (Evaluate plain_error "4f2a" stale).
Definition bad_turn := run (Σ := host_sig) (λ _, docker_reply true) [] (Evaluate plain_error "4f2a" stale).

Lemma static_starts h (b : bool) {A} (p : hprog A) i st :
  ev (Σ := host_sig) (ContainerInspect "4f2a") (Ok i) ∈ (run (Σ := host_sig) (λ _, docker_reply b) h p).1 →
  State i = Some st → Running st = true → StartedAt st ≠ "".
Proof. intros Hin%(run_static (docker_reply b)). injection Hin as ->. by intros [= <-] _. Qed.

Lemma evaluate_refines_witness :
  snd good_turn.2 = Ok () ∧ startTimes (fst good_turn.2) = {[ "4f2a" := "2024-05-01" ]} ∧
  map fst (adds_of good_turn.1) = ["10.conf"; "20.json"] ∧
  ∃ x rest, good_turn.1 = ev (Σ := host_sig) (ContainerInspect "4f2a") x :: rest ∧
    carried_out "4f2a" 0 x stale rest (fst good_turn.2) (snd good_turn.2).
Proof.
  split; [vm_compute; reflexivity|]. split; [vm_compute; reflexivity|]. split; [vm_compute; reflexivity|].
  pose proof (run_exec (Σ := host_sig) (λ _, docker_reply false) [] (Evaluate plain_error "4f2a" stale)) as H.
  fold good_turn in H. rewrite (surjective_pairing good_turn.2) in H.
  apply (evaluate_refines plain_error "4f2a" 0 stale good_turn.1 _ _); [| |exact H].
  - apply map_Forall_singleton. discriminate.
  - intros i st. apply static_starts.
Defined.

Lemma retries_terminate_witness :
  ∃ x, reachable plain_error x ∧ pending x = [("4f2a", 1)] ∧ budget (pending x) = 15 ∧
    Acc (flip (fires plain_error)) x.
Proof.
  pose proof (run_exec (Σ := host_sig) (λ _, docker_reply true) [] (Evaluate plain_error "4f2a" stale)) as H.
  fold bad_turn in H. rewrite (surjective_pairing bad_turn.2) in H.
  exists {| manager := fst bad_turn.2; pending := [] ++ retries_of bad_turn.1 |}.
  assert (reachable plain_error {| manager := fst bad_turn.2; pending := [] ++ retries_of bad_turn.1 |}) as Hx.
  { apply (reachable_step _ {| manager := stale; pending := [] |}); [constructor|].
    right. exact (notified_event _ "4f2a" [] _ _ _ _ H). }
  split; [exact Hx|]. split; [vm_compute; reflexivity|]. split; [vm_compute; reflexivity|].
  exact (proj1 (proj2 (proj2 (retries_terminate _ _ Hx)))).
Defined.
