(* ===== verification/StartHandler.v ===== *)
(** * The resolver configuration of a container (events/start_handler.go)

    When a managed container starts, its resolv.conf is edited: foreign name
    servers are commented out, the platform's search domains and the metadata
    name server are added. *)
From S2P Require Import Prelude Effects GoStrings World Manager.

Definition MetadataNameserver : string := "169.254.169.250".
Definition PlatformDomain : string := "pasture.internal".
Definition LegacyDNSLabel : string := "io.rancher.container.dns".
Definition LegacyDNSPriorityLabel : string := "io.rancher.container.dns.priority".
Definition LegacyNetworkLabel : string := "io.rancher.container.network".
Definition ServiceNameLabel : string := "io.rancher.stack_service.name".

(** ** [bufio.Scanner] over lines *)

Definition MaxScanTokenSize : N := 64 * 1024.
Definition ErrTooLong : error := ErrSentinel "bufio.ErrTooLong".

(** [dropCR] *)
Fixpoint drop_cr (s : string) : string :=
  match s with
  | EmptyString => ""
  | String a EmptyString => if Ascii.eqb a "013" then "" else s
  | String a s' => String a (drop_cr s')
  end.

(** The text between line ends; a last empty piece is no line. *)
Definition raw_lines (content : string) : list string :=
  let pieces := Split content "010" in
  if String.eqb (default "" (last pieces)) "" then removelast pieces else pieces.

(** The scanner's buffer must hold the line. *)
Definition fits (raw : string) : bool := (N.of_nat (String.length raw) <? MaxScanTokenSize)%N.

(** ** The search domains *)

(** [strings.SplitN(value, "/", 2)] of [stack/service]. *)
Definition service_domains (labels : gmap string string) : option (string * string) :=
  value ← labels !! ServiceNameLabel;
  let '(stack, svc, found) := Cut value "/" in
  if found && negb (String.eqb stack "") && negb (String.eqb svc "")
  then Some (ToLower svc +:+ "." +:+ ToLower stack +:+ "." +:+ PlatformDomain,
             ToLower stack +:+ "." +:+ PlatformDomain)
  else None.

Definition getDNSSearch (container : Inspect) : result (list string) :=
  match ContainerConfig container, HostConfig container with
  | Some config, Some host =>
      let '(svc, stack) := default ("", "") (service_domains (ConfigLabels config)) in
      let labelled := if service_domains (ConfigLabels config) is Some _ then [svc; stack] else [] in
      let searched := filter (λ d, d ≠ svc ∧ d ≠ stack) (default [] (DNSSearch host)) in
      Ok (labelled ++ searched ++ [PlatformDomain])
  | _, _ => Err ErrNilPointer
  end.

(** ** The edit *)

(** The loop's variables; the lines written so far. *)
Record edit := { buffer : list string; searchSet : bool; nameserverSet : bool }.

Definition service_last (container : Inspect) : bool :=
  match ContainerConfig container with
  | Some config => String.eqb (zget "" (ConfigLabels config) LegacyDNSPriorityLabel) "service_last"
  | None => false
  end.

Definition missing_domains (text : string) (domains : list string) : list string :=
  filter (λ d, Contains text (" " +:+ d) = false) domains.

(** [strings.Replace(text, "search", "search " + added, 1)] of a text that
    starts with it. *)
Definition search_line (container : Inspect) (text : string) (domains : list string) : string :=
  let added := Join (missing_domains text domains) " " in
  if service_last container then text +:+ " " +:+ added
  else "search" +:+ " " +:+ added +:+ TrimPrefix text "search".

Definition edit_line (container : Inspect) (e : edit) (raw : string) : result edit :=
  if negb (fits raw) then Err ErrTooLong else
  let text := drop_cr raw in
  let found := GoStrings.Contains text MetadataNameserver in
  let text := if negb found && HasPrefix text "nameserver" then "# " +:+ text else text in
  let nameserver := nameserverSet e || found in
  if HasPrefix text "search" then
    match getDNSSearch container with
    | Err err => Err err
    | Ok domains =>
        Ok {| buffer := buffer e ++ [search_line container text domains];
              searchSet := true; nameserverSet := nameserver |}
    end
  else Ok {| buffer := buffer e ++ [text]; searchSet := searchSet e; nameserverSet := nameserver |}.

Definition add_search (container : Inspect) (e : edit) : result (list string) :=
  if searchSet e then Ok (buffer e) else
  match getDNSSearch container with
  | Err err => Err err
  | Ok domains => Ok (buffer e ++ ["search " +:+ ToLower (Join domains " ")])
  end.

Definition edit_lines (container : Inspect) (raws : list string) : result (list string) :=
  match result_fold (edit_line container) {| buffer := []; searchSet := false; nameserverSet := false |} raws with
  | Err err => Err err
  | Ok e =>
      match add_search container e with
      | Err err => Err err
      | Ok lines =>
          Ok (if nameserverSet e then lines else lines ++ ["nameserver " +:+ MetadataNameserver])
      end
  end.

(** The text of lines, each ended. *)
Definition unlines (lines : list string) : string := foldr (λ l t, l +:+ nl +:+ t) "" lines.

Definition setupResolvConf (container : Inspect) : hprog (result ()) :=
  if String.eqb (ResolvConfPath container) "/etc/resolv.conf" then Ret (Ok ()) else
  content <-? call1 (ReadFile (ResolvConfPath container));
  match edit_lines container (raw_lines content) with
  | Err err => Ret (Err err)
  | Ok lines =>
      e ← call1 (WriteFile (ResolvConfPath container) (unlines lines));
      Ret (err_result e)
  end.

(** [Handle], between taking and releasing the container's lock. *)
Definition handle_start (containerID : string) : hprog (result ()) :=
  c <-? call1 (ContainerInspect containerID);
  match State c, ContainerConfig c with
  | None, _ => Ret (Err ErrNilPointer)
  | Some st, None => Ret (if Running st then Err ErrNilPointer else Ok ())
  | Some st, Some config =>
      let label := zget "" (ConfigLabels config) in
      if negb (Running st) then Ret (Ok ())
      else if String.eqb (label LegacyDNSLabel) "false" then Ret (Ok ())
      else if negb (String.eqb (label CNILabel) "") || String.eqb (label LegacyDNSLabel) "true"
              || String.eqb (label LegacyNetworkLabel) "true"
      then setupResolvConf c
      else Ret (Ok ())
  end.
(** ** What the edit leaves *)

Abbreviation name_line l := (HasPrefix l "nameserver").
Abbreviation search_entry l := (HasPrefix l "search").

Lemma prefixes_disjoint l p q a b :
  HasPrefix l (String a p) = true → HasPrefix l (String b q) = true → a = b.
Proof.
  intros [t ->]%HasPrefix_spec [u Hu]%HasPrefix_spec. rewrite !app_cons_str in Hu. by injection Hu as ->.
Qed.

(** A search line names every domain. *)
Lemma search_line_spec container text domains :
  search_entry text = true →
  search_entry (search_line container text domains) = true ∧
  ∀ d, d ∈ domains → GoStrings.Contains (search_line container text domains) (" " +:+ d) = true.
Proof.
  intros Hs. unfold search_line. assert (∀ d, d ∈ domains → GoStrings.Contains text (" " +:+ d) = false →
    GoStrings.Contains (" " +:+ Join (missing_domains text domains) " ") (" " +:+ d) = true) as Hmiss.
  { intros d Hd Hn. apply Contains_Join. apply list_elem_of_filter. done. }
  destruct (service_last container).
  - split; [by apply HasPrefix_app_l|]. intros d Hd.
    destruct (GoStrings.Contains text (" " +:+ d)) eqn:Hc; [by apply Contains_app_l|].
    by apply Contains_app_r, Hmiss.
  - split; [apply HasPrefix_self|]. intros d Hd. apply Contains_app_r.
    destruct (GoStrings.Contains text (" " +:+ d)) eqn:Hc; rewrite <-app_assoc_str.
    + apply Contains_app_r. apply HasPrefix_spec in Hs as [t ->]. rewrite TrimPrefix_self.
      by apply (Contains_skip " " "search").
    + by apply Contains_app_l, Hmiss.
Qed.

(** What becomes of a line. *)
Inductive edited (domains : list string) (old : string) : string → Prop :=
  | edited_kept :
      (name_line old = true → GoStrings.Contains old MetadataNameserver = true) →
      search_entry old = false → edited domains old old
  | edited_commented :
      name_line old = true → GoStrings.Contains old MetadataNameserver = false →
      edited domains old ("# " +:+ old)
  | edited_search new :
      search_entry old = true → search_entry new = true →
      (∀ d, d ∈ domains → GoStrings.Contains new (" " +:+ d) = true) → edited domains old new.

Definition mentions (l : string) : bool := GoStrings.Contains l MetadataNameserver.

Lemma edit_line_spec container domains e raw e' :
  getDNSSearch container = Ok domains → edit_line container e raw = Ok e' →
  ∃ new, buffer e' = buffer e ++ [new] ∧ edited domains (drop_cr raw) new ∧
    searchSet e' = searchSet e || search_entry (drop_cr raw) ∧
    nameserverSet e' = nameserverSet e || mentions (drop_cr raw).
Proof.
  intros Hd. unfold edit_line, mentions. destruct (fits raw); cbn [negb]; [|done]. cbn zeta.
  set (text := drop_cr raw). destruct (GoStrings.Contains text MetadataNameserver) eqn:Hm;
    cbn [negb andb].
  - destruct (search_entry text) eqn:Hs.
    + rewrite Hd. intros [= <-]. eexists. split; [done|].
      destruct (search_line_spec container text domains Hs).
      split; [by apply edited_search|]. by rewrite !orb_true_r.
    + intros [= <-]. eexists. split; [done|]. split; [by apply edited_kept|]. by rewrite orb_false_r.
  - destruct (name_line text) eqn:Hn.
    + assert (search_entry text = false) as Hs.
      { destruct (search_entry text) eqn:Hs; [|done]. by pose proof (prefixes_disjoint _ _ _ _ _ Hn Hs). }
      intros [= <-]. eexists. split; [done|]. split; [by apply edited_commented|].
      by rewrite Hs, !orb_false_r.
    + destruct (search_entry text) eqn:Hs.
      * rewrite Hd. intros [= <-]. eexists. split; [done|].
        destruct (search_line_spec container text domains Hs).
        split; [by apply edited_search|]. by rewrite !orb_true_r, ?orb_false_r.
      * intros [= <-]. eexists. split; [done|]. split; [apply edited_kept; [congruence|done]|]. by rewrite !orb_false_r.
Qed.

Lemma edit_fold_spec container domains raws e e' :
  getDNSSearch container = Ok domains → result_fold (edit_line container) e raws = Ok e' →
  ∃ new, buffer e' = buffer e ++ new ∧ Forall2 (edited domains) (map drop_cr raws) new ∧
    searchSet e' = searchSet e || existsb (λ l, search_entry l) (map drop_cr raws) ∧
    nameserverSet e' = nameserverSet e || existsb mentions (map drop_cr raws).
Proof.
  intros Hd. revert e. induction raws as [|raw raws IH]; intros e; cbn [result_fold map existsb].
  { intros [= <-]. exists []. by rewrite app_nil_r, !orb_false_r. }
  destruct (edit_line container e raw) as [e1|] eqn:He; [|done]. intros H.
  destruct (edit_line_spec _ _ _ _ _ Hd He) as (n & Hb & Hn & Hs & Hm).
  destruct (IH _ H) as (ns & Hb' & Hns & Hs' & Hm'). exists (n :: ns).
  rewrite Hb', Hb, Hs', Hs, Hm', Hm, <-app_assoc, !orb_assoc. split; [done|]. split; [by constructor|done].
Qed.

(** A domain is only looked up successfully. *)
Lemma edit_lines_domains container raws out :
  edit_lines container raws = Ok out → ∃ domains, getDNSSearch container = Ok domains.
Proof.
  unfold edit_lines. destruct (result_fold _ _ raws) as [e|] eqn:He; [|done].
  unfold add_search. destruct (getDNSSearch container) as [domains|err] eqn:Hd; [by exists domains|].
  destruct (searchSet e) eqn:Hs; [|done]. intros _. exfalso.
  assert (searchSet e = false) as Hs'; [|congruence]. clear Hs.
  apply (result_fold_inv (edit_line container) (λ e, searchSet e = false) raws _ e) in He; [done|done|].
  intros e1 raw e2 _ H1. unfold edit_line. destruct (fits raw); [|done]. cbn zeta.
  destruct (search_entry _); [by rewrite Hd|]. by intros [= <-].
Qed.

Lemma edited_name domains old new :
  edited domains old new → name_line new = true → mentions new = true.
Proof.
  intros [Hk _|_ _|new' _ Hs _] Hn; [by apply Hk| |].
  - discriminate Hn.
  - by pose proof (prefixes_disjoint _ _ _ _ _ Hs Hn).
Qed.

Lemma edited_source domains olds kept l :
  Forall2 (edited domains) olds kept → l ∈ kept → ∃ old, old ∈ olds ∧ edited domains old l.
Proof.
  intros Hk Hl. apply list_elem_of_lookup in Hl as [i Hi].
  destruct (Forall2_lookup_r _ _ _ _ _ Hk Hi) as (old & ? & ?). exists old.
  split; [by eapply list_elem_of_lookup_2|done].
Qed.

(** Without a mention of the metadata address no name server stays active. *)
Lemma edited_name_lines domains olds kept :
  Forall2 (edited domains) olds kept → existsb mentions olds = false →
  filter (λ l, name_line l = true) kept = [].
Proof.
  intros Hk Hno. destruct (filter _ kept) as [|l ls] eqn:Hf; [done|]. exfalso.
  assert (l ∈ filter (λ l, name_line l = true) kept) as [Hn Hl]%list_elem_of_filter
    by (rewrite Hf; apply list_elem_of_here).
  destruct (edited_source _ _ _ _ Hk Hl) as (old & Hin & Hed).
  destruct Hed as [Hkeep _|_ _|new _ Hsn _]; [|discriminate Hn|by pose proof (prefixes_disjoint _ _ _ _ _ Hsn Hn)].
  assert (existsb mentions olds = true); [|congruence].
  apply existsb_exists. exists old. split; [by apply list_elem_of_In|by apply Hkeep].
Qed.


(** ** A Docker resolv.conf *)

Definition service_container : Inspect :=
  {| InspectID := "4f2a"; State := Some {| Running := true; Pid := 41; StartedAt := "2024-05-01" |};
     ContainerConfig := Some {| ConfigHostname := "web";
       ConfigLabels := {[ ServiceNameLabel := "Shop/Web" ]} |};
     HostConfig := Some {| NetworkMode := "bridge"; DNSSearch := Some ["example.test"] |};
     HostsPath := "/hosts"; ResolvConfPath := "/resolv.conf" |}.

Definition host_resolv : string :=
  unlines ["nameserver 192.0.2.53"; "search example.test"; "options ndots:0"].

Definition resolver_host (content : string) : env host_sig := λ _ c,
  match c return hreply c with
  | ReadFile _ => Ok content
  | c' => idle_reply c'
  end.

Definition edited_resolv : string :=
  unlines ["# nameserver 192.0.2.53";
    "search web.shop.pasture.internal shop.pasture.internal pasture.internal example.test";
    "options ndots:0"; "nameserver 169.254.169.250"].


(** A file that names the metadata address outside a name server line ends up
    with no name server at all. *)
Lemma nameserver_lost :
  edit_lines service_container
    ["nameserver 127.0.0.11"; "search example.test"; "# ExtServers: [169.254.169.250]"] =
  Ok ["# nameserver 127.0.0.11";
      "search web.shop.pasture.internal shop.pasture.internal pasture.internal example.test";
      "# ExtServers: [169.254.169.250]"].
Proof. vm_compute. reflexivity. Qed.
