(* ===== verification/Readiness.v ===== *)
(** * The readiness marker (internal/readiness/readiness.go)

    The tracker keeps the health of both firewall watchers; a file is present
    exactly while both are healthy. The mutex makes every report atomic. *)
From S2P Require Import Prelude Effects GoStrings GoNet World.

Record Tracker := { path : string; nat_ok : bool; ports_ok : bool }.

(** [filepath.Dir] of a clean path. *)
Definition Dir (p : string) : string :=
  match cut_last p "/" with
  | None => "."
  | Some (d, _) => if String.eqb d "" then "/" else d
  end.

Abbreviation tact A := (act host_sig Tracker A).

Definition New (p : string) : hprog (result Tracker) :=
  if String.eqb p "" then Ret (Err (Errorf "readiness path is empty")) else
  err ← call1 (Remove p);
  match err with
  | Some e => if is_not_exist e
              then Ret (Ok {| path := p; nat_ok := false; ports_ok := false |})
              else Ret (Err (Wrapf "clear stale readiness" e))
  | None => Ret (Ok {| path := p; nat_ok := false; ports_ok := false |})
  end.

Definition set_health (c : component) (reconcileErr : option error) (t : Tracker) : Tracker :=
  let healthy := bool_decide (reconcileErr = None) in
  match c with
  | HostNAT => {| path := path t; nat_ok := healthy; ports_ok := ports_ok t |}
  | HostPorts => {| path := path t; nat_ok := nat_ok t; ports_ok := healthy |}
  end.

Definition clear_marker (p : string) : hprog (result ()) :=
  err ← call1 (Remove p);
  Ret (match err with
       | Some e => if is_not_exist e then Ok () else Err (Wrapf "clear unhealthy readiness" e)
       | None => Ok ()
       end).

(** The marker is written to a temporary file and renamed; the deferred
    removal of the temporary name runs on every path. *)
Definition publish_marker (p : string) : hprog (result ()) :=
  file <-? wrapped "create readiness marker" (call1 (CreateTemp (Dir p) ".pasturestack-network-ready-"));
  r ← (werr ← call1 (Write file ("ready" +:+ nl));
       match werr with
       | Some e => _ ← call1 (Close file); Ret (Err (Wrapf "write readiness marker" e))
       | None =>
           cerr ← call1 (Close file);
           match cerr with
           | Some e => Ret (Err (Wrapf "close readiness marker" e))
           | None =>
               rerr ← call1 (Rename file p);
               Ret (wrap_err "publish readiness marker" (err_result rerr))
           end
       end);
  _ ← call1 (Remove file);
  Ret r.

Definition ensure_marker (p : string) : hprog (result ()) :=
  err ← call1 (Stat p);
  match err with
  | None => Ret (Ok ())
  | Some e => if is_not_exist e then publish_marker p
              else Ret (Err (Wrapf "inspect readiness" e))
  end.

Definition ReportHealth (c : component) (reconcileErr : option error) : tact () :=
  modify (set_health c reconcileErr);;
  t ← get;
  if negb (nat_ok t) || negb (ports_ok t) then lift (clear_marker (path t))
  else lift (ensure_marker (path t)).

(** ** Properties *)

(** Whether the marker file is present after an event, given that it was
    present before it or not. *)
Definition marker_step (p : string) (present : bool) (e : hevent) : bool :=
  match e with
  | existT (Remove q) None => if String.eqb q p then false else present
  | existT (Remove q) (Some err) => if String.eqb q p && is_not_exist err then false else present
  | existT (Rename old new) None =>
      if String.eqb new p then true else if String.eqb old p then false else present
  | existT (CreateTemp _ _) (Ok q) => if String.eqb q p then true else present
  | existT (Stat q) None => if String.eqb q p then true else present
  | existT (Stat q) (Some err) => if String.eqb q p && is_not_exist err then false else present
  | _ => present
  end.

Definition marker (p : string) (present : bool) (tr : list hevent) : bool :=
  foldl (marker_step p) present tr.

(** The system's temporary names are not the marker's own name. *)
Definition fresh_temp (p : string) (e : hevent) : Prop :=
  match e with existT (CreateTemp _ _) (Ok q) => q ≠ p | _ => True end.

Lemma marker_app p b tr1 tr2 : marker p b (tr1 ++ tr2) = marker p (marker p b tr1) tr2.
Proof. apply foldl_app. Qed.

Lemma clear_marker_exec p tr b :
  exec (clear_marker p) tr (Ok ()) → marker p b tr = false.
Proof.
  unfold clear_marker. intros (tr1 & tr2 & r & -> & ->%exec_call1 & [-> Hr])%exec_bind.
  cbn. destruct r as [e|]; rewrite String.eqb_refl; [|done].
  by destruct (is_not_exist e).
Qed.

Lemma publish_marker_exec p tr b :
  exec (publish_marker p) tr (Ok ()) → Forall (fresh_temp p) tr → marker p b tr = true.
Proof.
  unfold publish_marker. intros H Hf.
  apply exec_pbind_ok in H as [(? & ? & _)|(tr1 & tr2 & file & -> & Hc & H)]; [done|].
  apply exec_wrapped in Hc as ([file'|] & ->%exec_call1 & [= <-]).
  apply Forall_app in Hf as [[Hfile _]%Forall_cons Hf]. cbn in Hfile.
  apply exec_bind in H as (tr3 & tr4 & r & -> & H1 & H).
  apply exec_bind in H as (tr5 & tr6 & r6 & -> & ->%exec_call1 & [-> [= <-]]).
  assert (marker p b (ev (Σ := host_sig) (CreateTemp (Dir p) ".pasturestack-network-ready-")
    (Ok file) :: tr3) = true) as Hm.
  { apply exec_bind in H1 as (tr7 & tr8 & werr & -> & ->%exec_call1 & H1).
    destruct werr as [e|].
    { apply exec_bind in H1 as (? & ? & ? & _ & _ & [_ ?]). done. }
    apply exec_bind in H1 as (tr9 & tr10 & cerr & -> & ->%exec_call1 & H1).
    destruct cerr as [e|]; [by destruct H1|].
    apply exec_bind in H1 as (tr11 & tr12 & rerr & -> & ->%exec_call1 & [-> H1]).
    destruct rerr as [e|]; [done|]. cbn. by rewrite String.eqb_refl. }
  rewrite app_nil_r, app_assoc, marker_app.
  change ([?e] ++ ?l) with (e :: l). cbn [app]. rewrite Hm.
  cbn. destruct (String.eqb_spec file p); [done|]. by destruct r6.
Qed.

Lemma ensure_marker_exec p tr b :
  exec (ensure_marker p) tr (Ok ()) → Forall (fresh_temp p) tr → marker p b tr = true.
Proof.
  unfold ensure_marker. intros (tr1 & tr2 & r & -> & ->%exec_call1 & H)%exec_bind Hf.
  rewrite marker_app. destruct r as [e|].
  - destruct (is_not_exist e); [|by destruct H]. apply publish_marker_exec; [done|].
    by apply Forall_app in Hf as [_ ?].
  - destruct H as [-> _]. cbn. by rewrite String.eqb_refl.
Qed.

Lemma ReportHealth_exec c err t tr t' r :
  execs (ReportHealth c err) t tr t' r →
  t' = set_health c err t ∧
  exec (if negb (nat_ok t') || negb (ports_ok t') then clear_marker (path t')
        else ensure_marker (path t')) tr r.
Proof.
  unfold ReportHealth. intros [(e & _ & (_ & _ & ?)%execs_modify)|H]%execs_bind; [done|].
  destruct H as (tr1 & tr2 & s1 & [] & -> & (-> & -> & _)%execs_modify & H).
  apply execs_bind in H as [(e & _ & (_ & _ & ?)%execs_get)|H]; [done|].
  destruct H as (tr3 & tr4 & s2 & t2 & -> & (-> & -> & [= ->])%execs_get & H).
  destruct (negb _ || negb _) eqn:E; apply execs_lift in H as [H ->]; by rewrite E.
Qed.

Lemma path_set_health c err t : path (set_health c err t) = path t.
Proof. by destruct c. Qed.

Lemma ReportHealth_marker c err t tr t' b :
  execs (ReportHealth c err) t tr t' (Ok ()) → Forall (fresh_temp (path t)) tr →
  marker (path t) b tr = nat_ok t' && ports_ok t'.
Proof.
  intros [Ht H]%ReportHealth_exec Hf. rewrite <-(path_set_health c err t), <-Ht in *.
  destruct (nat_ok t'), (ports_ok t'); cbn [negb orb andb] in *;
    try (by apply clear_marker_exec); by apply ensure_marker_exec.
Qed.

(** The health a sequence of reports leaves for a component. *)
Definition last_health (c : component) (init : bool) (reports : list (component * option error)) : bool :=
  foldl (λ b r, if bool_decide (r.1 = c) then bool_decide (r.2 = None) else b) init reports.

Lemma foreach_reports_state reports t tr t' :
  execs (foreach (λ r, ReportHealth r.1 r.2) reports) t tr t' (Ok ()) →
  path t' = path t ∧ nat_ok t' = last_health HostNAT (nat_ok t) reports ∧
  ports_ok t' = last_health HostPorts (ports_ok t) reports.
Proof.
  revert t tr. induction reports as [|[c err] reports IH]; intros t tr; cbn [foreach].
  { by intros (_ & -> & _)%execs_ret. }
  intros [(? & ? & _)|(tr1 & tr2 & t1 & [] & -> & [-> _]%ReportHealth_exec & H)]%execs_bind; [done|].
  destruct (IH _ _ H) as (-> & -> & ->). by destruct c.
Qed.

(** After any non-empty sequence of reports that all succeeded, the marker
    file is present exactly when the last report of each watcher was healthy,
    whatever was there before; the state remembers those two reports. *)
Lemma readiness_history reports t tr t' b :
  reports ≠ [] →
  execs (foreach (λ r, ReportHealth r.1 r.2) reports) t tr t' (Ok ()) →
  Forall (fresh_temp (path t)) tr →
  marker (path t) b tr =
    last_health HostNAT (nat_ok t) reports && last_health HostPorts (ports_ok t) reports.
Proof.
  intros Hne H Hf. destruct (foreach_reports_state _ _ _ _ H) as (_ & <- & <-).
  revert t b tr Hne H Hf. induction reports as [|[c err] reports IH]; intros t b tr Hne H Hf; [done|].
  cbn [foreach] in H.
  apply execs_bind in H as [(? & ? & _)|(tr1 & tr2 & t1 & [] & -> & H1 & H)]; [done|].
  apply Forall_app in Hf as [Hf1 Hf2]. rewrite marker_app. cbn [fst snd] in H1.
  destruct reports as [|r reports].
  - apply execs_ret in H as (-> & -> & _). cbn. by eapply ReportHealth_marker.
  - pose proof (ReportHealth_exec _ _ _ _ _ _ H1) as [Ht1 _].
    assert (path t1 = path t) as Hp by (rewrite Ht1; apply path_set_health).
    rewrite <-Hp in *. by apply IH.
Qed.

(** A file system with one absent marker that can be created. *)
Definition fresh_files : env host_sig := λ _ c,
  match c return hreply c with
  | CreateTemp d _ => Ok (d +:+ "/.tmp1")
  | Stat _ => Some ErrNotExist
  | Remove _ => Some ErrNotExist
  | c' => idle_reply c'
  end.

Lemma readiness_history_witness :
  ∃ tr t', execs (foreach (λ r, ReportHealth r.1 r.2)
      [(HostPorts, None); (HostNAT, Some ErrNotFound); (HostNAT, None)])
    {| path := "/tmp/ready"; nat_ok := false; ports_ok := false |} tr t' (Ok ()) ∧
    marker "/tmp/ready" false tr = true.
Proof.
  set (t := {| path := "/tmp/ready"; nat_ok := false; ports_ok := false |}).
  set (p := foreach (λ r, ReportHealth r.1 r.2)
      [(HostPorts, None); (HostNAT, Some ErrNotFound); (HostNAT, None)] t).
  pose proof (run_exec fresh_files [] p) as H.
  assert ((run fresh_files [] p).2 =
    ({| path := "/tmp/ready"; nat_ok := true; ports_ok := true |}, Ok ())) as Hr
    by (vm_compute; reflexivity).
  rewrite Hr in H. eexists _, _. split; [exact H|].
  refine (eq_trans (readiness_history
    [(HostPorts, None); (HostNAT, Some ErrNotFound); (HostNAT, None)]
    t _ _ false ltac:(discriminate) H _) _); [|vm_compute; reflexivity].
  vm_compute. repeat constructor. discriminate.
Defined.

(** The marker is never renamed into place unless both watchers are
    healthy, on failing reports as well. *)
Lemma Report_publishes_only_healthy c err t tr t' r old :
  execs (ReportHealth c err) t tr t' r →
  (∃ x, ev (Σ := host_sig) (Rename old (path t)) x ∈ tr) →
  nat_ok t' = true ∧ ports_ok t' = true.
Proof.
  intros [_ H]%ReportHealth_exec [x Hx].
  destruct (nat_ok t'), (ports_ok t'); [done|..]; exfalso; cbn [negb orb] in H;
    apply exec_bind in H as (tr1 & tr2 & y & -> & ->%exec_call1 & [-> _]);
    apply elem_of_cons in Hx as [Hx|Hx]; try discriminate Hx; by apply not_elem_of_nil in Hx.
Qed.

Lemma Report_publishes_only_healthy_witness :
  ∃ tr t', execs (ReportHealth HostNAT None)
    {| path := "/tmp/ready"; nat_ok := false; ports_ok := true |} tr t' (Ok ()) ∧ nat_ok t' = true.
Proof.
  set (p := ReportHealth HostNAT None {| path := "/tmp/ready"; nat_ok := false; ports_ok := true |}).
  pose proof (run_exec fresh_files [] p) as H.
  assert ((run fresh_files [] p).2 =
    ({| path := "/tmp/ready"; nat_ok := true; ports_ok := true |}, Ok ())) as Hr
    by (vm_compute; reflexivity).
  rewrite Hr in H. eexists _, _. split; [exact H|].
  apply (Report_publishes_only_healthy _ _ _ _ _ _ "/tmp/.tmp1" H).
  exists None. vm_compute. apply (list_elem_of_lookup_2 _ 4). reflexivity.
Defined.
