(* ===== verification/Locks.v ===== *)
(** * The keyed locks (internal/keylock, internal/trylock)

    Both are shared by concurrent handlers. A state is the shared object with
    the program point of every thread; a step is one critical section (the
    code between Lock and Unlock of the object's own mutex) or one operation
    on an entry's mutex, of any thread. *)
From S2P Require Import Prelude.

(** ** keylock: blocking locks with reference-counted entries *)
Module KeyLock.

(** [refs] counts the threads between entering [Lock] and leaving unlock. *)
Record entry := { mu_locked : bool; refs : nat }.

(** The map of entries; an entry's identity is its address in the heap. *)
Record Map := { entries : gmap string nat; heap : gmap nat entry; fresh : nat }.

Definition empty_map : Map := {| entries := ∅; heap := ∅; fresh := 0 |}.

Definition entry_at (m : Map) (e : nat) : entry :=
  default {| mu_locked := false; refs := 0 |} (heap m !! e).

Definition set_entry (e : nat) (en : entry) (m : Map) : Map :=
  {| entries := entries m; heap := <[e := en]> (heap m); fresh := fresh m |}.

(** The critical section of [Lock]: find or create the entry and count it. *)
Definition enter (m : Map) (key : string) : Map * nat :=
  match entries m !! key with
  | Some e =>
      let en := entry_at m e in
      (set_entry e {| mu_locked := mu_locked en; refs := refs en + 1 |} m, e)
  | None =>
      let e := fresh m in
      ({| entries := <[key := e]> (entries m);
          heap := <[e := {| mu_locked := false; refs := 1 |}]> (heap m);
          fresh := S e |}, e)
  end.

(** [e.mu.Lock()], which blocks while the mutex is locked, and [e.mu.Unlock()]. *)
Definition lock_mu (m : Map) (e : nat) : option Map :=
  let en := entry_at m e in
  if mu_locked en then None
  else Some (set_entry e {| mu_locked := true; refs := refs en |} m).
Definition unlock_mu (m : Map) (e : nat) : Map :=
  set_entry e {| mu_locked := false; refs := refs (entry_at m e) |} m.

(** The critical section of the unlock function. *)
Definition leave (m : Map) (key : string) (e : nat) : Map :=
  let en := entry_at m e in
  let m' := set_entry e {| mu_locked := mu_locked en; refs := refs en - 1 |} m in
  if refs en - 1 =? 0
  then {| entries := delete key (entries m'); heap := heap m'; fresh := fresh m' |}
  else m'.

(** Where a thread is; [Released] has called its unlock function, whose later
    calls do nothing ([sync.Once]). *)
Inductive pc :=
  | Idle
  | Waiting (key : string) (e : nat)
  | Holding (key : string) (e : nat)
  | Leaving (key : string) (e : nat).

Record state := { map : Map; threads : gmap nat pc }.

Definition at_pc (s : state) (t : nat) (m : Map) (p : pc) : state :=
  {| map := m; threads := <[t := p]> (threads s) |}.

Inductive step (s : state) : state → Prop :=
  | step_enter t key m e :
      threads s !! t = Some Idle → enter (map s) key = (m, e) →
      step s (at_pc s t m (Waiting key e))
  | step_lock t key e m :
      threads s !! t = Some (Waiting key e) → lock_mu (map s) e = Some m →
      step s (at_pc s t m (Holding key e))
  | step_unlock t key e :
      threads s !! t = Some (Holding key e) →
      step s (at_pc s t (unlock_mu (map s) e) (Leaving key e))
  | step_leave t key e :
      threads s !! t = Some (Leaving key e) →
      step s (at_pc s t (leave (map s) key e) Idle).

(** All threads start idle on an empty map. *)
Definition initial (s : state) : Prop :=
  map s = empty_map ∧ map_Forall (λ _ p, p = Idle) (threads s).

Definition reachable (s : state) : Prop := ∃ s0, initial s0 ∧ rtc step s0 s.

(** The entry a thread refers to, and whether it owns the entry's mutex. *)
Definition uses (p : pc) : option (string * nat) :=
  match p with
  | Idle => None
  | Waiting k e | Holding k e | Leaving k e => Some (k, e)
  end.
Definition owns (p : pc) : option nat :=
  match p with Holding _ e => Some e | _ => None end.

Definition users (s : state) (e : nat) : gmap nat pc :=
  filter (λ tp : nat * pc, snd <$> uses tp.2 = Some e) (threads s).

Record inv (s : state) : Prop := {
  inv_uses : ∀ t p k e, threads s !! t = Some p → uses p = Some (k, e) →
    entries (map s) !! k = Some e;
  inv_refs : ∀ k e, entries (map s) !! k = Some e →
    refs (entry_at (map s) e) = size (users s e) ∧ 0 < size (users s e);
  inv_owner : ∀ t p e, threads s !! t = Some p → owns p = Some e →
    mu_locked (entry_at (map s) e) = true;
  inv_one : ∀ t1 t2 p1 p2 e, threads s !! t1 = Some p1 → threads s !! t2 = Some p2 →
    owns p1 = Some e → owns p2 = Some e → t1 = t2;
  inv_locked : ∀ k e, entries (map s) !! k = Some e → mu_locked (entry_at (map s) e) = true →
    ∃ t p, threads s !! t = Some p ∧ owns p = Some e;
  inv_inj : ∀ k1 k2 e, entries (map s) !! k1 = Some e → entries (map s) !! k2 = Some e → k1 = k2;
  inv_fresh : ∀ k e, entries (map s) !! k = Some e → e < fresh (map s);
}.

Lemma entry_at_set e e' en m :
  entry_at (set_entry e en m) e' = if decide (e' = e) then en else entry_at m e'.
Proof.
  unfold entry_at, set_entry. cbn. destruct (decide (e' = e)) as [->|].
  - by rewrite lookup_insert_eq.
  - by rewrite lookup_insert_ne.
Qed.

Lemma size_filter_insert {A} (P : nat * A → Prop) `{∀ x, Decision (P x)} (m : gmap nat A) t x :
  size (filter P (<[t := x]> m)) =
  size (filter P (delete t m)) + (if decide (P (t, x)) then 1 else 0).
Proof.
  rewrite map_filter_insert. destruct (decide (P (t, x))); [|lia].
  rewrite <-insert_delete_eq, <-map_filter_delete.
  rewrite map_size_insert_None; [lia|]. rewrite map_filter_delete. apply lookup_delete_eq.
Qed.

(** How one thread's move changes the users of an entry. *)
Lemma users_update s t m p q e :
  threads s !! t = Some p →
  size (users (at_pc s t m q) e) + (if decide (snd <$> uses p = Some e) then 1 else 0) =
  size (users s e) + (if decide (snd <$> uses q = Some e) then 1 else 0).
Proof.
  intros Hp. unfold users, at_pc. cbn [threads].
  pose proof (insert_id _ _ _ Hp) as Hid. rewrite <-Hid at 2.
  rewrite !size_filter_insert. cbn [snd]. lia.
Qed.

Lemma users_pos s t p e :
  threads s !! t = Some p → snd <$> uses p = Some e → 0 < size (users s e).
Proof.
  intros Hp He. pose proof (insert_id _ _ _ Hp) as Hid. unfold users. rewrite <-Hid.
  rewrite size_filter_insert. cbn [snd]. rewrite decide_True by done. lia.
Qed.

Lemma users_lookup s e : 0 < size (users s e) → ∃ t p, threads s !! t = Some p ∧ snd <$> uses p = Some e.
Proof.
  intros Hs. destruct (map_choose (users s e)) as (t & p & Hp).
  { intros He. rewrite He, map_size_empty in Hs. lia. }
  apply map_lookup_filter_Some in Hp as [? ?]. by exists t, p.
Qed.

(** Looking up a thread after one has moved. *)
Lemma at_pc_lookup s t m q t' p :
  threads (at_pc s t m q) !! t' = Some p →
  (t' = t ∧ p = q) ∨ (t' ≠ t ∧ threads s !! t' = Some p).
Proof.
  cbn. destruct (decide (t' = t)) as [->|].
  - rewrite lookup_insert_eq. intros [= ->]. auto.
  - rewrite lookup_insert_ne by done. auto.
Qed.

Lemma inv_initial s : initial s → inv s.
Proof.
  intros [Hm Hp]. split; rewrite ?Hm; cbn.
  - intros t p k e Ht Hu. by rewrite (Hp t p Ht) in Hu.
  - done.
  - intros t p e Ht Ho. by rewrite (Hp t p Ht) in Ho.
  - intros t1 t2 p1 p2 e Ht _ Ho. by rewrite (Hp t1 p1 Ht) in Ho.
  - done.
  - done.
  - done.
Qed.

(** The moving thread is not the one that owns a mutex. *)
Ltac other_thread := let H := fresh in intros H; subst; simplify_eq/=.

(** A thread's move that changes neither the map of entries nor any mutex. *)
Lemma inv_count s t p q e en m :
  inv s → threads s !! t = Some p → owns p = None → owns q = None →
  mu_locked en = mu_locked (entry_at (map s) e) →
  entries m = entries (map s) → fresh m = fresh (map s) →
  (∀ e', entry_at m e' = if decide (e' = e) then en else entry_at (map s) e') →
  (∀ k e', uses q = Some (k, e') → entries (map s) !! k = Some e') →
  (∀ k e', entries (map s) !! k = Some e' →
     refs (entry_at m e') = size (users (at_pc s t m q) e') ∧
     0 < size (users (at_pc s t m q) e')) →
  inv (at_pc s t m q).
Proof.
  intros [Hu Hr Ho H1 Hl Hi Hf] Hp Hop Hoq Hen He Hfr Hat Huq Hrq.
  assert (∀ e', mu_locked (entry_at m e') = mu_locked (entry_at (map s) e')) as Hmu.
  { intros e'. rewrite Hat. destruct (decide (e' = e)) as [->|]; done. }
  split; cbn [map at_pc]; rewrite ?He, ?Hfr.
  - intros t' p' k e' [[-> ->]|[_ Ht']]%at_pc_lookup Hk; [by apply Huq|by eapply Hu].
  - exact Hrq.
  - intros t' p' e' [[-> ->]|[_ Ht']]%at_pc_lookup Ho'; [congruence|]. rewrite Hmu. by eapply Ho.
  - intros t1 t2 p1 p2 e' [[-> ->]|[_ Ht1]]%at_pc_lookup [[-> ->]|[_ Ht2]]%at_pc_lookup Ho1 Ho2;
      try congruence. by eapply H1.
  - intros k e' Hk Hlk. rewrite Hmu in Hlk. destruct (Hl k e' Hk Hlk) as (t' & p' & Ht' & Ho').
    exists t', p'. split; [|done]. cbn. rewrite lookup_insert_ne; [done|]. intros ->. congruence.
  - done.
  - done.
Qed.

(** The next entry is used by no thread. *)
Lemma fresh_unused s t p k e :
  inv s → threads s !! t = Some p → uses p = Some (k, e) → e < fresh (map s).
Proof. intros Hinv Ht Huse. eapply (inv_fresh s Hinv). by eapply (inv_uses s Hinv). Qed.

Lemma fresh_users s : inv s → size (users s (fresh (map s))) = 0.
Proof.
  intros Hinv. destruct (decide (0 < size (users s (fresh (map s))))) as [Hpos|]; [|lia].
  apply users_lookup in Hpos as (t & p & Ht & Huse).
  destruct (uses p) as [[k e]|] eqn:E; [|done]. cbn in Huse. injection Huse as ->.
  pose proof (fresh_unused _ _ _ _ _ Hinv Ht E). lia.
Qed.

(** An idle thread that refers to an entry is one more user of it. *)
Lemma users_enter s t m key e0 e :
  threads s !! t = Some Idle →
  size (users (at_pc s t m (Waiting key e0)) e) = size (users s e) + if decide (e = e0) then 1 else 0.
Proof.
  intros Ht. pose proof (users_update s t m Idle (Waiting key e0) e Ht) as Hup.
  cbn [uses fmap option_fmap option_map snd] in Hup.
  rewrite (decide_False (P := None = Some e)) in Hup by done.
  destruct (decide (e = e0)) as [->|]; [rewrite decide_True in Hup by done|
    rewrite decide_False in Hup by congruence]; lia.
Qed.

Lemma owns_uses p e : owns p = Some e → ∃ k, uses p = Some (k, e).
Proof. destruct p; try done. cbn. intros [= <-]. eauto. Qed.

Lemma inv_enter_known s t key e0 :
  inv s → threads s !! t = Some Idle → entries (map s) !! key = Some e0 →
  inv (at_pc s t (set_entry e0 {| mu_locked := mu_locked (entry_at (map s) e0);
                                  refs := refs (entry_at (map s) e0) + 1 |} (map s)) (Waiting key e0)).
Proof.
  intros Hinv Ht Hkey. pose proof Hinv as [Hu Hr Ho H1 Hl Hi Hf].
  eapply (inv_count s t Idle _ e0); [done|done|done|done| |done|done|intros e'; apply entry_at_set|..].
  - done.
  - intros k e' [= <- <-]. done.
  - intros k e' Hk. destruct (Hr k e' Hk) as [Hre Hpos].
    rewrite entry_at_set, (users_enter s t _ key e0 e' Ht).
    destruct (decide (e' = e0)) as [->|Hne]; cbn [refs]; lia.
Qed.

Lemma inv_enter_new s t key :
  inv s → threads s !! t = Some Idle → entries (map s) !! key = None →
  inv (at_pc s t {| entries := <[key := fresh (map s)]> (entries (map s));
                    heap := <[fresh (map s) := {| mu_locked := false; refs := 1 |}]> (heap (map s));
                    fresh := S (fresh (map s)) |} (Waiting key (fresh (map s)))).
Proof.
  intros Hinv Ht Hkey. pose proof Hinv as [Hu Hr Ho H1 Hl Hi Hf].
  set (e0 := fresh (map s)) in *.
  set (m := {| entries := <[key := e0]> (entries (map s)); heap := _; fresh := S e0 |}).
  assert (∀ e', entry_at m e' =
    if decide (e' = e0) then {| mu_locked := false; refs := 1 |} else entry_at (map s) e') as Hat.
  { intros e'. apply (entry_at_set e0 e' _ (map s)). }
  pose proof (λ t' p' k e', fresh_unused s t' p' k e' Hinv) as Hlt. fold e0 in Hlt.
  pose proof (λ e', users_enter s t m key e0 e' Ht) as Hsz. pose proof (fresh_users s Hinv) as Hz. fold e0 in Hz.
  split; cbn [map at_pc]; change (entries m) with (<[key := e0]> (entries (map s)));
    change (fresh m) with (S e0).
  - intros t' p' k e' [[-> ->]|[_ Ht']]%at_pc_lookup Hk.
    + injection Hk as <- <-. apply lookup_insert_eq.
    + pose proof (Hu _ _ _ _ Ht' Hk). rewrite lookup_insert_ne; [done|congruence].
  - intros k e' Hk. rewrite Hat, Hsz. apply lookup_insert_Some in Hk as [[<- <-]|[_ Hk]].
    + rewrite !decide_True by done. cbn [refs]. lia.
    + pose proof (Hf _ _ Hk). rewrite !decide_False by lia. destruct (Hr _ _ Hk). lia.
  - intros t' p' e' [[-> ->]|[_ Ht']]%at_pc_lookup Ho'; [done|].
    destruct (owns_uses _ _ Ho') as [k Hk]. pose proof (Hlt _ _ _ _ Ht' Hk).
    rewrite Hat, decide_False by lia. by eapply Ho.
  - intros t1 t2 p1 p2 e' [[-> ->]|[_ Ht1]]%at_pc_lookup [[-> ->]|[_ Ht2]]%at_pc_lookup Ho1 Ho2;
      try done. by eapply H1.
  - intros k e' Hk. rewrite Hat. apply lookup_insert_Some in Hk as [[<- <-]|[_ Hk]].
    + by rewrite decide_True.
    + pose proof (Hf _ _ Hk). rewrite decide_False by lia. intros Hlk.
      destruct (Hl _ _ Hk Hlk) as (t' & p' & Ht' & Ho'). exists t', p'. split; [|done].
      cbn. rewrite lookup_insert_ne; [done|]. other_thread.
  - intros k1 k2 e' [[<- <-]|[_ Hk1]]%lookup_insert_Some [[<- Hk]|[_ Hk2]]%lookup_insert_Some;
      [done| | |by eapply Hi].
    + pose proof (Hf _ _ Hk2). lia.
    + subst e'. pose proof (Hf _ _ Hk1). lia.
  - intros k e' [[<- <-]|[_ Hk]]%lookup_insert_Some; [lia|]. pose proof (Hf _ _ Hk). lia.
Qed.

Lemma inv_enter s t key m e :
  inv s → threads s !! t = Some Idle → enter (map s) key = (m, e) →
  inv (at_pc s t m (Waiting key e)).
Proof.
  intros Hinv Ht. unfold enter. destruct (entries (map s) !! key) as [e0|] eqn:Hkey; intros [= <- <-];
    [by apply inv_enter_known|by apply inv_enter_new].
Qed.

Lemma inv_lock s t key e m :
  inv s → threads s !! t = Some (Waiting key e) → lock_mu (map s) e = Some m →
  inv (at_pc s t m (Holding key e)).
Proof.
  intros [Hu Hr Ho H1 Hl Hi Hf] Ht. unfold lock_mu.
  destruct (mu_locked (entry_at (map s) e)) eqn:Hfree; [done|]. intros [= <-].
  set (m := set_entry e _ (map s)).
  pose proof (Hu _ _ _ _ Ht eq_refl) as Hke.
  assert (∀ e', size (users (at_pc s t m (Holding key e)) e') = size (users s e')) as Hsz.
  { intros e'. pose proof (users_update s t m _ (Holding key e) e' Ht) as Hup.
    cbn [uses] in Hup. lia. }
  assert (∀ t' p', threads s !! t' = Some p' → owns p' = Some e → False) as Hnone.
  { intros t' p' Ht' Ho'. pose proof (Ho _ _ _ Ht' Ho'). congruence. }
  split; cbn [map at_pc].
  - intros t' p' k e' [[-> ->]|[_ Ht']]%at_pc_lookup Hk; [by injection Hk as <- <-|by eapply Hu].
  - intros k e' Hk. rewrite Hsz. unfold m. rewrite entry_at_set.
    destruct (decide (e' = e)) as [->|]; cbn [refs]; by apply (Hr k).
  - intros t' p' e' [[-> ->]|[_ Ht']]%at_pc_lookup Ho'; unfold m; rewrite entry_at_set.
    + injection Ho' as <-. by rewrite decide_True.
    + destruct (decide (e' = e)); [done|]. by eapply Ho.
  - intros t1 t2 p1 p2 e' [[-> ->]|[_ Ht1]]%at_pc_lookup [[-> ->]|[_ Ht2]]%at_pc_lookup Ho1 Ho2.
    + done.
    + injection Ho1 as <-. by destruct (Hnone _ _ Ht2).
    + injection Ho2 as <-. by destruct (Hnone _ _ Ht1).
    + by eapply H1.
  - intros k e' Hk. unfold m. rewrite entry_at_set. destruct (decide (e' = e)) as [->|Hne].
    + intros _. exists t, (Holding key e). split; [apply lookup_insert_eq|done].
    + intros Hlk. destruct (Hl _ _ Hk Hlk) as (t' & p' & Ht' & Ho'). exists t', p'.
      split; [|done]. cbn. rewrite lookup_insert_ne; [done|]. other_thread.
  - done.
  - done.
Qed.

Lemma inv_unlock s t key e :
  inv s → threads s !! t = Some (Holding key e) →
  inv (at_pc s t (unlock_mu (map s) e) (Leaving key e)).
Proof.
  intros [Hu Hr Ho H1 Hl Hi Hf] Ht. unfold unlock_mu. set (m := set_entry e _ (map s)).
  assert (∀ e', size (users (at_pc s t m (Leaving key e)) e') = size (users s e')) as Hsz.
  { intros e'. pose proof (users_update s t m _ (Leaving key e) e' Ht) as Hup.
    cbn [uses] in Hup. lia. }
  split; cbn [map at_pc].
  - intros t' p' k e' [[-> ->]|[_ Ht']]%at_pc_lookup Hk; [|by eapply Hu].
    eapply Hu; [exact Ht|done].
  - intros k e' Hk. rewrite Hsz. unfold m. rewrite entry_at_set.
    destruct (decide (e' = e)) as [->|]; cbn [refs]; by apply (Hr k).
  - intros t' p' e' [[-> ->]|[Hne Ht']]%at_pc_lookup Ho'; [done|].
    unfold m. rewrite entry_at_set. destruct (decide (e' = e)) as [->|]; [|by eapply Ho].
    exfalso. apply Hne. by eapply H1.
  - intros t1 t2 p1 p2 e' [[-> ->]|[_ Ht1]]%at_pc_lookup [[-> ->]|[_ Ht2]]%at_pc_lookup Ho1 Ho2;
      try done. by eapply H1.
  - intros k e' Hk. unfold m. rewrite entry_at_set. destruct (decide (e' = e)) as [->|Hne]; [done|].
    intros Hlk. destruct (Hl _ _ Hk Hlk) as (t' & p' & Ht' & Ho'). exists t', p'.
    split; [|done]. cbn. rewrite lookup_insert_ne; [done|]. other_thread.
  - done.
  - done.
Qed.

(** A thread that has left is one user less. *)
Lemma users_leave s t m key e e' :
  threads s !! t = Some (Leaving key e) →
  size (users (at_pc s t m Idle) e') = size (users s e') - if decide (e' = e) then 1 else 0.
Proof.
  intros Ht. pose proof (users_update s t m _ Idle e' Ht) as Hup.
  cbn [uses fmap option_fmap option_map snd] in Hup.
  rewrite (decide_False (P := None = Some e')) in Hup by done.
  destruct (decide (e' = e)) as [->|]; [rewrite decide_True in Hup by done|
    rewrite decide_False in Hup by congruence]; lia.
Qed.

Lemma inv_leave_last s t key e en :
  inv s → threads s !! t = Some (Leaving key e) → refs (entry_at (map s) e) = 1 →
  inv (at_pc s t {| entries := delete key (entries (map s)); heap := <[e := en]> (heap (map s));
                    fresh := fresh (map s) |} Idle).
Proof.
  intros Hinv Ht Hzero. pose proof Hinv as [Hu Hr Ho H1 Hl Hi Hf].
  pose proof (Hu _ _ _ _ Ht eq_refl) as Hke. destruct (Hr _ _ Hke) as [Hre _].
  pose proof (λ m e', users_leave s t m key e e' Ht) as Hsz.
  set (m := {| entries := _; heap := _; fresh := _ |}).
  assert (∀ e', entry_at m e' = if decide (e' = e) then en else entry_at (map s) e') as Hat
    by (intros e'; apply (entry_at_set e e' en (map s))).
  assert (∀ t' p', t' ≠ t → threads s !! t' = Some p' → snd <$> uses p' ≠ Some e) as Honly.
  { intros t' p' Hne Ht' Huse.
    assert (threads (at_pc s t m Idle) !! t' = Some p') as Ht'' by (cbn; by rewrite lookup_insert_ne).
    pose proof (users_pos _ _ _ _ Ht'' Huse) as Hpos. rewrite Hsz, decide_True in Hpos by done. lia. }
  split; cbn [map at_pc]; change (entries m) with (delete key (entries (map s)));
    change (fresh m) with (fresh (map s)).
  - intros t' p' k e' [[-> ->]|[Hne Ht']]%at_pc_lookup Hk; [done|].
    pose proof (Hu _ _ _ _ Ht' Hk) as Hk'. rewrite lookup_delete_ne; [done|].
    intros <-. rewrite Hke in Hk'. injection Hk' as <-. apply (Honly t' p'); [done..|].
    by rewrite Hk.
  - intros k e' [Hne Hk]%lookup_delete_Some. rewrite Hat, Hsz.
    assert (e' ≠ e) by (intros ->; apply Hne; by eapply Hi).
    rewrite !decide_False by done. destruct (Hr _ _ Hk). lia.
  - intros t' p' e' [[-> ->]|[Hne Ht']]%at_pc_lookup Ho'; [done|].
    rewrite Hat. destruct (decide (e' = e)) as [->|]; [|by eapply Ho].
    exfalso. apply (Honly t' p' Hne Ht'). by destruct p'.
  - intros t1 t2 p1 p2 e' [[-> ->]|[_ Ht1]]%at_pc_lookup [[-> ->]|[_ Ht2]]%at_pc_lookup Ho1 Ho2;
      try done. by eapply H1.
  - intros k e' [Hne Hk]%lookup_delete_Some. rewrite Hat.
    assert (e' ≠ e) by (intros ->; apply Hne; by eapply Hi). rewrite decide_False by done.
    intros Hlk. destruct (Hl _ _ Hk Hlk) as (t' & p' & Ht' & Ho'). exists t', p'.
    split; [|done]. cbn. rewrite lookup_insert_ne; [done|]. other_thread.
  - intros k1 k2 e' [_ Hk1]%lookup_delete_Some [_ Hk2]%lookup_delete_Some. by eapply Hi.
  - intros k e' [_ Hk]%lookup_delete_Some. by eapply Hf.
Qed.

Lemma inv_leave s t key e :
  inv s → threads s !! t = Some (Leaving key e) → inv (at_pc s t (leave (map s) key e) Idle).
Proof.
  intros Hinv Ht. pose proof Hinv as [Hu Hr Ho H1 Hl Hi Hf].
  pose proof (Hu _ _ _ _ Ht eq_refl) as Hke. destruct (Hr _ _ Hke) as [Hre Hpos].
  unfold leave. set (en := {| mu_locked := _; refs := _ |}).
  destruct (refs (entry_at (map s) e) - 1 =? 0) eqn:Hzero.
  - apply Nat.eqb_eq in Hzero. apply inv_leave_last; [done|done|lia].
  - apply Nat.eqb_neq in Hzero.
    eapply (inv_count s t (Leaving key e) Idle e en); [done|done|done|done|done|done|done| |done|].
    + intros e'. apply entry_at_set.
    + intros k e' Hk. rewrite (users_leave s t _ key e e' Ht), entry_at_set. destruct (Hr _ _ Hk) as [Hre' Hpos'].
      destruct (decide (e' = e)) as [->|]; cbn [refs en]; lia.
Qed.

Lemma inv_step s s' : inv s → step s s' → inv s'.
Proof.
  intros Hinv [t key m e|t key e m|t key e|t key e].
  - by apply inv_enter.
  - by apply inv_lock.
  - by apply inv_unlock.
  - by apply inv_leave.
Qed.

Lemma reachable_inv s : reachable s → inv s.
Proof.
  intros (s0 & H0%inv_initial & Hs). induction Hs as [|s0 s1 s2 Hstep _ IH]; [done|].
  apply IH. by eapply inv_step.
Qed.

(** C15: two threads never hold the lock of one key at the same time. *)
Theorem keylock_exclusion s t1 t2 key e1 e2 :
  reachable s → threads s !! t1 = Some (Holding key e1) →
  threads s !! t2 = Some (Holding key e2) → t1 = t2.
Proof.
  intros Hinv%reachable_inv H1 H2.
  pose proof (inv_uses _ Hinv _ _ _ _ H1 eq_refl). pose proof (inv_uses _ Hinv _ _ _ _ H2 eq_refl).
  eapply (inv_one _ Hinv _ _ _ _ e1 H1 H2); simplify_eq/=; done.
Qed.

(** C24: the map keeps an entry exactly for the keys some thread is using, so
    nothing is retained once every thread has left; and whenever a thread waits
    for a key, either it can take the lock now or another thread holds it. *)
Theorem keylock_bounded_live s :
  reachable s →
  (∀ key, is_Some (entries (map s) !! key) ↔
     ∃ t p, threads s !! t = Some p ∧ fst <$> uses p = Some key) ∧
  (∀ t key e, threads s !! t = Some (Waiting key e) →
     is_Some (lock_mu (map s) e) ∨ ∃ t', t' ≠ t ∧ threads s !! t' = Some (Holding key e)).
Proof.
  intros Hinv%reachable_inv. pose proof Hinv as [Hu Hr Ho H1 Hl Hi Hf]. split.
  - intros key. split.
    + intros [e He]. destruct (Hr _ _ He) as [_ Hpos].
      apply users_lookup in Hpos as (t & p & Ht & Hp). exists t, p. split; [done|].
      destruct (uses p) as [[k e']|] eqn:E; [|done]. cbn in *. injection Hp as ->.
      f_equal. pose proof (Hu _ _ _ _ Ht E). by eapply Hi.
    + intros (t & p & Ht & Hp). destruct (uses p) as [[k e]|] eqn:E; [|done].
      injection Hp as ->. exists e. by eapply Hu.
  - intros t key e Ht. unfold lock_mu.
    destruct (mu_locked (entry_at (map s) e)) eqn:Hlk; [|left; by eexists]. right.
    pose proof (Hu _ _ _ _ Ht eq_refl) as Hke.
    destruct (Hl _ _ Hke Hlk) as (t' & p & Ht' & Hp). exists t'.
    destruct p as [|k e'|k e'|k e']; try done. injection Hp as ->.
    split; [intros ->; congruence|].
    pose proof (Hu _ _ _ _ Ht' eq_refl) as Hk'. by rewrite (Hi _ _ _ Hk' Hke) in Ht'.
Qed.

(** A run: thread 0 holds the key while thread 1 waits for it. *)
Definition demo_threads : gmap nat pc := {[ 0 := Idle; 1 := Idle ]}.
Definition demo_start : state := {| map := empty_map; threads := demo_threads |}.
Definition demo_run : state :=
  let m1 := (enter empty_map "c").1 in
  let s1 := at_pc demo_start 0 m1 (Waiting "c" 0) in
  let m2 := default m1 (lock_mu m1 0) in
  let s2 := at_pc s1 0 m2 (Holding "c" 0) in
  at_pc s2 1 (enter m2 "c").1 (Waiting "c" 0).

Lemma demo_reachable : reachable demo_run.
Proof.
  exists demo_start. split.
  { split; [done|]. apply map_Forall_insert_2; [done|]. by apply map_Forall_singleton. }
  eapply rtc_l; [eapply (step_enter _ 0 "c"); reflexivity|].
  eapply rtc_l; [eapply (step_lock _ 0 "c" 0); reflexivity|].
  eapply rtc_l; [eapply (step_enter _ 1 "c"); reflexivity|]. apply rtc_refl.
Qed.

Lemma keylock_exclusion_witness :
  threads demo_run !! 0 = Some (Holding "c" 0) ∧
  ∀ t, threads demo_run !! t = Some (Holding "c" 0) → t = 0.
Proof.
  split; [reflexivity|]. intros t Ht.
  exact (keylock_exclusion demo_run t 0 "c" 0 0 demo_reachable Ht eq_refl).
Defined.

Lemma keylock_bounded_live_witness :
  refs (entry_at (map demo_run) 0) = 2 ∧
  ∃ t', t' ≠ 1 ∧ threads demo_run !! t' = Some (Holding "c" 0).
Proof.
  split; [reflexivity|].
  destruct (proj2 (keylock_bounded_live _ demo_reachable) 1 "c" 0 eq_refl) as [[m Hm]|H];
    [discriminate Hm|exact H].
Defined.
End KeyLock.

(** ** trylock: a duplicate is skipped instead of queued *)
Module TryLock.

(** The keys of the handlers in progress. *)
Definition keys : Type := gset string.

(** [Lock]: nil when the key is taken. *)
Definition Lock (held : keys) (key : string) : option keys :=
  if decide (key ∈ held) then None else Some ({[key]} ∪ held).

(** The first call of the unlock function; later calls do nothing. *)
Definition unlock (held : keys) (key : string) : keys := held ∖ {[key]}.

(** Each thread is idle, handling a key, or done with it. *)
Record state := { held : keys; handling : gmap nat string }.

Inductive step (s : state) : state → Prop :=
  | step_take t key h :
      handling s !! t = None → Lock (held s) key = Some h →
      step s {| held := h; handling := <[t := key]> (handling s) |}
  | step_skip t key :
      handling s !! t = None → Lock (held s) key = None → step s s
  | step_unlock t key :
      handling s !! t = Some key →
      step s {| held := unlock (held s) key; handling := delete t (handling s) |}.

Definition initial : state := {| held := ∅; handling := ∅ |}.
Definition reachable (s : state) : Prop := rtc step initial s.

(** The held keys are those being handled, each by one thread. *)
Definition inv (s : state) : Prop :=
  (∀ key, key ∈ held s ↔ ∃ t, handling s !! t = Some key) ∧
  (∀ t1 t2 key, handling s !! t1 = Some key → handling s !! t2 = Some key → t1 = t2).

Lemma held_step s s' : inv s → step s s' → inv s'.
Proof.
  intros [Hk H1] [t key h Ht HL|t key Ht HL|t key Ht]; [|done|].
  - unfold Lock in HL. destruct (decide (key ∈ held s)) as [|Hfree]; [done|]. injection HL as <-.
    assert (∀ t', handling s !! t' ≠ Some key) as Hno by (intros t' Ht'; apply Hfree, Hk; eauto).
    split; cbn.
    + intros k. rewrite elem_of_union, elem_of_singleton, Hk. split.
      * intros [->|[t' Ht']]; [exists t; apply lookup_insert_eq|]. exists t'.
        rewrite lookup_insert_ne; [done|]. intros ->. congruence.
      * intros [t' [[<- <-]|[_ Ht']]%lookup_insert_Some]; eauto.
    + intros t1 t2 k [[<- <-]|[? H2]]%lookup_insert_Some [[<- Hkk]|[? H3]]%lookup_insert_Some;
        [done| | |by eapply H1].
      * by destruct (Hno t2).
      * subst k. by destruct (Hno t1).
  - split; cbn.
    + intros k. unfold unlock. rewrite elem_of_difference, elem_of_singleton, Hk. split.
      * intros [[t' Ht'] Hne]. exists t'. rewrite lookup_delete_ne; [done|]. intros ->. congruence.
      * intros [t' [Hne Ht']%lookup_delete_Some]. split; [eauto|]. intros ->. by eapply Hne, H1.
    + intros t1 t2 k [_ H2]%lookup_delete_Some [_ H3]%lookup_delete_Some. by eapply H1.
Qed.

Lemma reachable_held s : reachable s → inv s.
Proof.
  intros Hs. assert (inv initial) as H0.
  { split; cbn; [|done]. intros key. split; [by intros ?%not_elem_of_empty|].
    by intros [t Ht]. }
  revert Hs H0. unfold reachable. generalize initial as s0. intros s0 Hs.
  induction Hs as [|s0 s1 s2 Hstep _ IH]; intros H0; [done|]. apply IH. by eapply held_step.
Qed.

(** A key is handled by at most one thread, [Lock] refuses it exactly while
    some thread handles it, and it can be taken again once that one is done. *)
Lemma trylock_exclusive s key :
  reachable s →
  (∀ t1 t2, handling s !! t1 = Some key → handling s !! t2 = Some key → t1 = t2) ∧
  (Lock (held s) key = None ↔ ∃ t, handling s !! t = Some key) ∧
  is_Some (Lock (unlock (held s) key) key).
Proof.
  intros [Hk H1]%reachable_held. split; [intros t1 t2; by apply H1|]. split.
  - unfold Lock. rewrite <-Hk. by destruct (decide (key ∈ held s)).
  - unfold Lock, unlock. rewrite decide_False; [by eexists|]. set_solver.
Qed.

Definition demo : state := {| held := {["c"]} ∪ ∅; handling := <[0 := "c"]> ∅ |}.

Lemma trylock_exclusive_witness : Lock (held demo) "c" = None.
Proof.
  assert (reachable demo) as Hr.
  { eapply rtc_l; [apply (step_take initial 0 "c" ({["c"]} ∪ ∅)); reflexivity|]. apply rtc_refl. }
  apply (trylock_exclusive demo "c" Hr). exists 0. reflexivity.
Defined.
End TryLock.
