(* ===== verification/Events.v ===== *)
(** * Docker events (events/event_router.go, events/entry.go)

    A pool of workers takes the events of Docker's stream; a worker runs the
    handlers of its event's action in order, on the state of the components. *)
From S2P Require Import Prelude Effects GoStrings World BinExec Manager StartHandler Locks.

Definition ActionStart : string := "start".
Definition ActionDie : string := "die".

Record Message := { Action : string; ActorID : string; Attributes : gmap string string }.

Inductive Handler := BinaryWatcher | ResolverHandler | NetworkHandler.

(** [eventHandlers] *)
Definition eventHandlers (action : string) : list Handler :=
  if String.eqb action ActionStart then [BinaryWatcher; ResolverHandler; NetworkHandler]
  else if String.eqb action ActionDie then [BinaryWatcher; NetworkHandler]
  else [].

(** The components the handlers share. *)
Record shared := { bw : BinExec.watcher; held : TryLock.keys; nm : Manager.state }.

(** An action on one component. *)
Definition on_binaries {A} (m : act host_sig BinExec.watcher A) : act host_sig shared A := λ s,
  mbind (M := prog host_sig)
    (λ r : BinExec.watcher * result A, Ret ({| bw := r.1; held := held s; nm := nm s |}, r.2)) (m (bw s)).
Definition on_manager {A} (m : act host_sig Manager.state A) : act host_sig shared A := λ s,
  mbind (M := prog host_sig)
    (λ r : Manager.state * result A, Ret ({| bw := bw s; held := held s; nm := r.1 |}, r.2)) (m (nm s)).

Definition set_held (h : TryLock.keys) (s : shared) : shared :=
  {| bw := bw s; held := h; nm := nm s |}.

(** [StartHandler.Handle]: a container that is being handled is skipped. *)
Definition start_handler (containerID : string) : act host_sig shared () :=
  s ← get;
  let key := "start." +:+ containerID in
  match TryLock.Lock (held s) key with
  | None => mret ()
  | Some h =>
      modify (set_held h);;
      r ← try (lift (handle_start containerID));
      modify (λ s, set_held (TryLock.unlock (held s) key) s);;
      of_result r
  end.

Section events.
Context {range : MapRange} (error_data : error → result string).

Definition handle (h : Handler) (event : Message) : act host_sig shared () :=
  match h with
  | BinaryWatcher =>
      on_binaries (Handle (ActorID event) (Action event) (zget "" (Attributes event) binaryLabel))
  | ResolverHandler => start_handler (ActorID event)
  | NetworkHandler => on_manager (Evaluate error_data (ActorID event))
  end.

(** A worker: a handler's error is logged and the next handler runs. *)
Definition doWork (event : option Message) : act host_sig shared () :=
  match event with
  | None => mret ()
  | Some event => foreach (λ h, _ ← try (handle h event); mret ()) (eventHandlers (Action event))
  end.

(** The events made up for the containers that exist at the start. *)
Definition simulatedEvent (id : string) : Message :=
  {| Action := ActionStart; ActorID := id; Attributes := {[ "source" := "initial-container-snapshot" ]} |}.
Definition snapshot : hprog (result (list Message)) :=
  ids <-? call1 ContainerList; Ret (Ok (map simulatedEvent ids)).

(** ** The event stream

    What the select of the routing loop receives, one after the other: the end of
    the context, an error or the end of the error channel, an event or the end of
    the channel of events. *)
Inductive arrival :=
  | CtxDone
  | StreamErr (err : option error)
  | StreamMessage (event : option Message).

(** An error that is logged. *)
Definition stream_failure (e : error) : bool :=
  negb (errors_is "context.Canceled" e) && negb (errors_is "io.EOF" e).

(** The events that are processed, whether the loop has ended, and the error it
    logged. *)
Fixpoint routeEvents (arrivals : list arrival) : list Message * bool * option error :=
  match arrivals with
  | [] => ([], false, None)
  | StreamMessage (Some m) :: arrivals =>
      let '(ms, ended, logged) := routeEvents arrivals in (m :: ms, ended, logged)
  | StreamErr (Some e) :: _ => ([], true, if stream_failure e then Some e else None)
  | _ :: _ => ([], true, None)
  end.

(** The messages before the first other arrival are routed; nothing after it is,
    since the program does not subscribe again. *)
Lemma routeEvents_prefix ms a arrivals :
  (∀ m, a ≠ StreamMessage (Some m)) →
  (routeEvents (map (λ m, StreamMessage (Some m)) ms ++ a :: arrivals)).1 = (ms, true) ∧
  routeEvents (map (λ m, StreamMessage (Some m)) ms) = (ms, false, None).
Proof.
  intros Ha. induction ms as [|m ms [IH1 IH2]]; cbn [map app].
  - split; [|done]. destruct a as [|[e|]|[m|]]; try done. by destruct (Ha m).
  - cbn [routeEvents]. rewrite IH2. destruct (routeEvents (_ ++ _)) as [[x y] z]. cbn in *. by simplify_eq.
Qed.

(** ** The worker pool

    The events arrive in the order of the stream. A worker at work has its event
    and the handlers still to run; one handler runs as one step, since every
    component it enters has its own lock. *)
Record job := { number : nat; event : Message; todo : list Handler }.

Record router := {
  idle : nat; stream : list Message; next : nat; running : list job;
  done_log : list (nat * Handler); components : shared;
}.

Definition start_router (poolSize : nat) (messages : list Message) (s : shared) : router :=
  {| idle := poolSize; stream := messages; next := 0; running := []; done_log := []; components := s |}.

Inductive step : router → router → Prop :=
  | step_take n m q k l lg s :
      step {| idle := S n; stream := m :: q; next := k; running := l; done_log := lg; components := s |}
           {| idle := n; stream := q; next := S k;
              running := l ++ [{| number := k; event := m; todo := eventHandlers (Action m) |}];
              done_log := lg; components := s |}
  | step_work n q k l1 l2 i m h hs lg s tr s' r :
      execs (handle h m) s tr s' r →
      step {| idle := n; stream := q; next := k;
              running := l1 ++ {| number := i; event := m; todo := h :: hs |} :: l2;
              done_log := lg; components := s |}
           {| idle := n; stream := q; next := k;
              running := l1 ++ {| number := i; event := m; todo := hs |} :: l2;
              done_log := lg ++ [(i, h)]; components := s' |}
  | step_release n q k l1 l2 i m lg s :
      step {| idle := n; stream := q; next := k;
              running := l1 ++ {| number := i; event := m; todo := [] |} :: l2;
              done_log := lg; components := s |}
           {| idle := S n; stream := q; next := k; running := l1 ++ l2; done_log := lg; components := s |}.

(** ** Every event is handled *)

Definition done_for (i : nat) (lg : list (nat * Handler)) : list Handler :=
  omap (λ e : nat * Handler, if decide (e.1 = i) then Some e.2 else None) lg.

Lemma done_for_app i lg1 lg2 : done_for i (lg1 ++ lg2) = done_for i lg1 ++ done_for i lg2.
Proof. apply omap_app. Qed.
#[local] Arguments done_for : simpl never.

(** What is left of the work, for the stream, the workers and a whole router. *)
Definition job_cost (j : job) : nat := S (length (todo j)).
Definition message_cost (m : Message) : nat := S (S (length (eventHandlers (Action m)))).
Definition cost (r : router) : nat :=
  sum_list (map message_cost (stream r)) + sum_list (map job_cost (running r)).

Lemma sum_list_app l1 l2 : sum_list (l1 ++ l2) = sum_list l1 + sum_list l2.
Proof. induction l1 as [|x l1 IH]; cbn; [done|]. lia. Qed.

Lemma step_cost x y : step x y → cost y < cost x.
Proof.
  unfold cost. intros []; cbn [stream running map]; rewrite ?map_app, ?sum_list_app;
    cbn [map sum_list_with id]; unfold job_cost, message_cost; cbn [todo length]; lia.
Qed.

Lemma step_progress x : (0 < idle x ∧ stream x ≠ []) ∨ running x ≠ [] → ∃ y, step x y.
Proof.
  destruct x as [n q k l lg s]; cbn. destruct l as [|[i m [|h hs]] l].
  - intros [[Hn Hq]|]; [|done]. destruct n as [|n]; [lia|]. destruct q as [|m q]; [done|]. eexists. constructor.
  - intros _. eexists. apply (step_release n q k [] l).
  - intros _. pose proof (run_exec (Σ := host_sig) (λ _, idle_reply) [] (handle h m s)) as H.
    rewrite (surjective_pairing (run _ _ _).2) in H.
    eexists. eapply (step_work n q k [] l). exact H.
Qed.

Section pool.
Context (poolSize : nat) (messages : list Message).

(** The events taken are handled in order: what is logged of one, followed by
    what its worker still has to do, is the handlers of its action. *)
Record pooled (r : router) : Prop := {
  pooled_count : idle r + length (running r) = poolSize;
  pooled_stream : next r ≤ length messages ∧ stream r = drop (next r) messages;
  pooled_numbers : NoDup (map number (running r));
  pooled_running : ∀ j, j ∈ running r → number j < next r ∧
    messages !! number j = Some (event j) ∧
    done_for (number j) (done_log r) ++ todo j = eventHandlers (Action (event j));
  pooled_done : ∀ i m, messages !! i = Some m → i < next r → i ∉ map number (running r) →
    done_for i (done_log r) = eventHandlers (Action m);
  pooled_new : ∀ i, next r ≤ i → done_for i (done_log r) = [];
}.

Lemma pooled_start s : pooled (start_router poolSize messages s).
Proof.
  split; cbn; [lia|split; [lia|by rewrite drop_0]|constructor|by intros j ?%not_elem_of_nil|lia|done].
Qed.

Lemma pooled_take n m q k l lg s :
  pooled {| idle := S n; stream := m :: q; next := k; running := l; done_log := lg; components := s |} →
  pooled {| idle := n; stream := q; next := S k;
            running := l ++ [{| number := k; event := m; todo := eventHandlers (Action m) |}];
            done_log := lg; components := s |}.
Proof.
  intros [Hc [Hk Hq] Hn Hr Hd Hnew]. cbn in *.
  assert (messages !! k = Some m) as Hm.
  { rewrite <-(Nat.add_0_r k), <-lookup_drop, <-Hq. done. }
  split; cbn.
  - rewrite length_app. cbn. lia.
  - split; [apply lookup_lt_Some in Hm; lia|]. rewrite <-Nat.add_1_r, <-drop_drop, <-Hq. done.
  - rewrite map_app. apply NoDup_app. split; [done|]. split; [|apply NoDup_singleton].
    intros i Hi ->%list_elem_of_singleton. apply list_elem_of_fmap in Hi as (j & Hj & Hin).
    destruct (Hr j Hin) as [? _]. cbn in Hj. lia.
  - intros j [Hj| ->]%elem_of_snoc.
    + destruct (Hr j Hj) as (? & ? & ?). split; [lia|done].
    + cbn. split; [lia|]. split; [done|]. by rewrite (Hnew k).
  - intros i m' Hi Hlt Hout. rewrite map_app in Hout. apply not_elem_of_app in Hout as [Hout Hik].
    apply (Hd i m'); [done| |done]. cbn in Hik. assert (i ≠ k) by (intros ->; apply Hik, list_elem_of_here). lia.
  - intros i Hi. apply Hnew. lia.
Qed.

Lemma pooled_work n q k l1 l2 i m h hs lg s s' :
  pooled {| idle := n; stream := q; next := k;
            running := l1 ++ {| number := i; event := m; todo := h :: hs |} :: l2;
            done_log := lg; components := s |} →
  pooled {| idle := n; stream := q; next := k;
            running := l1 ++ {| number := i; event := m; todo := hs |} :: l2;
            done_log := lg ++ [(i, h)]; components := s' |}.
Proof.
  intros [Hc Hq Hn Hr Hd Hnew]. cbn in *. rewrite map_app in Hn. cbn in Hn.
  assert (∀ i', i' ≠ i → done_for i' (lg ++ [(i, h)]) = done_for i' lg) as Hne.
  { intros i' Hi. rewrite done_for_app. unfold done_for at 2. cbn.
    rewrite decide_False by done. by rewrite app_nil_r. }
  destruct (Hr {| number := i; event := m; todo := h :: hs |}) as (Hi & Hm & Hdone);
    [apply elem_of_app; right; apply list_elem_of_here|]. cbn in Hi, Hm, Hdone.
  split; cbn.
  - by rewrite length_app in Hc |- *.
  - done.
  - by rewrite map_app.
  - intros j Hj. destruct (decide (number j = i)) as [Hji|Hji].
    + assert (j = {| number := i; event := m; todo := hs |}) as ->.
      { apply NoDup_app in Hn as (_ & Hn1 & [Hn2 _]%NoDup_cons).
        apply elem_of_app in Hj as [Hj|[-> |Hj]%elem_of_cons]; [|done|].
        - destruct (Hn1 i); [|apply list_elem_of_here]. apply list_elem_of_fmap. by exists j.
        - destruct Hn2. apply list_elem_of_fmap. by exists j. }
      cbn [number event todo]. split; [done|]. split; [done|]. rewrite done_for_app.
      unfold done_for at 2. cbn.
      rewrite decide_True by done. cbn. by rewrite <-app_assoc.
    + rewrite Hne by done. apply Hr. apply elem_of_app in Hj as [Hj|[-> |Hj]%elem_of_cons];
        [apply elem_of_app; by left|done|apply elem_of_app; right; by apply list_elem_of_further].
  - intros i' m' Hi' Hlt Hout. rewrite map_app in Hout. cbn in Hout.
    rewrite Hne; [apply (Hd i' m'); [done..|by rewrite map_app]|].
    intros ->. apply Hout, elem_of_app. right. apply list_elem_of_here.
  - intros i' Hi'. rewrite Hne by lia. by apply Hnew.
Qed.

Lemma pooled_release n q k l1 l2 i m lg s :
  pooled {| idle := n; stream := q; next := k;
            running := l1 ++ {| number := i; event := m; todo := [] |} :: l2;
            done_log := lg; components := s |} →
  pooled {| idle := S n; stream := q; next := k; running := l1 ++ l2; done_log := lg; components := s |}.
Proof.
  intros [Hc Hq Hn Hr Hd Hnew]. cbn in *. rewrite map_app in Hn. cbn in Hn.
  split; cbn.
  - rewrite length_app in Hc |- *. cbn in Hc. lia.
  - done.
  - rewrite map_app. apply NoDup_app in Hn as (? & Hn1 & [? ?]%NoDup_cons). apply NoDup_app.
    split; [done|]. split; [|done]. intros j Hj ?. apply (Hn1 j Hj). by apply list_elem_of_further.
  - intros j Hj. apply Hr. apply elem_of_app in Hj as [Hj|Hj]; apply elem_of_app;
      [by left|right; by apply list_elem_of_further].
  - intros i' m' Hi' Hlt Hout. destruct (decide (i' = i)) as [->|Hne].
    + destruct (Hr {| number := i; event := m; todo := [] |}) as (_ & Hm & Hdone);
        [apply elem_of_app; right; apply list_elem_of_here|]. cbn in Hm, Hdone.
      rewrite Hi' in Hm. injection Hm as ->. by rewrite app_nil_r in Hdone.
    + apply (Hd i' m'); [done..|]. rewrite map_app in Hout |- *. cbn.
      intros [?|[-> |?]%elem_of_cons]%elem_of_app; [|done|]; apply Hout, elem_of_app; auto.
  - done.
Qed.

Lemma pooled_step x y : pooled x → step x y → pooled y.
Proof.
  intros Hx Hs. destruct Hs; [by apply pooled_take|by eapply pooled_work|by eapply pooled_release].
Qed.
End pool.

(** C25: the event router loses nothing. In every schedule at most [poolSize]
    events are being handled, each event's handlers run in the order of its
    action's list (the driver watcher before the network manager), whatever they
    return; the schedule of a stream ends, and when nothing more can happen every
    event has been handled by all its handlers and all workers are idle. *)
Theorem events_handled poolSize messages s x :
  0 < poolSize → rtc step (start_router poolSize messages s) x →
  idle x + length (running x) = poolSize ∧
  (∀ i m, messages !! i = Some m → done_for i (done_log x) `prefix_of` eventHandlers (Action m)) ∧
  Acc (flip step) x ∧
  ((∀ y, ¬ step x y) →
     idle x = poolSize ∧ ∀ i m, messages !! i = Some m → done_for i (done_log x) = eventHandlers (Action m)).
Proof.
  intros Hpool Hrun. assert (pooled poolSize messages x) as Hx.
  { assert (pooled poolSize messages (start_router poolSize messages s)) as Hp by apply pooled_start.
    revert Hp. induction Hrun as [|x y z Hxy _ IH]; [done|]. intros Hx. by eapply IH, pooled_step. }
  destruct Hx as [Hc [Hk Hq] Hn Hr Hd Hnew]. split; [done|]. split; [|split].
  - intros i m Hi. destruct (decide (i < next x)) as [Hlt|]; [|rewrite Hnew by lia; apply prefix_nil].
    destruct (decide (i ∈ map number (running x))) as [Hin|]; [|by rewrite (Hd i m)].
    apply list_elem_of_fmap in Hin as (j & -> & Hj). destruct (Hr j Hj) as (_ & Hm & Hdone).
    rewrite Hi in Hm. injection Hm as ->. exists (todo j). by symmetry.
  - remember (cost x) as c eqn:Hcost. assert (cost x ≤ c) as Hle by lia. clear -Hle.
    revert x Hle. induction c as [|c IH]; intros x Hle; constructor; intros y Hy%step_cost; [lia|].
    apply IH. lia.
  - intros Hstuck. assert (running x = []) as Hrun0.
    { destruct (running x) eqn:E; [done|]. destruct (step_progress x) as [y Hy]; [right; congruence|].
      by destruct (Hstuck y). }
    rewrite Hrun0 in *. cbn in Hc.
    assert (stream x = []) as Hs0.
    { destruct (stream x) eqn:E; [done|]. destruct (step_progress x) as [y Hy];
        [left; split; [lia|congruence]|]. by destruct (Hstuck y). }
    split; [lia|]. intros i m Hi. apply Hd; [done| |by intros ?%not_elem_of_nil].
    rewrite Hs0 in Hq. apply (f_equal length) in Hq. rewrite length_drop in Hq. cbn in Hq.
    apply lookup_lt_Some in Hi. lia.
Qed.
End events.

(** ** Two workers and a container that starts *)

Definition started_event : Message := {| Action := ActionStart; ActorID := "4f2a"; Attributes := ∅ |}.
Definition died_event : Message := {| Action := ActionDie; ActorID := "4f2a"; Attributes := ∅ |}.
Definition fresh : shared :=
  {| bw := {| applied := ∅; lastApplied := zero_time |}; held := ∅; nm := {| startTimes := ∅ |} |}.
Definition first_handler :=
  run (Σ := host_sig) (λ _, idle_reply) [] (@handle range_forward plain_error BinaryWatcher started_event fresh).

Definition handled_once : router :=
  {| idle := 1; stream := [died_event]; next := 1;
     running := [{| number := 0; event := started_event; todo := [ResolverHandler; NetworkHandler] |}];
     done_log := [(0, BinaryWatcher)]; components := fst first_handler.2 |}.

Lemma events_handled_witness :
  rtc (@step range_forward plain_error) (start_router 2 [started_event; died_event] fresh) handled_once ∧
  Acc (flip (@step range_forward plain_error)) handled_once ∧
  done_for 0 (done_log handled_once) `prefix_of` [BinaryWatcher; ResolverHandler; NetworkHandler].
Proof.
  assert (rtc (@step range_forward plain_error) (start_router 2 [started_event; died_event] fresh)
    handled_once) as H.
  { eapply rtc_l; [exact (@step_take range_forward plain_error 1 started_event [died_event] 0 [] [] fresh)|].
    apply rtc_once. apply (@step_work range_forward plain_error 1 [died_event] 1 [] [] 0 started_event BinaryWatcher
      _ [] fresh first_handler.1 (fst first_handler.2) (snd first_handler.2)).
    unfold execs. rewrite <-surjective_pairing. exact (run_exec (Σ := host_sig) (λ _, idle_reply) [] _). }
  split; [exact H|].
  destruct (@events_handled range_forward plain_error 2 [started_event; died_event] fresh handled_once
    ltac:(lia) H) as (_ & Hp & Hacc & _).
  split; [exact Hacc|]. exact (Hp 0 started_event eq_refl).
Defined.
