(* ===== verification/LocalNet.v ===== *)
(** * The networks and containers of this host (network/local.go)

    The local networks are those with a primary driver service container on this
    host; a function can be run in the network namespace of each of a network's
    local containers. *)
From S2P Require Import Prelude Effects GoStrings Metadata World Identity Manager.

(** ** LocalNetworks *)

(** The primary service of a network plugin stack. *)
Definition is_primary_driver (s : Service.t) : bool :=
  String.eqb (Service.Kind s) "networkDriverService"
  && String.eqb (Service.Name s) (Service.PrimaryServiceName s).

Definition add_router (hostUUID : string) (m : gmap string Container.t) (c : Container.t)
    : gmap string Container.t :=
  if String.eqb (Container.HostUUID c) hostUUID then <[Container.NetworkUUID c := c]> m else m.

(** The driver container of each network on this host; its keys are the local
    networks. *)
Definition local_routers (hostUUID : string) (services : list Service.t) : gmap string Container.t :=
  foldl (λ m s, if is_primary_driver s then foldl (add_router hostUUID) m (Service.Containers s) else m)
    ∅ services.

Definition local_of (routers : gmap string Container.t) (networks : list Network.t) : list Network.t :=
  filter (λ n, is_Some (routers !! Network.UUID n)) networks.

Definition LocalNetworks : hprog (result (list Network.t * gmap string Container.t)) :=
  networks <-? wrapped "fetch networks from metadata" (call1 GetNetworks);
  hostUUID <-? wrapped "fetch local host UUID" LocalHostUUID;
  services <-? wrapped "fetch services from metadata" (call1 GetServices);
  let routers := local_routers hostUUID services in
  Ret (Ok (local_of routers networks, routers)).

(** ** Running in container namespaces *)

(** [ns.GetNS] of the process of a container, then [Do]. *)
Definition EnterNS (dockerID : string) (f : netns → hprog (result ())) : hprog (result ()) :=
  inspect <-? wrapped "inspect container" (call1 (ContainerInspect dockerID));
  match State inspect with
  | None => Ret (Err ErrNilPointer)
  | Some st =>
      opened ← call1 (OpenNamespace (Pid st));
      match opened with
      | Some e => Ret (Err (Wrapf "open network namespace" e))
      | None =>
          entered ← call1 (EnterNamespace (Pid st));
          match entered with
          | Some e => Ret (Err (Wrapf "run in network namespace for container" e))
          | None => wrapped "run in network namespace for container" (f (Some (Pid st)))
          end
      end
  end.

Definition managed_here (hostUUID networkUUID : string) (c : Container.t) : bool :=
  String.eqb (Container.HostUUID c) hostUUID
  && String.eqb (Container.State c) "running"
  && negb (String.eqb (Container.ExternalId c) "")
  && negb (String.eqb (Container.PrimaryIp c) "")
  && negb (String.eqb (Container.PrimaryMacAddress c) "")
  && String.eqb (Container.NetworkUUID c) networkUUID.

(** A loop that tries every element; the last error is its result. *)
Fixpoint try_each {A} (f : A → hprog (result ())) (lastError : option error) (l : list A)
    : hprog (result ()) :=
  match l with
  | [] => Ret (err_result lastError)
  | x :: l' =>
      r ← f x;
      try_each f (match r with Err e => Some e | Ok _ => lastError end) l'
  end.

Definition ForEachContainerNS (networkUUID : string) (f : Container.t → netns → hprog (result ()))
    : hprog (result ()) :=
  hostUUID <-? wrapped "fetch local host UUID" LocalHostUUID;
  containers <-? wrapped "fetch containers from metadata" (call1 GetContainers);
  try_each (λ c, EnterNS (Container.ExternalId c) (f c)) None
    (filter (λ c, managed_here hostUUID networkUUID c = true) containers).

(** ** Lemmas *)

Lemma try_each_exec {A} (f : A → hprog (result ())) last l tr r :
  exec (try_each f last l) tr r →
  ∃ trs rs, length trs = length l ∧ tr = concat trs ∧
    (∀ i x, l !! i = Some x → ∃ ti ri, trs !! i = Some ti ∧ rs !! i = Some ri ∧ exec (f x) ti ri) ∧
    (r = Ok () ↔ last = None ∧ Forall (λ r, r = Ok ()) rs) ∧ length rs = length l.
Proof.
  revert last tr. induction l as [|x l IH]; intros last tr; cbn [try_each].
  { intros [-> ->]. exists [], []. split; [done|]. split; [done|]. split; [done|].
    rewrite err_result_Ok. split; [|done]. split; [by intros ->|by intros [-> _]]. }
  intros (tr1 & tr2 & rx & -> & Hx & H)%exec_bind. destruct (IH _ _ H) as (trs & rs & Hl & -> & Hi & Hok & Hlr).
  exists (tr1 :: trs), (rx :: rs). cbn. split; [by rewrite Hl|]. split; [done|]. split; [|split; [|by rewrite Hlr]].
  - intros [|i] y; cbn; [intros [= <-]; by exists tr1, rx|apply Hi].
  - rewrite Hok, Forall_cons. destruct rx as [[]|e]; [|split; [by intros []|by intros (_ & ? & _)]].
    naive_solver.
Qed.

Lemma elem_of_local_of routers networks n :
  n ∈ local_of routers networks ↔ is_Some (routers !! Network.UUID n) ∧ n ∈ networks.
Proof. unfold local_of. by rewrite list_elem_of_filter. Qed.

Lemma add_router_fold hostUUID m cs k c :
  foldl (add_router hostUUID) m cs !! k = Some c →
  m !! k = Some c ∨ (c ∈ cs ∧ Container.HostUUID c = hostUUID ∧ Container.NetworkUUID c = k).
Proof.
  revert m. induction cs as [|c' cs IH]; intros m; cbn [foldl]; [by left|]. intros [Hm|(? & ? & ?)]%IH.
  - unfold add_router in Hm. destruct (String.eqb _ _) eqn:Hh; [|by left]. apply String.eqb_eq in Hh.
    apply lookup_insert_Some in Hm as [[<- <-]|[_ ?]]; [|by left]. right. by split; [left|].
  - right. split; [by right|done].
Qed.

(** A local network has a primary driver container on this host. *)
Lemma local_routers_spec hostUUID services k c :
  local_routers hostUUID services !! k = Some c →
  ∃ s, s ∈ services ∧ is_primary_driver s = true ∧ c ∈ Service.Containers s ∧
    Container.HostUUID c = hostUUID ∧ Container.NetworkUUID c = k.
Proof.
  unfold local_routers. intros H.
  assert (∀ m, foldl (λ m s, if is_primary_driver s then foldl (add_router hostUUID) m (Service.Containers s) else m)
    m services !! k = Some c → m !! k = Some c ∨ ∃ s, s ∈ services ∧ is_primary_driver s = true ∧
      c ∈ Service.Containers s ∧ Container.HostUUID c = hostUUID ∧ Container.NetworkUUID c = k) as Hgen.
  { clear H. induction services as [|s services IH]; intros m; cbn [foldl]; [by left|].
    intros [Hm|(s' & ? & ?)]%IH; [|right; exists s'; split; [by right|done]].
    destruct (is_primary_driver s) eqn:Hs; [|by left].
    apply add_router_fold in Hm as [?|(? & ? & ?)]; [by left|]. right. exists s. by split; [left|]. }
  destruct (Hgen ∅ H) as [Hm|?]; [by rewrite lookup_empty in Hm|done].
Qed.
