(* ===== verification/CniConf.v ===== *)
(** * The CNI configuration files (cniconf/watcher.go, cniconf/files.go)

    The plugin configurations that the metadata gives for the local networks are
    written below /etc/cni, one directory per network; the file of the plugin's
    former name is retired, never destroyed. *)
From S2P Require Import Prelude Effects GoStrings Metadata Json World Identity.

Definition reapplyEvery : Z := (5 * minute)%Z.
Definition cni_root : string := "/etc/cni".
(** [fmt.Sprintf(cniDir, name)] *)
Definition conf_dir (name : string) : string := "/etc/cni/" +:+ name +:+ ".d".
Definition legacyConfigName : string := "10-rancher.conf".
Definition currentConfigName : string := "10-pasturestack.conf".
Definition retiredSuffix : string := ".pasturestack-retired".

Record configFile := { conf_name : string; content : string }.

Definition name_byte (a : ascii) : bool :=
  is_alpha a || is_digit a || Ascii.eqb a "." || Ascii.eqb a "-" || Ascii.eqb a "_".

Definition validConfigName (name : string) : bool :=
  if String.eqb name "" || String.eqb name "." || String.eqb name ".." then false
  else all_bytes name_byte name.

(** [filepath.Join(directory, name)] of a valid name. *)
Definition path_in (directory name : string) : string := directory +:+ "/" +:+ name.

(** ** JSON texts of metadata values *)

Definition format_Z (n : Z) : string :=
  if (n <? 0)%Z then "-" +:+ Itoa (Z.to_N (- n)) else Itoa (Z.to_N n).

Fixpoint of_value (v : Value) : Json :=
  match v with
  | VNull => JNull
  | VBool b => JBool b
  | VNumber n => JNumber (format_Z n)
  | VFloat text => JNumber text
  | VString s => JString s
  | VArray l => JArray (map of_value l)
  | VObject m => JObject (map_members id (of_value <$> m))
  end.

(** [json.MarshalIndent(v, "", "  ")] at a depth of indentation. *)
Fixpoint spaces (depth : nat) : string :=
  match depth with 0 => "" | S d => "  " +:+ spaces d end.

Fixpoint indented (depth : nat) (v : Json) : string :=
  let inner := nl +:+ spaces (S depth) in
  let outer := nl +:+ spaces depth in
  match v with
  | JArray [] => "[]"
  | JArray l => "[" +:+ inner +:+ Join (map (indented (S depth)) l) ("," +:+ inner) +:+ outer +:+ "]"
  | JObject [] => "{}"
  | JObject ms =>
      "{" +:+ inner +:+
      Join (map (λ kv, print_string kv.1 +:+ ": " +:+ indented (S depth) kv.2) ms) ("," +:+ inner)
      +:+ outer +:+ "}"
  | _ => Marshal v
  end.

Definition MarshalIndent (v : Value) : string := indented 0 (of_value v).

Example MarshalIndent_ex :
  MarshalIndent (VObject {[ "a" := VNumber 1; "b" := VArray [VBool true; VArray []] ]}) =
  "{" +:+ nl +:+ "  " +:+ dquote +:+ "a" +:+ dquote +:+ ": 1," +:+ nl +:+ "  "
  +:+ dquote +:+ "b" +:+ dquote +:+ ": [" +:+ nl +:+ "    true," +:+ nl +:+ "    []" +:+ nl
  +:+ "  ]" +:+ nl +:+ "}".
Proof. vm_compute. reflexivity. Qed.

(** ** Checks of paths *)

(** [filepath.Dir] steps from a network's directory to the root. *)
Definition ancestors (directory : string) : list string := [directory; "/etc/cni"; "/etc"; "/"].

Definition check_entry (path : string) : hprog (result ()) :=
  info ← call1 (Lstat path);
  Ret (match info with
       | Ok kind => if decide (kind = Directory) then Ok ()
                    else Err (Errorf "CNI directory is not a regular directory")
       | Err e => if is_not_exist e then Ok () else Err e
       end).

Definition checkConfigDirectory (directory : string) : hprog (result ()) :=
  pforeach check_entry (ancestors directory).

Definition ensureConfigDirectory (directory : string) : hprog (result ()) :=
  _ <-? checkConfigDirectory directory;
  e ← call1 (MkdirAll directory);
  Ret (err_result e).

Definition checkConfigFile (path : string) : hprog (result ()) :=
  info ← call1 (Lstat path);
  Ret (match info with
       | Ok kind => if decide (kind = RegularFile) then Ok ()
                    else Err (Errorf "CNI file is not a regular file")
       | Err e => if is_not_exist e then Ok () else Err e
       end).

(** ** The bridge contract of the platform's own plugin *)

Record bridgeContract := { ContractName : string; ContractType : string; IPAMType : string }.

(** The members of all [ipam] objects, which decode into one struct. *)
Definition ipam_members (ms : list (string * Json)) : result (list (string * Json)) :=
  result_fold (λ acc v, m ← struct_members v; Ok (acc ++ m)) [] (field_values "ipam" ms).

Definition decode_contract (v : Json) : result bridgeContract :=
  ms ← struct_members v;
  name ← string_field "name" ms;
  type ← string_field "type" ms;
  ipam ← ipam_members ms;
  ipam_type ← string_field "type" ipam;
  Ok {| ContractName := name; ContractType := type; IPAMType := ipam_type |}.

Definition currentContract : list string := ["pasturestack-cni-network"; "pasture-bridge"; "metadata-cni-ipam"].
Definition legacyContract : list string := ["rancher-cni-network"; "rancher-bridge"; "rancher-cni-ipam"].

Definition matchingContractFields (config : bridgeContract) (expected : list string) : nat :=
  length (filter (λ p : string * string, p.1 = p.2)
            (zip [ContractName config; ContractType config; IPAMType config] expected)).

(** ** Writing *)

Definition write_temporary (temporary path data : string) : hprog (result ()) :=
  _ <-? wrapped "write CNI config temporary file" (e ← call1 (Write temporary data); Ret (err_result e));
  _ <-? (e ← call1 (Chmod temporary 384); Ret (err_result e));
  _ <-? (e ← call1 (Sync temporary); Ret (err_result e));
  _ <-? (e ← call1 (Close temporary); Ret (err_result e));
  _ <-? checkConfigFile path;
  wrapped "install CNI config" (e ← call1 (Rename temporary path); Ret (err_result e)).

(** The deferred calls close and remove the temporary file on every return. *)
Definition writeConfigAtomic (directory name data : string) : hprog (result ()) :=
  let path := path_in directory name in
  _ <-? checkConfigFile path;
  temporary <-? wrapped "create CNI config temporary file"
                  (call1 (CreateTemp directory ("." +:+ name +:+ ".tmp-*")));
  r ← write_temporary temporary path data;
  _ ← call1 (Close temporary);
  _ ← call1 (Remove temporary);
  Ret r.

(** ** Retiring the file of the other name *)

Record legacyRetirement := { old_path : string; backup : string; old_content : string }.

Definition checkBackup (r : legacyRetirement) : hprog (result ()) :=
  _ <-? checkConfigFile (backup r);
  data ← call1 (ReadFile (backup r));
  Ret (match data with
       | Err e => if is_not_exist e then Ok () else Err e
       | Ok data => if String.eqb data (old_content r) then Ok ()
                    else Err (Errorf "retired CNI backup differs from active legacy config")
       end).

Definition retire (r : option legacyRetirement) : hprog (result ()) :=
  match r with
  | None => Ret (Ok ())
  | Some r =>
      _ <-? checkConfigFile (old_path r);
      data <-? call1 (ReadFile (old_path r));
      if negb (String.eqb data (old_content r))
      then Ret (Err (Errorf "legacy CNI config changed during migration")) else
      _ <-? checkBackup r;
      present ← call1 (Lstat (backup r));
      match present with
      | Ok _ => e ← call1 (Remove (old_path r)); Ret (err_result e)
      | Err e =>
          if is_not_exist e then e ← call1 (Rename (old_path r) (backup r)); Ret (err_result e)
          else Ret (Err e)
      end
  end.

(** ** The link to the default network's directory *)

Definition stage_symlink (stagedPath path target : string) : hprog (result ()) :=
  _ <-? (e ← call1 (Remove stagedPath); Ret (err_result e));
  _ <-? (e ← call1 (Symlink target stagedPath); Ret (err_result e));
  e ← call1 (Rename stagedPath path); Ret (err_result e).

(** [replaceManagedSymlinkWithOps], past its check of the present entry. *)
Definition link_staged (path target : string) : hprog (result ()) :=
  stagedPath <-? call1 (CreateTemp cni_root ".managed.d.tmp-*");
  closed ← call1 (Close stagedPath);
  match closed with
  | Some e => _ ← call1 (Remove stagedPath); Ret (Err e)
  | None =>
      r ← stage_symlink stagedPath path target;
      _ ← call1 (Remove stagedPath);
      Ret r
  end.

Definition replaceManagedSymlink (path target : string) : hprog (result ()) :=
  info ← call1 (Lstat path);
  match info with
  | Ok kind => if decide (kind = SymbolicLink) then link_staged path target
               else Ret (Err (Errorf "managed CNI path is not a symlink"))
  | Err e => if is_not_exist e then link_staged path target else Ret (Err e)
  end.

(** ** The watcher *)

Record watcher := { applied : gmap string Network.t; lastApplied : Z }.
Abbreviation wact A := (act host_sig watcher A).

Section watch.
Context {range : MapRange}.
(** [libcni.NetworkPluginConfFromBytes], for its error. *)
Context (plugin_conf : string → result ()).

Definition prepare_file (directory : string) (acc : list configFile) (entry : string * Value)
    : hprog (result (list configFile)) :=
  let '(name, config) := entry in
  if negb (validConfigName name) then Ret (Err (Errorf "invalid CNI config filename")) else
  _ <-? checkConfigFile (path_in directory name);
  let text := MarshalIndent config in
  match plugin_conf text with
  | Err e => Ret (Err (Wrapf "validate CNI config" e))
  | Ok _ => Ret (Ok (acc ++ [{| conf_name := name; content := text |}]))
  end.

Definition file_le (f g : configFile) : Prop := String.le (conf_name f) (conf_name g).
#[local] Instance file_le_dec f g : Decision (file_le f g) := _.

(** Every desired file is checked before any is written; they are written in the
    order of their paths. *)
Definition prepareConfigFiles (directory : string) (configs : gmap string Value)
    : hprog (result (list configFile)) :=
  _ <-? checkConfigDirectory directory;
  files <-? pfold (prepare_file directory) [] (range_map 30 configs);
  Ret (Ok (merge_sort file_le files)).

Definition find_file (name : string) (files : list configFile) : option configFile :=
  last (filter (λ f, conf_name f = name) files).

(** The old file is the platform's when all three contract fields match. *)
Definition classify (directory oldName : string) (oldExpected : list string)
    : hprog (result (option legacyRetirement)) :=
  let path := path_in directory oldName in
  _ <-? checkConfigFile path;
  data ← call1 (ReadFile path);
  match data with
  | Err e => Ret (if is_not_exist e then Ok None else Err e)
  | Ok data =>
      match plugin_conf data with
      | Err e => Ret (Err (Wrapf "cannot classify legacy CNI config" e))
      | Ok _ =>
          match Unmarshal decode_contract data with
          | Err e => Ret (Err (Wrapf "cannot classify legacy CNI config" e))
          | Ok old =>
              let ownedFields := matchingContractFields old oldExpected in
              if ownedFields =? 0 then Ret (Ok None) else
              if negb (ownedFields =? 3)
              then Ret (Err (Errorf "ambiguous platform ownership of legacy CNI config")) else
              let r := {| old_path := path; backup := path +:+ retiredSuffix; old_content := data |} in
              _ <-? checkBackup r; Ret (Ok (Some r))
          end
      end
  end.

(** Only a change between the platform's two file names is reconciled. *)
Definition transition (files : list configFile) : option (configFile * list string * string * list string) :=
  match find_file currentConfigName files, find_file legacyConfigName files with
  | Some current, None => Some (current, currentContract, legacyConfigName, legacyContract)
  | None, Some legacy => Some (legacy, legacyContract, currentConfigName, currentContract)
  | _, _ => None
  end.

Definition prepareLegacyRetirement (directory : string) (files : list configFile)
    : hprog (result (option legacyRetirement)) :=
  match transition files with
  | None => Ret (Ok None)
  | Some (successor, expected, oldName, oldExpected) =>
      match Unmarshal decode_contract (content successor) with
      | Err _ => Ret (Ok None)
      | Ok desired =>
          if negb (matchingContractFields desired expected =? 3) then Ret (Ok None)
          else classify directory oldName oldExpected
      end
  end.

(** The managed link follows the default network. *)
Definition point_managed (confDir : string) (network : Network.t) : hprog (result ()) :=
  if negb (Network.Default network) then Ret (Ok ()) else
  managed ← call1 (FileIdentity (conf_dir "managed"));
  config ← call1 (FileIdentity confDir);
  if match managed, config with Ok a, Ok b => (a =? b)%Z | _, _ => false end then Ret (Ok ())
  else replaceManagedSymlink (conf_dir "managed") (Network.Name network +:+ ".d").

Definition write_files (confDir : string) (files : list configFile) : hprog (result ()) :=
  pforeach (λ f, writeConfigAtomic confDir (conf_name f) (content f)) files.

Definition apply_network (network : Network.t) : hprog (result ()) :=
  if negb (validConfigName (Network.Name network))
  then Ret (Err (Errorf "invalid CNI network name")) else
  let confDir := conf_dir (Network.Name network) in
  files <-? prepareConfigFiles confDir (cniConfig network);
  retirement <-? prepareLegacyRetirement confDir files;
  _ <-? ensureConfigDirectory confDir;
  _ <-? write_files confDir files;
  _ <-? point_managed confDir network;
  retire retirement.

Definition apply (network : Network.t) : wact () :=
  _ ← lift (apply_network network);
  now ← ask (Σ := host_sig) Now;
  modify (λ w, {| applied := <[Network.Name network := network]> (applied w); lastApplied := now |}).

(** [network.Metadata["cniConfig"].(map[string]interface{})] *)
Definition has_cni (network : Network.t) : bool :=
  match Network.Metadata network !! "cniConfig" with Some (VObject _) => true | _ => false end.

Definition local_driver (hostUUID : string) (services : list Service.t) : bool :=
  existsb (λ s, String.eqb (Service.Kind s) "networkDriverService"
    && existsb (λ c, String.eqb (Container.HostUUID c) hostUUID) (Service.Containers s)) services.

Definition localCNINetworks (networks : list Network.t) (services : list Service.t) (hostUUID : string)
    : gset string :=
  if local_driver hostUUID services
  then list_to_set (map Network.UUID (filter (λ n, has_cni n = true) networks)) else ∅.

(** The loop of [onChange]: a failing network does not stop the others. *)
Definition due (localNetworks : gset string) (forceApply : bool) (network : Network.t) (w : watcher) : bool :=
  bool_decide (Network.UUID network ∈ localNetworks) && has_cni network
  && (forceApply || bool_decide (default Network.zero (applied w !! Network.Name network) ≠ network)).

Fixpoint apply_all (localNetworks : gset string) (forceApply : bool) (networks : list Network.t)
    : wact (list error) :=
  match networks with
  | [] => mret []
  | network :: networks =>
      w ← get;
      if due localNetworks forceApply network w then
        r ← try (apply network);
        errs ← apply_all localNetworks forceApply networks;
        mret (match r with Err e => Wrapf "network" e :: errs | Ok _ => errs end)
      else apply_all localNetworks forceApply networks
  end.

Definition onChange : wact () :=
  networks ← lift (call1 GetNetworks);
  hostUUID ← lift LocalHostUUID;
  services ← lift (call1 GetServices);
  let localNetworks := localCNINetworks networks services hostUUID in
  now ← ask (Σ := host_sig) Now;
  w ← get;
  errs ← apply_all localNetworks (reapplyEvery <? Sub now (lastApplied w))%Z networks;
  of_result (err_result (errors_join (Some <$> errs))).
End watch.

(** ** What an application may do *)

Definition reads (c : hcall) : Prop :=
  match c with Lstat _ | ReadFile _ | FileIdentity _ => True | _ => False end.

Lemma checkConfigFile_reads path : hcalls reads (checkConfigFile path).
Proof. by split. Qed.
Lemma checkConfigDirectory_reads directory : hcalls reads (checkConfigDirectory directory).
Proof. apply calls_in_pforeach. intros path. by split. Qed.
Lemma checkBackup_reads r : hcalls reads (checkBackup r).
Proof. apply calls_in_pbind_ok; [apply checkConfigFile_reads|]. intros _. by split. Qed.

Section apply.
Context {range : MapRange} (plugin_conf : string → result ()) (network : Network.t).
Abbreviation hist := (list hevent).
Abbreviation confDir := (conf_dir (Network.Name network)).
Abbreviation configs := (cniConfig network).

(** Every desired name and text is acceptable. *)
Definition validated : Prop :=
  validConfigName (Network.Name network) = true ∧
  ∀ name v, configs !! name = Some v →
    validConfigName name = true ∧ plugin_conf (MarshalIndent v) = Ok ().

Lemma prepareConfigFiles_reads : hcalls reads (prepareConfigFiles plugin_conf confDir configs).
Proof.
  apply calls_in_pbind_ok; [apply checkConfigDirectory_reads|]. intros _.
  apply calls_in_pbind_ok; [|done]. apply calls_in_pfold. intros acc [name v]. unfold prepare_file.
  destruct (validConfigName name); [|done]. cbn [negb].
  apply calls_in_pbind_ok; [apply checkConfigFile_reads|]. intros _. cbn zeta.
  by destruct (plugin_conf _).
Qed.

Definition file_of (entry : string * Value) : configFile :=
  {| conf_name := entry.1; content := MarshalIndent entry.2 |}.

Lemma prepare_loop_exec dir l acc tr files :
  exec (pfold (prepare_file plugin_conf dir) acc l) tr (Ok files) →
  files = acc ++ map file_of l ∧
  ∀ name v, (name, v) ∈ l → validConfigName name = true ∧ plugin_conf (MarshalIndent v) = Ok ().
Proof.
  revert acc tr. induction l as [|[name v] l IH]; intros acc tr; cbn [pfold].
  { intros [_ [= ->]]. rewrite app_nil_r. split; [done|]. by intros ?? ?%not_elem_of_nil. }
  intros [(? & ? & _)|(tr1 & tr2 & a & -> & H1 & H2)]%exec_pbind_ok; [done|].
  unfold prepare_file in H1. destruct (validConfigName name) eqn:Hv; cbn [negb] in H1; [|by destruct H1].
  apply exec_pbind_ok in H1 as [(? & ? & _)|(tr3 & tr4 & [] & -> & _ & H1)]; [done|].
  cbn zeta in H1. destruct (plugin_conf (MarshalIndent v)) as [[]|e] eqn:Hp; [|by destruct H1].
  destruct H1 as [_ [= ->]]. destruct (IH _ _ H2) as [-> Hall]. split; [by rewrite <-app_assoc|].
  intros name' v' [[= -> ->]|Hin]%elem_of_cons; [done|by apply Hall].
Qed.

Lemma prepareConfigFiles_exec tr files :
  validConfigName (Network.Name network) = true →
  exec (prepareConfigFiles plugin_conf confDir configs) tr (Ok files) →
  validated ∧ ∀ f, f ∈ files ↔ ∃ name v, configs !! name = Some v ∧ f = file_of (name, v).
Proof.
  intros Hname. intros [(? & ? & _)|(tr1 & tr2 & [] & -> & _ & H)]%exec_pbind_ok; [done|].
  apply exec_pbind_ok in H as [(? & ? & _)|(tr3 & tr4 & fs & -> & H & [_ [= ->]])]; [done|].
  apply prepare_loop_exec in H as [-> Hall]. split.
  - split; [done|]. intros name v Hv. apply Hall. by apply elem_of_range_map.
  - intros f. rewrite merge_sort_Permutation. cbn [app]. rewrite list_elem_of_fmap. split.
    + intros ([name v] & -> & Hin%elem_of_range_map). by exists name, v.
    + intros (name & v & Hv & ->). exists (name, v). split; [done|]. by apply elem_of_range_map.
Qed.

(** The file that a change of the plugin's name leaves behind: not desired, and
    the platform's own by all three fields of its contract. *)
Definition superseded_file (old : string) (data : string) : Prop :=
  configs !! old = None ∧ plugin_conf data = Ok () ∧
  ∃ c expected, ((old = legacyConfigName ∧ expected = legacyContract) ∨
                 (old = currentConfigName ∧ expected = currentContract)) ∧
    Unmarshal decode_contract data = Ok c ∧ matchingContractFields c expected = 3.

Definition sound_retirement (r : legacyRetirement) : Prop :=
  ∃ old, old_path r = path_in confDir old ∧ backup r = old_path r +:+ retiredSuffix ∧
    superseded_file old (old_content r).

Lemma find_file_None name files :
  find_file name files = None → ∀ f, f ∈ files → conf_name f ≠ name.
Proof.
  unfold find_file. intros Hl f Hf Hn.
  destruct (filter (λ f, conf_name f = name) files) as [|g gs] eqn:E.
  - assert (f ∈ filter (λ f, conf_name f = name) files) as Hin by (apply list_elem_of_filter; done).
    rewrite E in Hin. by apply not_elem_of_nil in Hin.
  - by apply last_None in Hl.
Qed.

Lemma prepareLegacyRetirement_reads files :
  hcalls reads (prepareLegacyRetirement plugin_conf confDir files).
Proof.
  unfold prepareLegacyRetirement. destruct (transition files) as [[[[s e] o] oe]|]; [|done].
  destruct (Unmarshal _ _); [|done]. destruct (negb _); [done|]. unfold classify.
  apply calls_in_pbind_ok; [apply checkConfigFile_reads|]. intros _.
  apply calls_in_bind; [by apply calls_in_call1|].
  intros [data|err]; [|done]. destruct (plugin_conf data); [|done].
  destruct (Unmarshal _ data); [|done]. cbn zeta. destruct (_ =? 0); [done|]. destruct (negb _); [done|].
  apply calls_in_pbind_ok; [apply checkBackup_reads|done].
Qed.

Lemma prepareLegacyRetirement_exec files tr r :
  (∀ f, f ∈ files ↔ ∃ name v, configs !! name = Some v ∧ f = file_of (name, v)) →
  exec (prepareLegacyRetirement plugin_conf confDir files) tr (Ok (Some r)) →
  sound_retirement r.
Proof.
  intros Hfiles. unfold prepareLegacyRetirement, transition.
  assert (∀ name, find_file name files = None → configs !! name = None) as Hnone.
  { intros name Hf. destruct (configs !! name) as [v|] eqn:Hv; [|done].
    destruct (find_file_None name files Hf (file_of (name, v))); [|done]. apply Hfiles. by exists name, v. }
  assert (∀ s old expected oldExpected, find_file old files = None →
    ((old = legacyConfigName ∧ oldExpected = legacyContract) ∨
     (old = currentConfigName ∧ oldExpected = currentContract)) →
    exec match Unmarshal decode_contract (content s) with
         | Err _ => Ret (Ok None)
         | Ok desired => if negb (matchingContractFields desired expected =? 3) then Ret (Ok None)
                         else classify plugin_conf confDir old oldExpected
         end tr (Ok (Some r)) → sound_retirement r) as Hcase.
  { intros s old expected oldExpected Hf Hold H. destruct (Unmarshal _ (content s)); [|by destruct H].
    destruct (negb _) in H; [by destruct H|]. unfold classify in H.
    apply exec_pbind_ok in H as [(? & ? & _)|(tr1 & tr2 & [] & -> & _ & H)]; [done|].
    apply exec_bind in H as (tr3 & tr4 & data & -> & _ & H).
    destruct data as [data|e]; [|destruct H as [_ H]; by destruct (is_not_exist e)].
    destruct (plugin_conf data) as [[]|] eqn:Hp; [|by destruct H].
    destruct (Unmarshal decode_contract data) as [c|] eqn:Hc; [|by destruct H].
    destruct (matchingContractFields c oldExpected =? 0); [by destruct H|].
    destruct (matchingContractFields c oldExpected =? 3) eqn:H3; cbn [negb] in H; [|by destruct H].
    apply exec_pbind_ok in H as [(? & ? & _)|(tr5 & tr6 & [] & -> & _ & [_ [= ->]])]; [done|].
    exists old. split; [done|]. split; [done|]. split; [by apply Hnone|]. split; [done|].
    exists c, oldExpected. split; [done|]. split; [done|]. by apply Nat.eqb_eq. }
  destruct (find_file currentConfigName files) as [cur|] eqn:Hcur,
    (find_file legacyConfigName files) as [leg|] eqn:Hleg; try (by intros [_ [=]]).
  - apply Hcase; [done|by left].
  - apply Hcase; [done|by right].
Qed.

(** ** The permitted calls *)

Definition ours (h : hist) (tmp : string) : Prop :=
  ∃ dir pattern, ev (Σ := host_sig) (CreateTemp dir pattern) (Ok tmp) ∈ h.

(** A complete private file with the text of a desired configuration. *)
Definition prepared (h : hist) (tmp : string) (v : Value) : Prop :=
  ours h tmp ∧
  ev (Σ := host_sig) (Write tmp (MarshalIndent v)) None ∈ h ∧
  ev (Σ := host_sig) (Chmod tmp 384) None ∈ h ∧
  ev (Σ := host_sig) (Sync tmp) None ∈ h ∧ ev (Σ := host_sig) (Close tmp) None ∈ h.

Definition installed (h : hist) (name : string) (v : Value) : Prop :=
  ∃ tmp, prepared h tmp v ∧ ev (Σ := host_sig) (Rename tmp (path_in confDir name)) None ∈ h.

Definition all_installed (h : hist) : Prop :=
  ∀ name v, configs !! name = Some v → installed h name v.

(** The superseded file was just read with the content it was judged by. *)
Definition found_superseded (h : hist) (path data : string) : Prop :=
  ∃ old, path = path_in confDir old ∧ superseded_file old data ∧
    ev (Σ := host_sig) (ReadFile path) (Ok data) ∈ h.

(** What a file held when it was read last. *)
Definition last_read (h : hist) (path : string) : option (result string) :=
  last (omap (λ e : hevent, match e with
                            | existT (ReadFile p) r => if String.eqb p path then Some r else None
                            | _ => None
                            end) h).

(** The last look at a path. *)
Definition looked (h : hist) (path : string) (r : result file_kind) : Prop :=
  last h = Some (ev (Σ := host_sig) (Lstat path) r).

(** Something was just found at the backup's name, and the backup held the content of
    the file when it was read last; or it was absent then and appeared in between. *)
Definition backed_up (h : hist) (path data : string) : Prop :=
  (∃ kind, looked h (path +:+ retiredSuffix) (Ok kind)) ∧
  ((last_read h (path +:+ retiredSuffix) = Some (Ok data)) ∨
   ∃ e, is_not_exist e = true ∧ last_read h (path +:+ retiredSuffix) = Some (Err e)).

Definition permitted (h : hist) (c : hcall) : Prop :=
  match c with
  | Lstat _ | ReadFile _ | FileIdentity _ => True
  | MkdirAll dir => validated ∧ dir = confDir
  | CreateTemp dir _ => validated ∧ (dir = confDir ∨ dir = cni_root)
  | Write tmp _ | Chmod tmp _ | Sync tmp | Close tmp => ours h tmp
  | Symlink target path => ours h path ∧ Network.Default network = true ∧
      target = Network.Name network +:+ ".d"
  | Rename a b =>
      (∃ name v, configs !! name = Some v ∧ b = path_in confDir name ∧ prepared h a v) ∨
      (Network.Default network = true ∧ b = conf_dir "managed" ∧ all_installed h ∧
       ev (Σ := host_sig) (Symlink (Network.Name network +:+ ".d") a) None ∈ h) ∨
      (∃ data, all_installed h ∧ found_superseded h a data ∧ b = a +:+ retiredSuffix ∧
         ∃ e, is_not_exist e = true ∧ looked h b (Err e))
  | Remove path => ours h path ∨
      ∃ data, all_installed h ∧ found_superseded h path data ∧ backed_up h path data
  | _ => False
  end.

Abbreviation phwp Q h p := (hwp (Σ := host_sig) permitted Q h p).

Lemma reads_permitted h c : reads c → permitted h c.
Proof. by destruct c. Qed.

Lemma ours_app h h' tmp : ours h tmp → ours (h ++ h') tmp.
Proof. intros (d & p & ?). exists d, p. rewrite elem_of_app. by left. Qed.

Lemma conf_installed_app h h' name v : installed h name v → installed (h ++ h') name v.
Proof.
  unfold installed, prepared. intros (tmp & (? & ? & ? & ? & ?) & ?). exists tmp.
  rewrite !elem_of_app. split; [split; [by apply ours_app|]|]; auto.
Qed.
Lemma all_installed_app h h' : all_installed h → all_installed (h ++ h').
Proof. intros H name v Hv. by apply conf_installed_app, H. Qed.

Lemma wrap_err_Ok_unit msg (r : result ()) : wrap_err msg r = Ok () ↔ r = Ok ().
Proof. by destruct r as [[]|]. Qed.

(** Programs that only read. *)
Lemma phwp_reads {A} (p : hprog A) (Q : hist → A → Prop) h :
  hcalls reads p → (∀ tr a, exec p tr a → Q (h ++ tr) a) → phwp Q h p.
Proof. apply hwp_of_exec, reads_permitted. Qed.

Lemma write_temporary_phwp name v tmp h :
  configs !! name = Some v → ours h tmp →
  phwp (λ h' r, r = Ok () → installed h' name v) h
    (write_temporary tmp (path_in confDir name) (MarshalIndent v)).
Proof.
  intros Hv Ho. pose proof (λ h', ours_app h h' tmp Ho) as Hours. unfold write_temporary.
  apply hwp_pbind_ok, hwp_wrapped, hwp_bind, hwp_call1; [done|].
  intros [e|]; cbn [hwp err_result wrap_err]; [done|].
  apply hwp_pbind_ok, hwp_bind, hwp_call1; [apply Hours|]. intros [e|]; cbn [hwp err_result]; [done|].
  apply hwp_pbind_ok, hwp_bind, hwp_call1; [rewrite <-app_assoc; apply Hours|].
  intros [e|]; cbn [hwp err_result]; [done|].
  apply hwp_pbind_ok, hwp_bind, hwp_call1; [rewrite <-!app_assoc; apply Hours|].
  intros [e|]; cbn [hwp err_result]; [done|]. apply hwp_pbind_ok.
  match goal with |- phwp _ ?h' _ => assert (prepared h' tmp v) as (Hp0 & Hp1 & Hp2 & Hp3 & Hp4)
    by (split_and!; [rewrite <-!app_assoc; apply Hours|in_history..]); set (h1 := h') in * end.
  apply phwp_reads; [apply checkConfigFile_reads|]. intros tr [[]|e] _; [|done].
  assert (prepared (h1 ++ tr) tmp v) as Hp.
  { split; [by apply ours_app|]. rewrite !elem_of_app. auto. }
  apply hwp_wrapped, hwp_bind, hwp_call1; [left; by exists name, v|].
  intros [e|] H; [done|]. exists tmp. split; [|in_history].
  destruct Hp as (? & ? & ? & ? & ?). split_and!; [by apply ours_app|in_history..].
Qed.

Lemma write_phwp name v h :
  validated → configs !! name = Some v →
  phwp (λ h' r, (∃ tr, h' = h ++ tr) ∧ (r = Ok () → installed h' name v)) h
    (writeConfigAtomic confDir name (MarshalIndent v)).
Proof.
  intros Hval Hv. apply hwp_grows. unfold writeConfigAtomic. cbn zeta. apply hwp_pbind_ok.
  apply phwp_reads; [apply checkConfigFile_reads|]. intros tr0 [[]|e] _; [|done].
  apply hwp_pbind_ok, hwp_wrapped, hwp_call1; [split; [done|by left]|].
  intros [tmp|e]; cbn [wrap_err]; [|done]. apply hwp_bind.
  match goal with |- phwp _ ?h' _ => assert (ours h' tmp) as Ho
    by (eexists _, _; apply elem_of_snoc; by right); set (h1 := h') in * end.
  eapply hwp_mono; [|apply hwp_grows, (write_temporary_phwp name v); done].
  intros h2 r [[tr ->] Hr]. apply hwp_bind, hwp_call1; [by apply ours_app|]. intros r1.
  apply hwp_bind, hwp_call1; [left; by do 2 apply ours_app|]. intros r2 Hok.
  by do 2 apply conf_installed_app; apply Hr.
Qed.

Lemma write_files_phwp files h :
  validated → (∀ f, f ∈ files ↔ ∃ name v, configs !! name = Some v ∧ f = file_of (name, v)) →
  phwp (λ h' r, r = Ok () → all_installed h') h (write_files confDir files).
Proof.
  intros Hval Hfiles. unfold write_files.
  apply (hwp_pforeach _ (λ h pre, ∀ name v, file_of (name, v) ∈ pre → installed h name v)).
  - by intros ?? ?%not_elem_of_nil.
  - intros h1 pre f Hf Hpre. apply Hfiles in Hf as (name & v & Hv & ->).
    eapply hwp_mono; [|by apply (write_phwp name v)].
    intros h2 [[]|e] [[tr ->] Hr]; [|done]. intros name' v' [Hin|Heq]%elem_of_snoc.
    + by apply conf_installed_app, Hpre.
    + injection Heq as -> Hm. destruct (Hr eq_refl) as (tmp & (? & Hw & ?) & ?).
      exists tmp. split; [split; [done|]|done]. by rewrite Hm.
  - intros h1 Hpre _ name v Hv. apply Hpre, Hfiles. by exists name, v.
Qed.

Lemma ensure_phwp h : validated → phwp (λ _ _, True) h (ensureConfigDirectory confDir).
Proof.
  intros Hval. apply hwp_pbind_ok. apply phwp_reads; [apply checkConfigDirectory_reads|].
  intros tr [[]|e] _; [|done]. by apply hwp_bind, hwp_call1.
Qed.

Lemma link_phwp h :
  validated → Network.Default network = true → all_installed h →
  phwp (λ h' _, all_installed h') h (link_staged (conf_dir "managed") (Network.Name network +:+ ".d")).
Proof.
  intros Hval Hdef Hall. apply hwp_pbind_ok, hwp_call1; [split; [done|by right]|].
  intros [tmp|e]; [|by apply all_installed_app].
  match goal with |- phwp _ ?h' _ => assert (ours h' tmp) as Ho
    by (eexists _, _; apply elem_of_snoc; by right);
    assert (all_installed h') as Hall' by (by apply all_installed_app); set (h1 := h') in * end.
  apply hwp_bind, hwp_call1; [done|]. intros [e|].
  { apply hwp_bind, hwp_call1; [left; by apply ours_app|]. intros r. by do 2 apply all_installed_app. }
  apply hwp_bind. assert (∀ h', (∃ tr, h' = h1 ++ tr) → ours h' tmp ∧ all_installed h') as Hgrow.
  { intros h' [tr ->]. split; [by apply ours_app|by apply all_installed_app]. }
  eapply (hwp_mono _ (λ h' _, ∃ tr, h' = h1 ++ tr)).
  { intros h' r [Ho' Hall'']%Hgrow. apply hwp_bind, hwp_call1; [by left|]. intros r'.
    by apply all_installed_app. }
  unfold stage_symlink.
  apply hwp_pbind_ok, hwp_bind, hwp_call1; [left; by apply ours_app|].
  intros [e|]; cbn [hwp err_result]; [rewrite <-app_assoc; by eexists|].
  apply hwp_pbind_ok, hwp_bind, hwp_call1; [split; [by do 2 apply ours_app|done]|].
  intros [e|]; cbn [hwp err_result]; [rewrite <-!app_assoc; by eexists|].
  apply hwp_bind, hwp_call1.
  - right. left. split; [done|]. split; [done|]. split; [by do 3 apply all_installed_app|in_history].
  - intros r. cbn [hwp]. rewrite <-!app_assoc. by eexists.
Qed.

Lemma point_managed_phwp h :
  validated → all_installed h → phwp (λ h' _, all_installed h') h (point_managed confDir network).
Proof.
  intros Hval Hall. unfold point_managed. destruct (Network.Default network) eqn:Hdef; cbn [negb]; [|done].
  apply hwp_bind, hwp_call1; [done|]. intros a. apply hwp_bind, hwp_call1; [done|]. intros b.
  destruct (match a with Ok x => match b with Ok y => (x =? y)%Z | Err _ => false end | Err _ => false end).
  { by do 2 apply all_installed_app. }
  apply hwp_bind, hwp_call1; [done|]. intros r.
  match goal with |- phwp _ ?h' _ => assert (all_installed h') as Hall' by (by do 3 apply all_installed_app) end.
  destruct r as [kind|e].
  - destruct (decide (kind = SymbolicLink)); [by apply link_phwp|done].
  - destruct (is_not_exist e); [by apply link_phwp|done].
Qed.

Lemma last_read_snoc h path r : last_read (h ++ [ev (Σ := host_sig) (ReadFile path) r]) path = Some r.
Proof. unfold last_read. rewrite omap_app. cbn. by rewrite String.eqb_refl, last_snoc. Qed.

Lemma last_read_other h path path' r : last_read (h ++ [ev (Σ := host_sig) (Lstat path') r]) path = last_read h path.
Proof. unfold last_read. rewrite omap_app. cbn. by rewrite app_nil_r. Qed.

Lemma checkBackup_exec r h tr :
  exec (checkBackup r) tr (Ok ()) →
  last_read (h ++ tr) (backup r) = Some (Ok (old_content r)) ∨
  ∃ e, is_not_exist e = true ∧ last_read (h ++ tr) (backup r) = Some (Err e).
Proof.
  intros [(? & ? & _)|(tr1 & tr2 & [] & -> & _ & H)]%exec_pbind_ok; [done|].
  apply exec_bind in H as (tr3 & tr4 & data & -> & ->%exec_call1 & [-> H]).
  rewrite app_nil_r, app_assoc, last_read_snoc. destruct data as [data|e].
  - destruct (String.eqb data (old_content r)) eqn:Hd; [|done]. apply String.eqb_eq in Hd as ->. by left.
  - destruct (is_not_exist e) eqn:He; [|done]. right. by exists e.
Qed.

Lemma retire_phwp r h :
  (∀ x, r = Some x → sound_retirement x) → all_installed h →
  phwp (λ h' _, all_installed h') h (retire r).
Proof.
  intros Hr Hall. destruct r as [r|]; [|done]. destruct (Hr r eq_refl) as (old & Hold & Hb & Hs).
  unfold retire. apply hwp_pbind_ok. apply phwp_reads; [apply checkConfigFile_reads|].
  intros tr [[]|e] _; [|by apply all_installed_app].
  apply hwp_pbind_ok, hwp_call1; [done|]. intros [data|e]; [|by do 2 apply all_installed_app].
  destruct (String.eqb data (old_content r)) eqn:Hd; cbn [negb]; [|by do 2 apply all_installed_app].
  apply String.eqb_eq in Hd as ->.
  match goal with |- phwp _ ?h' _ => assert (found_superseded h' (old_path r) (old_content r)) as Hfound
    by (exists old; split; [done|]; split; [done|]; in_history);
    assert (all_installed h') as Hall' by (by do 2 apply all_installed_app); set (h1 := h') in * end.
  assert (∀ h', found_superseded (h1 ++ h') (old_path r) (old_content r)) as Hfound'.
  { intros h'. destruct Hfound as (o & ? & ? & ?). exists o. split; [done|]. split; [done|].
    apply elem_of_app. by left. }
  apply hwp_pbind_ok. apply phwp_reads; [apply checkBackup_reads|].
  intros tr1 [[]|e] Hback; [|by apply all_installed_app].
  apply (checkBackup_exec _ h1) in Hback. apply hwp_bind, hwp_call1; [done|]. intros [kind|e].
  - apply hwp_bind, hwp_call1; [|intros r1; by do 3 apply all_installed_app].
    right. exists (old_content r). split; [by do 2 apply all_installed_app|].
    split; [rewrite <-app_assoc; apply Hfound'|]. unfold backed_up, looked. rewrite <-Hb, last_read_other. split; [|exact Hback].
    exists kind. by rewrite last_snoc.
  - destruct (is_not_exist e) eqn:He; [|by do 2 apply all_installed_app].
    apply hwp_bind, hwp_call1; [|intros r1; by do 3 apply all_installed_app].
    right. right. exists (old_content r). split; [by do 2 apply all_installed_app|].
    split; [rewrite <-app_assoc; apply Hfound'|]. split; [done|]. exists e. split; [done|].
    unfold looked. by rewrite last_snoc, Hb.
Qed.

Lemma apply_network_phwp h :
  phwp (λ h' r, r = Ok () → all_installed h') h (apply_network plugin_conf network).
Proof.
  unfold apply_network. destruct (validConfigName _) eqn:Hname; cbn [negb]; [|done]. cbn zeta.
  apply hwp_pbind_ok. apply phwp_reads; [apply prepareConfigFiles_reads|].
  intros tr [files|e] H; [|done]. destruct (prepareConfigFiles_exec _ _ Hname H) as [Hval Hfiles].
  apply hwp_pbind_ok. apply phwp_reads; [apply prepareLegacyRetirement_reads|].
  intros tr1 [retirement|e] Hret; [|done].
  assert (∀ x, retirement = Some x → sound_retirement x) as Hsound.
  { intros x ->. by eapply prepareLegacyRetirement_exec. }
  apply hwp_pbind_ok. eapply hwp_mono; [|by apply ensure_phwp]. intros h2 [[]|e] _; [|done].
  apply hwp_pbind_ok. eapply hwp_mono; [|by apply write_files_phwp].
  intros h3 [[]|e] Hall; [|done]. specialize (Hall eq_refl).
  apply hwp_pbind_ok. eapply hwp_mono; [|by apply point_managed_phwp].
  intros h4 [[]|e] Hall4; [|done]. eapply hwp_mono; [|by apply retire_phwp]. done.
Qed.
End apply.


(** ** A host that moves to the new file name *)

Definition bridge_config : Value :=
  VObject {[ "name" := VString "pasturestack-cni-network"; "type" := VString "pasture-bridge";
             "ipam" := VObject {[ "type" := VString "metadata-cni-ipam" ]} ]}.
Definition old_config : Value :=
  VObject {[ "name" := VString "rancher-cni-network"; "type" := VString "rancher-bridge";
             "ipam" := VObject {[ "type" := VString "rancher-cni-ipam" ]} ]}.
Definition ipsec : Network.t := mk_network "n1" "ipsec" false {[ currentConfigName := bridge_config ]}.

Definition any_conf (text : string) : result () := if String.eqb text "" then Err ErrNotExist else Ok ().

Definition old_file : string := conf_dir "ipsec" +:+ "/" +:+ legacyConfigName.

Definition upgrade_reply (c : hcall) : hreply c :=
  match c return hreply c with
  | Lstat path => if String.eqb path old_file then Ok RegularFile
                  else if HasPrefix path "/etc/cni/ipsec.d/" then Err ErrNotExist else Ok Directory
  | ReadFile path => if String.eqb path old_file then Ok (MarshalIndent old_config) else Err ErrNotExist
  | CreateTemp dir pattern => Ok (dir +:+ "/" +:+ pattern)
  | Now => 7%Z
  | c' => idle_reply c'
  end.

Definition cni_fresh : watcher := {| applied := ∅; lastApplied := zero_time |}.
Definition upgrade :=
  run (Σ := host_sig) (λ _, upgrade_reply) [] (@apply range_forward any_conf ipsec cni_fresh).

Definition renames (tr : list hevent) : list (string * string) :=
  omap (λ c, match c with Rename a b => Some (a, b) | _ => None end) (calls_of tr).

