(* ===== verification/ArpSync.v ===== *)
(** * The ARP tables (arpsync/watcher.go)

    In the host and in every container of a local network whose driver asks for
    it, the neighbour entries of the network's containers are kept at the address
    they are reached by: their own on this host, the driver's otherwise. *)
From S2P Require Import Prelude Effects GoStrings GoNet Metadata World Identity CniGlue Conntrack LocalNet.

Definition DefaultSyncInterval : Z := 5.
Definition syncLabel : string := "io.rancher.network.arpsync".

(** ** Hardware addresses (Go's net.ParseMAC and HardwareAddr.String) *)

Definition hex_pair (s : string) : option Z :=
  match s with
  | String a (String b EmptyString) =>
      x ← GoNet.hex_value a; y ← GoNet.hex_value b; Some (x * 16 + y)%Z
  | _ => None
  end.
Definition hex_quad (s : string) : option (list Z) :=
  match s with
  | String a (String b (String c (String d EmptyString))) =>
      x ← hex_pair (String a (String b "")); y ← hex_pair (String c (String d "")); Some [x; y]
  | _ => None
  end.

Definition mac_length (n : nat) : bool := (n =? 6) || (n =? 8) || (n =? 20).

Definition mac_bytes (bytes : option (list Z)) : option (list Z) :=
  b ← bytes; if mac_length (length b) then Some b else None.

(** The byte at a position. *)
Definition byte_is (s : string) (n : nat) (c : ascii) : bool :=
  match String.get n s with Some a => Ascii.eqb a c | None => false end.

Definition ParseMAC (s : string) : option (list Z) :=
  if byte_is s 2 ":" then mac_bytes (mapM hex_pair (Split s ":"))
  else if byte_is s 2 "-" then mac_bytes (mapM hex_pair (Split s "-"))
  else if byte_is s 4 "." then mac_bytes (quads ← mapM hex_quad (Split s "."); Some (concat quads))
  else None.

Example ParseMAC_ex :
  map ParseMAC ["02:42:0A:2a:00:07"; "02-42-0a-2a-00-07"; "0242.0a2a.0007"; "02:42:0a:2a:00"; "02:42-0a:2a:00:07"] =
  [Some [2; 66; 10; 42; 0; 7]; Some [2; 66; 10; 42; 0; 7]; Some [2; 66; 10; 42; 0; 7]; None; None]%Z.
Proof. vm_compute. reflexivity. Qed.

Definition hex_byte (b : Z) : string :=
  String (hex_digit (Z.to_N (b / 16))) (String (hex_digit (Z.to_N (b mod 16))) "").
Definition MAC_String (hw : list Z) : string := Join (map hex_byte hw) ":".

Example MAC_String_ex : MAC_String [2; 66; 10; 42; 0; 7]%Z = "02:42:0a:2a:00:07".
Proof. vm_compute. reflexivity. Qed.

Definition ErrBadMAC : error := Errorf "address: invalid MAC address".

(** ** Addresses *)

(** [IP.String] of an address of the IPv4 family. *)
Definition ip_String (ip : list Z) : string := default "" (dotted <$> To4 ip).

(** [n] bytes of an integer, the most significant first. *)
Fixpoint be_bytes (n : nat) (a : Z) : list Z :=
  match n with 0 => [] | S n' => (a / 256 ^ Z.of_nat n' mod 256)%Z :: be_bytes n' a end.

(** [net.ParseIP]: 16 bytes. *)
Definition ParseIP (s : string) : option (list Z) :=
  match ParseAddr s with
  | Some (V4 a) => Some (replicate 10 0%Z ++ [255; 255]%Z ++ be_bytes 4 a)
  | Some (V6 a "") => Some (be_bytes 16 a)
  | _ => None
  end.

Definition NUD_REACHABLE : Z := 2.
Definition NUD_PERMANENT : Z := 128.

(** ** One table *)

(** [buildContainersMap]: by primary address, the last container wins. *)
Definition add_container (networkUUID : string) (m : gmap string Container.t) (c : Container.t)
    : gmap string Container.t :=
  if negb (String.eqb (Container.PrimaryIp c) "") && negb (String.eqb (Container.PrimaryMacAddress c) "")
     && String.eqb (Container.NetworkUUID c) networkUUID
  then <[Container.PrimaryIp c := c]> m else m.

Definition buildContainersMap (containers : list Container.t) (network : Network.t)
    : gmap string Container.t :=
  foldl (add_container (Network.UUID network)) ∅ containers.

(** Where a table is: its name in the code, "host" or the container's ID, and its
    namespace. *)
Record context := { ctx_name : string; ctx_ns : netns }.

Definition expectedARPEntry (networkDriverMacAddress : string) (container : Container.t)
    (host : Host.t) (networkDriverContext : bool) : option string :=
  if String.eqb (Container.HostUUID container) (Host.UUID host)
  then Some (Container.PrimaryMacAddress container)
  else if networkDriverContext then None else Some networkDriverMacAddress.

Definition arpEntryState (name : string) : Z :=
  if String.eqb name "host" then NUD_REACHABLE else NUD_PERMANENT.

Definition fixed_entry (name : string) (old : Neigh) (hw : list Z) : Neigh :=
  {| NeighLink := NeighLink old; NeighIP := NeighIP old; NeighHW := hw;
     NeighState := arpEntryState name; NeighOther := NeighOther old |}.

Definition fixARPEntry (c : context) (old : Neigh) (newMACAddress : string) : hprog (result ()) :=
  match ParseMAC newMACAddress with
  | None => Ret (Err ErrBadMAC)
  | Some hw => e ← call1 (NeighSet (ctx_ns c) (fixed_entry (ctx_name c) old hw)); Ret (err_result e)
  end.

Definition deleteARPEntry (c : context) (entry : Neigh) : hprog (result ()) :=
  e ← call1 (NeighDel (ctx_ns c) entry); Ret (err_result e).

Definition new_entry (name : string) (link : Z) (ip hw : list Z) : Neigh :=
  {| NeighLink := link; NeighIP := Some ip; NeighHW := hw; NeighState := arpEntryState name;
     NeighOther := 0 |}.

Definition addARPEntry (c : context) (ipAddress macAddress : string) : hprog (result ()) :=
  match ParseIP ipAddress with
  | None => Ret (Err (Errorf "invalid IP address"))
  | Some ip =>
      match ParseMAC macAddress with
      | None => Ret (Err ErrBadMAC)
      | Some hw =>
          routes <-? call1 (RouteGet (ctx_ns c) ip);
          match routes with
          | [] => Ret (Err (Errorf "no route found for missing ARP entry"))
          | link :: _ =>
              e ← call1 (NeighSet (ctx_ns c) (new_entry (ctx_name c) link ip hw));
              Ret (err_result e)
          end
      end
  end.

(** A loop over programs without early return. *)
Fixpoint collect {A S} (f : S → A → hprog S) (s : S) (l : list A) : hprog S :=
  match l with
  | [] => Ret s
  | x :: l' => s' ← f s x; collect f s' l'
  end.

(** The addresses of the links that could be listed. *)
Definition link_ips (ns : netns) (ips : gset string) (link : Z) : hprog (gset string) :=
  addrs ← call1 (AddrList ns link);
  Ret (match addrs with
       | Ok addrs => ips ∪ list_to_set (omap (λ a : netlink_Addr, ip_String <$> a) addrs)
       | Err _ => ips
       end).

Definition localInterfaceIPs (ns : netns) : hprog (gset string) :=
  links ← call1 (LinkList ns);
  match links with
  | Err _ => Ret ∅
  | Ok links => collect (link_ips ns) ∅ links
  end.

Section sync.
Context {range : MapRange}.

Definition isNetworkDriverContext (name networkDriverMacAddress : string)
    (containersMap : gmap string Container.t) : bool :=
  existsb (λ e : string * Container.t,
    String.eqb (Container.ExternalId e.2) name
    && String.eqb (Container.PrimaryMacAddress e.2) networkDriverMacAddress)
    (range_map 31 containersMap).

(** What is done with one entry of the table. *)
Definition sync_entry (c : context) (mac : string) (containersMap : gmap string Container.t)
    (host : Host.t) (driver : bool) (entry : Neigh) : hprog (result ()) :=
  match NeighIP entry with
  | None => Ret (Ok ())
  | Some ip =>
      match containersMap !! ip_String ip with
      | None => Ret (Ok ())
      | Some container =>
          match expectedARPEntry mac container host driver with
          | None => if String.eqb (MAC_String (NeighHW entry)) mac then deleteARPEntry c entry
                    else Ret (Ok ())
          | Some expected => if String.eqb (MAC_String (NeighHW entry)) expected then Ret (Ok ())
                             else fixARPEntry c entry expected
          end
      end
  end.

Definition seen_ips (entries : list Neigh) : gset string :=
  list_to_set (omap (λ e, ip_String <$> NeighIP e) entries).

Definition sync_missing (c : context) (mac : string) (host : Host.t) (driver : bool)
    (skip : gset string) (entry : string * Container.t) : hprog (result ()) :=
  if bool_decide (entry.1 ∈ skip) then Ret (Ok ()) else
  match expectedARPEntry mac entry.2 host driver with
  | None => Ret (Ok ())
  | Some expected => addARPEntry c entry.1 expected
  end.

Definition keep_last (lastError : option error) (r : result ()) : option error :=
  match r with Err e => Some e | Ok _ => lastError end.

Definition syncArpTable (c : context) (mac : string) (containersMap : gmap string Container.t)
    (host : Host.t) : hprog (result ()) :=
  entries <-? call1 (NeighList (ctx_ns c));
  localIPs ← localInterfaceIPs (ctx_ns c);
  let driver := isNetworkDriverContext (ctx_name c) mac containersMap in
  r ← try_each (sync_entry c mac containersMap host driver) None entries;
  try_each (sync_missing c mac host driver (seen_ips entries ∪ localIPs)) (keep_last None r)
    (range_map 32 containersMap).

(** ** The watcher *)

Record ARPTableWatcher := {
  knownRouters : gmap string Container.t;
  routerApplyTries : Z;
  lastApplied : Z;
}.

Abbreviation wact A := (act host_sig ARPTableWatcher A).

(** The counter of the router's log line. *)
Definition count_tries (networkUUID mac : string) (w : ARPTableWatcher) : ARPTableWatcher :=
  let known := match knownRouters w !! networkUUID with
               | Some c => Container.PrimaryMacAddress c
               | None => ""
               end in
  if negb (String.eqb known mac) || (routerApplyTries w <? 10)%Z then
    {| knownRouters := knownRouters w;
       routerApplyTries := (if negb (String.eqb known mac) then 0 else routerApplyTries w) + 1;
       lastApplied := lastApplied w |}
  else w.

Definition router_of (routers : gmap string Container.t) (networkUUID : string)
    : gmap string string * string :=
  match routers !! networkUUID with
  | Some c => (Container.Labels c, Container.PrimaryMacAddress c)
  | None => (∅, "")
  end.

Definition sync_network (containers : list Container.t) (routers : gmap string Container.t)
    (host : Host.t) (localNetwork : Network.t) : wact (option error) :=
  let '(labels, mac) := router_of routers (Network.UUID localNetwork) in
  if negb (String.eqb (zget "" labels syncLabel) "true") || String.eqb mac "" then mret None else
  let containersMap := buildContainersMap containers localNetwork in
  r1 ← try (lift (syncArpTable {| ctx_name := "host"; ctx_ns := None |} mac containersMap host));
  modify (count_tries (Network.UUID localNetwork) mac);;
  r2 ← try (lift (ForEachContainerNS (Network.UUID localNetwork) (λ container ns,
          syncArpTable {| ctx_name := Container.ExternalId container; ctx_ns := ns |} mac containersMap host)));
  mret (keep_last (keep_last None r1) r2).

Fixpoint sync_networks (containers : list Container.t) (routers : gmap string Container.t)
    (host : Host.t) (lastError : option error) (networks : list Network.t) : wact (option error) :=
  match networks with
  | [] => mret lastError
  | n :: networks =>
      e ← sync_network containers routers host n;
      sync_networks containers routers host (match e with Some _ => e | None => lastError end) networks
  end.

Definition doSync : wact () :=
  host ← wrapping "get local host" (lift LocalHost);
  containers ← wrapping "fetch containers from metadata" (lift (call1 GetContainers));
  local ← wrapping "get local networks" (lift LocalNetworks);
  lastError ← sync_networks containers local.2 host None local.1;
  match lastError with
  | Some e => fail e
  | None => modify (λ w, {| knownRouters := local.2; routerApplyTries := routerApplyTries w;
                            lastApplied := lastApplied w |})
  end.

Definition onChangeNoError (syncInterval : Z) : wact () :=
  now ← ask (Σ := host_sig) Now;
  w ← get;
  let timeSinceLastApplied := Sub now (lastApplied w) in
  (if (timeSinceLastApplied <? syncInterval)%Z
   then ask (Σ := host_sig) (Sleep (wrap64 (syncInterval - timeSinceLastApplied))) else mret ());;
  try doSync;;
  done ← ask (Σ := host_sig) Now;
  modify (λ w, {| knownRouters := knownRouters w; routerApplyTries := routerApplyTries w;
                  lastApplied := done |}).

Definition interval (syncIntervalStr : string) : Z :=
  seconds (default DefaultSyncInterval (Atoi syncIntervalStr)).
End sync.

(** ** The table that is left

    The kernel's table under the calls of a trace: setting an entry replaces the
    entries of its link and address or adds it, deleting removes them. *)
Definition ip_of (e : Neigh) : option string := ip_String <$> NeighIP e.

Definition other_key (e t : Neigh) : Prop := ¬ (NeighLink t = NeighLink e ∧ ip_of t = ip_of e).

Definition neigh_del (e : Neigh) (T : list Neigh) : list Neigh := filter (other_key e) T.
Definition neigh_set (e : Neigh) (T : list Neigh) : list Neigh := neigh_del e T ++ [e].

Definition table_event (ns : netns) (T : list Neigh) (x : hevent) : list Neigh :=
  match x with
  | existT (NeighSet ns' e) None => if decide (ns' = ns) then neigh_set e T else T
  | existT (NeighDel ns' e) None => if decide (ns' = ns) then neigh_del e T else T
  | _ => T
  end.
Definition replay (ns : netns) (T : list Neigh) (tr : list hevent) : list Neigh :=
  foldl (table_event ns) T tr.

Lemma arp_replay_app ns T tr1 tr2 : replay ns T (tr1 ++ tr2) = replay ns (replay ns T tr1) tr2.
Proof. apply foldl_app. Qed.

Lemma replay_set ns T e : replay ns T [ev (Σ := host_sig) (NeighSet ns e) None] = neigh_set e T.
Proof. cbn. by rewrite decide_True. Qed.
Lemma replay_del ns T e : replay ns T [ev (Σ := host_sig) (NeighDel ns e) None] = neigh_del e T.
Proof. cbn. by rewrite decide_True. Qed.

Lemma elem_of_neigh_del e t T : t ∈ neigh_del e T ↔ other_key e t ∧ t ∈ T.
Proof. apply list_elem_of_filter. Qed.
Lemma elem_of_neigh_set e t T : t ∈ neigh_set e T ↔ (other_key e t ∧ t ∈ T) ∨ t = e.
Proof. unfold neigh_set. by rewrite elem_of_snoc, elem_of_neigh_del. Qed.

Definition has_ip (ip : string) (T : list Neigh) : Prop := ∃ t, t ∈ T ∧ ip_of t = Some ip.

Lemma has_ip_set ip e T : has_ip ip T ∨ ip_of e = Some ip → has_ip ip (neigh_set e T).
Proof.
  intros H. destruct (decide (ip_of e = Some ip)) as [He|Hne].
  - exists e. split; [apply elem_of_neigh_set; by right|done].
  - destruct H as [(t & Ht & Hip)|]; [|done]. exists t. split; [|done].
    apply elem_of_neigh_set. left. split; [|done]. unfold other_key. intros [_ ?]. congruence.
Qed.
Lemma has_ip_del ip e T : has_ip ip T → ip_of e ≠ Some ip → has_ip ip (neigh_del e T).
Proof.
  intros (t & Ht & Hip) Hne. exists t. split; [|done]. apply elem_of_neigh_del. split; [|done].
  unfold other_key. intros [_ ?]. congruence.
Qed.

(** Loops that end without an error. *)
Lemma try_each_Ok {A} (f : A → hprog (result ())) last l tr :
  exec (try_each f last l) tr (Ok ()) →
  last = None ∧ match l with
                | [] => tr = []
                | x :: l' => ∃ tr1 tr2, tr = tr1 ++ tr2 ∧ exec (f x) tr1 (Ok ()) ∧
                    exec (try_each f None l') tr2 (Ok ())
                end.
Proof.
  revert last tr. induction l as [|x l IH]; intros last tr; cbn [try_each].
  { intros [-> H]. symmetry in H. by apply err_result_Ok in H. }
  intros (tr1 & tr2 & r & -> & Hx & H)%exec_bind. pose proof (IH _ _ H) as [Hlast _].
  destruct r as [[]|e]; [|done]. subst last. split; [done|]. by exists tr1, tr2.
Qed.

Lemma try_each_inv {A} (f : A → hprog (result ())) (I : list A → list hevent → Prop) last l h tr :
  exec (try_each f last l) tr (Ok ()) → I l h →
  (∀ x l' h tr, I (x :: l') h → exec (f x) tr (Ok ()) → I l' (h ++ tr)) → I [] (h ++ tr).
Proof.
  revert last h tr. induction l as [|x l IH]; intros last h tr H Hi Hstep.
  - apply try_each_Ok in H as [_ ->]. by rewrite app_nil_r.
  - apply try_each_Ok in H as (_ & tr1 & tr2 & -> & Hx & H). rewrite app_assoc.
    eapply IH; [exact H| |exact Hstep]. by eapply Hstep.
Qed.

Section repaired.
Context {range : MapRange} (c : context) (mac : string) (containersMap : gmap string Container.t)
  (host : Host.t) (driver : bool).
Abbreviation ns := (ctx_ns c).
Abbreviation expected ct := (expectedARPEntry mac ct host driver).

(** An entry as the code wants it. *)
Definition settled (e : Neigh) : Prop :=
  ∀ ip ct, ip_of e = Some ip → containersMap !! ip = Some ct →
    match expected ct with
    | Some want => MAC_String (NeighHW e) = want ∨ ParseMAC want = Some (NeighHW e)
    | None => MAC_String (NeighHW e) ≠ mac
    end.

(** An address that is none of the network's containers. *)
Definition foreign (e : Neigh) : Prop :=
  match ip_of e with Some ip => containersMap !! ip = None | None => True end.

Definition kept (ip : string) : Prop :=
  ∃ ct, containersMap !! ip = Some ct ∧ is_Some (expected ct).

Definition repairing (entries suf : list Neigh) (T : list Neigh) : Prop :=
  (∀ t, t ∈ T → settled t ∨ t ∈ suf) ∧
  (∀ ip, kept ip → has_ip ip entries → has_ip ip T) ∧
  (∀ t, foreign t → t ∈ T ↔ t ∈ entries).

Lemma foreign_set e T t ip ct :
  ip_of e = Some ip → containersMap !! ip = Some ct → foreign t → t ∈ neigh_set e T ↔ t ∈ T.
Proof.
  intros He Hct Hf. rewrite elem_of_neigh_set. unfold foreign in Hf. split.
  - intros [[_ ?]| ->]; [done|]. rewrite He in Hf. congruence.
  - intros Ht. left. split; [|done]. unfold other_key. intros [_ Hk]. rewrite Hk, He in Hf. congruence.
Qed.
Lemma foreign_del e T t ip ct :
  ip_of e = Some ip → containersMap !! ip = Some ct → foreign t → t ∈ neigh_del e T ↔ t ∈ T.
Proof.
  intros He Hct Hf. rewrite elem_of_neigh_del. unfold foreign in Hf. split; [by intros [_ ?]|].
  intros Ht. split; [|done]. unfold other_key. intros [_ Hk]. rewrite Hk, He in Hf. congruence.
Qed.

Lemma sync_entry_repairs entries e suf T tr :
  repairing entries (e :: suf) T →
  exec (sync_entry c mac containersMap host driver e) tr (Ok ()) →
  repairing entries suf (replay ns T tr).
Proof.
  intros (Hr & Hm & Hf) H. unfold sync_entry in H.
  assert (settled e → tr = [] → repairing entries suf (replay ns T tr)) as Hskip.
  { intros He ->. split; [|done]. intros t Ht. destruct (Hr t Ht) as [?|[-> |?]%elem_of_cons]; auto. }
  destruct (NeighIP e) as [ip|] eqn:Hip.
  2:{ destruct H as [-> _]. apply Hskip; [|done]. intros ip ct Hi. unfold ip_of in Hi. by rewrite Hip in Hi. }
  assert (ip_of e = Some (ip_String ip)) as He by (unfold ip_of; by rewrite Hip).
  destruct (containersMap !! ip_String ip) as [ct|] eqn:Hct.
  2:{ destruct H as [-> _]. apply Hskip; [|done]. intros ip' ct Hi. congruence. }
  destruct (expected ct) as [want|] eqn:Hx.
  - destruct (String.eqb (MAC_String (NeighHW e)) want) eqn:Heq.
    { destruct H as [-> _]. apply Hskip; [|done]. apply String.eqb_eq in Heq.
      intros ip' ct' Hi Hc. assert (ct' = ct) as -> by congruence. rewrite Hx. by left. }
    unfold fixARPEntry in H. destruct (ParseMAC want) as [hw|] eqn:Hp; [|by destruct H].
    apply exec_bind in H as (tr1 & tr2 & err & -> & ->%exec_call1 & [-> Herr]).
    symmetry in Herr. apply err_result_Ok in Herr as ->. rewrite app_nil_r, replay_set.
    set (e' := fixed_entry (ctx_name c) e hw).
    assert (ip_of e' = Some (ip_String ip)) as He' by exact He. split; [|split].
    + intros t [[Hk Ht]| ->]%elem_of_neigh_set.
      * destruct (Hr t Ht) as [?|[-> |?]%elem_of_cons]; [by left| |by right].
        destruct Hk. split; [done|by rewrite He, He'].
      * left. intros ip' ct' Hi Hc. assert (ct' = ct) as -> by congruence. rewrite Hx. by right.
    + intros i Hman Hin. apply has_ip_set. left. by apply Hm.
    + intros t Hft. rewrite (foreign_set e' T t (ip_String ip) ct); [by apply Hf|done..].
  - destruct (String.eqb (MAC_String (NeighHW e)) mac) eqn:Heq.
    2:{ destruct H as [-> _]. apply Hskip; [|done]. apply String.eqb_neq in Heq.
        intros ip' ct' Hi Hc. assert (ct' = ct) as -> by congruence. by rewrite Hx. }
    unfold deleteARPEntry in H.
    apply exec_bind in H as (tr1 & tr2 & err & -> & ->%exec_call1 & [-> Herr]).
    symmetry in Herr. apply err_result_Ok in Herr as ->. rewrite app_nil_r, replay_del. split; [|split].
    + intros t [Hk Ht]%elem_of_neigh_del.
      destruct (Hr t Ht) as [?|[-> |?]%elem_of_cons]; [by left| |by right]. by destruct Hk.
    + intros i (ct' & Hc & [w Hw]) Hin. apply has_ip_del; [apply Hm; [by exists ct'; split|done]|].
      rewrite He. intros [= <-]. assert (ct' = ct) as -> by congruence. congruence.
    + intros t Hft. rewrite (foreign_del e T t (ip_String ip) ct); [by apply Hf|done..].
Qed.

(** The addresses of the containers are written as the kernel's are. *)
Definition canonical : Prop :=
  ∀ ip ct b, containersMap !! ip = Some ct → ParseIP ip = Some b → ip_String b = ip.

Definition completing (entries : list Neigh) (skip : gset string) (suf : list (string * Container.t))
    (T : list Neigh) : Prop :=
  (∀ t, t ∈ T → settled t) ∧
  (∀ ip, kept ip → has_ip ip entries → has_ip ip T) ∧
  (∀ t, foreign t → t ∈ T ↔ t ∈ entries) ∧
  (∀ ip, kept ip → ip ∉ skip → has_ip ip T ∨ ip ∈ suf.*1).

Lemma sync_missing_completes entries skip ip ct suf T tr :
  canonical → containersMap !! ip = Some ct → completing entries skip ((ip, ct) :: suf) T →
  exec (sync_missing c mac host driver skip (ip, ct)) tr (Ok ()) →
  completing entries skip suf (replay ns T tr).
Proof.
  intros Hcan Hct (Hr & Hm & Hf & Hp) H. unfold sync_missing in H. cbn [fst snd] in H.
  assert ((ip ∈ skip ∨ ¬ kept ip) → tr = [] → completing entries skip suf (replay ns T tr)) as Hskip.
  { intros Hs ->. split; [done|]. split; [done|]. split; [done|]. intros i Hi Hn.
    destruct (Hp i Hi Hn) as [?|[-> |?]%elem_of_cons]; [by left| |by right]. by destruct Hs. }
  destruct (decide (ip ∈ skip)) as [Hin|Hout].
  { rewrite bool_decide_eq_true_2 in H by done. destruct H as [-> _]. apply Hskip; [by left|done]. }
  rewrite bool_decide_eq_false_2 in H by done. destruct (expected ct) as [want|] eqn:Hx.
  2:{ destruct H as [-> _]. apply Hskip; [|done]. right. intros (ct' & Hc & [w Hw]). congruence. }
  unfold addARPEntry in H. destruct (ParseIP ip) as [b|] eqn:Hb; [|by destruct H].
  destruct (ParseMAC want) as [hw|] eqn:Hw; [|by destruct H].
  apply exec_pbind_ok in H as [(? & ? & _)|(tr1 & tr2 & routes & -> & ->%exec_call1 & H)]; [done|].
  destruct routes as [|link routes]; [by destruct H|].
  apply exec_bind in H as (tr3 & tr4 & err & -> & ->%exec_call1 & [-> Herr]).
  symmetry in Herr. apply err_result_Ok in Herr as ->. rewrite app_nil_r, arp_replay_app, replay_set.
  change (replay ns T [ev (Σ := host_sig) (RouteGet ns b) (Ok (link :: routes))]) with T.
  set (e := new_entry (ctx_name c) link b hw).
  assert (ip_of e = Some ip) as He by (cbn; f_equal; by eapply Hcan).
  split; [|split; [|split]].
  - intros t [[_ Ht]| ->]%elem_of_neigh_set; [by apply Hr|].
    intros i ct' Hi Hc. assert (ct' = ct) as -> by congruence. rewrite Hx. by right.
  - intros i Hi Hin. apply has_ip_set. left. by apply Hm.
  - intros t Ht. rewrite (foreign_set e T t ip ct); [by apply Hf|done..].
  - intros i Hi Hn. destruct (Hp i Hi Hn) as [?|[-> |?]%elem_of_cons]; [|left|by right].
    + left. apply has_ip_set. by left.
    + apply has_ip_set. by right.
Qed.

Lemma seen_has_ip ip entries : ip ∈ seen_ips entries → has_ip ip entries.
Proof.
  unfold seen_ips. rewrite elem_of_list_to_set, list_elem_of_omap. intros (e & He & Hip). by exists e.
Qed.

Lemma listing_untouched T (tr : list hevent) :
  Forall (λ e : hevent, match projT1 e with LinkList _ | AddrList _ _ => True | _ => False end) tr →
  replay ns T tr = T.
Proof. induction 1 as [|[x r] tr Hx _ IH]; [done|]. cbn in *. by destruct x. Qed.

Lemma localInterfaceIPs_calls :
  hcalls (λ x, match x with LinkList _ | AddrList _ _ => True | _ => False end) (localInterfaceIPs ns).
Proof.
  split; [done|]. intros [links|e]; [|done]. cbn.
  generalize (∅ : gset string). induction links as [|l links IH]; intros ips; [done|].
  cbn [collect]. apply calls_in_bind; [by split|]. intros ips'. apply IH.
Qed.
End repaired.

Lemma syncArpTable_settles {range : MapRange} c mac containersMap host tr :
  exec (syncArpTable c mac containersMap host) tr (Ok ()) →
  canonical containersMap →
  ∃ entries localIPs tr1 tr2,
    tr = ev (Σ := host_sig) (NeighList (ctx_ns c)) (Ok entries) :: tr1 ++ tr2 ∧
    exec (localInterfaceIPs (ctx_ns c)) tr1 localIPs ∧
    let driver := isNetworkDriverContext (ctx_name c) mac containersMap in
    let T := replay (ctx_ns c) entries tr in
    (∀ t, t ∈ T → settled mac containersMap host driver t) ∧
    (∀ ip, kept mac containersMap host driver ip → ip ∉ localIPs → has_ip ip T) ∧
    (∀ t, foreign containersMap t → t ∈ T ↔ t ∈ entries).
Proof.
  intros [(? & ? & _)|(t0 & t1 & entries & -> & ->%exec_call1 & H)]%exec_pbind_ok Hcan; [done|].
  apply exec_bind in H as (tr1 & tr2 & localIPs & -> & Hl & H). cbn zeta in H.
  set (driver := isNetworkDriverContext (ctx_name c) mac containersMap) in *.
  apply exec_bind in H as (tr3 & tr4 & r & -> & H1 & H2).
  exists entries, localIPs, tr1, (tr3 ++ tr4). split; [done|]. split; [done|]. cbn zeta.
  pose proof (try_each_Ok _ _ _ _ H2) as [Hr _].
  assert (r = Ok ()) as -> by (by destruct r as [[]|e]).
  pose proof (listing_untouched c entries tr1
    (calls_in_exec (Σ := host_sig) _ _ _ _ (localInterfaceIPs_calls c) Hl)) as Htr1.
  assert (∀ h, replay (ctx_ns c) entries ([ev (Σ := host_sig) (NeighList (ctx_ns c)) (Ok entries)] ++ tr1 ++ h)
    = replay (ctx_ns c) entries h) as Hreplay.
  { intros h. rewrite !arp_replay_app. cbn [replay foldl table_event ev]. by rewrite Htr1. }
  rewrite Hreplay.
  apply (try_each_inv _ (λ suf h, repairing mac containersMap host driver entries suf
    (replay (ctx_ns c) entries h)) _ _ []) in H1 as (Hright & Hman & Hfor).
  2:{ split; [by right|]. by split. }
  2:{ intros e suf h tr Hi He. rewrite arp_replay_app. by apply (sync_entry_repairs c) with (e := e). }
  cbn [app] in Hright, Hman, Hfor.
  pose proof (λ e h, proj1 (elem_of_range_map 32 containersMap e h)) as Hrange.
  apply (try_each_inv _ (λ suf h, (∀ ip ct, (ip, ct) ∈ suf → containersMap !! ip = Some ct) ∧
    completing mac containersMap host driver entries (seen_ips entries ∪ localIPs) suf
      (replay (ctx_ns c) entries h)) _ _ tr3) in H2 as (_ & Hright' & Hman' & Hfor' & Hpres).
  2:{ split; [intros ip ct; apply Hrange|]. split; [|split; [done|split; [done|]]].
      - intros t Ht. by destruct (Hright t Ht) as [?|?%not_elem_of_nil].
      - intros ip (ct & Hct & Hx) _. right. apply list_elem_of_fmap. exists (ip, ct).
        split; [done|]. by apply elem_of_range_map. }
  2:{ intros [ip ct] suf h tr [Hsuf Hi] He. rewrite arp_replay_app. split.
      - intros i ct' Hin. apply Hsuf. by apply list_elem_of_further.
      - eapply sync_missing_completes; [done|apply Hsuf, list_elem_of_here|done|done]. }
  split; [done|]. split; [|done]. intros ip Hip Hloc.
  destruct (decide (ip ∈ seen_ips entries)) as [Hseen|Hn]; [by apply Hman', seen_has_ip|].
  destruct (Hpres ip Hip) as [?|?%not_elem_of_nil]; [set_solver|done|done].
Qed.

(** ** What a right table is *)

Section right.
Context (c : context) (mac : string) (containersMap : gmap string Container.t) (host : Host.t).

(** A text is the hardware address: it prints so or is read so. *)
Definition names (text : string) (hw : list Z) : Prop :=
  MAC_String hw = text ∨ ParseMAC text = Some hw.

(** The container runs on this host. *)
Definition here_running (ct : Container.t) : Prop := Container.HostUUID ct = Host.UUID host.

(** The table is the one of the network's driver. *)
Definition drivers_table : Prop :=
  ∃ ip ct, containersMap !! ip = Some ct ∧ Container.ExternalId ct = ctx_name c ∧
    Container.PrimaryMacAddress ct = mac.

(** Packets for a container of this host go to the container, packets for a remote
    one to the driver, and in the driver's own table not back to the driver. *)
Definition right (e : Neigh) : Prop :=
  ∀ ip ct, ip_of e = Some ip → containersMap !! ip = Some ct →
    (here_running ct → names (Container.PrimaryMacAddress ct) (NeighHW e)) ∧
    (¬ here_running ct → ¬ drivers_table → names mac (NeighHW e)) ∧
    (¬ here_running ct → drivers_table → ¬ names mac (NeighHW e)).

(** The containers that must have an entry: in the driver's table those of this
    host, elsewhere all of them. *)
Definition managed (ip : string) : Prop :=
  ∃ ct, containersMap !! ip = Some ct ∧ (here_running ct ∨ ¬ drivers_table).

(** The driver's address is written as the kernel's are. *)
Definition canonical_mac : Prop := ∀ hw, ParseMAC mac = Some hw → MAC_String hw = mac.

Lemma isNetworkDriverContext_spec {range : MapRange} :
  isNetworkDriverContext (ctx_name c) mac containersMap = true ↔ drivers_table.
Proof.
  unfold isNetworkDriverContext, drivers_table. rewrite existsb_exists. split.
  - intros ([ip ct] & Hin & Hb). apply andb_true_iff in Hb as [H1%String.eqb_eq H2%String.eqb_eq].
    apply list_elem_of_In, elem_of_range_map in Hin. by exists ip, ct.
  - intros (ip & ct & Hin & H1 & H2). exists (ip, ct).
    split; [by apply list_elem_of_In, elem_of_range_map|]. cbn. by rewrite H1, H2, !String.eqb_refl.
Qed.

Lemma expected_here ct driver :
  here_running ct → expectedARPEntry mac ct host driver = Some (Container.PrimaryMacAddress ct).
Proof. unfold expectedARPEntry. intros ->. by rewrite String.eqb_refl. Qed.

Lemma expected_remote ct driver :
  ¬ here_running ct → expectedARPEntry mac ct host driver = if driver then None else Some mac.
Proof. unfold expectedARPEntry. intros Hn%String.eqb_neq. by rewrite Hn. Qed.

Lemma settled_right {range : MapRange} e :
  canonical_mac → settled mac containersMap host (isNetworkDriverContext (ctx_name c) mac containersMap) e →
  right e.
Proof.
  intros Hcan He ip ct Hip Hct. specialize (He ip ct Hip Hct).
  split; [intros Hh; by rewrite expected_here in He|]. split; intros Hn; rewrite expected_remote in He by done.
  - intros Hd. rewrite <-(isNetworkDriverContext_spec), not_true_iff_false in Hd. by rewrite Hd in He.
  - intros Hd%isNetworkDriverContext_spec. rewrite Hd in He. intros [?|?%Hcan]; done.
Qed.

Lemma managed_kept {range : MapRange} ip :
  managed ip → kept mac containersMap host (isNetworkDriverContext (ctx_name c) mac containersMap) ip.
Proof.
  intros (ct & Hct & H). exists ct. split; [done|].
  destruct (decide (here_running ct)) as [Hh|Hn]; [by rewrite expected_here|].
  destruct H as [?|Hd]; [done|]. rewrite expected_remote by done.
  rewrite <-isNetworkDriverContext_spec, not_true_iff_false in Hd. by rewrite Hd.
Qed.
End right.

(** C10: a sync that reports no error leaves the table right, provided the addresses
    of the containers and of the driver are written as the kernel prints them. An
    entry of a container of this host leads to the container's own address, an entry
    of a remote one to the network's driver, but in the driver's own table not back
    to the driver; every container (in the driver's table: of this host) whose
    address is not one of this namespace has an entry, and the entries of other
    addresses are what they were. *)
Theorem arp_table_repaired {range : MapRange} c mac containersMap host tr :
  exec (syncArpTable c mac containersMap host) tr (Ok ()) →
  canonical containersMap → canonical_mac mac →
  ∃ entries localIPs tr1 tr2,
    tr = ev (Σ := host_sig) (NeighList (ctx_ns c)) (Ok entries) :: tr1 ++ tr2 ∧
    exec (localInterfaceIPs (ctx_ns c)) tr1 localIPs ∧
    let T := replay (ctx_ns c) entries tr in
    (∀ t, t ∈ T → right c mac containersMap host t) ∧
    (∀ ip, managed c mac containersMap host ip → ip ∉ localIPs → has_ip ip T) ∧
    (∀ t, foreign containersMap t → t ∈ T ↔ t ∈ entries).
Proof.
  intros H Hcan Hmac. destruct (syncArpTable_settles _ _ _ _ _ H Hcan)
    as (entries & localIPs & tr1 & tr2 & Htr & Hl & Hright & Hman & Hfor).
  exists entries, localIPs, tr1, tr2. split; [done|]. split; [done|].
  split; [intros t Ht; exact (settled_right c _ _ _ t Hmac (Hright t Ht))|]. split; [|exact Hfor].
  intros ip Hip. exact (Hman ip (managed_kept c _ _ _ ip Hip)).
Qed.

(** ** A host with a stale and a missing entry *)

Definition local_container : Container.t :=
  mk_container "u7" "c7" "host-1" "n1" "10.42.0.7" "02:42:0a:2a:00:07" "running" "web" [] ∅.
Definition remote_container : Container.t :=
  mk_container "u9" "c9" "host-2" "n1" "10.42.0.9" "02:42:0a:2a:00:09" "running" "db" [] ∅.
Definition demo_network : gmap string Container.t :=
  {[ "10.42.0.7" := local_container; "10.42.0.9" := remote_container ]}.
Definition driver_mac : string := "02:42:0a:2a:00:01".

Definition neigh_reply (c : hcall) : hreply c :=
  match c return hreply c with
  | NeighList _ => Ok [
      {| NeighLink := 3; NeighIP := Some [10; 42; 0; 7]; NeighHW := [2; 66; 0; 0; 0; 0]; NeighState := 4; NeighOther := 0 |};
      {| NeighLink := 3; NeighIP := Some [10; 42; 0; 99]; NeighHW := [2; 66; 0; 0; 0; 0]; NeighState := 4; NeighOther := 0 |}]%Z
  | RouteGet _ _ => Ok [3%Z]
  | c' => idle_reply c'
  end.

Definition here : context := {| ctx_name := "host"; ctx_ns := None |}.
Definition demo_host : Host.t := mk_host "host-1" "192.0.2.1" "active" ∅.
Definition arp_sync :=
  run (Σ := host_sig) (λ _, neigh_reply) [] (@syncArpTable range_forward here driver_mac demo_network demo_host).

Definition listed (tr : list hevent) : nat :=
  match tr with existT (NeighList _) (Ok l) :: _ => length l | _ => 0 end.

Lemma arp_table_repaired_witness :
  arp_sync.2 = Ok () ∧ length arp_sync.1 = 5 ∧
  ∃ entries localIPs, length entries = 2 ∧
    (∀ t, t ∈ replay None entries arp_sync.1 → right here driver_mac demo_network demo_host t) ∧
    ("10.42.0.9" ∉ (localIPs : gset string) → has_ip "10.42.0.9" (replay None entries arp_sync.1)).
Proof.
  pose proof (run_exec (Σ := host_sig) (λ _, neigh_reply) []
    (@syncArpTable range_forward here driver_mac demo_network demo_host)) as H.
  fold arp_sync in H. assert (arp_sync.2 = Ok ()) as Hr by (vm_compute; reflexivity).
  split; [exact Hr|]. split; [vm_compute; reflexivity|]. rewrite Hr in H.
  assert (canonical demo_network) as Hcan.
  { intros ip ct b Hin. unfold demo_network in Hin.
    apply lookup_insert_Some in Hin as [[<- _]|[_ [<- _]%lookup_singleton_Some]];
      intros [= <-]; vm_compute; reflexivity. }
  assert (canonical_mac driver_mac) as Hmac.
  { intros hw. vm_compute. by intros [= <-]. }
  destruct (@arp_table_repaired range_forward here driver_mac demo_network demo_host _ H Hcan Hmac)
    as (entries & localIPs & tr1 & tr2 & Htr & _ & Hright & Hpres & _).
  exists entries, localIPs. split; [|split; [exact Hright|]].
  - pose proof (f_equal listed Htr) as Hlen. change (listed arp_sync.1 = length entries) in Hlen.
    transitivity (listed arp_sync.1); [symmetry; exact Hlen|vm_compute; reflexivity].
  - intros Hloc. apply Hpres; [|exact Hloc]. exists remote_container. split; [reflexivity|].
    right. intros (ip & ct & Hin & Hid & _). unfold demo_network in Hin.
    apply lookup_insert_Some in Hin as [[_ <-]|[_ [_ <-]%lookup_singleton_Some]]; discriminate Hid.
Defined.

(** Hardware addresses are compared as texts, the kernel's in lower case: an
    entry that leads a remote container back to the driver stays when the
    metadata writes the driver's address in upper case. *)
Lemma uppercase_self_reference_kept :
  let e := {| NeighLink := 3; NeighIP := Some [10; 42; 0; 9]; NeighHW := [2; 66; 10; 42; 0; 1];
              NeighState := 4; NeighOther := 0 |}%Z in
  ParseMAC "02:42:0A:2A:00:01" = Some (NeighHW e) ∧
  sync_entry here "02:42:0A:2A:00:01" demo_network demo_host true e = Ret (Ok ()) ∧
  sync_entry here "02:42:0a:2a:00:01" demo_network demo_host true e = deleteARPEntry here e.
Proof. vm_compute. by split_and!. Qed.
