(* ===== verification/Syncers.v ===== *)
(** * The smaller watchers (macsync, routesync, reaper)

    Hardware addresses of containers, the route to the metadata service, and the
    removal of containers the platform does not know under their label. *)
From S2P Require Import Prelude Effects GoStrings GoNet Metadata World Identity Manager CniGlue Conntrack LocalNet ArpSync.

(** ** macsync/macsync.go *)
Module MacSync.

Definition syncLabel : string := "io.rancher.network.macsync".
Definition syncInterval : Z := (15 * second)%Z.
Definition N : nat := 8.

(** [strings.EqualFold] against the text of a hardware address, whose letters
    have no other case variants. *)
Definition EqualFold (s t : string) : bool := String.eqb (ToLower s) (ToLower t).

Definition sync_container (aContainer : Container.t) (ns : netns) : hprog (result ()) :=
  l <-? call1 (LinkByName ns "eth0");
  if EqualFold (Container.PrimaryMacAddress aContainer) (MAC_String (HardwareAddr l)) then Ret (Ok ()) else
  match ParseMAC (Container.PrimaryMacAddress aContainer) with
  | None => Ret (Err (Errorf "failed to parse MAC address"))
  | Some hwaddr =>
      e ← call1 (LinkSetHardwareAddr ns (LinkIndex l) hwaddr);
      Ret (match e with
           | Some _ => Err (Errorf "failed to set hw address of interface")
           | None => Ok ()
           end)
  end.

Definition wants_sync (routers : gmap string Container.t) (n : Network.t) : bool :=
  String.eqb (zget "" (router_of routers (Network.UUID n)).1 syncLabel) "true".

(** The pair of results: something was done, and the error. *)
Definition doSync : hprog (bool * result ()) :=
  local ← wrapped "get local networks" LocalNetworks;
  match local with
  | Err e => Ret (false, Err e)
  | Ok (networks, routers) =>
      let chosen := filter (λ n, wants_sync routers n = true) networks in
      r ← try_each (λ n, ForEachContainerNS (Network.UUID n) sync_container) None chosen;
      Ret (negb (bool_decide (chosen = [])), r)
  end.

(** The first loop runs until a sync has done something without an error; each
    fuel is one round. *)
Fixpoint until_done (fuel : nat) : hprog bool :=
  match fuel with
  | 0 => Ret false
  | S fuel =>
      r ← doSync;
      match r with
      | (true, Ok _) => Ret true
      | _ => _ ← call1 (Sleep syncInterval); until_done fuel
      end
  end.

Fixpoint n_times (n : nat) : hprog () :=
  match n with
  | 0 => Ret ()
  | S n => _ ← call1 (Sleep syncInterval); _ ← doSync; n_times n
  end.

Definition syncNTimes (fuel : nat) : hprog bool :=
  found ← until_done fuel;
  if (found : bool) then (_ ← n_times N; Ret true) else Ret false.
End MacSync.

(** ** routesync/watcher.go *)
Module RouteSync.

Definition DefaultSyncInterval : Z := 60.

(** [os.Getenv] of both variables; empty ones stop the watcher. *)
Definition conditionsMetToWatch : hprog (option (string * string)) :=
  dockerBridge ← call1 (Getenv "DOCKER_BRIDGE");
  metadataIP ← call1 (Getenv "METADATA_IP");
  Ret (if negb (String.eqb dockerBridge "") && negb (String.eqb metadataIP "")
       then Some (dockerBridge, metadataIP) else None).

(** [netlink.ParseIPNet(metadataIP + "/32")]: the address, as bytes. *)
Definition parse_host (metadataIP : string) : option (list Z) :=
  '(ip, _) ← ParseCIDR (metadataIP +:+ "/32");
  Some (match ip with
        | V4 a => replicate 10 0%Z ++ [255; 255]%Z ++ be_bytes 4 a
        | V6 a _ => be_bytes 16 a
        end).

Definition ErrExist : string := "file exists".
(** [err.Error() == "file exists"] *)
Definition is_file_exists (e : error) : bool :=
  match e with ErrSentinel m | Errorf m => String.eqb m ErrExist | _ => false end.

Definition nil_ip : list Z := [].

Definition addRouteToMetadataIP (bridgeName metadataIP : string) : hprog (result ()) :=
  l <-? call1 (LinkByName None bridgeName);
  match parse_host metadataIP with
  | None => Ret (Err (Errorf "invalid CIDR address"))
  | Some dst =>
      added ← call1 (RouteAdd (LinkIndex l) dst);
      match added with
      | None => Ret (Ok ())
      | Some e =>
          if is_file_exists e then
            existingRoutes <-? call1 (RouteGet None (default nil_ip (ParseIP metadataIP)));
            match existingRoutes with
            | [] => Ret (Err (ErrSentinel "index out of range")) (* the panic of existingRoutes[0] *)
            | link :: _ =>
                (* the destinations are compared as pointers, which differ *)
                Ret (if negb (link =? LinkIndex l)%Z
                     then Err (Errorf "conflicting routes to metadata IP") else Ok ())
            end
          else Ret (Err e)
      end
  end.

Definition interval (syncIntervalStr : string) : Z :=
  seconds (default DefaultSyncInterval (Atoi syncIntervalStr)).

(** The start: the route is there before anything else runs. The result says
    whether the loop of [round]s goes on. *)
Definition Watch : hprog (result (option (string * string))) :=
  conditions ← conditionsMetToWatch;
  match conditions with
  | None => Ret (Ok None)
  | Some (bridgeName, metadataIP) =>
      _ <-? addRouteToMetadataIP bridgeName metadataIP;
      Ret (Ok (Some (bridgeName, metadataIP)))
  end.

(** One round of [doRouteSync]. *)
Definition round (bridgeName metadataIP : string) (syncInterval : Z) : hprog () :=
  _ ← call1 (Sleep syncInterval);
  _ ← addRouteToMetadataIP bridgeName metadataIP;
  Ret ().
End RouteSync.

(** ** reaper/watcher.go *)
Module Reaper.

Definition uuidLabel : string := "io.rancher.container.uuid".
Definition serviceNameLabel : string := "io.rancher.stack_service.name".
Definition metadataService : string := "network-services/metadata".
Definition dnsService : string := "network-services/metadata/dns".

Definition managedDependency (container : Container.t) : bool :=
  let name := zget "" (Container.Labels container) serviceNameLabel in
  if String.eqb name metadataService || String.eqb name dnsService then true else
  String.eqb (Container.StackName container) "network-services"
  && (String.eqb (Container.ServiceName container) "metadata"
      || String.eqb (Container.ServiceName container) "metadata/dns"
      || String.eqb (Container.ServiceName container) "dns").

Definition unmanaged (hostUUID : string) (container : Container.t) : bool :=
  if negb (String.eqb (Container.HostUUID container) hostUUID) || managedDependency container then false else
  match Container.Labels container !! uuidLabel with
  | None => false
  | Some uuid => negb (String.eqb (Container.UUID container) uuid)
  end.

(** A failed removal is logged. *)
Definition removeContainer (container : Container.t) : hprog () :=
  _ ← call1 (ContainerRemove (Container.ExternalId container)); Ret ().

Fixpoint removeUnmanaged (hostUUID : string) (containers : list Container.t) : hprog () :=
  match containers with
  | [] => Ret ()
  | c :: containers =>
      if unmanaged hostUUID c
      then _ ← removeContainer c; removeUnmanaged hostUUID containers
      else removeUnmanaged hostUUID containers
  end.

Definition onChange : hprog (result ()) :=
  host <-? LocalHost;
  containers <-? call1 GetContainers;
  _ ← removeUnmanaged (Host.UUID host) containers;
  Ret (Ok ()).

(** The removals of a trace. *)
Definition removed (tr : list hevent) : list string :=
  omap (λ c, match c with ContainerRemove id => Some id | _ => None end) (calls_of tr).

Lemma removed_app tr1 tr2 : removed (tr1 ++ tr2) = removed tr1 ++ removed tr2.
Proof. unfold removed. by rewrite calls_of_app, omap_app. Qed.

Lemma reads_removed tr : Forall (λ e : hevent, reads_only (projT1 e)) tr → removed tr = [].
Proof.
  induction 1 as [|[c r] tr Hc _ IH]; [done|]. unfold removed in *. cbn. cbn in Hc. by destruct c.
Qed.

Lemma removeUnmanaged_exec hostUUID containers tr r :
  exec (removeUnmanaged hostUUID containers) tr r →
  removed tr = Container.ExternalId <$> filter (λ c, unmanaged hostUUID c = true) containers ∧
  length tr = length (removed tr).
Proof.
  revert tr. induction containers as [|c cs IH]; intros tr; cbn [removeUnmanaged]; [by intros [-> _]|].
  rewrite filter_cons. destruct (unmanaged hostUUID c) eqn:Hu.
  - intros (tr1 & tr2 & e & -> & (tr3 & tr4 & e' & -> & ->%exec_call1 & [-> ->])%exec_bind & H)%exec_bind.
    destruct (IH _ H) as [Hr Hl].
    rewrite decide_True by done. rewrite removed_app. cbn. by rewrite Hr, Hl, Hr.
  - rewrite decide_False by congruence. apply IH.
Qed.

(** A container that carries the label of another container. *)
Definition orphan (hostUUID : string) (c : Container.t) : Prop :=
  Container.HostUUID c = hostUUID ∧
  Container.Labels c !! uuidLabel ≠ None ∧ Container.Labels c !! uuidLabel ≠ Some (Container.UUID c) ∧
  ¬ (zget "" (Container.Labels c) serviceNameLabel ∈ [metadataService; dnsService]) ∧
  ¬ (Container.StackName c = "network-services" ∧
     Container.ServiceName c ∈ ["metadata"; "metadata/dns"; "dns"]).

#[export] Instance orphan_dec hostUUID c : Decision (orphan hostUUID c).
Proof. unfold orphan. apply _. Defined.

Lemma managedDependency_spec c :
  managedDependency c = true ↔
  zget "" (Container.Labels c) serviceNameLabel ∈ [metadataService; dnsService] ∨
  (Container.StackName c = "network-services" ∧
   Container.ServiceName c ∈ ["metadata"; "metadata/dns"; "dns"]).
Proof.
  unfold managedDependency. cbn zeta. rewrite !elem_of_cons, !elem_of_nil.
  destruct (_ || _) eqn:E; rewrite ?orb_true_iff, ?orb_false_iff, ?andb_true_iff, ?orb_true_iff,
    ?String.eqb_eq, ?String.eqb_neq in *; naive_solver.
Qed.

Lemma unmanaged_orphan hostUUID c : unmanaged hostUUID c = true ↔ orphan hostUUID c.
Proof.
  unfold unmanaged, orphan. pose proof (managedDependency_spec c) as Hd.
  destruct (String.eqb (Container.HostUUID c) hostUUID) eqn:Hh; cbn [negb orb];
    [apply String.eqb_eq in Hh|apply String.eqb_neq in Hh; naive_solver].
  destruct (managedDependency c); [naive_solver|].
  assert (¬ (zget "" (Container.Labels c) serviceNameLabel ∈ [metadataService; dnsService]) ∧
    ¬ (Container.StackName c = "network-services" ∧
       Container.ServiceName c ∈ ["metadata"; "metadata/dns"; "dns"])) as [? ?].
  { split; intros ?; assert (false = true) by (apply Hd; auto); done. }
  destruct (Container.Labels c !! uuidLabel) as [uuid|]; [|naive_solver].
  rewrite negb_true_iff, String.eqb_neq. split; [|naive_solver]. intros Hne. split; [done|].
  split; [done|]. split; [congruence|done].
Qed.

(** C36: a reaper turn removes, in order, exactly the containers of this host whose
    platform label names another UUID than the metadata gives them, and never a
    container of the metadata or DNS service, whichever way it is labelled; a turn
    that cannot identify the host or list the containers removes nothing. *)
Theorem reaper_removes tr r :
  exec onChange tr r →
  (ok r = false → removed tr = []) ∧
  (r = Ok () → ∃ tr1 host containers rest,
     tr = tr1 ++ (ev (Σ := host_sig) GetContainers (Ok containers) :: rest) ∧
     exec LocalHost tr1 (Ok host) ∧
     removed tr = Container.ExternalId <$> filter (orphan (Host.UUID host)) containers).
Proof.
  assert (∀ tr r, exec LocalHost tr r → removed tr = []) as Hread.
  { intros t r0 H. apply reads_removed. exact (calls_in_exec (Σ := host_sig) _ _ _ _ LocalHost_reads H). }
  intros [(e & -> & H)|(tr1 & tr2 & host & -> & Hhost & H)]%exec_pbind_ok.
  { split; [|done]. intros _. by eapply Hread. }
  apply exec_pbind_ok in H as [(e & -> & H)|(tr3 & tr4 & containers & -> & H1 & H)].
  { apply exec_call1 in H as ->. split; [|done]. intros _. rewrite removed_app, (Hread _ _ Hhost). done. }
  apply exec_call1 in H1 as ->. apply exec_bind in H as (tr5 & tr6 & x & -> & H & [-> ->]).
  split; [done|]. intros _. exists tr1, host, containers, (tr5 ++ []). split; [done|]. split; [done|].
  apply removeUnmanaged_exec in H as [H _].
  rewrite !removed_app, (Hread _ _ Hhost), H. cbn. rewrite app_nil_r. f_equal.
  apply list_filter_iff. intros c. apply unmanaged_orphan.
Qed.

Definition orphan_container : Container.t :=
  mk_container "u2" "9c1d" "host-2" "" "" "" "running" "old" [] {[ uuidLabel := "u1" ]}.
Definition dns_container : Container.t :=
  mk_container "u3" "77aa" "host-2" "" "" "" "running" "dns" []
    {[ uuidLabel := "u1"; serviceNameLabel := dnsService ]}.

Definition orphan_reply (c : hcall) : hreply c :=
  match c return hreply c with
  | GetContainers => Ok [dns_container; orphan_container]
  | c' => manager_host [] c'
  end.
Definition reaping := run (Σ := host_sig) (λ _, orphan_reply) [] onChange.

Lemma reaper_removes_witness :
  reaping.2 = Ok () ∧ removed reaping.1 = ["9c1d"] ∧
  ∃ tr1 host containers rest,
    reaping.1 = tr1 ++ (ev (Σ := host_sig) GetContainers (Ok containers) :: rest) ∧
    removed reaping.1 = Container.ExternalId <$> filter (orphan (Host.UUID host)) containers.
Proof.
  pose proof (run_exec (Σ := host_sig) (λ _, orphan_reply) [] onChange) as H. fold reaping in H.
  assert (reaping.2 = Ok ()) as Hr by (vm_compute; reflexivity).
  split; [exact Hr|]. split; [vm_compute; reflexivity|]. rewrite Hr in H.
  destruct (proj2 (reaper_removes _ _ H) eq_refl) as (tr1 & host & containers & rest & Htr & _ & Hrem).
  exists tr1, host, containers, rest. split; [exact Htr|exact Hrem].
Defined.
End Reaper.
