(* ===== verification/Url.v ===== *)
(** * URLs (Go's net/url)

    Reading and writing of URLs with the escapes of their parts, as the metadata
    client uses them. *)
From S2P Require Import Prelude GoStrings GoNet.

Inductive encoding :=
  | encodePath | encodePathSegment | encodeHost | encodeZone
  | encodeUserPassword | encodeQueryComponent | encodeFragment.
#[export] Instance encoding_eq_dec : EqDecision encoding.
Proof. solve_decision. Defined.

Definition one_of (chars : string) (c : ascii) : bool := any_byte (Ascii.eqb c) chars.
Definition alnum (c : ascii) : bool := is_alpha c || is_digit c.
Definition host_mode (mode : encoding) : bool :=
  match mode with encodeHost | encodeZone => true | _ => false end.

Definition shouldEscape (mode : encoding) (c : ascii) : bool :=
  if alnum c then false
  else if host_mode mode && one_of ("!$&'()*+,;=:[]<>" +:+ dquote) c then false
  else if one_of "-_.~" c then false
  else if one_of "$&+,/:;=?@" c then
    match mode with
    | encodePath => Ascii.eqb c "?"
    | encodePathSegment => one_of "/;,?" c
    | encodeUserPassword => one_of "@/?:" c
    | encodeFragment => false
    | _ => true
    end
  else negb (bool_decide (mode = encodeFragment) && one_of "!()*" c).

Definition upper_hex (n : N) : ascii :=
  if (n <? 10)%N then ascii_of_N (48 + n) else ascii_of_N (55 + n).

Definition escape_char (mode : encoding) (c : ascii) : string :=
  if shouldEscape mode c then
    if bool_decide (mode = encodeQueryComponent) && Ascii.eqb c " " then "+"
    else String "%" (String (upper_hex (byte_N c / 16)) (String (upper_hex (byte_N c mod 16)) ""))
  else String c "".

Fixpoint escape (mode : encoding) (s : string) : string :=
  match s with
  | EmptyString => ""
  | String c s' => escape_char mode c +:+ escape mode s'
  end.

Definition PathEscape (s : string) : string := escape encodePathSegment s.
Definition QueryEscape (s : string) : string := escape encodeQueryComponent s.

(** An escape a part does not allow: a host may only escape bytes beyond ASCII and
    the percent sign, a zone also the space. *)
Definition bad_escape (mode : encoding) (x v : Z) : bool :=
  match mode with
  | encodeHost => (x <? 8)%Z && negb (v =? 37)%Z
  | encodeZone => negb (v =? 37)%Z && negb (v =? 32)%Z && shouldEscape encodeHost (ascii_of_N (Z.to_N v))
  | _ => false
  end.

Fixpoint unescape (mode : encoding) (s : string) : option string :=
  match s with
  | EmptyString => Some ""
  | String c s' =>
      if Ascii.eqb c "%" then
        match s' with
        | String a (String b s'') =>
            x ← hex_value a; y ← hex_value b;
            if bad_escape mode x (x * 16 + y) then None
            else String (ascii_of_N (Z.to_N (x * 16 + y))) <$> unescape mode s''
        | _ => None
        end
      else if Ascii.eqb c "+" && bool_decide (mode = encodeQueryComponent)
      then String " " <$> unescape mode s'
      else if host_mode mode && (byte_N c <? 128)%N && shouldEscape mode c then None
      else String c <$> unescape mode s'
  end.

(** ** Parsing *)

Record URL := {
  Scheme : string; Opaque : string;
  User : bool; (* whether there is a user part *)
  Host : string; Path : string; RawPath : string; OmitHost : bool;
  ForceQuery : bool; RawQuery : string; Fragment : string;
}.

(** The parts before and after the last occurrence of a byte. *)
Fixpoint cut_last (s : string) (c : ascii) : option (string * string) :=
  match s with
  | EmptyString => None
  | String a s' =>
      match cut_last s' c with
      | Some (before, after) => Some (String a before, after)
      | None => if Ascii.eqb a c then Some ("", s') else None
      end
  end.

Definition is_ctl (c : ascii) : bool := ((byte_N c <? 32) || (byte_N c =? 127))%N.
Definition scheme_byte (c : ascii) : bool := alnum c || one_of "+-." c.

(** The scheme and the rest; none when the scheme is missing before a colon. *)
Definition getScheme (rawURL : string) : option (string * string) :=
  match Cut rawURL ":" with
  | (before, after, true) =>
      if all_bytes scheme_byte before then
        match before with
        | EmptyString => None
        | String c _ => if is_alpha c then Some (before, after) else Some ("", rawURL)
        end
      else Some ("", rawURL)
  | _ => Some ("", rawURL)
  end.

Definition user_byte (c : ascii) : bool := alnum c || one_of "-._:~!$&'()*+,;=%@" c.

Definition parse_userinfo (userinfo : string) : option () :=
  if negb (all_bytes user_byte userinfo) then None else
  let '(name, password, _) := Cut userinfo ":" in
  _ ← unescape encodeUserPassword name; _ ← unescape encodeUserPassword password; Some ().

Definition validOptionalPort (port : string) : bool :=
  match port with
  | EmptyString => true
  | String c digits => Ascii.eqb c ":" && all_bytes is_digit digits
  end.

(** An address in brackets, with the port after it. *)
Definition parse_literal (host : string) : option string :=
  '(hostname, colonPort) ← cut_last host "]";
  if negb (validOptionalPort colonPort) then None else
  port ← unescape encodeHost colonPort;
  name ← match Index hostname "%25" with
         | Some i =>
             a ← unescape encodeHost (take_bytes i hostname);
             z ← unescape encodeZone (drop_bytes i hostname);
             Some (a +:+ z)
         | None => unescape encodeHost hostname
         end;
  match ParseAddr name with
  | Some (V6 _ _) => Some ("[" +:+ name +:+ "]" +:+ port)
  | _ => None
  end.

Definition parseHost (host : string) : option string :=
  match cut_last host "[" with
  | Some ("", literal) => parse_literal literal
  | Some _ => None
  | None =>
      match Cut host ":" with
      | (_, digits, true) => if all_bytes is_digit digits then unescape encodeHost host else None
      | _ => unescape encodeHost host
      end
  end.

Definition parseAuthority (authority : string) : option (bool * string) :=
  match cut_last authority "@" with
  | None => host ← parseHost authority; Some (false, host)
  | Some (userinfo, rest) => host ← parseHost rest; _ ← parse_userinfo userinfo; Some (true, host)
  end.

Definition setPath (u : URL) (p : string) : option URL :=
  path ← unescape encodePath p;
  Some {| Scheme := Scheme u; Opaque := Opaque u; User := User u; Host := Host u; Path := path;
          RawPath := if String.eqb p (escape encodePath path) then "" else p;
          OmitHost := OmitHost u; ForceQuery := ForceQuery u; RawQuery := RawQuery u;
          Fragment := Fragment u |}.

(** A URL without a path. *)
Definition url_head (scheme : string) (user : bool) (host : string) (omit force : bool) (query : string) : URL :=
  {| Scheme := scheme; Opaque := ""; User := user; Host := host; Path := ""; RawPath := "";
     OmitHost := omit; ForceQuery := force; RawQuery := query; Fragment := "" |}.

(** [rest] is what follows the scheme, without the query. *)
Definition parse_hier (scheme rest : string) (force : bool) (query : string) : option URL :=
  if (negb (String.eqb scheme "") || negb (HasPrefix rest "///")) && HasPrefix rest "//" then
    let '(authority, path, found) := Cut (drop_bytes 2 rest) "/" in
    '(user, host) ← parseAuthority authority;
    setPath (url_head scheme user host false force query) (if (found : bool) then String "/" path else "")
  else
    let omit := negb (String.eqb scheme "") && HasPrefix rest "/" in
    setPath (url_head scheme false "" omit force query) rest.

Definition parse_text (rawURL : string) : option URL :=
  if any_byte is_ctl rawURL then None else
  if String.eqb rawURL "*" then
    Some {| Scheme := ""; Opaque := ""; User := false; Host := ""; Path := "*"; RawPath := "";
            OmitHost := false; ForceQuery := false; RawQuery := ""; Fragment := "" |} else
  '(scheme, rest) ← getScheme rawURL;
  let scheme := ToLower scheme in
  let '(rest, query, found) := Cut rest "?" in
  let force := found && String.eqb query "" in
  if HasPrefix rest "/" then parse_hier scheme rest force query
  else if negb (String.eqb scheme "") then
    Some {| Scheme := scheme; Opaque := rest; User := false; Host := ""; Path := ""; RawPath := "";
            OmitHost := false; ForceQuery := force; RawQuery := query; Fragment := "" |}
  else if GoStrings.Contains (Cut rest "/").1.1 ":" then None
  else parse_hier scheme rest force query.

Definition Parse (rawURL : string) : option URL :=
  let '(text, frag, _) := Cut rawURL "#" in
  u ← parse_text text;
  if String.eqb frag "" then Some u else
  fragment ← unescape encodeFragment frag;
  Some {| Scheme := Scheme u; Opaque := Opaque u; User := User u; Host := Host u; Path := Path u;
          RawPath := RawPath u; OmitHost := OmitHost u; ForceQuery := ForceQuery u;
          RawQuery := RawQuery u; Fragment := fragment |}.

Definition IsAbs (u : URL) : bool := negb (String.eqb (Scheme u) "").

(** ** Writing *)

Definition encoded_byte (mode : encoding) (c : ascii) : bool :=
  one_of "!$&'()*+,;=:@[]%" c || negb (shouldEscape mode c).

Definition EscapedPath (u : URL) : string :=
  if negb (String.eqb (RawPath u) "") && all_bytes (encoded_byte encodePath) (RawPath u)
     && bool_decide (unescape encodePath (RawPath u) = Some (Path u))
  then RawPath u
  else if String.eqb (Path u) "*" then "*" else escape encodePath (Path u).

(** [URL.String] of a URL with a scheme and a host and without user part and
    fragment. *)
Definition URL_String (u : URL) : string :=
  let path := EscapedPath u in
  Scheme u +:+ "://" +:+ escape encodeHost (Host u)
  +:+ (if negb (String.eqb path "") && negb (HasPrefix path "/") then "/" else "") +:+ path
  +:+ (if ForceQuery u || negb (String.eqb (RawQuery u) "") then String "?" (RawQuery u) else "").

Example Parse_ex :
  (λ u, (Scheme u, Host u, Path u, RawPath u, RawQuery u)) <$> Parse "HTTP://metadata:80/a%2Fb/c?x=1#top" =
  Some ("http", "metadata:80", "/a/b/c", "/a%2Fb/c", "x=1").
Proof. vm_compute. reflexivity. Qed.
Example Parse_bad :
  map Parse ["http://h:8a/"; "http://::1/"; "http://[10.0.0.1]/"; "/a%2"; ":x"; "a:b:c d" +:+ nl; "//u[@h/"] =
  replicate 7 None.
Proof. vm_compute. reflexivity. Qed.
Example Parse_v6 :
  (λ u, (User u, Host u, URL_String u)) <$> Parse "http://[fe80::1%25eth0]:8080" =
  Some (false, "[fe80::1%eth0]:8080", "http://[fe80::1%25eth0]:8080").
Proof. vm_compute. reflexivity. Qed.

(** ** Bytes of an escaped text *)

(** A property of all bytes, by computation. *)
Ltac every_byte c := destruct c as [[] [] [] [] [] [] [] []]; vm_compute; try reflexivity; try done.

Lemma all_bytes_escape (p : ascii → bool) mode s :
  p "%"%char = true → p "+"%char = true → (∀ n, (n < 16)%N → p (upper_hex n) = true) →
  (∀ c, shouldEscape mode c = false → p c = true) → all_bytes p (escape mode s) = true.
Proof.
  intros Hp Hplus Hh Hc. induction s as [|c s IH]; [done|]. cbn [escape].
  rewrite all_bytes_app, IH, andb_true_r. unfold escape_char.
  destruct (shouldEscape mode c) eqn:E; [|cbn; by rewrite Hc].
  assert (byte_N c / 16 < 16 ∧ byte_N c mod 16 < 16)%N as [H1 H2].
  { clear. split; [|by apply N.mod_lt]. apply N.Div0.div_lt_upper_bound.
    unfold byte_N. apply (Ascii.N_ascii_bounded c). }
  case_match; cbn; by rewrite ?Hp, ?Hplus, ?Hh.
Qed.

(** What is true of all hex digits. *)
Lemma upper_hex_all (p : ascii → bool) :
  all_bytes p "0123456789ABCDEF" = true → ∀ n, (n < 16)%N → p (upper_hex n) = true.
Proof.
  cbn. rewrite !andb_true_iff. intros Hp n Hn.
  assert (n = 0 ∨ n = 1 ∨ n = 2 ∨ n = 3 ∨ n = 4 ∨ n = 5 ∨ n = 6 ∨ n = 7 ∨ n = 8 ∨ n = 9 ∨ n = 10
          ∨ n = 11 ∨ n = 12 ∨ n = 13 ∨ n = 14 ∨ n = 15)%N as H by lia.
  decompose [or] H; subst; cbn; tauto.
Qed.

(** The texts of paths read back. *)
Definition path_writer (mode : encoding) : Prop := mode = encodePath ∨ mode = encodePathSegment.

Lemma unescape_path_char mode c s :
  path_writer mode →
  unescape encodePath (escape_char mode c +:+ s) = String c <$> unescape encodePath s.
Proof. intros [-> | ->]; destruct c as [[] [] [] [] [] [] [] []]; cbn; done. Qed.

Lemma unescape_path mode s :
  path_writer mode → unescape encodePath (escape mode s) = Some s.
Proof.
  intros Hm. induction s as [|c s IH]; [done|]. cbn [escape].
  by rewrite unescape_path_char, IH.
Qed.

Lemma escape_path_app mode s t : escape mode (s +:+ t) = escape mode s +:+ escape mode t.
Proof.
  induction s as [|c s IH]; [done|]. rewrite app_cons_str. cbn [escape].
  by rewrite IH, app_assoc_str.
Qed.

Lemma escape_plain mode s :
  all_bytes (λ c, negb (shouldEscape mode c)) s = true → escape mode s = s.
Proof.
  induction s as [|c s IH]; [done|]. cbn. rewrite andb_true_iff, negb_true_iff. intros [Hc Hs].
  unfold escape_char. by rewrite Hc, IH.
Qed.

(** A property of the bytes of an escaped text. *)
Ltac escaped_bytes :=
  unfold free_of; match goal with |- all_bytes ?p _ = true =>
    apply (all_bytes_escape p); [reflexivity|reflexivity|apply (upper_hex_all p); reflexivity|
      let c := fresh "c" in intros c; every_byte c]
  end.

Definition not_ctl (c : ascii) : bool := negb (is_ctl c).

Lemma escaped_path_bytes s :
  let p := escape encodePath s in
  free_of "#" p = true ∧ free_of "?" p = true ∧ all_bytes not_ctl p = true.
Proof. split_and!; escaped_bytes. Qed.

Lemma escaped_segment_bytes s :
  let p := escape encodePathSegment s in
  free_of "#" p = true ∧ free_of "?" p = true ∧ free_of "/" p = true ∧ all_bytes not_ctl p = true
  ∧ all_bytes (encoded_byte encodePath) p = true.
Proof. split_and!; escaped_bytes. Qed.

Lemma escaped_query_bytes s :
  let p := escape encodeQueryComponent s in free_of "#" p = true ∧ all_bytes not_ctl p = true.
Proof. split_and!; escaped_bytes. Qed.

(** ** A written URL is read back *)

Lemma Cut_free s c : free_of c s = true → Cut s c = (s, "", false).
Proof.
  intros H. rewrite <- (app_nil_r_str s) at 1. rewrite Cut_app_free by done. cbn.
  by rewrite app_nil_r_str.
Qed.
Lemma Cut_at s t c : free_of c s = true → Cut (s +:+ String c t) c = (s, t, true).
Proof.
  intros H. rewrite Cut_app_free by done. cbn. by rewrite Ascii.eqb_refl, app_nil_r_str.
Qed.
Lemma Cut_spec s c :
  s = (Cut s c).1.1 +:+ (if (Cut s c).2 then String c (Cut s c).1.2 else "") ∧
  free_of c (Cut s c).1.1 = true.
Proof.
  unfold free_of. induction s as [|a s [IH1 IH2]]; [done|]. cbn [Cut].
  destruct (Ascii.eqb_spec a c) as [->|Hne]; [done|].
  destruct (Cut s c) as [[b d] f]. cbn [fst snd] in *. rewrite app_cons_str. split; [by f_equal|].
  cbn. rewrite IH2, andb_true_r. apply negb_true_iff. by apply Ascii.eqb_neq.
Qed.
Lemma Cut_app_left s t c :
  free_of c s = true → Cut (s +:+ t) c = (s +:+ (Cut t c).1.1, (Cut t c).1.2, (Cut t c).2).
Proof. intros H. rewrite Cut_app_free by done. by destruct (Cut t c) as [[b d] f]. Qed.

Lemma cut_last_free s c : free_of c s = true → cut_last s c = None.
Proof.
  unfold free_of. induction s as [|a s IH]; [done|]. cbn. rewrite andb_true_iff, negb_true_iff.
  intros [Ha Hs]. by rewrite IH, Ha.
Qed.

Definition host_byte (c : ascii) : bool := alnum c || one_of "-._~" c.

(** A DNS name or IPv4 address, with its port if any. *)
Definition plain_host (h : string) : bool :=
  let '(name, port, found) := Cut h ":" in
  all_bytes host_byte name && all_bytes is_digit port && negb (String.eqb h "").

Lemma plain_host_bytes h :
  plain_host h = true → all_bytes (λ c, host_byte c || Ascii.eqb c ":") h = true.
Proof.
  unfold plain_host. destruct (Cut_spec h ":") as [Hs _]. destruct (Cut h ":") as [[n p] f].
  cbn [fst snd] in Hs. rewrite !andb_true_iff. intros [[Hn Hp] _]. rewrite Hs, all_bytes_app.
  rewrite (all_bytes_weaken host_byte _ n); [|by intros c ->|done].
  destruct f; [|done]. cbn. apply (all_bytes_weaken is_digit); [|done].
  intros c. unfold host_byte, alnum. intros ->. by rewrite orb_true_r.
Qed.

Lemma plain_host_all (p : ascii → bool) h :
  plain_host h = true → (∀ c, host_byte c || Ascii.eqb c ":" = true → p c = true) →
  all_bytes p h = true.
Proof. intros H Hp. eapply all_bytes_weaken; [exact Hp|by apply plain_host_bytes]. Qed.

Lemma unescape_host h : plain_host h = true → unescape encodeHost h = Some h.
Proof.
  intros H. pose proof (plain_host_bytes h H) as Hb. clear H.
  induction h as [|c h IH]; [done|]. cbn in Hb. rewrite andb_true_iff in Hb. destruct Hb as [Hc Hb].
  assert (Ascii.eqb c "%" = false ∧ shouldEscape encodeHost c = false) as [H1 H2].
  { revert Hc. clear. every_byte c. }
  cbn [unescape]. rewrite H1, H2, andb_false_r, IH by done. by rewrite andb_false_r.
Qed.

Lemma parseAuthority_plain h : plain_host h = true → parseAuthority h = Some (false, h).
Proof.
  intros H. unfold parseAuthority, parseHost.
  rewrite !cut_last_free by (apply plain_host_all; [done|]; intros c; every_byte c).
  rewrite (unescape_host h H). unfold plain_host in H. destruct (Cut h ":") as [[n p] f].
  rewrite !andb_true_iff in H. destruct H as [[_ H] _]. rewrite H. by destruct f.
Qed.

(** The URLs the client asks for. *)
Record requestable (u : URL) : Prop := {
  r_scheme : Scheme u ∈ ["http"; "https"];
  r_host : plain_host (Host u) = true;
  r_path : Path u = "" ∨ HasPrefix (Path u) "/" = true;
  r_query : free_of "#" (RawQuery u) = true ∧ all_bytes not_ctl (RawQuery u) = true;
  r_rest : Opaque u = "" ∧ User u = false ∧ RawPath u = "" ∧ OmitHost u = false ∧ Fragment u = "";
}.

(** A forced question mark is only kept before an empty query. *)
Definition requested (u : URL) : URL :=
  {| Scheme := Scheme u; Opaque := Opaque u; User := User u; Host := Host u; Path := Path u;
     RawPath := RawPath u; OmitHost := OmitHost u;
     ForceQuery := ForceQuery u && String.eqb (RawQuery u) ""; RawQuery := RawQuery u;
     Fragment := Fragment u |}.

Definition query_text (u : URL) : string :=
  if ForceQuery u || negb (String.eqb (RawQuery u) "") then String "?" (RawQuery u) else "".

Lemma URL_String_parts u :
  requestable u →
  URL_String u = Scheme u +:+ String ":" ("//" +:+ (Host u +:+ escape encodePath (Path u)) +:+ query_text u).
Proof.
  intros []. destruct r_rest0 as (_ & _ & Hr & _). unfold URL_String, EscapedPath, query_text.
  rewrite Hr, (escape_plain encodeHost).
  2:{ apply plain_host_all; [done|]. intros c; every_byte c. }
  cbn [negb andb String.eqb].
  assert (Path u ≠ "*" ∧ (escape encodePath (Path u) = "" ∨ HasPrefix (escape encodePath (Path u)) "/" = true))
    as [Hs Hp].
  { destruct r_path0 as [->|H]; [by auto|]. apply HasPrefix_spec in H as [t ->]. split; [done|].
    right. rewrite escape_path_app. apply HasPrefix_self. }
  apply String.eqb_neq in Hs. rewrite Hs.
  assert (negb (String.eqb (escape encodePath (Path u)) "") && negb (HasPrefix (escape encodePath (Path u)) "/")
          = false) as ->.
  { destruct Hp as [-> | ->]; [done|]. by rewrite andb_false_r. }
  by rewrite !app_assoc_str.
Qed.

Lemma setPath_escaped u s :
  setPath u (escape encodePath s) =
  Some {| Scheme := Scheme u; Opaque := Opaque u; User := User u; Host := Host u; Path := s;
          RawPath := ""; OmitHost := OmitHost u; ForceQuery := ForceQuery u; RawQuery := RawQuery u;
          Fragment := Fragment u |}.
Proof.
  unfold setPath. rewrite unescape_path by by left. cbn. by rewrite String.eqb_refl.
Qed.

(** A path is empty or starts with the slash that ends the host. *)
Lemma Cut_host_path h p :
  plain_host h = true → p = "" ∨ HasPrefix p "/" = true →
  let '(host, rest, found) := Cut (h +:+ p) "/" in
  host = h ∧ (if (found : bool) then String "/" rest else "") = p.
Proof.
  intros Hh Hp.
  assert (free_of "/" h = true) as Hf by (apply plain_host_all; [done|]; intros c; every_byte c).
  destruct Hp as [->|[t ->]%HasPrefix_spec].
  - rewrite app_nil_r_str, Cut_free; done.
  - rewrite app_cons_str, Cut_at by done. done.
Qed.

Lemma parse_hier_plain scheme h p force query :
  scheme ≠ "" → plain_host h = true → p = "" ∨ HasPrefix p "/" = true →
  parse_hier scheme ("//" +:+ h +:+ p) force query =
  setPath (url_head scheme false h false force query) p.
Proof.
  intros Hs Hh Hp. unfold parse_hier. apply String.eqb_neq in Hs. rewrite Hs.
  rewrite HasPrefix_self. cbn [negb orb andb].
  change (drop_bytes 2 ("//" +:+ h +:+ p)) with (h +:+ p).
  pose proof (Cut_host_path h p Hh Hp) as Hc. destruct (Cut (h +:+ p) "/") as [[a b] f].
  destruct Hc as [-> ->]. by rewrite parseAuthority_plain.
Qed.

Lemma any_byte_ctl s : all_bytes not_ctl s = true → any_byte is_ctl s = false.
Proof. unfold any_byte. intros H. change (all_bytes (λ a, negb (is_ctl a)) s = true) in H. by rewrite H. Qed.

Lemma scheme_text s : s ∈ ["http"; "https"] →
  s ≠ "" ∧ ToLower s = s ∧ free_of ":" s = true ∧ free_of "#" s = true ∧ all_bytes not_ctl s = true ∧
  ∀ t, getScheme (s +:+ String ":" t) = Some (s, t).
Proof.
  intros H. rewrite !elem_of_cons, elem_of_nil in H. destruct H as [->|[->|[]]]; split_and!; done.
Qed.

(** The text of a URL with an HTTP scheme, a plain host and no user part or
    fragment is read back as the same URL, whatever bytes its path has: the service
    is asked for exactly the decoded path and query. *)
Lemma url_text_read_back u :
  requestable u → Parse (URL_String u) = Some (requested u).
Proof.
  intros Hu. rewrite URL_String_parts by done. destruct Hu.
  set (p := escape encodePath (Path u)).
  destruct (scheme_text _ r_scheme0) as (Hs0 & Hlow & Hc & Hh & Hctl & Hget).
  destruct (escaped_path_bytes (Path u)) as (Hp1 & Hp2 & Hp3). fold p in Hp1, Hp2, Hp3.
  destruct r_query0 as [Hq1 Hq2], r_rest0 as (Ho & Hus & Hrp & Hom & Hfr).
  assert (∀ f : ascii → bool, (∀ c, host_byte c || Ascii.eqb c ":" = true → f c = true) →
            all_bytes f (Host u) = true) as Hhost by (intros; by apply plain_host_all).
  assert (free_of "#" (query_text u) = true ∧ all_bytes not_ctl (query_text u) = true) as [Hqt1 Hqt2].
  { unfold query_text. by destruct (_ || _). }
  assert (free_of "#" (Host u) = true ∧ free_of "?" (Host u) = true ∧ all_bytes not_ctl (Host u) = true)
    as (Hh1 & Hh2 & Hh3) by (split_and!; apply Hhost; intros c; every_byte c).
  set (body := "//" +:+ (Host u +:+ p) +:+ query_text u).
  assert (free_of "#" (Scheme u +:+ String ":" body) = true
          ∧ all_bytes not_ctl (Scheme u +:+ String ":" body) = true) as [Hf Hn].
  { unfold free_of, body in *. rewrite !all_bytes_app, !app_cons_str, !app_nil_l_str. cbn [all_bytes].
    rewrite !all_bytes_app. rewrite Hh, Hctl, Hh1, Hh3, Hp1, Hp3, Hqt1, Hqt2. done. }
  unfold Parse. rewrite Cut_free by done. unfold parse_text. rewrite any_byte_ctl by done.
  assert (String.eqb (Scheme u +:+ String ":" body) "*" = false) as ->.
  { clear -r_scheme0. rewrite !elem_of_cons, elem_of_nil in r_scheme0. by destruct r_scheme0 as [->|[->|[]]]. }
  rewrite Hget. cbn [mbind option_bind]. rewrite Hlow. unfold body. rewrite <- (app_assoc_str "//").
  rewrite Cut_app_left.
  2:{ unfold free_of in *. rewrite app_cons_str, app_cons_str, app_nil_l_str. cbn [all_bytes].
      by rewrite all_bytes_app, Hh2, Hp2. }
  assert (∃ q f, Cut (query_text u) "?" = ("", q, f) ∧ q = RawQuery u ∧
            f && String.eqb q "" = ForceQuery u && String.eqb (RawQuery u) "") as (q & f & -> & -> & Hfq).
  { unfold query_text. destruct (ForceQuery u); cbn [orb]; [by exists (RawQuery u), true|].
    destruct (String.eqb_spec (RawQuery u) "") as [->|Hne]; cbn [negb]; [by exists "", false|].
    exists (RawQuery u), true. split; [done|]. split; [done|]. apply String.eqb_neq in Hne. by rewrite Hne. }
  cbn [fst snd]. rewrite Hfq, app_nil_r_str.
  assert (HasPrefix ("//" +:+ Host u +:+ p) "/" = true) as -> by done.
  rewrite parse_hier_plain; [|done|done|].
  2:{ unfold p. destruct r_path0 as [->|H]; [by left|]. apply HasPrefix_spec in H as [t ->]. right.
      rewrite escape_path_app. apply HasPrefix_self. }
  unfold p. rewrite setPath_escaped. cbn [mbind option_bind String.eqb]. unfold requested, url_head. cbn.
  by rewrite Ho, Hus, Hrp, Hom, Hfr.
Qed.

Definition metadata_url : URL :=
  {| Scheme := "http"; Opaque := ""; User := false; Host := "metadata:80"; Path := "/v1/a b?#/%2e";
     RawPath := ""; OmitHost := false; ForceQuery := true; RawQuery := "wait=true"; Fragment := "" |}.

Lemma url_text_read_back_witness :
  URL_String metadata_url = "http://metadata:80/v1/a%20b%3F%23/%252e?wait=true" ∧
  Parse (URL_String metadata_url) = Some (requested metadata_url).
Proof.
  split; [vm_compute; reflexivity|]. apply url_text_read_back. constructor.
  - left.
  - vm_compute. reflexivity.
  - right. vm_compute. reflexivity.
  - split; vm_compute; reflexivity.
  - repeat split.
Defined.

(** ** What a parsed URL is like *)

Lemma unescape_slash t p : unescape encodePath (String "/" t) = Some p → HasPrefix p "/" = true.
Proof.
  intros H. change (String "/" <$> unescape encodePath t = Some p) in H.
  destruct (unescape encodePath t) as [t'|]; [|done]. injection H as <-. apply (HasPrefix_self "/").
Qed.

Lemma parse_hier_facts scheme rest force query u :
  parse_hier scheme rest force query = Some u →
  Scheme u = scheme ∧ RawQuery u = query ∧ Opaque u = "" ∧ Fragment u = "" ∧
  (Host u ≠ "" → OmitHost u = false ∧ (Path u = "" ∨ HasPrefix (Path u) "/" = true)).
Proof.
  unfold parse_hier, setPath. destruct (_ && HasPrefix rest "//").
  - destruct (Cut (drop_bytes 2 rest) "/") as [[authority path] found].
    destruct (parseAuthority authority) as [[user host]|]; [|done]. cbn [mbind option_bind].
    destruct (unescape encodePath _) as [p|] eqn:Hp; [|done]. intros [= <-]. cbn.
    do 4 (split; [done|]). intros _. split; [done|]. destruct found; [right; by eapply unescape_slash|].
    injection Hp as <-. by left.
  - destruct (unescape encodePath _) as [p|] eqn:Hp; [|done]. intros [= <-]. cbn.
    do 4 (split; [done|]). done.
Qed.

Lemma Cut_after p s c : all_bytes p s = true → all_bytes p (Cut s c).1.2 = true.
Proof.
  intros H. destruct (Cut_spec s c) as [Hs _]. revert Hs. destruct (Cut s c) as [[b a] f] eqn:E. cbn.
  destruct f; intros ->.
  - rewrite all_bytes_app in H. cbn in H. rewrite !andb_true_iff in H. tauto.
  - rewrite app_nil_r_str in *. clear -E.
    assert (∀ s b a, Cut s c = (b, a, false) → a = "") as Hn; [|by rewrite (Hn _ _ _ E)].
    induction s as [|x s IH]; cbn; [naive_solver|]. intros b' a'.
    destruct (Ascii.eqb x c); [done|]. destruct (Cut s c) as [[b0 a0] f0]. intros [= <- <- ->]. eauto.
Qed.
Lemma Cut_before p s c : all_bytes p s = true → all_bytes p (Cut s c).1.1 = true.
Proof.
  intros H. destruct (Cut_spec s c) as [Hs _]. rewrite Hs, all_bytes_app, andb_true_iff in H. tauto.
Qed.

Definition clean (c : ascii) : bool := negb (Ascii.eqb c "#") && not_ctl c.

Lemma all_bytes_and p q s : all_bytes (λ c, p c && q c) s = all_bytes p s && all_bytes q s.
Proof. induction s as [|c s IH]; [done|]. cbn. rewrite IH. by destruct (p c), (q c), (all_bytes p s). Qed.

Lemma getScheme_rest p s scheme rest :
  getScheme s = Some (scheme, rest) → all_bytes p s = true → all_bytes p rest = true.
Proof.
  unfold getScheme. intros H Hs. pose proof (Cut_after p s ":" Hs) as Ha.
  destruct (Cut s ":") as [[b a] [|]]; [|by simplify_eq]. cbn in Ha.
  destruct (all_bytes scheme_byte b); [|by simplify_eq]. destruct b; [done|].
  by destruct (is_alpha _); simplify_eq.
Qed.

Lemma parse_text_facts s u :
  parse_text s = Some u → free_of "#" s = true →
  all_bytes clean (RawQuery u) = true ∧ Fragment u = "" ∧
  (Host u ≠ "" → Opaque u = "" ∧ OmitHost u = false ∧ (Path u = "" ∨ HasPrefix (Path u) "/" = true)).
Proof.
  unfold parse_text. destruct (any_byte is_ctl s) eqn:Hc; [done|]. intros H Hf.
  assert (all_bytes clean s = true) as Hcl.
  { unfold clean. rewrite all_bytes_and, andb_true_iff. split; [exact Hf|].
    unfold any_byte in Hc. by apply negb_false_iff in Hc. }
  destruct (String.eqb s "*"); [injection H as <-; cbn; split; [done|]; split; [done|]; congruence|].
  destruct (getScheme s) as [[scheme rest]|] eqn:Hs; [|done]. cbn [mbind option_bind] in H.
  pose proof (getScheme_rest _ _ _ _ Hs Hcl) as Hr. pose proof (Cut_after clean rest "?" Hr) as Hq.
  destruct (Cut rest "?") as [[path query] found]. cbn [fst snd] in Hq.
  assert (∀ v, parse_hier (ToLower scheme) path (found && String.eqb query "") query = Some v →
    all_bytes clean (RawQuery v) = true ∧ Fragment v = "" ∧
    (Host v ≠ "" → Opaque v = "" ∧ OmitHost v = false ∧ (Path v = "" ∨ HasPrefix (Path v) "/" = true)))
    as Hhier.
  { intros v (_ & -> & -> & -> & Hv)%parse_hier_facts. split; [done|]. split; [done|]. intros Hh.
    split; [done|]. by apply Hv. }
  destruct (HasPrefix path "/"); [by apply Hhier|].
  destruct (negb (String.eqb (ToLower scheme) "")); [injection H as <-; cbn; split; [done|]; split; [done|]; congruence|].
  destruct (GoStrings.Contains _ _); [done|]. by apply Hhier.
Qed.

Lemma Parse_facts s u :
  Parse s = Some u →
  all_bytes clean (RawQuery u) = true ∧
  (Host u ≠ "" → Opaque u = "" ∧ OmitHost u = false ∧ (Path u = "" ∨ HasPrefix (Path u) "/" = true)).
Proof.
  unfold Parse. destruct (Cut_spec s "#") as [_ Hf]. destruct (Cut s "#") as [[text frag] f]. cbn in Hf.
  destruct (parse_text text) as [v|] eqn:Hp; [|done]. cbn [mbind option_bind].
  destruct (parse_text_facts _ _ Hp Hf) as (Hq & _ & Hh).
  destruct (String.eqb frag ""); [by intros [= <-]|].
  destruct (unescape encodeFragment frag); [|done]. by intros [= <-].
Qed.
