(* ===== verification/MetaClient.v ===== *)
(** * The metadata client (internal/metadata/client.go)

    Requests to the metadata service with their limits, the wait for the service,
    and the stream of versions. The client's programs have calls of their own: one
    HTTP request on the wire, the context of the start, the callback. *)
From S2P Require Import Prelude Effects GoStrings GoNet Metadata Json World Conntrack Url.

Definition connectionDeadline : Z := (20 * second)%Z.
Definition requestTimeout : Z := (15 * second)%Z.
Definition maxResponseBytes : N := N.shiftl 32 20.

(** ** The wire *)

Record Request := {
  ReqURL : URL;
  ForwardedFor : string; (* the X-Forwarded-For header, empty when absent *)
  ReqTimeout : Z;
}.

(** A response: its Location header as net/http resolves it ([Some None] when it is
    no URL), the bytes of the body the server sends, and whether reading fails
    after them. *)
Record Response := {
  StatusCode : Z;
  Location : option (option URL);
  Body : string;
  BodyFails : bool;
}.

Inductive mcall :=
  | RoundTrip (r : Request)
  | CtxErr
  | Pause (delay : Z)
  | Callback (version : string)
  | Wait (duration : Z).

(** [CtxErr] is [ctx.Err()], [Pause] is [pauseRetry(ctx, delay)]. *)
Definition mreply (c : mcall) : Type :=
  match c with
  | RoundTrip _ => result Response
  | CtxErr | Pause _ => option error
  | Callback _ | Wait _ => ()
  end.
Definition http_sig : sig := Sig mcall mreply.
Abbreviation mprog A := (prog http_sig A).
Abbreviation mevent := (event http_sig).

Definition mcall1 (c : mcall) : mprog (mreply c) := trigger (Σ := http_sig) c.

(** ** The client *)

Record httpClient := {
  baseURL : URL;
  forwardedFor : string;
  initErr : option error;
}.

(** [strings.TrimRight] of one byte. *)
Fixpoint TrimRight (s : string) (c : ascii) : string :=
  match s with
  | EmptyString => ""
  | String a s' =>
      match TrimRight s' c with
      | EmptyString => if Ascii.eqb a c then "" else String a ""
      | t => String a t
      end
  end.

Definition set_path (u : URL) (path : string) : URL :=
  {| Scheme := Scheme u; Opaque := Opaque u; User := User u; Host := Host u; Path := path;
     RawPath := RawPath u; OmitHost := OmitHost u; ForceQuery := ForceQuery u;
     RawQuery := RawQuery u; Fragment := Fragment u |}.

Definition newHTTPClient (rawURL forwardedFor : string) : result httpClient :=
  match Parse rawURL with
  | None => Err (Errorf "invalid metadata URL")
  | Some u =>
      if (negb (String.eqb (Scheme u) "http") && negb (String.eqb (Scheme u) "https"))
         || String.eqb (Host u) ""
      then Err (Errorf "metadata URL must use HTTP or HTTPS and include a host")
      else if User u || negb (String.eqb (RawQuery u) "") || negb (String.eqb (Fragment u) "")
      then Err (Errorf "metadata URL must not contain credentials, a query, or a fragment")
      else if negb (String.eqb forwardedFor "")
              && match ParseAddr forwardedFor with Some (V4 _) | Some (V6 _ "") => false | _ => true end
      then Err (Errorf "forwarded metadata address is not an IP address")
      else Ok {| baseURL := set_path u (TrimRight (Path u) "/"); forwardedFor := forwardedFor;
                 initErr := None |}
  end.

(** The client of a bad URL answers every request with the error. *)
Definition NewClient (rawURL : string) : httpClient :=
  match newHTTPClient rawURL "" with
  | Ok client => client
  | Err e => {| baseURL := url_head "" false "" false false ""; forwardedFor := ""; initErr := Some e |}
  end.

(** [strings.EqualFold], where one of the texts is ASCII: U+017F and U+212A are the
    characters beyond ASCII that fold with a letter. *)
Fixpoint fold_text (s : string) : string :=
  match s with
  | EmptyString => ""
  | String "197" (String "191" s') => String "s" (fold_text s')
  | String "226" (String "132" (String "170" s')) => String "k" (fold_text s')
  | String c s' => String (lower c) (fold_text s')
  end.
Definition EqualFold (s t : string) : bool := String.eqb (fold_text s) (fold_text t).

Definition same_origin (u v : URL) : bool :=
  EqualFold (Scheme u) (Scheme v) && EqualFold (Host u) (Host v).

(** The redirect policy: [via] are the URLs asked so far, the first one first. *)
Definition CheckRedirect (request : URL) (via : list URL) : result () :=
  match via with
  | [] => Ok ()
  | origin :: _ =>
      if negb (same_origin request origin) then Err (Errorf "metadata redirect changed origin")
      else if 5 <=? length via then Err (Errorf "too many metadata redirects")
      else Ok ()
  end.

(** *** One request *)

Definition traversal (segment : string) : bool :=
  String.eqb segment ".." || EqualFold segment "%2e%2e".

Definition endpoint (client : httpClient) (path : string) : result URL :=
  match initErr client with
  | Some e => Err e
  | None =>
      match Parse path with
      | None => Err (Errorf "invalid metadata request path")
      | Some reference =>
          if IsAbs reference || negb (String.eqb (Host reference) "")
             || negb (HasPrefix (Path reference) "/")
          then Err (Errorf "invalid metadata request path")
          else if existsb traversal (Split (EscapedPath reference) "/")
          then Err (Errorf "metadata request path contains traversal")
          else Ok {| Scheme := Scheme (baseURL client); Opaque := Opaque (baseURL client);
                     User := User (baseURL client); Host := Host (baseURL client);
                     Path := Path (baseURL client) +:+ Path reference; RawPath := "";
                     OmitHost := OmitHost (baseURL client);
                     ForceQuery := ForceQuery (baseURL client); RawQuery := RawQuery reference;
                     Fragment := Fragment (baseURL client) |}
      end
  end.

(** Where net/http goes on after a response to a GET request; an absent or empty
    Location makes the response the last one. *)
Definition redirect_of (r : Response) : option (option URL) :=
  if bool_decide (StatusCode r ∈ [301; 302; 303; 307; 308]%Z) then Location r else None.

(** [http.Client.Do]: [via] are the requests sent, [fuel] bounds the ones to come.
    The policy allows five, so that the fuel is never used up. *)
Fixpoint Do (fuel : nat) (via : list URL) (request : Request) : mprog (option (result Response)) :=
  match fuel with
  | 0 => Ret None
  | S fuel =>
      r ← mcall1 (RoundTrip request);
      match r with
      | Err e => Ret (Some (Err e))
      | Ok response =>
          match redirect_of response with
          | None => Ret (Some (Ok response))
          | Some None => Ret (Some (Err (Errorf "failed to parse Location header")))
          | Some (Some next) =>
              match CheckRedirect next (via ++ [ReqURL request]) with
              | Err e => Ret (Some (Err e))
              | Ok _ => Do fuel (via ++ [ReqURL request])
                          {| ReqURL := next; ForwardedFor := ForwardedFor request;
                             ReqTimeout := ReqTimeout request |}
              end
          end
      end
  end.
Definition do_fuel : nat := 5.

Definition byte_length (s : string) : N := N.of_nat (String.length s).

(** [io.ReadAll(io.LimitReader(body, maxResponseBytes+1))] and the test after it. *)
Definition read_body (response : Response) : result string :=
  if (maxResponseBytes <? byte_length (Body response))%N
  then Err (Errorf "metadata response exceeded size limit")
  else if BodyFails response then Err (Errorf "could not read metadata response")
  else Ok (Body response).

Definition finish (r : result Response) : result string :=
  match r with
  | Err e => wrap_err "metadata request failed" (Err e)
  | Ok response =>
      if negb (StatusCode response =? 200)%Z then Err (Errorf "metadata request returned HTTP")
      else read_body response
  end.

Definition sendRequest (client : httpClient) (path : string) (timeout : Z)
    : mprog (option (result string)) :=
  match endpoint client path with
  | Err e => Ret (Some (Err e))
  | Ok target =>
      match Parse (URL_String target) with
      | None => Ret (Some (Err (Errorf "could not create metadata request")))
      | Some url =>
          r ← Do do_fuel [] {| ReqURL := url; ForwardedFor := forwardedFor client; ReqTimeout := timeout |};
          Ret (option_map finish r)
      end
  end.

Definition SendRequest (client : httpClient) (path : string) : mprog (option (result string)) :=
  sendRequest client path requestTimeout.

(** ** Decoding the documented objects

    [json.Unmarshal] into the structs of types.go: a field takes the members of its
    name in document order; a slice takes the last array. *)

Definition field {A} (set : A → Json → result A) (zero : A) (name : string)
    (ms : list (string * Json)) : result A :=
  result_fold set zero (field_values name ms).

Definition set_list {A} (element : Json → result A) (acc : list A) (v : Json) : result (list A) :=
  match v with
  | JArray l => result_fold (λ acc x, a ← element x; Ok (acc ++ [a])) [] l
  | JNull => Ok []
  | _ => Err type_error
  end.
Definition list_field {A} (element : Json → result A) := field (set_list element) [].
Definition strings_field := list_field (set_string "").

(** A map whose nil and empty values are read alike. *)
Definition labels_field (name : string) (ms : list (string * Json)) : result (gmap string string) :=
  m ← map_field "" set_string name ms; Ok (default ∅ m).

Definition set_value (acc : Value) (v : Json) : result Value := Ok (to_value v).
Definition values_field (name : string) (ms : list (string * Json)) : result (gmap string Value) :=
  m ← map_field VNull set_value name ms; Ok (default ∅ m).

(** A pointer to a struct, nil without a member. *)
Definition set_pointer {A} (set : A → Json → result A) (zero : A) (acc : option A) (v : Json)
    : result (option A) :=
  match v with
  | JNull => Ok None
  | _ => a ← set (default zero acc) v; Ok (Some a)
  end.

Definition set_health (acc : HealthCheck) (v : Json) : result HealthCheck :=
  ms ← struct_members v;
  a ← field set_int (HealthyThreshold acc) "healthy_threshold" ms;
  b ← field set_int (CheckInterval acc) "interval" ms;
  c ← field set_int (CheckPort acc) "port" ms;
  d ← field set_string (RequestLine acc) "request_line" ms;
  e ← field set_int (ResponseTimeout acc) "response_timeout" ms;
  f ← field set_int (UnhealthyThreshold acc) "unhealthy_threshold" ms;
  Ok (Build_HealthCheck a b c d e f).

Definition decode_container (v : Json) : result Container.t :=
  ms ← struct_members v;
  createIndex ← int_field "create_index" ms;
  dns ← strings_field "dns" ms;
  dnsSearch ← strings_field "dns_search" ms;
  environmentUUID ← string_field "environment_uuid" ms;
  externalId ← string_field "external_id" ms;
  healthCheck ← field set_health zero_health "health_check" ms;
  healthCheckHosts ← strings_field "health_check_hosts" ms;
  healthState ← string_field "health_state" ms;
  hostUUID ← string_field "host_uuid" ms;
  hostname ← string_field "hostname" ms;
  ips ← strings_field "ips" ms;
  labels ← labels_field "labels" ms;
  links ← labels_field "links" ms;
  memoryReservation ← int_field "memory_reservation" ms;
  metadataKind ← string_field "metadata_kind" ms;
  milliCPUReservation ← int_field "milli_cpu_reservation" ms;
  name ← string_field "name" ms;
  networkFromContainerUUID ← string_field "network_from_container_uuid" ms;
  networkUUID ← string_field "network_uuid" ms;
  ports ← strings_field "ports" ms;
  primaryIp ← string_field "primary_ip" ms;
  primaryMacAddress ← string_field "primary_mac_address" ms;
  serviceIndex ← string_field "service_index" ms;
  serviceName ← string_field "service_name" ms;
  stackName ← string_field "stack_name" ms;
  stackUUID ← string_field "stack_uuid" ms;
  startCount ← int_field "start_count" ms;
  state ← string_field "state" ms;
  system ← bool_field "system" ms;
  uuid ← string_field "uuid" ms;
  Ok (Container.Make createIndex dns dnsSearch environmentUUID externalId healthCheck
        healthCheckHosts healthState hostUUID hostname ips labels links memoryReservation
        metadataKind milliCPUReservation name networkFromContainerUUID networkUUID ports primaryIp
        primaryMacAddress serviceIndex serviceName stackName stackUUID startCount state system uuid).

Definition decode_host (v : Json) : result Host.t :=
  ms ← struct_members v;
  agentIP ← string_field "agent_ip" ms;
  agentState ← string_field "agent_state" ms;
  environmentUUID ← string_field "environment_uuid" ms;
  hostId ← int_field "host_id" ms;
  hostname ← string_field "hostname" ms;
  labels ← labels_field "labels" ms;
  localStorageMb ← int_field "local_storage_mb" ms;
  memory ← int_field "memory" ms;
  metadataKind ← string_field "metadata_kind" ms;
  milliCPU ← int_field "milli_cpu" ms;
  name ← string_field "name" ms;
  state ← string_field "state" ms;
  uuid ← string_field "uuid" ms;
  Ok (Host.Make agentIP agentState environmentUUID hostId hostname labels localStorageMb memory
        metadataKind milliCPU name state uuid).

Definition set_between (acc : NetworkPolicyRuleBetween) (v : Json) : result NetworkPolicyRuleBetween :=
  ms ← struct_members v;
  g ← field set_string (GroupBy acc) "groupBy" ms;
  s ← field set_string (BetweenSelector acc) "selector" ms;
  Ok (Build_NetworkPolicyRuleBetween g s).
Definition set_member (acc : NetworkPolicyRuleMember) (v : Json) : result NetworkPolicyRuleMember :=
  ms ← struct_members v;
  s ← field set_string (MemberSelector acc) "selector" ms;
  Ok (Build_NetworkPolicyRuleMember s).

Definition zero_between : NetworkPolicyRuleBetween := Build_NetworkPolicyRuleBetween "" "".
Definition zero_member : NetworkPolicyRuleMember := Build_NetworkPolicyRuleMember "".
Definition zero_rule : NetworkPolicyRule := Build_NetworkPolicyRule "" None None [] None "".

Definition set_rule (acc : NetworkPolicyRule) (v : Json) : result NetworkPolicyRule :=
  ms ← struct_members v;
  action ← field set_string (PolicyAction acc) "action" ms;
  between ← field (set_pointer set_between zero_between) (PolicyBetween acc) "between" ms;
  from ← field (set_pointer set_member zero_member) (PolicyFrom acc) "from" ms;
  ports ← field (set_list (set_string "")) (PolicyPorts acc) "ports" ms;
  to ← field (set_pointer set_member zero_member) (PolicyTo acc) "to" ms;
  within ← field set_string (PolicyWithin acc) "within" ms;
  Ok (Build_NetworkPolicyRule action between from ports to within).

Definition decode_network (v : Json) : result Network.t :=
  ms ← struct_members v;
  isDefault ← bool_field "is_default" ms;
  defaultPolicyAction ← string_field "default_policy_action" ms;
  environmentUUID ← string_field "environment_uuid" ms;
  hostPorts ← bool_field "host_ports" ms;
  metadata ← values_field "metadata" ms;
  metadataKind ← string_field "metadata_kind" ms;
  name ← string_field "name" ms;
  policy ← list_field (set_rule zero_rule) "policy" ms;
  uuid ← string_field "uuid" ms;
  Ok (Network.Make isDefault defaultPolicyAction environmentUUID hostPorts metadata metadataKind
        name policy uuid).

Definition set_port_rule (acc : LBPortRule) (v : Json) : result LBPortRule :=
  ms ← struct_members v;
  backendName ← field set_string (BackendName acc) "backend_name" ms;
  hostname ← field set_string (LBHostname acc) "hostname" ms;
  path ← field set_string (LBPath acc) "path" ms;
  priority ← field set_int (Priority acc) "priority" ms;
  protocol ← field set_string (LBProtocol acc) "protocol" ms;
  selector ← field set_string (LBSelector acc) "selector" ms;
  service ← field set_string (LBService acc) "service" ms;
  sourcePort ← field set_int (LBSourcePort acc) "source_port" ms;
  targetPort ← field set_int (LBTargetPort acc) "target_port" ms;
  Ok (Build_LBPortRule backendName hostname path priority protocol selector service sourcePort targetPort).

Definition set_stickiness (acc : LBStickinessPolicy) (v : Json) : result LBStickinessPolicy :=
  ms ← struct_members v;
  cookie ← field set_string (Cookie acc) "cookie" ms;
  domain ← field set_string (Domain acc) "domain" ms;
  indirect ← field set_bool (Indirect acc) "indirect" ms;
  mode ← field set_string (StickyMode acc) "mode" ms;
  name ← field set_string (StickyName acc) "name" ms;
  nocache ← field set_bool (Nocache acc) "nocache" ms;
  postonly ← field set_bool (Postonly acc) "postonly" ms;
  Ok (Build_LBStickinessPolicy cookie domain indirect mode name nocache postonly).

Definition zero_port_rule : LBPortRule := Build_LBPortRule "" "" "" 0 "" "" "" 0 0.

Definition set_lb (acc : LBConfig) (v : Json) : result LBConfig :=
  ms ← struct_members v;
  certs ← field (set_list (set_string "")) (Certs acc) "certs" ms;
  config ← field set_string (LBText acc) "config" ms;
  defaultCert ← field set_string (DefaultCert acc) "default_cert" ms;
  portRules ← field (set_list (set_port_rule zero_port_rule)) (PortRules acc) "port_rules" ms;
  stickiness ← field set_stickiness (StickinessPolicy acc) "stickiness_policy" ms;
  Ok (Build_LBConfig certs config defaultCert portRules stickiness).

Definition decode_service (v : Json) : result Service.t :=
  ms ← struct_members v;
  containers ← list_field decode_container "containers" ms;
  createIndex ← int_field "create_index" ms;
  environmentUUID ← string_field "environment_uuid" ms;
  expose ← strings_field "expose" ms;
  externalIps ← strings_field "external_ips" ms;
  fqdn ← string_field "fqdn" ms;
  healthCheck ← field set_health zero_health "health_check" ms;
  hostname ← string_field "hostname" ms;
  kind ← string_field "kind" ms;
  labels ← labels_field "labels" ms;
  lbConfig ← field set_lb zero_lb "lb_config" ms;
  links ← labels_field "links" ms;
  metadata ← values_field "metadata" ms;
  metadataKind ← string_field "metadata_kind" ms;
  name ← string_field "name" ms;
  ports ← strings_field "ports" ms;
  primaryServiceName ← string_field "primary_service_name" ms;
  scale ← int_field "scale" ms;
  sidekicks ← strings_field "sidekicks" ms;
  stackName ← string_field "stack_name" ms;
  stackUUID ← string_field "stack_uuid" ms;
  state ← string_field "state" ms;
  system ← bool_field "system" ms;
  token ← string_field "token" ms;
  uuid ← string_field "uuid" ms;
  vip ← string_field "vip" ms;
  Ok (Service.Make containers createIndex environmentUUID expose externalIps fqdn healthCheck hostname
        kind labels lbConfig links metadata metadataKind name ports primaryServiceName scale sidekicks
        stackName stackUUID state system token uuid vip).

Definition decode_stack (v : Json) : result Stack.t :=
  ms ← struct_members v;
  environmentName ← string_field "environment_name" ms;
  environmentUUID ← string_field "environment_uuid" ms;
  metadataKind ← string_field "metadata_kind" ms;
  name ← string_field "name" ms;
  services ← list_field decode_service "services" ms;
  system ← bool_field "system" ms;
  uuid ← string_field "uuid" ms;
  Ok (Stack.Make environmentName environmentUUID metadataKind name services system uuid).

Definition decode_list {A} (element : Json → result A) (v : Json) : result (list A) :=
  set_list element [] v.

(** ** The operations *)

Definition bad_json : error := Errorf "metadata response was not valid JSON".

Definition decode {A} (decoder : Json → result A) (client : httpClient) (path : string)
    : mprog (option (result A)) :=
  r ← SendRequest client path;
  Ret (option_map (λ body, text ← body;
         match Unmarshal decoder text with Ok a => Ok a | Err _ => Err bad_json end) r).

Definition GetSelfHost (c : httpClient) := decode decode_host c "/self/host".
Definition GetSelfContainer (c : httpClient) := decode decode_container c "/self/container".
Definition service_by_name (name : string) : string := "/self/stack/services/" +:+ PathEscape name.
Definition GetSelfServiceByName (c : httpClient) (name : string) :=
  decode decode_service c (service_by_name name).
Definition GetSelfService (c : httpClient) := decode decode_service c "/self/service".
Definition GetSelfStack (c : httpClient) := decode decode_stack c "/self/stack".
Definition GetServices (c : httpClient) := decode (decode_list decode_service) c "/services".
Definition GetStacks (c : httpClient) := decode (decode_list decode_stack) c "/stacks".
Definition GetContainers (c : httpClient) := decode (decode_list decode_container) c "/containers".
Definition GetHosts (c : httpClient) := decode (decode_list decode_host) c "/hosts".
Definition GetNetworks (c : httpClient) := decode (decode_list decode_network) c "/networks".

Definition GetServiceContainers (c : httpClient) (serviceName stackName : string)
    : mprog (option (result (list Container.t))) :=
  r ← GetContainers c;
  Ret (option_map (λ cs, containers ← cs;
         Ok (filter (λ x, Container.ServiceName x = serviceName ∧ Container.StackName x = stackName)
               containers)) r).

Definition GetHost (c : httpClient) (uuid : string) : mprog (option (result Host.t)) :=
  r ← GetHosts c;
  Ret (option_map (λ hs, hosts ← hs;
         match filter (λ h, Host.UUID h = uuid) hosts with
         | host :: _ => Ok host
         | [] => Err (Errorf "metadata host was not found")
         end) r).

(** *** Versions *)

Definition bad_version_json : error := Errorf "metadata version response was not valid JSON".
Definition decode_version (bad : error) (body : result string) : result string :=
  text ← body; match Unmarshal (set_string "") text with Ok v => Ok v | Err _ => Err bad end.

Definition GetVersion (c : httpClient) : mprog (option (result string)) :=
  r ← sendRequest c "/version" requestTimeout; Ret (option_map (decode_version bad_json) r).

(** [waitForConnectionContext]: every fuel is one attempt. *)
Definition not_ready {A} (e : error) : result A := wrap_err "metadata service did not become ready" (Err e).

Fixpoint waitForConnection (fuel : nat) (client : httpClient) (delay : Z) : mprog (option (result ())) :=
  match fuel with
  | 0 => Ret None
  | S fuel =>
      e ← mcall1 CtxErr;
      match e with
      | Some e => Ret (Some (not_ready e))
      | None =>
          v ← GetVersion client;
          match v with
          | Some (Ok _) => Ret (Some (Ok ()))
          | _ =>
              e ← mcall1 (Pause delay);
              match e with
              | Some e => Ret (Some (not_ready e))
              | None =>
                  waitForConnection fuel client
                    (if (delay <? 4 * second)%Z then delay * 2 else delay)%Z
              end
          end
      end
  end.

Definition NewClientWithIPAndWait (fuel : nat) (rawURL forwardedFor : string)
    : mprog (option (result httpClient)) :=
  match newHTTPClient rawURL forwardedFor with
  | Err e => Ret (Some (Err e))
  | Ok client =>
      r ← waitForConnection fuel client second;
      Ret (option_map (λ r, _ ← r; Ok client) r)
  end.

(** [values.Encode] sorts the keys. *)
Definition version_path (maxWait : Z) (version : string) : string :=
  "/version?maxWait=" +:+ Itoa (Z.to_N maxWait) +:+ "&value=" +:+ QueryEscape version +:+ "&wait=true".

Definition waitVersion (client : httpClient) (maxWait : Z) (version : string)
    : mprog (option (result string)) :=
  let maxWait := (if maxWait <? 1 then 1 else maxWait)%Z in
  r ← sendRequest client (version_path maxWait version) (wrap64 (wrap64 (maxWait + 10) * second));
  Ret (option_map (decode_version bad_version_json) r).

(** The stream of versions; every fuel is one answer. *)
Fixpoint changes (fuel : nat) (client : httpClient) (intervalSeconds : Z) (version : string)
    : mprog (option (result ())) :=
  match fuel with
  | 0 => Ret None
  | S fuel =>
      r ← waitVersion client intervalSeconds version;
      match r with
      | None => Ret None
      | Some (Err e) => Ret (Some (Err e))
      | Some (Ok next) =>
          if String.eqb next version then changes fuel client intervalSeconds version
          else _ ← mcall1 (Callback next); changes fuel client intervalSeconds next
      end
  end.

Definition OnChangeWithError (fuel : nat) (client : httpClient) (intervalSeconds : Z)
    : mprog (option (result ())) := changes fuel client intervalSeconds "init".

(** The endless loop; every fuel is one stream, which has [fuel] answers itself. *)
Fixpoint streams (fuel answers : nat) (client : httpClient) (intervalSeconds : Z) : mprog () :=
  match fuel with
  | 0 => Ret ()
  | S fuel =>
      r ← OnChangeWithError answers client intervalSeconds;
      match r with
      | None => Ret ()
      | Some _ => _ ← mcall1 (Wait (seconds intervalSeconds)); streams fuel answers client intervalSeconds
      end
  end.

Definition OnChange (fuel answers : nat) (client : httpClient) (intervalSeconds : Z) : mprog () :=
  streams fuel answers client (if intervalSeconds <? 1 then 1 else intervalSeconds)%Z.

(** ** Requests stay with the service *)

Lemma exec_mcall1 c tr r : exec (mcall1 c) tr r ↔ tr = [ev (Σ := http_sig) c r].
Proof.
  unfold mcall1, trigger. rewrite exec_vis. split.
  - by intros (x & tr' & -> & -> & ->).
  - intros ->. by exists r, [].
Qed.

Lemma same_origin_refl u : same_origin u u = true.
Proof. unfold same_origin, EqualFold. by rewrite !String.eqb_refl. Qed.

(** A request the client may send for the service at [origin]. *)
Definition asks (origin : URL) (forwarded : string) (timeout : Z) (e : mevent) : Prop :=
  ∃ q r, e = ev (Σ := http_sig) (RoundTrip q) r ∧ same_origin (ReqURL q) origin = true ∧
    ForwardedFor q = forwarded ∧ ReqTimeout q = timeout.

Lemma CheckRedirect_Ok next via u :
  CheckRedirect next (u :: via) = Ok () → same_origin next u = true ∧ length via < 4.
Proof.
  unfold CheckRedirect. destruct (same_origin next u); [|done]. cbn [negb].
  destruct (5 <=? length (u :: via)) eqn:E; [done|]. apply Nat.leb_gt in E. cbn [length] in E.
  intros _. split; [done|lia].
Qed.

Lemma Do_exec fuel via request origin rest tr r :
  via ++ [ReqURL request] = origin :: rest → same_origin (ReqURL request) origin = true →
  length via < 5 → 5 ≤ length via + fuel → exec (Do fuel via request) tr r →
  is_Some r ∧ length via + length tr ≤ 5 ∧
  Forall (asks origin (ForwardedFor request) (ReqTimeout request)) tr ∧
  (∀ response, r = Some (Ok response) → ∃ q, last tr = Some (ev (Σ := http_sig) (RoundTrip q) (Ok response))) ∧
  (∃ reply tr', tr = ev (Σ := http_sig) (RoundTrip request) reply :: tr').
Proof.
  revert via request rest tr. induction fuel as [|fuel IH]; intros via request rest tr Hvia Ho Hlen Hf; [lia|].
  cbn [Do]. intros (tr1 & tr2 & reply & -> & ->%exec_mcall1 & H)%exec_bind.
  assert (∀ r', tr2 = [] ∧ r = Some r' → (∀ x, r' = Ok x → reply = Ok x) →
    is_Some r ∧ length via + length ([ev (Σ := http_sig) (RoundTrip request) reply] ++ tr2) ≤ 5 ∧
    Forall (asks origin (ForwardedFor request) (ReqTimeout request))
      ([ev (Σ := http_sig) (RoundTrip request) reply] ++ tr2) ∧
    (∀ response, r = Some (Ok response) →
      ∃ q, last ([ev (Σ := http_sig) (RoundTrip request) reply] ++ tr2) =
        Some (ev (Σ := http_sig) (RoundTrip q) (Ok response))) ∧
    (∃ reply' tr', [ev (Σ := http_sig) (RoundTrip request) reply] ++ tr2 =
       ev (Σ := http_sig) (RoundTrip request) reply' :: tr')) as Hend.
  { intros r' [-> ->] Hr'. split; [done|]. split; [cbn; lia|].
    split; [|split; [|by eexists _, _]].
    - constructor; [|done]. by exists request, reply.
    - intros response [= ->]. exists request. by rewrite (Hr' _ eq_refl). }
  destruct reply as [response|e]; [|by eapply Hend; [exact H|]].
  destruct (redirect_of response) as [[next|]|] eqn:Hred;
    [|by eapply Hend; [exact H|]|by eapply Hend; [exact H|naive_solver]].
  destruct (CheckRedirect next (via ++ [ReqURL request])) as [[]|e] eqn:Hchk; [|by eapply Hend; [exact H|]].
  rewrite Hvia in Hchk. apply CheckRedirect_Ok in Hchk as [Hn Hr].
  assert (length via = length rest) as Hlv.
  { apply (f_equal length) in Hvia. rewrite length_app in Hvia. cbn in Hvia. lia. }
  apply (IH _ _ (rest ++ [next])) in H; cbn [ReqURL]; [|by rewrite Hvia|done|rewrite length_app; cbn; lia..].
  destruct H as (Hs & Hl & Ha & Hlast & reply' & tr' & ->).
  rewrite length_app in Hl. cbn [length] in *. split; [done|]. split; [cbn; lia|]. split; [|split].
  - constructor; [|done]. by exists request, (Ok response).
  - intros x Hx. destruct (Hlast x Hx) as [q Hq]. exists q. exact Hq.
  - by eexists _, _.
Qed.

(** The clients [newHTTPClient] makes. *)
Record well_made (client : httpClient) : Prop := {
  wm_err : initErr client = None;
  wm_scheme : Scheme (baseURL client) ∈ ["http"; "https"];
  wm_rest : Opaque (baseURL client) = "" ∧ User (baseURL client) = false ∧
            OmitHost (baseURL client) = false ∧ Fragment (baseURL client) = "" ∧
            RawQuery (baseURL client) = "";
  wm_path : Path (baseURL client) = "" ∨ HasPrefix (Path (baseURL client)) "/" = true;
}.

Lemma TrimRight_prefix c a s : TrimRight (String a s) c = "" ∨ ∃ t, TrimRight (String a s) c = String a t.
Proof.
  cbn. destruct (TrimRight s c) as [|b t]; [|by right; exists (String b t)].
  destruct (Ascii.eqb a c); [by left|by right; exists ""].
Qed.

Lemma newHTTPClient_well_made rawURL fwd client :
  newHTTPClient rawURL fwd = Ok client →
  well_made client ∧ Host (baseURL client) ≠ "" ∧ forwardedFor client = fwd.
Proof.
  unfold newHTTPClient. destruct (Parse rawURL) as [u|] eqn:Hp; [|done].
  destruct (_ || String.eqb (Host u) "") eqn:E1; [done|].
  destruct (User u || _ || _) eqn:E2; [done|].
  destruct (negb (String.eqb fwd "") && _); [done|]. intros [= <-].
  rewrite orb_false_iff, String.eqb_neq in E1. destruct E1 as [Hs Hh].
  rewrite !orb_false_iff, !negb_false_iff, !String.eqb_eq in E2. destruct E2 as [[Hu Hq] Hf].
  apply Parse_facts in Hp as [_ Hfacts]. destruct (Hfacts Hh) as (Ho & Hom & Hpath).
  split; [|done]. constructor; cbn; [done| |done|].
  - rewrite andb_false_iff, !negb_false_iff, !String.eqb_eq in Hs.
    destruct Hs as [-> | ->]; [by left|by right; left].
  - destruct Hpath as [->|[t ->]%HasPrefix_spec]; [by left|]. rewrite app_cons_str, app_nil_l_str.
    destruct (TrimRight_prefix "/" "/" t) as [->|[t' ->]]; [by left|right].
    apply (HasPrefix_self "/").
Qed.

Lemma endpoint_requestable client path target :
  well_made client → plain_host (Host (baseURL client)) = true →
  endpoint client path = Ok target →
  requestable target ∧ Scheme target = Scheme (baseURL client) ∧ Host target = Host (baseURL client) ∧
  ∃ reference, Parse path = Some reference ∧ Path target = Path (baseURL client) +:+ Path reference ∧
    RawQuery target = RawQuery reference ∧ HasPrefix (Path reference) "/" = true ∧
    Forall (λ segment, traversal segment = false) (Split (EscapedPath reference) "/").
Proof.
  intros [He Hs (Ho & Hu & Hom & Hf & _) Hb] Hh. unfold endpoint. rewrite He.
  destruct (Parse path) as [reference|] eqn:Hp; [|done].
  destruct (_ || negb (HasPrefix _ _)) eqn:E1; [done|].
  destruct (existsb traversal _) eqn:E2; [done|]. intros [= <-]. cbn.
  rewrite orb_false_iff, negb_false_iff in E1. destruct E1 as [_ E1].
  apply Parse_facts in Hp as Hfacts. destruct Hfacts as [Hq _].
  unfold clean in Hq. rewrite all_bytes_and, andb_true_iff in Hq.
  split; [|split; [done|split; [done|exists reference; split_and!; try done]]].
  - constructor; cbn; [done|done| |done|done]. right.
    destruct Hb as [->|Hb]; [by rewrite app_nil_l_str|by apply HasPrefix_app_l].
  - apply Forall_forall. intros segment Hin. destruct (traversal segment) eqn:Ht; [|done].
    assert (existsb traversal (Split (EscapedPath reference) "/") = true) as Hx; [|congruence].
    apply existsb_exists. exists segment. split; [by apply list_elem_of_In|done].
Qed.

(** What a request to an accepted target does. *)
Lemma sendRequest_exec client path timeout target tr r :
  well_made client → plain_host (Host (baseURL client)) = true →
  endpoint client path = Ok target → exec (sendRequest client path timeout) tr r →
  ∃ answer reference, r = Some answer ∧ Parse path = Some reference ∧ length tr ≤ 5 ∧
    Forall (asks (baseURL client) (forwardedFor client) timeout) tr ∧
    (∃ q reply tr', tr = ev (Σ := http_sig) (RoundTrip q) reply :: tr' ∧
       Scheme (ReqURL q) = Scheme (baseURL client) ∧ Host (ReqURL q) = Host (baseURL client) ∧
       Path (ReqURL q) = Path (baseURL client) +:+ Path reference ∧
       RawQuery (ReqURL q) = RawQuery reference) ∧
    (∀ body, answer = Ok body →
       (byte_length body ≤ maxResponseBytes)%N ∧
       ∃ q response, last tr = Some (ev (Σ := http_sig) (RoundTrip q) (Ok response)) ∧
         StatusCode response = 200%Z ∧ Body response = body).
Proof.
  intros Hwm Hh Hend.
  destruct (endpoint_requestable _ _ _ Hwm Hh Hend) as (Hreq & Hs & Hho & reference & Hp & Hpath & Hq & _).
  unfold sendRequest. rewrite Hend, (url_text_read_back target Hreq).
  intros (tr1 & tr2 & a & -> & H & [-> ->])%exec_bind. rewrite app_nil_r.
  assert (same_origin (requested target) (requested target) = true) as Hself by apply same_origin_refl.
  apply (Do_exec _ [] _ (requested target) []) in H; [|done|done|cbn; lia|unfold do_fuel; cbn; lia].
  destruct H as ([res ->] & Hlen & Hasks & Hlast & reply0 & tr' & ->). cbn [length] in Hlen.
  exists (finish res), reference. split_and!; try done.
  - eapply Forall_impl; [exact Hasks|]. intros e (q & rr & -> & Ho & Hf & Ht). exists q, rr.
    split_and!; [done| |done|done]. unfold same_origin in *. cbn in Ho. by rewrite <- Hs, <- Hho.
  - by eexists _, _, _.
  - intros body Hb. unfold finish in Hb. destruct res as [response|]; [|done].
    destruct (negb (StatusCode response =? 200)%Z) eqn:Hst; [done|].
    apply negb_false_iff, Z.eqb_eq in Hst. unfold read_body in Hb.
    destruct (maxResponseBytes <? byte_length (Body response))%N eqn:Hl; [done|].
    apply N.ltb_ge in Hl. destruct (BodyFails response); [done|]. injection Hb as <-.
    split; [done|]. destruct (Hlast _ eq_refl) as [q Hlq]. by exists q, response.
Qed.

(** C17: a request asks at most five times, every time a server of the client's
    scheme and host with the same forwarded address and time limit, the first time
    for the base path followed by the path of the reference, whose written segments
    are no parent directories; it always ends, and an answer is the body of the last
    response, which had status 200 and at most 32 MiB. *)
Theorem request_confined rawURL fwd client path timeout tr r :
  newHTTPClient rawURL fwd = Ok client → plain_host (Host (baseURL client)) = true →
  exec (sendRequest client path timeout) tr r →
  ∃ answer, r = Some answer ∧ length tr ≤ 5 ∧
    Forall (asks (baseURL client) fwd timeout) tr ∧
    (∀ q reply tr', tr = ev (Σ := http_sig) (RoundTrip q) reply :: tr' →
       ∃ reference, Parse path = Some reference ∧
         Scheme (ReqURL q) = Scheme (baseURL client) ∧ Host (ReqURL q) = Host (baseURL client) ∧
         Path (ReqURL q) = Path (baseURL client) +:+ Path reference ∧
         RawQuery (ReqURL q) = RawQuery reference ∧
         Forall (λ segment, traversal segment = false) (Split (EscapedPath reference) "/")) ∧
    (∀ body, answer = Ok body →
       (byte_length body ≤ maxResponseBytes)%N ∧
       ∃ q response, last tr = Some (ev (Σ := http_sig) (RoundTrip q) (Ok response)) ∧
         StatusCode response = 200%Z ∧ Body response = body).
Proof.
  intros Hc Hh H. apply newHTTPClient_well_made in Hc as (Hwm & _ & <-).
  destruct (endpoint client path) as [target|e] eqn:Hend.
  2:{ unfold sendRequest in H. rewrite Hend in H. destruct H as [-> ->]. exists (Err e).
      split_and!; [done|cbn; lia|done|done|done]. }
  destruct (sendRequest_exec _ _ _ _ _ _ Hwm Hh Hend H)
    as (answer & reference & -> & Hp & Hlen & Hasks & (q0 & reply0 & tr' & -> & Hq0) & Hok).
  exists answer. split_and!; [done|exact Hlen|done| |done].
  intros q reply tr'' [= <- _ _]. exists reference.
  destruct (endpoint_requestable _ _ _ Hwm Hh Hend) as (_ & _ & _ & reference' & Hp' & _ & _ & _ & Hseg).
  rewrite Hp in Hp'. injection Hp' as <-. split; [done|]. destruct Hq0 as (? & ? & ? & ?). by split_and!.
Qed.

(** A service that answers the version at a second place. *)
Definition moved_url : URL :=
  match Parse "http://METADATA/v1/current" with Some u => u | None => url_head "" false "" false false "" end.
Definition moving_service : env http_sig := λ _ c,
  match c return mreply c with
  | RoundTrip q =>
      if String.eqb (Path (ReqURL q)) "/v1/current"
      then Ok {| StatusCode := 200; Location := None; Body := dquote +:+ "7" +:+ dquote; BodyFails := false |}
      else Ok {| StatusCode := 302; Location := Some (Some moved_url); Body := ""; BodyFails := false |}
  | CtxErr | Pause _ => None
  | Callback _ | Wait _ => ()
  end.
Definition demo_client : httpClient := NewClient "http://metadata/v1/".
Definition moved_request := run moving_service [] (sendRequest demo_client "/version" requestTimeout).

Lemma request_confined_witness :
  moved_request.2 = Some (Ok (dquote +:+ "7" +:+ dquote)) ∧ length moved_request.1 = 2 ∧
  Forall (asks (baseURL demo_client) "" requestTimeout) moved_request.1.
Proof.
  pose proof (run_exec moving_service [] (sendRequest demo_client "/version" requestTimeout)) as H.
  assert (newHTTPClient "http://metadata/v1/" "" = Ok demo_client) as Hc by (vm_compute; reflexivity).
  assert (plain_host (Host (baseURL demo_client)) = true) as Hh by (vm_compute; reflexivity).
  split; [vm_compute; reflexivity|]. split; [vm_compute; reflexivity|].
  destruct (request_confined _ _ _ _ _ _ _ Hc Hh H) as (answer & _ & _ & Hasks & _). exact Hasks.
Defined.

(** ** A service by name *)

Lemma Split_segment p s : free_of "/" s = true → Split (p +:+ String "/" s) "/" = Split p "/" ++ [s].
Proof.
  intros Hs. induction p as [|a p IH]; rewrite ?app_cons_str, ?app_nil_l_str; cbn.
  - by rewrite Split_free.
  - destruct (Ascii.eqb a "/"); [by rewrite IH|]. rewrite IH.
    pose proof (Split_not_nil p "/") as Hne. by destruct (Split p "/").
Qed.

(** An escaped segment is no parent directory unless it was one. *)
Lemma PathEscape_dots name : PathEscape name = ".." ↔ name = "..".
Proof.
  split; [|by intros ->]. intros H. pose proof (unescape_path encodePathSegment name (or_intror eq_refl)) as Hu.
  unfold PathEscape in H. rewrite H in Hu. by injection Hu as <-.
Qed.

Lemma PathEscape_unfolded name : EqualFold (PathEscape name) "%2e%2e" = false.
Proof.
  unfold EqualFold. apply String.eqb_neq. change (fold_text "%2e%2e") with "%2e%2e".
  destruct name as [|c name]; [done|]. unfold PathEscape. cbn [escape].
  generalize (escape encodePathSegment name). intros t.
  destruct c as [[] [] [] [] [] [] [] []]; cbn; intros H; discriminate H.
Qed.

Definition with_path (client : httpClient) (path : string) : URL :=
  {| Scheme := Scheme (baseURL client); Opaque := Opaque (baseURL client);
     User := User (baseURL client); Host := Host (baseURL client); Path := Path (baseURL client) +:+ path;
     RawPath := ""; OmitHost := OmitHost (baseURL client); ForceQuery := ForceQuery (baseURL client);
     RawQuery := ""; Fragment := Fragment (baseURL client) |}.

(** A reference of our own: a path of clean bytes. *)
Lemma Parse_reference p :
  all_bytes clean p = true → free_of "?" p = true → HasPrefix p "/" = true → HasPrefix p "//" = false →
  Parse p = setPath (url_head "" false "" false false "") p.
Proof.
  intros Hc Hq Hs Hss. unfold clean in Hc. rewrite all_bytes_and, andb_true_iff in Hc.
  destruct Hc as [Hf Hn]. unfold Parse. rewrite (Cut_free p "#") by exact Hf. unfold parse_text.
  rewrite any_byte_ctl by done. apply HasPrefix_spec in Hs as [t ->].
  assert (String.eqb ("/" +:+ t) "*" = false) as -> by done.
  assert (getScheme ("/" +:+ t) = Some ("", "/" +:+ t)) as ->.
  { unfold getScheme. rewrite app_cons_str, app_nil_l_str. cbn.
    by destruct (Cut t ":") as [[b a] [|]]. }
  cbn [mbind option_bind]. change (ToLower "") with "". rewrite Cut_free by done.
  rewrite (HasPrefix_self "/"). cbn [andb]. unfold parse_hier. rewrite Hss, andb_false_r.
  cbn [negb String.eqb andb]. by destruct (setPath _ _).
Qed.

Lemma unescape_literal s t :
  free_of "%" s = true →
  unescape encodePath (s +:+ t) = String.append s <$> unescape encodePath t.
Proof.
  unfold free_of. induction s as [|c s IH]; cbn [all_bytes]; rewrite ?app_nil_l_str, ?app_cons_str.
  - intros _. by destruct (unescape encodePath t).
  - rewrite andb_true_iff, negb_true_iff. intros [Hc Hs]. cbn [unescape]. rewrite Hc, IH by done.
    rewrite bool_decide_false by done. rewrite andb_false_r. cbn [host_mode andb].
    by destruct (unescape encodePath t).
Qed.

(** The path as it is written is its own escaped form. *)
Lemma EscapedPath_own p path :
  all_bytes (encoded_byte encodePath) p = true → unescape encodePath p = Some path → path ≠ "*" →
  ∀ u, setPath (url_head "" false "" false false "") p = Some u → EscapedPath u = p.
Proof.
  intros Hb Hu Hs u. unfold setPath. rewrite Hu. cbn [mbind option_bind]. intros [= <-].
  unfold EscapedPath. cbn. destruct (String.eqb_spec p (escape encodePath path)) as [->|Hne].
  - cbn. apply String.eqb_neq in Hs. by rewrite Hs.
  - destruct (String.eqb_spec p "") as [->|]; [injection Hu as <-; done|]. cbn.
    rewrite Hb. cbn. by rewrite bool_decide_true.
Qed.

(** A service is asked for under its decoded name: of all names only [..] is
    refused, and for any other one the request goes to the path of the services
    followed by the name, where a slash of the name separates segments like any other
    slash (the escaping of the name is lost when the raw path of the target is
    cleared). *)
Lemma service_by_name_path client name :
  well_made client →
  endpoint client (service_by_name name) =
  if decide (name = "..") then Err (Errorf "metadata request path contains traversal")
  else Ok (with_path client ("/self/stack/services/" +:+ name)).
Proof.
  intros Hwm. unfold endpoint. rewrite (wm_err _ Hwm). unfold service_by_name.
  destruct (escaped_segment_bytes name) as (Hf & Hq & Hsl & Hn & Hb). fold (PathEscape name) in *.
  set (p := "/self/stack/services/" +:+ PathEscape name).
  assert (all_bytes clean p = true ∧ free_of "?" p = true ∧ all_bytes (encoded_byte encodePath) p = true)
    as (Hc & Hq' & Hb').
  { unfold free_of in *. unfold p, clean. rewrite !all_bytes_app, !all_bytes_and, Hf, Hn, Hq, Hb. done. }
  assert (unescape encodePath p = Some ("/self/stack/services/" +:+ name)) as Hu.
  { unfold p, PathEscape. by rewrite unescape_literal, unescape_path by (done || by right). }
  rewrite Parse_reference; [|done|done|apply (HasPrefix_self "/")|reflexivity].
  destruct (setPath (url_head "" false "" false false "") p) as [u|] eqn:Hset.
  2:{ unfold setPath in Hset. by rewrite Hu in Hset. }
  assert (EscapedPath u = p) as Hep by (eapply EscapedPath_own; [exact Hb'|exact Hu|done|exact Hset]).
  unfold setPath in Hset. rewrite Hu in Hset. injection Hset as <-. rewrite Hep. unfold p.
  change ("/self/stack/services/" +:+ PathEscape name) with
    ("/self/stack/services" +:+ String "/" (PathEscape name)).
  rewrite Split_segment by done. cbn -[PathEscape EqualFold].
  unfold traversal at 1. rewrite PathEscape_unfolded, !orb_false_r.
  destruct (decide (name = "..")) as [->|Hne]; [done|].
  assert (String.eqb (PathEscape name) ".." = false) as ->.
  { apply String.eqb_neq. by rewrite PathEscape_dots. }
  done.
Qed.

(** Any resource of the service, and paths outside its base, are in reach of a
    service name. *)
Example service_by_name_escapes :
  URL_String <$> (match endpoint demo_client (service_by_name "../../../../secrets") with Ok u => Some u | Err _ => None end) =
  Some "http://metadata/v1/self/stack/services/../../../../secrets" ∧
  URL_String <$> (match endpoint demo_client "/%2e./secrets" with Ok u => Some u | Err _ => None end) =
  Some "http://metadata/v1/../secrets".
Proof. vm_compute. by split. Qed.

Lemma service_by_name_path_witness :
  endpoint demo_client (service_by_name "web/../db") =
  Ok (with_path demo_client "/self/stack/services/web/../db").
Proof.
  assert (well_made demo_client) as Hwm.
  { constructor; [reflexivity|left|repeat split|right; reflexivity]. }
  exact (service_by_name_path demo_client "web/../db" Hwm).
Defined.

(** ** Waiting for the service *)

(** The pauses of a trace. *)
Definition pauses (tr : list mevent) : list Z :=
  omap (λ e : mevent, match projT1 e with Pause d => Some d | _ => None end) tr.
Definition paused (tr : list mevent) : Z := foldr Z.add 0%Z (pauses tr).

Lemma pauses_app tr1 tr2 : pauses (tr1 ++ tr2) = pauses tr1 ++ pauses tr2.
Proof. apply omap_app. Qed.
Lemma paused_app tr1 tr2 : paused (tr1 ++ tr2) = (paused tr1 + paused tr2)%Z.
Proof.
  unfold paused. rewrite pauses_app, foldr_app. generalize (pauses tr2). intros l.
  induction (pauses tr1) as [|d ds IH]; cbn; [lia|]. lia.
Qed.

Definition next_delay (delay : Z) : Z := (if delay <? 4 * second then delay * 2 else delay)%Z.
Fixpoint backoff (n : nat) (delay : Z) : list Z :=
  match n with 0 => [] | S n => delay :: backoff n (next_delay delay) end.

(** The context ends at the latest when the pauses add up to the limit. *)
Definition expires (limit : Z) (h tr : list mevent) : Prop :=
  ∀ tr1 e tr2, tr = tr1 ++ ev (Σ := http_sig) CtxErr e :: tr2 → (limit ≤ paused (h ++ tr1))%Z → e ≠ None.

Lemma Do_requests fuel via request :
  calls_in (Σ := http_sig) (λ c, match c with RoundTrip _ => True | _ => False end) (Do fuel via request).
Proof.
  revert via request. induction fuel as [|fuel IH]; intros via request; cbn [Do]; [done|].
  apply (calls_in_bind (Σ := http_sig)); [done|]. intros reply.
  by repeat (case_match; try done).
Qed.

Lemma sendRequest_pauses client path timeout tr r :
  exec (sendRequest client path timeout) tr r → pauses tr = [].
Proof.
  unfold sendRequest. destruct (endpoint client path) as [target|e]; [|by intros [-> _]].
  destruct (Parse _) as [url|]; [|by intros [-> _]].
  intros (tr1 & tr2 & a & -> & H & [-> _])%exec_bind. rewrite app_nil_r.
  apply (calls_in_exec (Σ := http_sig) _ _ _ _ (Do_requests _ _ _)) in H.
  induction H as [|[c x] tr Hc _ IH]; [done|]. by destruct c.
Qed.

Lemma GetVersion_pauses client tr r : exec (GetVersion client) tr r → pauses tr = [].
Proof.
  unfold GetVersion. intros (tr1 & tr2 & a & -> & H & [-> _])%exec_bind. rewrite app_nil_r.
  by apply sendRequest_pauses in H.
Qed.

Lemma waitForConnection_exec n m client delay limit h tr r :
  (limit ≤ paused h + foldr Z.add 0 (backoff n delay))%Z →
  exec (waitForConnection (S n + m) client delay) tr r → expires limit h tr →
  ∃ answer, r = Some answer ∧ pauses tr `prefix_of` backoff n delay ∧
    (answer = Ok () → ∃ tr1 tr2 v, tr = tr1 ++ tr2 ∧ exec (GetVersion client) tr2 (Some (Ok v))).
Proof.
  revert delay h tr. induction n as [|n IH]; intros delay h tr Hlim; cbn [Nat.add waitForConnection];
    intros (tr1 & tr2 & e & -> & ->%exec_mcall1 & H)%exec_bind Hexp.
  - assert (e ≠ None) as He.
    { apply (Hexp [] e tr2); [done|]. rewrite app_nil_r. cbn in Hlim. lia. }
    destruct e as [e|]; [|done]. destruct H as [-> ->]. exists (not_ready e). by split_and!.
  - destruct e as [e|]; [destruct H as [-> ->]; exists (not_ready e); split_and!; [done|apply prefix_nil|done]|].
    apply exec_bind in H as (tr3 & tr4 & v & -> & Hv & H).
    pose proof (GetVersion_pauses _ _ _ Hv) as Hvp.
    assert (∀ d, exec (e ← mcall1 (Pause delay);
                  match e with
                  | Some e => Ret (Some (not_ready e))
                  | None => waitForConnection (S n + m) client d
                  end) tr4 r → d = next_delay delay →
      ∃ answer, r = Some answer ∧
        pauses ([ev (Σ := http_sig) CtxErr None] ++ tr3 ++ tr4) `prefix_of` backoff (S n) delay ∧
        (answer = Ok () → ∃ tr1 tr2 v, [ev (Σ := http_sig) CtxErr None] ++ tr3 ++ tr4 = tr1 ++ tr2 ∧
           exec (GetVersion client) tr2 (Some (Ok v)))) as Hpause.
    { clear H. intros d (tr5 & tr6 & e & -> & ->%exec_mcall1 & H)%exec_bind ->.
      rewrite !pauses_app, Hvp. cbn [app].
      destruct e as [e|].
      { destruct H as [-> ->]. exists (not_ready e). split_and!; [done| |done].
        cbn. apply prefix_cons. apply prefix_nil. }
      edestruct (IH (next_delay delay) (h ++ [ev (Σ := http_sig) CtxErr None] ++ tr3
                   ++ [ev (Σ := http_sig) (Pause delay) None]) tr6) as (answer & -> & Hpre & Hans).
      - rewrite !paused_app. unfold paused at 2 3 4. rewrite Hvp. cbn in *. lia.
      - exact H.
      - intros t1 e t2 -> Hle. apply (Hexp ([ev (Σ := http_sig) CtxErr None] ++ tr3
          ++ [ev (Σ := http_sig) (Pause delay) None] ++ t1) e t2); [by rewrite <- !app_assoc|].
        by rewrite <- !app_assoc in Hle.
      - exists answer. split_and!; [done|by apply prefix_cons|].
        intros Ha. destruct (Hans Ha) as (t1 & t2 & v' & -> & Hv').
        exists ([ev (Σ := http_sig) CtxErr None] ++ tr3 ++ [ev (Σ := http_sig) (Pause delay) None] ++ t1), t2, v'.
        by rewrite <- !app_assoc. }
    destruct v as [[v|e]|]; [|exact (Hpause _ H eq_refl)..].
    destruct H as [-> ->]. exists (Ok ()). rewrite app_nil_r, pauses_app, Hvp. split_and!; [done|cbn [app]; apply (prefix_nil (backoff (S n) delay))|].
    intros _. by exists [ev (Σ := http_sig) CtxErr None], tr3, v.
Qed.

(** C38: with a deadline of 20 seconds the wait for the service always ends: eight
    rounds are enough, the pauses between them are 1, 2, 4, 4, 4, 4 and 4 seconds as
    far as they come, and it ends well only after a version was read. *)
Theorem connection_wait_ends fuel client tr r :
  8 ≤ fuel → exec (waitForConnection fuel client second) tr r → expires connectionDeadline [] tr →
  ∃ answer, r = Some answer ∧ pauses tr `prefix_of` (λ n, (n * second)%Z) <$> [1; 2; 4; 4; 4; 4; 4]%Z ∧
    (answer = Ok () → ∃ tr1 tr2 v, tr = tr1 ++ tr2 ∧ exec (GetVersion client) tr2 (Some (Ok v))).
Proof.
  intros Hf. replace fuel with (8 + (fuel - 8)) by lia. intros H Hexp.
  apply (waitForConnection_exec 7 _ _ _ connectionDeadline [] tr r) in H; [|vm_compute; done|done].
  exact H.
Qed.

(** A service that never answers, and a context that ends after 20 seconds. *)
Definition silent_service : env http_sig := λ h c,
  match c return mreply c with
  | RoundTrip _ => Err (Errorf "connection refused")
  | CtxErr => if (connectionDeadline <=? paused h)%Z then Some (ErrSentinel "context.DeadlineExceeded") else None
  | Pause _ => None
  | Callback _ | Wait _ => ()
  end.
Definition silent_wait := run silent_service [] (waitForConnection 8 demo_client second).

Definition ctx_reply (e : mevent) : option (option error) :=
  match e with existT CtxErr x => Some x | _ => None end.

Lemma silent_run_expires {A} (p : mprog A) h :
  expires connectionDeadline h (run silent_service h p).1.
Proof.
  revert h. induction p as [a|c k IH]; intros h tr1 e tr2; cbn [run fst]; [by destruct tr1|].
  destruct tr1 as [|e1 tr1]; intros Heq Hle.
  - apply (f_equal (λ l, x ← head l; ctx_reply x)) in Heq. rewrite app_nil_r in Hle. cbn in Heq.
    destruct c; try done. cbn in Heq. injection Heq as <-. apply Z.leb_le in Hle. by rewrite Hle.
  - injection Heq as <- Ht. apply (IH _ _ tr1 e tr2 Ht). by rewrite <- app_assoc.
Qed.

Lemma connection_wait_ends_witness :
  (∃ e, silent_wait.2 = Some (Err e)) ∧ length (pauses silent_wait.1) = 7 ∧
  ∃ answer, silent_wait.2 = Some answer ∧
    pauses silent_wait.1 `prefix_of` (λ n, (n * second)%Z) <$> [1; 2; 4; 4; 4; 4; 4]%Z.
Proof.
  split; [eexists; vm_compute; reflexivity|]. split; [vm_compute; reflexivity|].
  pose proof (run_exec silent_service [] (waitForConnection 8 demo_client second)) as H.
  pose proof (silent_run_expires (waitForConnection 8 demo_client second) []) as Hexp.
  assert (8 ≤ 8) as Hf by lia.
  destruct (connection_wait_ends 8 demo_client _ _ Hf H Hexp) as (answer & Ha & Hp & _).
  exists answer. split; [exact Ha|exact Hp].
Defined.

(** ** The stream of versions *)

(** *** What a wait for a version asks *)

(** The pairs of a query, as a server reads them. *)
Definition query_pair (text : string) : option (string * string) :=
  let '(k, v, _) := Cut text "=" in
  k ← unescape encodeQueryComponent k; v ← unescape encodeQueryComponent v; Some (k, v).
Definition ParseQuery (query : string) : option (list (string * string)) :=
  mapM query_pair (Split query "&").

Lemma unescape_query s : unescape encodeQueryComponent (QueryEscape s) = Some s.
Proof.
  unfold QueryEscape. induction s as [|c s IH]; [done|]. cbn [escape].
  assert (∀ t, unescape encodeQueryComponent (escape_char encodeQueryComponent c +:+ t) =
    String c <$> unescape encodeQueryComponent t) as -> by (destruct c as [[] [] [] [] [] [] [] []]; done).
  by rewrite IH.
Qed.

Lemma query_pair_escaped k v :
  free_of "=" k = true → unescape encodeQueryComponent k = Some k →
  query_pair (k +:+ String "=" (QueryEscape v)) = Some (k, v).
Proof. intros Hk Hu. unfold query_pair. rewrite Cut_at, Hu, unescape_query by done. done. Qed.

Lemma digits_escaped s : all_bytes is_digit s = true → QueryEscape s = s.
Proof.
  intros H. apply escape_plain. eapply all_bytes_weaken; [|exact H].
  intros c. unfold shouldEscape, alnum. intros ->. by rewrite orb_true_r.
Qed.

(** The query of the wait for a version. *)
Definition version_query (maxWait : Z) (version : string) : string :=
  Join ["maxWait" +:+ String "=" (QueryEscape (Itoa (Z.to_N maxWait)));
        "value" +:+ String "=" (QueryEscape version); "wait" +:+ String "=" (QueryEscape "true")] "&".

Lemma version_path_query maxWait version :
  version_path maxWait version = "/version" +:+ String "?" (version_query maxWait version).
Proof.
  unfold version_path, version_query. rewrite (digits_escaped (Itoa _)) by apply Itoa_digits.
  cbn [Join]. by rewrite ?app_cons_str, ?app_assoc_str, ?app_cons_str.
Qed.

Lemma ParseQuery_version maxWait version :
  ParseQuery (version_query maxWait version) =
    Some [("maxWait", Itoa (Z.to_N maxWait)); ("value", version); ("wait", "true")].
Proof.
  unfold ParseQuery, version_query. rewrite Split_Join; [|done|].
  - cbn [mapM]. by rewrite !query_pair_escaped by reflexivity.
  - assert (∀ k v, free_of "&" k = true → free_of "&" (k +:+ String "=" (QueryEscape v)) = true) as Hpair.
    { intros k v Hk. unfold free_of in *. rewrite all_bytes_app, Hk. cbn. unfold QueryEscape.
      refine (all_bytes_escape (λ a, negb (Ascii.eqb a "&")) _ _ _ _ (upper_hex_all (λ a, negb (Ascii.eqb a "&")) _) _);
        [reflexivity..|intros c; every_byte c]. }
    repeat apply Forall_cons_2; [by apply Hpair..|apply Forall_nil_2].
Qed.

Definition version_reference (query : string) : URL :=
  {| Scheme := ""; Opaque := ""; User := false; Host := ""; Path := "/version"; RawPath := ""; OmitHost := false;
     ForceQuery := String.eqb query ""; RawQuery := query; Fragment := "" |}.

Lemma version_query_bytes maxWait version :
  free_of "#" (version_query maxWait version) = true ∧ all_bytes not_ctl (version_query maxWait version) = true.
Proof.
  assert (∀ v, free_of "#" (QueryEscape v) = true ∧ all_bytes not_ctl (QueryEscape v) = true) as H
    by (intros v; apply escaped_query_bytes).
  destruct (H version) as [Hv1 Hv2], (H (Itoa (Z.to_N maxWait))) as [Hn1 Hn2].
  unfold version_query, free_of in *. cbn [Join].
  split; repeat (rewrite !all_bytes_app; cbn [all_bytes]); by rewrite ?Hv1, ?Hv2, ?Hn1, ?Hn2.
Qed.

Lemma Parse_version query :
  free_of "#" query = true → all_bytes not_ctl query = true →
  Parse ("/version" +:+ String "?" query) = Some (version_reference query).
Proof.
  intros Hf Hn. unfold Parse. rewrite Cut_free.
  2:{ unfold free_of in *. rewrite all_bytes_app. exact Hf. }
  unfold parse_text. rewrite any_byte_ctl by (rewrite all_bytes_app; exact Hn).
  assert (getScheme ("/version" +:+ String "?" query) = Some ("", "/version" +:+ String "?" query)) as Hg.
  { unfold getScheme. rewrite app_cons_str. cbn [Cut Ascii.eqb Bool.eqb].
    by destruct (Cut _ ":") as [[b a] [|]]. }
  assert (String.eqb ("/version" +:+ String "?" query) "*" = false) as -> by done. rewrite Hg. cbn [mbind option_bind].
  change (ToLower "") with "". rewrite Cut_at by done. reflexivity.
Qed.

Lemma version_endpoint client maxWait version :
  well_made client →
  Parse (version_path maxWait version) = Some (version_reference (version_query maxWait version)) ∧
  ∃ target, endpoint client (version_path maxWait version) = Ok target.
Proof.
  intros Hwm. destruct (version_query_bytes maxWait version) as [Hf Hn].
  unfold endpoint. rewrite (wm_err _ Hwm), version_path_query, Parse_version by done.
  split; [done|]. by eexists.
Qed.

(** A wait asks the service for its version with the limit in seconds and the version
    that is known, with ten more seconds for the exchange. *)
Definition wait_timeout (interval : Z) : Z := wrap64 (wrap64 (Z.max 1 interval + 10) * second).

Definition asked (client : httpClient) (interval : Z) (version : string) (seg : list mevent) : Prop :=
  length seg ≤ 5 ∧ Forall (asks (baseURL client) (forwardedFor client) (wait_timeout interval)) seg ∧
  ∃ q reply rest, seg = ev (Σ := http_sig) (RoundTrip q) reply :: rest ∧
    Scheme (ReqURL q) = Scheme (baseURL client) ∧ Host (ReqURL q) = Host (baseURL client) ∧
    Path (ReqURL q) = Path (baseURL client) +:+ "/version" ∧
    ParseQuery (RawQuery (ReqURL q)) =
      Some [("maxWait", Itoa (Z.to_N (Z.max 1 interval))); ("value", version); ("wait", "true")].

(** The version is the JSON text of the last response, which had status 200. *)
Definition given (seg : list mevent) (next : string) : Prop :=
  ∃ q response, last seg = Some (ev (Σ := http_sig) (RoundTrip q) (Ok response)) ∧
    StatusCode response = 200%Z ∧ Unmarshal (set_string "") (Body response) = Ok next.

Lemma waitVersion_asked client interval version tr r :
  well_made client → plain_host (Host (baseURL client)) = true →
  exec (waitVersion client interval version) tr r →
  asked client interval version tr ∧ ∀ next, r = Some (Ok next) → given tr next.
Proof.
  intros Hwm Hh. unfold waitVersion. replace (if interval <? 1 then 1 else interval)%Z with (Z.max 1 interval)
    by (destruct (Z.ltb_spec interval 1); lia).
  intros (tr1 & tr2 & a & -> & H & [-> ->])%exec_bind. rewrite app_nil_r.
  destruct (version_endpoint client (Z.max 1 interval) version Hwm) as [Hparse [target Ht]].
  destruct (sendRequest_exec _ _ _ _ _ _ Hwm Hh Ht H)
    as (answer & reference & -> & Hp & Hlen & Hasks & (q & reply & rest & -> & Hs & Hho & Hpath & Hq) & Hok).
  rewrite Hparse in Hp. injection Hp as <-. split.
  - split; [done|]. split; [done|]. exists q, reply, rest. split_and!; [done..|].
    rewrite Hq. apply ParseQuery_version.
  - intros next [= Hd]. unfold decode_version in Hd. apply result_bind_Ok in Hd as (text & -> & Hu).
    destruct (Hok _ eq_refl) as (_ & q' & response & Hl & Hst & <-). exists q', response.
    split; [done|]. split; [done|]. by destruct (Unmarshal _ (Body response)).
Qed.

(** *** The rounds *)

(** The versions of a sequence of answers that differ from the one before. *)
Fixpoint changed (version : string) (answers : list string) : list string :=
  match answers with
  | [] => []
  | next :: answers =>
      if String.eqb next version then changed version answers else next :: changed next answers
  end.

(** Each round asks with the version of the round before it. *)
Fixpoint rounds_from (client : httpClient) (interval : Z) (version : string)
    (rounds : list (list mevent * string)) : Prop :=
  match rounds with
  | [] => True
  | (seg, next) :: rounds =>
      asked client interval version seg ∧ given seg next ∧ rounds_from client interval next rounds
  end.

Definition published (tr : list mevent) : list string :=
  omap (λ e : mevent, match projT1 e with Callback v => Some v | _ => None end) tr.
Lemma published_app tr1 tr2 : published (tr1 ++ tr2) = published tr1 ++ published tr2.
Proof. apply omap_app. Qed.

Lemma asked_publishes client interval version tr : asked client interval version tr → published tr = [].
Proof.
  intros (_ & H & _). induction H as [|e tr (q & r & -> & _) _ IH]; [done|exact IH].
Qed.

Lemma waitVersion_answers client interval version tr r :
  exec (waitVersion client interval version) tr r → is_Some r.
Proof.
  unfold waitVersion, sendRequest. intros (tr1 & tr2 & a & -> & H & [-> ->])%exec_bind.
  assert (is_Some a) as [x ->]; [|by eexists].
  destruct (endpoint _ _) as [target|e]; [|by destruct H as [_ ->]].
  destruct (Parse _) as [url|]; [|by destruct H as [_ ->]].
  apply exec_bind in H as (tr3 & tr4 & x & -> & H & [-> ->]).
  apply (Do_exec _ [] _ url []) in H; [|done|apply same_origin_refl|cbn; lia|unfold do_fuel; cbn; lia].
  destruct H as [[y ->] _]. by eexists.
Qed.

Definition last_version (version : string) (rounds : list (list mevent * string)) : string :=
  default version (last rounds.*2).

(** The trace of the rounds: a changed version is published right after its answer. *)
Fixpoint woven (version : string) (rounds : list (list mevent * string)) : list mevent :=
  match rounds with
  | [] => []
  | (seg, next) :: rounds =>
      seg ++ (if String.eqb next version then [] else [ev (Σ := http_sig) (Callback next) ()])
      ++ woven next rounds
  end.

Lemma last_version_cons version seg next rounds :
  last_version version ((seg, next) :: rounds) = last_version next rounds.
Proof.
  unfold last_version. cbn. destruct rounds as [|[s n] rounds]; [done|]. cbn [fmap list_fmap snd].
  rewrite last_cons_cons. by destruct (last (n :: _)) eqn:E; [|apply last_None in E].
Qed.

Lemma woven_published client interval version rounds :
  rounds_from client interval version rounds →
  published (woven version rounds) = changed version rounds.*2.
Proof.
  revert version. induction rounds as [|[seg next] rounds IH]; intros version; [done|].
  cbn [rounds_from woven fmap list_fmap snd changed]. intros (Hs & _ & Hr).
  rewrite !published_app, (asked_publishes _ _ _ _ Hs), (IH _ Hr).
  destruct (String.eqb_spec next version) as [->|]; done.
Qed.

Lemma changes_exec fuel client interval version tr r :
  well_made client → plain_host (Host (baseURL client)) = true →
  exec (changes fuel client interval version) tr r →
  ∃ rounds tail, tr = woven version rounds ++ tail ∧ rounds_from client interval version rounds ∧
    ((r = None ∧ tail = [] ∧ length rounds = fuel) ∨
     ∃ e, r = Some (Err e) ∧ length rounds < fuel ∧
       asked client interval (last_version version rounds) tail).
Proof.
  intros Hwm Hh. revert version tr. induction fuel as [|fuel IH]; intros version tr; cbn [changes].
  { intros [-> ->]. exists [], []. split_and!; [done..|]. by left. }
  intros (tr1 & tr2 & a & -> & Hw & H)%exec_bind.
  destruct (waitVersion_asked _ _ _ _ _ Hwm Hh Hw) as [Hasked Hgiven].
  destruct (waitVersion_answers _ _ _ _ _ Hw) as [[next|e] ->].
  2:{ destruct H as [-> ->]. exists [], tr1. split_and!; [by rewrite app_nil_r|done|].
      right. exists e. split_and!; [done|cbn; lia|done]. }
  assert (∃ tr3, tr2 = (if String.eqb next version then [] else [ev (Σ := http_sig) (Callback next) ()]) ++ tr3
            ∧ exec (changes fuel client interval next) tr3 r) as (tr3 & -> & Hc).
  { destruct (String.eqb next version) eqn:E; [apply String.eqb_eq in E as ->; by exists tr2|].
    apply exec_bind in H as (t1 & t2 & [] & -> & ->%exec_mcall1 & H). by exists t2. }
  destruct (IH _ _ Hc) as (rounds & tail & -> & Hr & Hend). exists ((tr1, next) :: rounds), tail.
  split; [by cbn [woven]; rewrite !app_assoc|]. split; [cbn [rounds_from]; auto|].
  rewrite last_version_cons. cbn [length].
  destruct Hend as [(-> & -> & <-)|(e & -> & Hl & He)]; [by left|]. right. exists e. split_and!; [done|lia|done].
Qed.

(** C39: every request of a stream asks the configured service to wait for another
    version than the last one the stream was given, "init" at the start; an answer is
    the text of a response of status 200; the stream publishes every version that
    differs from the one before right after its answer and nothing else, and ends
    only with the error of a request. *)
Theorem changes_published rawURL fwd fuel client interval tr r :
  newHTTPClient rawURL fwd = Ok client → plain_host (Host (baseURL client)) = true →
  exec (OnChangeWithError fuel client interval) tr r →
  ∃ rounds tail, tr = woven "init" rounds ++ tail ∧ rounds_from client interval "init" rounds ∧
    published tr = changed "init" rounds.*2 ∧
    ((r = None ∧ tail = [] ∧ length rounds = fuel) ∨
     ∃ e, r = Some (Err e) ∧ length rounds < fuel ∧ asked client interval (last_version "init" rounds) tail).
Proof.
  intros (Hwm & _ & _)%newHTTPClient_well_made Hh (rounds & tail & -> & Hr & Hend)%changes_exec; [|done..].
  exists rounds, tail. split; [done|]. split; [done|]. split; [|done].
  rewrite published_app, (woven_published _ _ _ _ Hr).
  assert (published tail = []) as ->; [|by rewrite app_nil_r].
  destruct Hend as [(_ & -> & _)|(e & _ & _ & H)]; [done|]. by eapply asked_publishes.
Qed.

(** A service whose version changes once. *)
Definition two_versions : env http_sig := λ h c,
  match c return mreply c with
  | RoundTrip q =>
      if length h <? 1
      then Ok {| StatusCode := 200; Location := None; Body := dquote +:+ "1" +:+ dquote; BodyFails := false |}
      else if length h <? 3
      then Ok {| StatusCode := 200; Location := None; Body := dquote +:+ "2" +:+ dquote; BodyFails := false |}
      else Err (Errorf "connection refused")
  | CtxErr | Pause _ => None
  | Callback _ | Wait _ => ()
  end.
Definition two_changes := run two_versions [] (OnChangeWithError 5 demo_client 120).

Lemma changes_published_witness :
  published two_changes.1 = ["1"; "2"] ∧ (∃ e, two_changes.2 = Some (Err e)) ∧
  ∃ rounds : list (list mevent * string), rounds_from demo_client 120 "init" rounds ∧
    published two_changes.1 = changed "init" rounds.*2.
Proof.
  split; [vm_compute; reflexivity|]. split; [eexists; vm_compute; reflexivity|].
  pose proof (run_exec two_versions [] (OnChangeWithError 5 demo_client 120)) as H.
  assert (newHTTPClient "http://metadata/v1/" "" = Ok demo_client) as Hc by (vm_compute; reflexivity).
  assert (plain_host (Host (baseURL demo_client)) = true) as Hh by (vm_compute; reflexivity).
  destruct (changes_published _ _ 5 demo_client 120 _ _ Hc Hh H) as (rounds & tail & _ & Hr & Hp & _).
  exists rounds. split; [exact Hr|exact Hp].
Defined.

(** The hosts of a response: unknown members are ignored, the last member of a name
    wins and a value of another type is an error. *)
Example decode_hosts_ex :
  let q := dquote in
  let text (v : string) := "[{" +:+ q +:+ "uuid" +:+ q +:+ ":" +:+ v +:+ "," +:+ q +:+ "agent_ip" +:+ q +:+ ":"
    +:+ q +:+ "192.0.2.10" +:+ q +:+ "," +:+ q +:+ "extra" +:+ q +:+ ":[1]}]" in
  (map (λ h, (Host.UUID h, Host.AgentIP h)) <$> match Unmarshal (decode_list decode_host) (text (q +:+ "host-1" +:+ q))
     with Ok hs => Some hs | Err _ => None end) = Some [("host-1", "192.0.2.10")] ∧
  ok (Unmarshal (decode_list decode_host) (text "7")) = false.
Proof. vm_compute. by split. Qed.
