(* ===== verification/Main.v ===== *)
(** * The start of the program (main.go, internal/logsafe/value.go)

    The flags, the order in which the parts are started, which failures stop the
    program and which are only logged. *)
From S2P Require Import Prelude Effects GoStrings.

(** ** Log values (logsafe.Value, of a value's text) *)

Definition Value (text : string) : string := ReplaceAll (ReplaceAll text "013" "") "010" " ".

Lemma all_bytes_ReplaceAll p s c new :
  all_bytes p new = true → all_bytes (λ a, Ascii.eqb a c || p a) s = true →
  all_bytes p (ReplaceAll s c new) = true.
Proof.
  intros Hn. induction s as [|a s IH]; [done|]. cbn. rewrite andb_true_iff. intros [Ha Hs].
  destruct (Ascii.eqb a c); cbn in *; [by rewrite all_bytes_app, Hn, IH|by rewrite Ha, IH].
Qed.

(** A logged value stays on its line. *)
Lemma Value_single_line text : all_bytes (λ a, negb (Ascii.eqb a "010") && negb (Ascii.eqb a "013")) (Value text) = true.
Proof.
  unfold Value. apply all_bytes_ReplaceAll; [done|].
  apply (all_bytes_weaken (λ a, negb (Ascii.eqb a "013"))).
  { intros a ->. by destruct (Ascii.eqb a "010"). }
  apply all_bytes_ReplaceAll; [done|]. induction text as [|a text IH]; [done|]. cbn. rewrite IH.
  by destruct (Ascii.eqb a "013").
Qed.

(** ** The flags *)

Record Flags := {
  metadata_url : string; conntracksync_interval : string; routesync_interval : string;
  arpsync_interval : string; debug : bool; firewall_backend : string;
}.
Definition default_flags : Flags :=
  {| metadata_url := "http://metadata/2016-07-29"; conntracksync_interval := "";
     routesync_interval := ""; arpsync_interval := ""; debug := false; firewall_backend := "auto" |}.

(** ** The start *)

Inductive stage :=
  | NewReadiness
  | SetDebugLevel
  | NewDockerClient
  | DetectBackend (mode : string)
  | WatchRoutes (interval : string)
  | WaitForMetadata (url : string)
  | SyncMACAddresses
  | NewManager
  | WatchHostNAT
  | WatchHostPorts
  | WatchReaper
  | WatchConntrack (interval : string)
  | WatchCniConf
  | WatchARP (interval : string)
  | WatchBinExec
  | WatchEvents (poolSize : Z)
  | WaitForStop.
#[export] Instance stage_eq_dec : EqDecision stage.
Proof. solve_decision. Defined.

Definition main_sig : sig := Sig stage (λ _, option error).
Abbreviation sprog A := (prog main_sig A).

Definition start (s : stage) : sprog (option error) := trigger (Σ := main_sig) s.

(** [if err := ...; err != nil { return err }] *)
Definition must (s : stage) (k : sprog (option error)) : sprog (option error) :=
  e ← start s; match e with Some e => Ret (Some e) | None => k end.
(** A failure is logged; parts without an error of their own are started likewise. *)
Definition may (s : stage) (k : sprog (option error)) : sprog (option error) := _ ← start s; k.

(** The error of the metadata wait is wrapped. *)
Definition must_wrapped (msg : string) (s : stage) (k : sprog (option error)) : sprog (option error) :=
  e ← start s; match e with Some e => Ret (Some (Wrapf msg e)) | None => k end.

Definition run (c : Flags) : sprog (option error) :=
  must NewReadiness (
  (if debug c then may SetDebugLevel else λ k, k) (
  must NewDockerClient (
  must (DetectBackend (firewall_backend c)) (
  must (WatchRoutes (routesync_interval c)) (
  must_wrapped "create metadata client" (WaitForMetadata (metadata_url c)) (
  may SyncMACAddresses (
  must NewManager (
  must WatchHostNAT (
  must WatchHostPorts (
  may WatchReaper (
  may (WatchConntrack (conntracksync_interval c)) (
  may WatchCniConf (
  may (WatchARP (arpsync_interval c)) (
  may WatchBinExec (
  must (WatchEvents 100) (
  may WaitForStop (Ret None))))))))))))))))).

(** The exit code: a cancelled context is a normal end. *)
Definition main (result : option error) : Z :=
  match result with
  | Some e => if errors_is "context.Canceled" e then 0 else 1
  | None => 0
  end%Z.

(** ** The order of the start *)

(** All stages, in order. *)
Definition plan (c : Flags) : list stage :=
  [NewReadiness] ++ (if debug c then [SetDebugLevel] else []) ++
  [NewDockerClient; DetectBackend (firewall_backend c); WatchRoutes (routesync_interval c);
   WaitForMetadata (metadata_url c); SyncMACAddresses; NewManager; WatchHostNAT; WatchHostPorts;
   WatchReaper; WatchConntrack (conntracksync_interval c); WatchCniConf;
   WatchARP (arpsync_interval c); WatchBinExec; WatchEvents 100; WaitForStop].

(** The stages without which the program does not go on. *)
Definition fatal (s : stage) : bool :=
  match s with
  | NewReadiness | NewDockerClient | DetectBackend _ | WatchRoutes _ | WaitForMetadata _ | NewManager
  | WatchHostNAT | WatchHostPorts | WatchEvents _ => true
  | _ => false
  end.

Definition cause (s : stage) (e : error) : error :=
  match s with WaitForMetadata _ => Wrapf "create metadata client" e | _ => e end.

Fixpoint follow (l : list stage) : sprog (option error) :=
  match l with
  | [] => Ret None
  | s :: l =>
      if fatal s
      then e ← start s; match e with Some e => Ret (Some (cause s e)) | None => follow l end
      else may s (follow l)
  end.

Lemma run_follows c : run c = follow (plan c).
Proof. unfold plan. destruct c as [? ? ? ? [] ?]; reflexivity. Qed.

Definition stages (tr : list (event main_sig)) : list stage := map (λ e : event main_sig, projT1 e) tr.

Lemma exec_start s tr e : exec (start s) tr e → tr = [ev (Σ := main_sig) s e].
Proof. unfold start, trigger. rewrite exec_vis. by intros (x & tr' & -> & -> & ->). Qed.

Lemma follow_exec l tr r :
  exec (follow l) tr r →
  match r with
  | None => stages tr = l ∧ Forall (λ e : event main_sig, fatal (projT1 e) = true → projT2 e = None) tr
  | Some e => ∃ tr0 s e0 rest, tr = tr0 ++ [ev (Σ := main_sig) s (Some e0)] ∧ l = stages tr ++ rest ∧
      fatal s = true ∧ e = cause s e0 ∧
      Forall (λ e : event main_sig, fatal (projT1 e) = true → projT2 e = None) tr0
  end.
Proof.
  revert tr. induction l as [|s l IH]; intros tr; cbn [follow]; [by intros [-> ->]|].
  assert (∀ x tr', exec (follow l) tr' r → (fatal s = true → x = None) →
    match r with
    | None => stages (ev (Σ := main_sig) s x :: tr') = s :: l ∧
        Forall (λ e : event main_sig, fatal (projT1 e) = true → projT2 e = None) (ev (Σ := main_sig) s x :: tr')
    | Some e => ∃ tr0 s0 e0 rest, ev (Σ := main_sig) s x :: tr' = tr0 ++ [ev (Σ := main_sig) s0 (Some e0)] ∧
        s :: l = stages (ev (Σ := main_sig) s x :: tr') ++ rest ∧ fatal s0 = true ∧ e = cause s0 e0 ∧
        Forall (λ e : event main_sig, fatal (projT1 e) = true → projT2 e = None) tr0
    end) as Hstep.
  { intros x tr' H Hx. specialize (IH _ H). destruct r as [e|].
    - destruct IH as (tr0 & s0 & e0 & rest & -> & Hl & Hf & -> & Hall).
      exists (ev (Σ := main_sig) s x :: tr0), s0, e0, rest. split_and!; [done| |done|done|by constructor].
      exact (f_equal (cons s) Hl).
    - destruct IH as [Hl Hall]. split; [exact (f_equal (cons s) Hl)|by constructor]. }
  destruct (fatal s) eqn:Hf.
  - intros (tr1 & tr2 & e & -> & ->%exec_start & H)%exec_bind. destruct e as [e|]; [|by apply Hstep].
    destruct H as [-> ->]. exists [], s, e, l. by split_and!.
  - unfold may. intros (tr1 & tr2 & e & -> & ->%exec_start & H)%exec_bind. by apply Hstep.
Qed.

(** C40: the parts are started in the order of the plan: the readiness report and
    the detected firewall backend first, the routes, then the metadata, then the
    watchers and last the events. The first failure of a necessary part ends the
    program with its error and nothing is started after it; every other failure is
    passed over, and the program ends without an error only after all its parts. *)
Theorem start_order c tr r :
  exec (run c) tr r →
  match r with
  | None => stages tr = plan c ∧
      Forall (λ e : event main_sig, fatal (projT1 e) = true → projT2 e = None) tr
  | Some e => ∃ tr0 s e0 rest, tr = tr0 ++ [ev (Σ := main_sig) s (Some e0)] ∧
      plan c = stages tr ++ rest ∧ fatal s = true ∧ e = cause s e0 ∧
      Forall (λ e : event main_sig, fatal (projT1 e) = true → projT2 e = None) tr0
  end.
Proof. rewrite run_follows. apply follow_exec. Qed.

(** A host without a usable firewall: nothing is watched. *)
Definition no_backend : env main_sig := λ _ s,
  match s with DetectBackend _ => Some (Errorf "no firewall backend") | WatchReaper => Some (Errorf "") | _ => None end.

Lemma start_order_witness :
  stages (Effects.run no_backend [] (run default_flags)).1 = [NewReadiness; NewDockerClient; DetectBackend "auto"] ∧
  ∃ rest, plan default_flags = stages (Effects.run no_backend [] (run default_flags)).1 ++ rest.
Proof.
  split; [vm_compute; reflexivity|].
  pose proof (start_order default_flags _ _ (run_exec no_backend [] (run default_flags))) as H.
  change (Effects.run no_backend [] (run default_flags)).2 with (Some (Errorf "no firewall backend")) in H.
  destruct H as (tr0 & s & e0 & rest & _ & Hp & _). exists rest. exact Hp.
Defined.
