(* ===== verification/Interface.v ===== *)
(** * The metadata interface between the watchers and the client

    The watchers call the interface [Client] of internal/metadata/client.go; main.go
    gives them an [httpClient]. Here the interface is a type class, the client an
    instance of it, and [linked] runs a watcher's program with the calls of the
    interface replaced by the instance's programs. *)
From S2P Require Import Prelude Effects GoStrings GoNet Metadata Json World Conntrack Identity Url MetaClient.

(** ** The interface *)

(** The methods of [Client] the watchers call, as programs over the calls [Σ]. *)
Class MetadataClient (Σ : sig) := {
  get_networks : prog Σ (result (list Network.t));
  get_hosts : prog Σ (result (list Host.t));
  get_containers : prog Σ (result (list Container.t));
  get_services : prog Σ (result (list Service.t));
  get_self_host : prog Σ (result Host.t);
}.

(** The program behind a call of the interface; other calls have none. *)
Definition answer {Σ} `{!MetadataClient Σ} (c : hcall) : option (prog Σ (hreply c)) :=
  match c return option (prog Σ (hreply c)) with
  | World.GetNetworks => Some get_networks
  | World.GetHosts => Some get_hosts
  | World.GetContainers => Some get_containers
  | World.GetServices => Some get_services
  | World.GetSelfHost => Some get_self_host
  | _ => None
  end.

(** ** Linking *)

(** Calls of two signatures side by side. *)
Definition both (Σ1 Σ2 : sig) : sig :=
  Sig (call Σ1 + call Σ2) (λ c, match c with inl c => Effects.reply Σ1 c | inr c => Effects.reply Σ2 c end).

Definition inner {Σ1 Σ2} (e : event Σ1) : event (both Σ1 Σ2) :=
  ev (Σ := both Σ1 Σ2) (inl (projT1 e)) (projT2 e).
Definition outer {Σ1 Σ2} (e : event Σ2) : event (both Σ1 Σ2) :=
  ev (Σ := both Σ1 Σ2) (inr (projT1 e)) (projT2 e).

Fixpoint within {Σ1 Σ2 A} (p : prog Σ1 A) : prog (both Σ1 Σ2) A :=
  match p with
  | Ret a => Ret a
  | Vis c k => Vis (Σ := both Σ1 Σ2) (inl c) (λ r, within (k r))
  end.

Section link.
Context {Σ : sig} {client : MetadataClient Σ}.

Fixpoint linked {A} (p : hprog A) : prog (both Σ host_sig) A :=
  match p with
  | Ret a => Ret a
  | Vis c k =>
      match answer c with
      | Some q => r ← within q; linked (k r)
      | None => Vis (Σ := both Σ host_sig) (inr c) (λ r, linked (k r))
      end
  end.

(** A trace of the linked program, seen through the interface: each call of the
    interface stands for an execution of the client. *)
Inductive implements : list hevent → list (event (both Σ host_sig)) → Prop :=
  | implements_nil : implements [] []
  | implements_get c q seg r htr tr :
      answer c = Some q → exec q seg r → implements htr tr →
      implements (ev (Σ := host_sig) c r :: htr) (map inner seg ++ tr)
  | implements_other c r htr tr :
      answer c = None → implements htr tr →
      implements (ev (Σ := host_sig) c r :: htr) (outer (ev (Σ := host_sig) c r) :: tr).

Lemma exec_within {A} (p : prog Σ A) tr a :
  exec (within (Σ2 := host_sig) p) tr a → ∃ seg, tr = map inner seg ∧ exec p seg a.
Proof.
  revert tr. induction p as [x|c k IH]; intros tr; cbn; [intros [-> ->]; by exists []|].
  intros (r & tr' & -> & (seg & -> & H)%IH). exists (ev c r :: seg). split; [done|]. by exists r, seg.
Qed.

(** Linking is correct: what the linked program does, the program does with the
    replies of the client. *)
Lemma linked_exec {A} (p : hprog A) tr a :
  exec (linked p) tr a → ∃ htr, exec p htr a ∧ implements htr tr.
Proof.
  revert tr. induction p as [x|c k IH]; intros tr; cbn [linked].
  { intros [-> ->]. exists []. split; [done|constructor]. }
  destruct (answer c) as [q|] eqn:Hq.
  - intros (tr1 & tr2 & r & -> & (seg & -> & Hs)%exec_within & (htr & Hp & Hi)%IH)%exec_bind.
    exists (ev (Σ := host_sig) c r :: htr). split; [by exists r, htr|by econstructor].
  - intros (r & tr' & -> & (htr & Hp & Hi)%IH).
    exists (ev (Σ := host_sig) c r :: htr). split; [by exists r, htr|by apply implements_other].
Qed.
End link.

(** ** The HTTP client behind the interface *)

(** A bounded exchange always ends ([get_ends] below), so that the error that stands
    for one that does not is never used. *)
Definition ended {A} (p : mprog (option (result A))) : mprog (result A) :=
  r ← p; Ret (default (Err (Errorf "unfinished metadata request")) r).

Definition http_metadata (client : httpClient) : MetadataClient http_sig := {|
  get_networks := ended (GetNetworks client);
  get_hosts := ended (GetHosts client);
  get_containers := ended (GetContainers client);
  get_services := ended (GetServices client);
  get_self_host := ended (GetSelfHost client);
|}.

(** The resource of a call. *)
Definition resource (c : hcall) : string :=
  match c with
  | World.GetNetworks => "/networks"
  | World.GetHosts => "/hosts"
  | World.GetContainers => "/containers"
  | World.GetServices => "/services"
  | World.GetSelfHost => "/self/host"
  | _ => ""
  end.

(** A value comes from the body of the last response, which had status 200. *)
Definition decoded_from {A} (decoder : Json → result A) (seg : list mevent) (r : result A) : Prop :=
  ∀ v, r = Ok v → ∃ q response,
    last seg = Some (ev (Σ := http_sig) (RoundTrip q) (Ok response)) ∧ StatusCode response = 200%Z ∧
    (byte_length (Body response) ≤ maxResponseBytes)%N ∧ Unmarshal decoder (Body response) = Ok v.

Definition source (c : hcall) (seg : list mevent) (r : hreply c) : Prop :=
  match c return hreply c → Prop with
  | World.GetNetworks => decoded_from (decode_list decode_network) seg
  | World.GetHosts => decoded_from (decode_list decode_host) seg
  | World.GetContainers => decoded_from (decode_list decode_container) seg
  | World.GetServices => decoded_from (decode_list decode_service) seg
  | World.GetSelfHost => decoded_from decode_host seg
  | _ => λ _, False
  end r.

(** What the client promises of one call: one to five requests, all to the configured
    service and the first for the resource of the call, and an honest reply. *)
Definition promised (client : httpClient) (path : string) (seg : list mevent) : Prop :=
  1 ≤ length seg ≤ 5 ∧ Forall (asks (baseURL client) (forwardedFor client) requestTimeout) seg ∧
  ∃ q reply seg', seg = ev (Σ := http_sig) (RoundTrip q) reply :: seg' ∧
    Scheme (ReqURL q) = Scheme (baseURL client) ∧ Url.Host (ReqURL q) = Url.Host (baseURL client) ∧
    Path (ReqURL q) = Path (baseURL client) +:+ path ∧ RawQuery (ReqURL q) = "".

(** A path the client accepts as it is. *)
Definition plain_path (path : string) : bool :=
  match Parse path with
  | Some reference =>
      negb (IsAbs reference || negb (String.eqb (Url.Host reference) "")
            || negb (HasPrefix (Path reference) "/")) &&
      negb (existsb traversal (Split (EscapedPath reference) "/")) &&
      String.eqb (Path reference) path && String.eqb (RawQuery reference) ""
  | None => false
  end.

Section http.
Context (client : httpClient) (made : well_made client) (host : plain_host (Url.Host (baseURL client)) = true).

Lemma plain_path_endpoint path :
  plain_path path = true →
  (∃ target, endpoint client path = Ok target) ∧
  ∃ reference, Parse path = Some reference ∧ Path reference = path ∧ RawQuery reference = "".
Proof.
  unfold plain_path, endpoint. rewrite (wm_err _ made). destruct (Parse path) as [reference|]; [|done].
  rewrite !andb_true_iff, !negb_true_iff, !String.eqb_eq. intros [[[-> ->] Hp] Hq].
  split; [by eexists|by exists reference].
Qed.

Lemma get_ends {A} (decoder : Json → result A) path seg r :
  plain_path path = true → exec (ended (decode decoder client path)) seg r →
  promised client path seg ∧ decoded_from decoder seg r.
Proof.
  intros Hp (tr1 & tr2 & o & -> & H & [-> ->])%exec_bind. rewrite app_nil_r.
  apply exec_bind in H as (tr3 & tr4 & body & -> & H & [-> ->]). rewrite app_nil_r.
  destruct (plain_path_endpoint _ Hp) as [[target Ht] (reference & Hr & Hpath & Hquery)].
  destruct (sendRequest_exec _ _ _ _ _ _ made host Ht H)
    as (answer & reference' & -> & Hr' & Hlen & Hasks & (q & reply & tr' & -> & Hs & Hh & Hq & Hraw) & Hok).
  rewrite Hr in Hr'. injection Hr' as <-. rewrite Hpath in Hq. rewrite Hquery in Hraw. split.
  - split; [cbn in *; lia|]. split; [done|]. by exists q, reply, tr'.
  - intros v Hv. cbn [option_map default] in Hv. apply result_bind_Ok in Hv as (text & Hv & Hu).
    destruct (Unmarshal decoder text) as [v'|] eqn:Hun; [|done]. injection Hu as ->.
    destruct (Hok _ Hv) as (Hlen' & q' & response & Hlast & Hst & <-).
    by exists q', response.
Qed.

(** The client keeps its promise for every call of the interface. *)
Lemma http_answers c p seg r :
  answer (MetadataClient0 := http_metadata client) c = Some p → exec p seg r →
  promised client (resource c) seg ∧ source c seg r.
Proof.
  intros Hp H. destruct c; cbn in Hp; try discriminate Hp; injection Hp as <-;
    (apply get_ends; [vm_compute; reflexivity|exact H]).
Qed.
End http.

(** ** The watchers over the client *)

(** A trace of a linked watcher: what the interface shows of it, and what is sent. *)
Inductive served (client : httpClient) : list hevent → list (event (both http_sig host_sig)) → Prop :=
  | served_nil : served client [] []
  | served_get c r seg htr tr :
      promised client (resource c) seg → source c seg r → served client htr tr →
      served client (ev (Σ := host_sig) c r :: htr) (map inner seg ++ tr)
  | served_other c r htr tr :
      resource c = "" → served client htr tr →
      served client (ev (Σ := host_sig) c r :: htr) (outer (ev (Σ := host_sig) c r) :: tr).

(** C13: a program of a watcher that runs over the HTTP client does what it does over
    the interface, so that every theorem about its executions holds of it. Each call
    of the metadata interface sends one to five requests, all to the configured
    service with the forwarded address and the time limit and the first for the
    resource of the call, and a value it gives is decoded from a response of status
    200 and at most 32 MiB; the other calls are left as they are, in their order. *)
Theorem metadata_served {A} rawURL fwd client (p : hprog A) tr a :
  newHTTPClient rawURL fwd = Ok client → plain_host (Url.Host (baseURL client)) = true →
  exec (linked (client := http_metadata client) p) tr a →
  forwardedFor client = fwd ∧ ∃ htr, exec p htr a ∧ served client htr tr.
Proof.
  intros (Hwm & _ & Hf)%newHTTPClient_well_made Hh (htr & Hp & Hi)%linked_exec. split; [done|].
  exists htr. split; [done|]. clear Hp. induction Hi as [|c q seg r htr tr Hq Hs _ IH|c r htr tr Hq _ IH].
  - constructor.
  - destruct (http_answers _ Hwm Hh _ _ _ _ Hq Hs). by constructor.
  - apply served_other; [by destruct c|done].
Qed.

(** A service with one host, asked by [LocalHost] on a machine without Docker labels. *)
Definition quoted (s : string) : string := dquote +:+ s +:+ dquote.
Definition host_body : string :=
  "{" +:+ quoted "uuid" +:+ ":" +:+ quoted "host-1" +:+ "," +:+ quoted "agent_ip" +:+ ":" +:+ quoted "192.0.2.1" +:+ "}".
Definition one_host : env (both http_sig host_sig) := λ _ c,
  match c with
  | inl c =>
      match c return mreply c with
      | RoundTrip q =>
          Ok {| StatusCode := 200; Location := None; BodyFails := false;
                Body := if String.eqb (Path (ReqURL q)) "/v1/hosts" then "[" +:+ host_body +:+ "]" else host_body |}
      | CtxErr | Pause _ => None
      | Callback _ | Wait _ => ()
      end
  | inr c => idle_reply c
  end.

Definition demo_linked : prog (both http_sig host_sig) (result Host.t) :=
  linked (client := http_metadata demo_client) LocalHost.
Definition demo_exchange := run one_host [] demo_linked.

Lemma metadata_served_witness :
  (Host.AgentIP <$> match demo_exchange.2 with Ok h => Some h | Err _ => None end) = Some "192.0.2.1" ∧
  ∃ htr, exec LocalHost htr demo_exchange.2 ∧ served demo_client htr demo_exchange.1.
Proof.
  split; [vm_compute; reflexivity|].
  pose proof (run_exec one_host [] demo_linked) as H. fold demo_exchange in H.
  assert (newHTTPClient "http://metadata/v1/" "" = Ok demo_client) as Hc by (vm_compute; reflexivity).
  assert (plain_host (Url.Host (baseURL demo_client)) = true) as Hh by (vm_compute; reflexivity).
  exact (proj2 (metadata_served _ _ _ _ _ _ Hc Hh H)).
Defined.
