(* ===== verification/Health.v ===== *)
(** * Readiness of the whole program (main.go with hostports, hostnat and readiness)

    The watchers report through a callback of main.go that passes the error of a
    turn to the readiness tracker. Here the calls [Report] of the watchers' turns are
    carried out in their order by the tracker's own program. The marker file is the
    tracker's alone, so that its calls have a trace of their own. *)
From S2P Require Import Prelude Effects World Identity Conntrack Firewall RouteLocalnet NftRules HostPorts HostNat Readiness.

(** The report callback of main.go: a marker that cannot be updated is logged. The
    result says whether the last update succeeded. *)
Fixpoint carry_out (rs : list (component * option error)) : act host_sig Tracker (option bool) :=
  match rs with
  | [] => mret None
  | r :: rs =>
      updated ← try (ReportHealth r.1 r.2);
      later ← carry_out rs;
      mret (match later with None => Some (ok updated) | _ => later end)
  end.

(** The reports of a trace of a watcher. *)
Definition reports (tr : list hevent) : list (component * option error) :=
  omap (λ e : hevent, match projT1 e with Report c err => Some (c, err) | _ => None end) tr.

Lemma reports_app tr1 tr2 : reports (tr1 ++ tr2) = reports tr1 ++ reports tr2.
Proof. apply omap_app. Qed.

Definition silent (c : hcall) : Prop := match c with Report _ _ => False | _ => True end.

Lemma silent_reports tr : Forall (λ e : hevent, silent (projT1 e)) tr → reports tr = [].
Proof. induction 1 as [|[c x] tr Hc _ IH]; [done|]. unfold reports in *. cbn. cbn in Hc. by destruct c. Qed.

Lemma silent_exec {A} (p : hprog A) tr a : hcalls silent p → exec p tr a → reports tr = [].
Proof. intros Hp H. apply silent_reports. exact (calls_in_exec (Σ := host_sig) _ _ _ _ Hp H). Qed.
Lemma silent_execs {St A} (m : act host_sig St A) s tr s' r :
  acts_in (Σ := host_sig) silent m → execs m s tr s' r → reports tr = [].
Proof. intros Hm H. apply silent_reports. exact (acts_in_execs (Σ := host_sig) _ _ _ _ _ _ Hm H). Qed.

(** ** The watchers report only at the end of a turn *)

Ltac silence := repeat first
  [ done
  | apply calls_in_pbind_ok; [|intros ?]
  | apply calls_in_wrapped | apply calls_in_call1; done
  | apply calls_in_pforeach; intros ? | apply calls_in_pfold; intros ? ?
  | apply calls_in_bind; [|intros ?]
  | match goal with
    | |- hcalls _ (let '(_, _) := ?p in _) => destruct p
    | |- hcalls _ (match ?x with _ => _ end) => destruct x
    end ].

Lemma desired_ports_silent {range : MapRange} : hcalls silent HostPorts.desired_rules.
Proof.
  eapply calls_in_weaken; [|apply desired_observes]. intros c Hc. by destruct c.
Qed.

Lemma restore_removed_silent original rules : hcalls silent (restoreRemovedRouteLocalnet original rules).
Proof. unfold restoreRemovedRouteLocalnet, setBridgeRouteLocalnet. silence. Qed.

Lemma activate_silent original rules : hcalls silent (activateRouteLocalnet original rules).
Proof.
  unfold activateRouteLocalnet. apply calls_in_bind.
  { unfold next_original, readBridgeRouteLocalnet. silence. }
  intros [next|e]; [|done]. apply calls_in_bind.
  { apply calls_in_wrapped. unfold saveRouteLocalnetState, RouteLocalnet.write_temporary. silence. }
  intros [|e]; [|done]. apply calls_in_bind; [|done]. unfold setBridgeRouteLocalnet. silence.
Qed.

Lemma base_ports_silent backend : hcalls silent (HostPorts.insertBaseRules backend).
Proof.
  eapply calls_in_weaken; [|apply insertBaseRules_calls]. intros c Hc. by destruct c.
Qed.

Tactic Notation "silence_act" tactic3(known) := repeat first
  [ known
  | apply acts_in_bind; [|intros ?]
  | apply acts_in_ret | apply acts_in_get | apply acts_in_modify | apply acts_in_fail
  | apply acts_in_of_result | apply (acts_in_ask (Σ := host_sig)); done
  | apply acts_in_try | apply acts_in_wrapping | apply acts_in_lift
  | match goal with
    | |- acts_in _ (if ?b then _ else _) => destruct b
    | |- acts_in _ (match ?x with _ => _ end) => destruct x
    end ].

Section ports.
Context {range : MapRange} (backend : Backend).

Lemma activate_act_silent rules : acts_in (Σ := host_sig) silent (activate rules).
Proof. intros s. unfold activate. apply calls_in_bind; [apply activate_silent|]. by intros [o r]. Qed.

Lemma apply_ports_silent rules : acts_in (Σ := host_sig) silent (HostPorts.apply backend rules).
Proof.
  unfold HostPorts.apply, HostPorts.applyNFT, HostPorts.apply_xt, HostPorts.checked_apply, listTables,
    HostPorts.restoreRemoved, HostPorts.restore, HostPorts.remember.
  silence_act (first [apply activate_act_silent|apply restore_removed_silent
    |apply calls_in_wrapped, base_ports_silent]); silence.
Qed.

Lemma onChangeLocked_silent force : acts_in (Σ := host_sig) silent (onChangeLocked backend force).
Proof.
  unfold onChangeLocked. silence_act (first [apply desired_ports_silent|apply apply_ports_silent]).
Qed.

Lemma live_check_silent : acts_in (Σ := host_sig) silent (live_check backend).
Proof.
  unfold live_check, checkNFTRules. silence_act (apply base_ports_silent); silence.
Qed.
End ports.

Section nat.
Context {range : MapRange} (backend : Backend).

Lemma LocalHost_silent : hcalls silent LocalHost.
Proof. eapply calls_in_weaken; [|apply LocalHost_observes]. intros c Hc. by destruct c. Qed.

Lemma desired_nat_silent : hcalls silent HostNat.desired_rules.
Proof.
  unfold HostNat.desired_rules, HostNat.network_step, HostNat.load_peers, addIKESNATRules, ike_step.
  apply calls_in_pbind_ok; [apply LocalHost_silent|]. intros host. silence.
Qed.

Lemma flush_silent : hcalls silent flushIKEConntrack.
Proof. unfold flushIKEConntrack, ike_flush. silence. Qed.

Lemma apply_nat_silent rules : acts_in (Σ := host_sig) silent (HostNat.apply backend rules).
Proof.
  unfold HostNat.apply, HostNat.applyNFT, applyNFTScript, HostNat.apply_xt, HostNat.checked_apply,
    HostNat.remember, mark_sweep, enableLocalNetRouting, HostNat.insertBaseRules, feed.
  silence_act (apply flush_silent); silence.
Qed.

Lemma replacing_silent rules : acts_in (Σ := host_sig) silent (applyNFTReplacing backend rules).
Proof.
  unfold applyNFTReplacing, applyNFTScript, HostNat.checked_apply, HostNat.remember, mark_sweep,
    enableLocalNetRouting, feed.
  silence_act (apply flush_silent); silence.
Qed.

Lemma onChange_silent : acts_in (Σ := host_sig) silent (HostNat.onChange backend).
Proof.
  unfold HostNat.onChange, flushStaleIKEConntrack, mark_sweep, ListSNAT, list_entries, sweep_entry.
  silence_act (first [apply desired_nat_silent|apply apply_nat_silent]); silence.
Qed.
End nat.

(** The report of a turn is the error it ends with. *)
Lemma attempt_reports {St} c (m body : act host_sig St ()) w tr w' r :
  acts_in (Σ := host_sig) silent body →
  m = (r ← try body; ask (Σ := host_sig) (Report c (result_err r));; of_result r) →
  execs m w tr w' r → reports tr = [(c, result_err r)].
Proof.
  intros Hb -> H.
  apply execs_bind in H as [(e & _ & H)|(tr1 & tr2 & s1 & x & -> & H1 & H)];
    [by apply execs_try in H as (? & _ & [=])|].
  apply execs_try in H1 as (y & H1 & [= ->]).
  apply execs_bind in H as [(e & _ & (? & _ & _ & [=])%execs_hask)|(tr3 & tr4 & s2 & [] & -> & H2 & H)].
  apply execs_hask in H2 as ([] & -> & -> & _). apply execs_of_result in H as (-> & -> & ->).
  rewrite reports_app, (silent_execs _ _ _ _ _ Hb H1). done.
Qed.

Section turns.
Context {range : MapRange} (backend : Backend).

Lemma ports_attempt_reports w tr w' r :
  execs (HostPorts.attempt backend) w tr w' r → reports tr = [(World.HostPorts, result_err r)].
Proof. apply (attempt_reports _ _ (onChangeLocked backend false)); [apply onChangeLocked_silent|done]. Qed.

Lemma nat_attempt_reports w tr w' r :
  execs (HostNat.attempt backend) w tr w' r → reports tr = [(HostNAT, result_err r)].
Proof. apply (attempt_reports _ _ (HostNat.onChange backend)); [apply onChange_silent|done]. Qed.

(** A repair also reports a failed check at once. *)
Lemma repair_reports w tr w' r :
  execs (repairOnce backend) w tr w' r →
  ∃ pre, reports tr = pre ++ [(World.HostPorts, result_err r)] ∧ Forall (λ x, x.1 = World.HostPorts) pre.
Proof.
  unfold repairOnce. intros H.
  apply execs_bind in H as [(e & _ & H)|(tr1 & tr2 & s1 & x & -> & H1 & H)];
    [by apply execs_try in H as (? & _ & [=])|].
  apply execs_try in H1 as (y & H1 & [= ->]).
  apply execs_bind in H as [(e & _ & H)|(tr3 & tr4 & s2 & [] & -> & H2 & H)].
  { destruct y; [by apply execs_ret in H as (_ & _ & [=])|].
    by apply (execs_hask (Report _ _)) in H as (? & _ & _ & [=]). }
  exists (reports tr3). rewrite !reports_app, (silent_execs _ _ _ _ _ (live_check_silent backend) H1).
  cbn [app]. split.
  - f_equal. revert H. apply (attempt_reports _ _ (onChangeLocked backend (bool_decide (result_err y ≠ None)))); [apply onChangeLocked_silent|done].
  - destruct y; [by apply execs_ret in H2 as (-> & _ & _)|].
    apply (execs_hask (Report _ _)) in H2 as ([] & -> & _ & _). by repeat constructor.
Qed.

(** The repair of a lost chain, and the two reports around it. *)
Definition repair (applied : ruleSet) (e : error) : act host_sig HostNat.watcher () :=
  if errors_is "hostnat.errNativeHookMismatch" e
  then applyNFTReplacing backend applied else HostNat.apply backend applied.
Definition told (err : option error) : hevent := ev (Σ := host_sig) (Report HostNAT err) ().
Definition lost (e : error) : option error := Some (Wrapf "hostnat native nft state lost" e).

Lemma repair_silent applied e : acts_in (Σ := host_sig) silent (repair applied e).
Proof. unfold repair. destruct (errors_is _ _); [apply replacing_silent|apply apply_nat_silent]. Qed.

Lemma native_check_silent applied : hcalls silent (checkNativeState backend applied).
Proof. unfold checkNativeState. silence. Qed.

(** A check of the live NAT chain reports nothing when there is nothing to check or
    the chain is right; otherwise it reports the loss and how the repair ended. *)
Lemma check_cases w tr w' r :
  execs (reconcileNativeState backend) w tr w' r →
  (w' = w ∧ (IsZero (HostNat.lastApplied w) = true ∧ tr = [] ∨
     exec (checkNativeState backend (HostNat.applied w)) tr (Ok ()))) ∨
  ∃ tr1 e tr2 fixed, tr = tr1 ++ told (lost e) :: tr2 ++ [told (result_err fixed)] ∧
    exec (checkNativeState backend (HostNat.applied w)) tr1 (Err e) ∧
    execs (repair (HostNat.applied w) e) w tr2 w' fixed.
Proof.
  unfold reconcileNativeState. intros H.
  apply execs_bind in H as [(e & _ & (_ & _ & [=])%execs_get)|(tr1 & tr2 & s1 & w1 & -> & (-> & -> & [= ->])%execs_get & H)].
  cbn [app]. destruct (IsZero (HostNat.lastApplied w)) eqn:Hz.
  { apply execs_ret in H as (-> & -> & _). left. auto. }
  apply execs_bind in H as [(e & _ & H)|(tr3 & tr4 & s2 & x & -> & H1 & H)];
    [by apply execs_try in H as (? & _ & [=])|].
  apply execs_try in H1 as (y & [H1 ->]%execs_lift & [= ->]).
  destruct y as [[]|e].
  { apply execs_ret in H as (-> & -> & _). rewrite app_nil_r. left. auto. }
  right. unfold reportStatus in H.
  apply execs_bind in H as [(? & _ & (? & _ & _ & [=])%execs_hask)|(tr5 & tr6 & s3 & [] & -> & H2 & H)].
  apply execs_hask in H2 as ([] & -> & -> & _).
  apply execs_bind in H as [(? & _ & H)|(tr7 & tr8 & s4 & fixed & -> & H3 & H)];
    [by apply execs_try in H as (? & _ & [=])|].
  apply execs_try in H3 as (fixed' & H3 & [= ->]).
  apply (execs_hask (Report _ _)) in H as ([] & -> & -> & _).
  by exists tr3, e, tr7, fixed'.
Qed.

Lemma repaired_reports w tr1 e tr2 w' fixed :
  exec (checkNativeState backend (HostNat.applied w)) tr1 (Err e) →
  execs (repair (HostNat.applied w) e) w tr2 w' fixed →
  reports (tr1 ++ told (lost e) :: tr2 ++ [told (result_err fixed)]) =
    [(HostNAT, lost e); (HostNAT, result_err fixed)].
Proof.
  intros H1 H2. rewrite reports_app, (silent_exec _ _ _ (native_check_silent _) H1). cbn [app].
  change (told (lost e) :: tr2 ++ ?l) with ([told (lost e)] ++ (tr2 ++ l)).
  by rewrite !reports_app, (silent_execs _ _ _ _ _ (repair_silent _ _) H2).
Qed.
End turns.

(** ** The program's firewall part

    The two watchers and the tracker. A turn of a watcher runs under its mutex; its
    reports are carried out before the next turn. *)
Record program := { ports : HostPorts.watcher; nat : HostNat.watcher; tracker : Tracker }.

(** A turn with the watchers it leaves and the outcome it has for a component. *)
Inductive turn (backend : Backend) (x : program)
    : list hevent → HostPorts.watcher → HostNat.watcher → list (component * bool) → Prop :=
  | turn_ports (range : MapRange) tr w r :
      execs (HostPorts.attempt backend) (ports x) tr w r →
      turn backend x tr w (nat x) [(World.HostPorts, ok r)]
  | turn_repair (range : MapRange) tr w r :
      execs (repairOnce backend) (ports x) tr w r →
      turn backend x tr w (nat x) [(World.HostPorts, ok r)]
  | turn_nat (range : MapRange) tr w r :
      execs (HostNat.attempt backend) (nat x) tr w r →
      turn backend x tr (ports x) w [(HostNAT, ok r)]
  | turn_check_right (range : MapRange) tr w r :
      execs (reconcileNativeState backend) (nat x) tr w r →
      tr = [] ∨ exec (checkNativeState backend (HostNat.applied (nat x))) tr (Ok ()) →
      turn backend x tr (ports x) w []
  | turn_check_repaired (range : MapRange) tr1 e tr2 w r fixed :
      execs (reconcileNativeState backend) (nat x)
        (tr1 ++ told (lost e) :: tr2 ++ [told (result_err fixed)]) w r →
      exec (checkNativeState backend (HostNat.applied (nat x))) tr1 (Err e) →
      execs (repair backend (HostNat.applied (nat x)) e) (nat x) tr2 w fixed →
      turn backend x (tr1 ++ told (lost e) :: tr2 ++ [told (result_err fixed)]) (ports x) w
        [(HostNAT, ok fixed)].

(** Histories: the outcomes, the calls for the marker, and whether its last update
    succeeded. *)
Inductive history (backend : Backend) (x0 : program)
    : list (component * bool) → list hevent → bool → program → Prop :=
  | history_start : history backend x0 [] [] false x0
  | history_turn outs trm u x tr wp wn new trm' t v :
      history backend x0 outs trm u x → turn backend x tr wp wn new →
      execs (carry_out (reports tr)) (tracker x) trm' t (Ok v) →
      history backend x0 (outs ++ new) (trm ++ trm') (default u v)
        {| ports := wp; nat := wn; tracker := t |}.

(** The last outcome of a component. *)
Definition outcome (c : component) (init : bool) (outs : list (component * bool)) : bool :=
  foldl (λ b o, if bool_decide (o.1 = c) then o.2 else b) init outs.

Lemma outcome_app c b outs1 outs2 : outcome c b (outs1 ++ outs2) = outcome c (outcome c b outs1) outs2.
Proof. apply foldl_app. Qed.
Lemma last_health_app c b rs1 rs2 : last_health c b (rs1 ++ rs2) = last_health c (last_health c b rs1) rs2.
Proof. apply foldl_app. Qed.

Lemma last_health_others c c' b rs :
  Forall (λ x : component * option error, x.1 = c') rs → c ≠ c' → last_health c b rs = b.
Proof.
  intros H Hne. revert b. induction H as [|[c0 e] rs Hc _ IH]; intros b; [done|]. cbn in *. subst c0.
  unfold last_health in *. cbn [foldl fst]. rewrite bool_decide_false by congruence. apply IH.
Qed.

Lemma result_err_ok (r : result ()) : bool_decide (result_err r = None) = ok r.
Proof. by destruct r. Qed.

(** The reports of a turn say its outcome. *)
Lemma turn_reports backend x tr wp wn new c b :
  turn backend x tr wp wn new → last_health c b (reports tr) = outcome c b new.
Proof.
  intros []; unfold outcome; cbn [foldl fst snd].
  - erewrite ports_attempt_reports by done. cbn. by rewrite result_err_ok.
  - edestruct repair_reports as (pre & -> & Hpre); [done|]. rewrite last_health_app.
    unfold last_health at 1. cbn [foldl fst snd]. rewrite result_err_ok.
    case_bool_decide as Hc; [done|]. eapply last_health_others; [exact Hpre|done].
  - erewrite nat_attempt_reports by done. cbn. by rewrite result_err_ok.
  - match goal with H : _ ∨ _ |- _ => destruct H as [->|H]; [done|] end.
    by erewrite silent_exec by first [apply native_check_silent|done].
  - erewrite repaired_reports by done. unfold last_health, lost. cbn [foldl fst snd].
    rewrite result_err_ok. by case_bool_decide.
Qed.

(** Every check of the live chain is one of the two kinds of turn. *)
Lemma check_is_turn backend (range : MapRange) x tr w r :
  execs (reconcileNativeState backend) (nat x) tr w r → ∃ new, turn backend x tr (ports x) w new.
Proof.
  intros H. destruct (check_cases _ _ _ _ _ H) as [(_ & Hc)|(tr1 & e & tr2 & fixed & -> & He & H3)].
  - exists []. eapply turn_check_right; [done|]. destruct Hc as [[_ ?]|?]; auto.
  - exists [(HostNAT, ok fixed)]. by eapply turn_check_repaired.
Qed.

Lemma carry_out_exec rs t tr t' v :
  execs (carry_out rs) t tr t' (Ok v) →
  path t' = path t ∧ nat_ok t' = last_health HostNAT (nat_ok t) rs ∧
  ports_ok t' = last_health World.HostPorts (ports_ok t) rs ∧
  (v = None → rs = [] ∧ tr = []) ∧
  (v = Some true → Forall (fresh_temp (path t)) tr → ∀ b, marker (path t) b tr = nat_ok t' && ports_ok t').
Proof.
  revert t tr v. induction rs as [|[c err] rs IH]; intros t tr v; cbn [carry_out].
  { intros (-> & -> & [= ->])%execs_ret. split_and!; done. }
  intros [(e & [=] & _)|(tr1 & tr2 & t1 & u & -> & H1 & H)]%execs_bind.
  apply execs_try in H1 as (r & H1 & [= ->]).
  apply execs_bind in H as [(e & [=] & _)|(tr3 & tr4 & t2 & later & -> & H2 & H)].
  apply execs_ret in H as (-> & -> & [= ->]). rewrite app_nil_r.
  pose proof (ReportHealth_exec _ _ _ _ _ _ H1) as [Ht1 _]. cbn [fst snd] in *.
  destruct (IH _ _ _ H2) as (Hp & Hn & Ho & Hnone & Hmark).
  assert (path t1 = path t) as Hp1 by (rewrite Ht1; apply path_set_health).
  split; [congruence|]. split; [rewrite Hn, Ht1; by destruct c|]. split; [rewrite Ho, Ht1; by destruct c|].
  split; [by destruct later|]. intros Hv [Hf1 Hf2]%Forall_app b. rewrite marker_app.
  destruct later as [u|].
  - rewrite Hp1 in Hmark. by apply Hmark.
  - destruct (Hnone eq_refl) as [-> ->]. cbn [marker foldl]. injection Hv as Hv. apply ok_unit in Hv. subst r.
    apply execs_ret in H2 as (_ & -> & _). by eapply ReportHealth_marker.
Qed.

(** C14: over any interleaving of the turns of both firewall watchers, the tracker
    knows of each component the outcome of its last turn that had one; and whenever
    the last update of the marker succeeded, whatever happened to the updates before,
    the marker file is present exactly when the last host-port turn and the last NAT
    turn, or the last repair of a lost NAT chain, ended without an error. *)
Theorem marker_means_reconciled backend x0 outs trm u x b :
  history backend x0 outs trm u x → Forall (fresh_temp (path (tracker x0))) trm →
  nat_ok (tracker x) = outcome HostNAT (nat_ok (tracker x0)) outs ∧
  ports_ok (tracker x) = outcome World.HostPorts (ports_ok (tracker x0)) outs ∧
  (u = true →
     marker (path (tracker x0)) b trm =
       outcome HostNAT (nat_ok (tracker x0)) outs && outcome World.HostPorts (ports_ok (tracker x0)) outs).
Proof.
  intros H Hf.
  assert (path (tracker x) = path (tracker x0) ∧ nat_ok (tracker x) = outcome HostNAT (nat_ok (tracker x0)) outs ∧
    ports_ok (tracker x) = outcome World.HostPorts (ports_ok (tracker x0)) outs ∧
    (u = true → marker (path (tracker x0)) b trm = nat_ok (tracker x) && ports_ok (tracker x)))
    as (_ & Hn & Hp & Hm); [|split; [done|]; split; [done|]; intros Hu; by rewrite <- Hn, <- Hp, Hm].
  induction H as [|outs trm u x tr wp wn new trm' t v H IH Ht Hc]; [by split_and!|].
  apply Forall_app in Hf as [Hf1 Hf2]. destruct (IH Hf1) as (Hpath & Hn & Hp & Hm). cbn [tracker].
  destruct (carry_out_exec _ _ _ _ _ Hc) as (Hpath' & Hn' & Hp' & Hnone & Hmark).
  rewrite (turn_reports _ _ _ _ _ _ _ _ Ht) in Hn'. rewrite (turn_reports _ _ _ _ _ _ _ _ Ht) in Hp'. rewrite Hn in Hn'. rewrite Hp in Hp'.
  rewrite !outcome_app. split; [congruence|]. split; [done|]. split; [done|]. intros Hu.
  rewrite marker_app. destruct v as [v|]; cbn [default] in Hu.
  - change (v = true) in Hu. subst v. rewrite <- Hpath in *. by apply Hmark.
  - destruct (Hnone eq_refl) as [Hr ->]. change (u = true) in Hu. cbn [marker foldl]. rewrite (Hm Hu).
    rewrite Hr in Hc. apply execs_ret in Hc as (_ & -> & _). done.
Qed.

(** *** A concrete host

    A host-port turn and a NAT turn succeed; then the metadata service is lost. *)
Definition port_turn := run publishing_host []
  (@HostPorts.attempt range_forward native_backend (HostPorts.initial ∅)).
Definition nat_turn := run publishing_host []
  (@HostNat.attempt range_forward native_backend HostNat.initial).
Definition lost_turn := run idle_host []
  (@HostNat.attempt range_forward native_backend (fst nat_turn.2)).

Definition carried (tr : list hevent) (x : program) :=
  run fresh_files [] (carry_out (reports tr) (tracker x)).
Definition after (wp : HostPorts.watcher) (wn : HostNat.watcher) (tr : list hevent) (x : program) : program :=
  {| ports := wp; nat := wn; tracker := fst (carried tr x).2 |}.

Definition started : program := {| ports := HostPorts.initial ∅; nat := HostNat.initial;
  tracker := {| path := "/tmp/ready"; nat_ok := false; ports_ok := false |} |}.
Definition published : program := after (fst port_turn.2) HostNat.initial port_turn.1 started.
Definition serving : program := after (fst port_turn.2) (fst nat_turn.2) nat_turn.1 published.
Definition stalled : program := after (fst port_turn.2) (fst lost_turn.2) lost_turn.1 serving.

Lemma run_execs {St A} (m : act host_sig St A) env s t r :
  t = run env [] (m s) → snd t.2 = r → execs m s t.1 (fst t.2) r.
Proof. intros -> <-. unfold execs. rewrite <-surjective_pairing. apply run_exec. Qed.

Lemma history_run backend x0 outs trm u x tr wp wn new :
  history backend x0 outs trm u x → turn backend x tr wp wn new →
  snd (carried tr x).2 = Ok (Some true) →
  history backend x0 (outs ++ new) (trm ++ (carried tr x).1) true (after wp wn tr x).
Proof. intros H Ht Hr. exact (history_turn _ _ _ _ _ _ _ _ _ _ _ _ _ H Ht (run_execs _ _ _ _ _ eq_refl Hr)). Qed.

Lemma port_turn_ok :
  execs (@HostPorts.attempt range_forward native_backend) (HostPorts.initial ∅) port_turn.1 (fst port_turn.2) (Ok ()).
Proof. eapply run_execs; [reflexivity|vm_compute; reflexivity]. Qed.

Lemma nat_turn_ok :
  execs (@HostNat.attempt range_forward native_backend) HostNat.initial nat_turn.1 (fst nat_turn.2) (Ok ()).
Proof. eapply run_execs; [reflexivity|vm_compute; reflexivity]. Qed.

Lemma lost_turn_failed : ∃ e,
  execs (@HostNat.attempt range_forward native_backend) (fst nat_turn.2) lost_turn.1 (fst lost_turn.2) (Err e).
Proof.
  destruct (snd lost_turn.2) as [x|e] eqn:Hr; [vm_compute in Hr; discriminate Hr|].
  exists e. eapply run_execs; [reflexivity|exact Hr].
Qed.

Definition calls1 : list hevent := (carried port_turn.1 started).1.
Definition calls2 : list hevent := calls1 ++ (carried nat_turn.1 published).1.
Definition calls3 : list hevent := calls2 ++ (carried lost_turn.1 serving).1.

Lemma published_history : history native_backend started [(World.HostPorts, true)] calls1 true published.
Proof.
  refine (history_run _ _ [] [] false started port_turn.1 _ _ [(World.HostPorts, true)] (history_start _ _) _ _).
  - exact (turn_ports native_backend started range_forward _ _ (Ok ()) port_turn_ok).
  - vm_compute. reflexivity.
Qed.

Lemma serving_history :
  history native_backend started [(World.HostPorts, true); (HostNAT, true)] calls2 true serving.
Proof.
  refine (history_run _ _ _ _ _ published nat_turn.1 _ _ [(HostNAT, true)] published_history _ _).
  - exact (turn_nat native_backend published range_forward _ _ (Ok ()) nat_turn_ok).
  - vm_compute. reflexivity.
Qed.

Lemma stalled_history :
  history native_backend started [(World.HostPorts, true); (HostNAT, true); (HostNAT, false)] calls3 true stalled.
Proof.
  destruct lost_turn_failed as [e He].
  refine (history_run _ _ _ _ _ serving lost_turn.1 _ _ [(HostNAT, false)] serving_history _ _).
  - exact (turn_nat native_backend serving range_forward _ _ (Err e) He).
  - vm_compute. reflexivity.
Qed.

Lemma marker_means_reconciled_witness :
  marker "/tmp/ready" false calls2 = true ∧
  marker "/tmp/ready" false calls3 = false.
Proof.
  split.
  - refine (proj2 (proj2 (marker_means_reconciled _ _ _ _ _ _ false serving_history _)) eq_refl).
    vm_compute. repeat constructor; discriminate.
  - refine (proj2 (proj2 (marker_means_reconciled _ _ _ _ _ _ false stalled_history _)) eq_refl).
    vm_compute. repeat constructor; discriminate.
Defined.
